(* ===== verification/_CoqProject ===== *)
-Q . S2P
Prelude.v
CoroDefs.v
ConnContext.v
Totem.v
Admission.v
EventChannel.v
OutQueue.v
FlowControl.v
Dispatch.v
Sync.v
ConnName.v
Server.v
CfgIpc.v
Pload.v
TotemStats.v
LockFile.v
Startup.v
ServiceReady.v
LoopGlue.v
