(* ===== verification/Prelude.v ===== *)
(** * A verification development of corosync's IPC layer, its membership
      glue and its pload client library

    This development models, in Rocq, the following parts of the corosync
    cluster daemon and its libraries.

    - [src/exec/ipc_glue.c]: the libqb IPC glue.  It accepts client
      connections ([cs_ipcs_connection_accept]), builds and removes their
      contexts and statistics objects ([cs_ipcs_connection_created],
      [pid_to_name], [cs_ipcs_connection_closed],
      [cs_ipcs_connection_destroyed]), admits or rejects each request
      ([cs_ipcs_msg_process]), queues events a client cannot take yet
      ([msg_send_or_queue], [outq_flush]), throttles request acceptance
      from cluster health ([cs_ipcs_check_for_flow_control]), and copies
      counters into the statistics objects ([cs_ipcs_stats_update]).
    - [src/exec/main.c]: the admission decision ([corosync_sending_allowed]
      and its release), the delivery of totem messages to services
      ([deliver_fn], [main_mcast]), the recheck of the totem queue level,
      the membership callback [confchg_fn] with its member objects, sync
      completion ([corosync_sync_completed]) and the two sync callback
      lookups; the totem statistics objects ([corosync_totem_stats_init]
      and the timer callback [corosync_totem_stats_updater]); the pid lock
      file ([corosync_flock]) and [main] itself, from option parsing
      through detaching to the shutdown path; the callback
      [main_service_ready] that starts the services once totem runs, the
      [runtime.blackbox] controls ([corosync_fplay_control_init],
      [fplay_key_change_notify_fn]), [corosync_state_dump], the signal
      handlers and the message-source helpers.
    - [src/lib/pload.c]: the pload client library: its four calls over
      the handle database.
    - [src/include/corosync/ipc_cfg.h]: the CFG service's message numbering
      and message layouts.

    How the parts interact.  A client request arrives through libqb at
    [cs_ipcs_msg_process].  That function asks [corosync_sending_allowed]
    for an admission verdict.  The verdict reserves room in the totem
    transport, reads the quorum and sync state, and reads the service's
    per-request flow-control flag.  The request handler of the service is
    then called, and the reservation is released.  Handlers push events
    back to the client through [cs_ipcs_dispatch_send].  An event that
    would block puts the connection into queuing mode and schedules an
    [outq_flush] job on the main loop.  Quorum, totem queue-level and sync
    notifications feed [cs_ipcs_check_for_flow_control], which sets a
    libqb rate limit on every service's IPC server and arms a recheck
    timer.  Membership changes reach [confchg_fn], which raises the sync
    flag of main.c and notifies flow control; sync completion clears both.
    Every 1500 ms [corosync_totem_stats_updater] copies totem's counters
    into the objects [corosync_totem_stats_init] created and then runs
    [cs_ipcs_stats_update] for the connection objects.
    On the client side, [pload_initialize] opens an IPC connection kept in
    a handle, [pload_start] sends a request laid out like the CFG
    messages, and [pload_finalize] closes it.
    Before any of this runs, [main] parses its options, reads the
    configuration modules, detaches from the terminal with
    [corosync_tty_detach] and takes the lock on [/var/run/corosync.pid]
    with [corosync_flock]; a second instance stops there.  A shutdown
    signal unlinks the services, stops the loop, and [main] then finalizes
    totem and removes the pid file.  Once totem is up it calls
    [main_service_ready], which starts [cs_ipcs_init], the totem
    statistics objects and the blackbox control object, all three reading
    the same ["runtime"] object, and the sync engines that
    [minimum_sync_mode] names.

    Files (in dependency order, as listed in _CoqProject):
    - [Prelude]: this header; C integer helpers (wrap-around at 32 and 64
      bits, [to_int32], C truth values); bounds-checked array reads that
      expose out-of-bounds reads ([c_read]); the decoding of C enums
      ([enum_of] and its inverse lemma); the closure [star] with its
      invariance lemma; the tactic [zcase]; the hint databases [cs] and
      [cs_wrap].
    - [CoroDefs]: the constants of the C headers (errno values,
      [cs_error_t], service ids, [totem_q_level], libqb rate limits, sync
      modes); the service-engine descriptor; the request and response
      headers; [cs_ipcs_serv_short_name].
    - [ConnContext]: [struct cs_ipcs_conn_context] and [struct outq_item];
      the context part of [cs_ipcs_connection_created];
      [cs_ipcs_connection_destroyed]; the context invariant [ctx_wf].
    - [Totem]: the transport reservation interface, as the typeclass
      [TotemReserve] with its laws [TotemReserveLaws]; a slot counter
      (outside src/, modelled from the spec) discharges them.
    - [Admission]: [corosync_sending_allowed],
      [corosync_sending_allowed_release] and [cs_ipcs_msg_process], proved
      against the [TotemReserve] interface.
    - [EventChannel]: the libqb event channel interface
      ([qb_ipcs_event_sendv]) as the typeclass [EventChannel]; a bounded
      client ring discharges it (modelled from the spec).
    - [OutQueue]: [msg_send_or_queue], [outq_flush], the dispatch entry
      points and the connection lifecycle over an explicit main-loop state
      (a map of connections and the FIFO of flush jobs), with the step
      relation [loop_step].
    - [FlowControl]: [cs_ipcs_check_for_flow_control], the three change
      handlers and [corosync_recheck_the_q_level], with their effects on
      server rates and timers.
    - [Dispatch]: [swab32], the service/function split of a message id,
      [deliver_fn] and [main_mcast].
    - [Sync]: the statics of main.c, [member_object_joined] and
      [member_object_left], [confchg_fn], [corosync_sync_completed], the two
      callback lookups, and runs of membership events ([memb_run])
      composed with the flow-control handlers.
    - [ConnName]: [pid_to_name] over C string functions, the [%d] and
      [%p] conversions and the connection name.
    - [Server]: the server hooks and the connection statistics
      ([cs_ipcs_connection_accept] to [cs_ipcs_init]) with the part of the
      object database they write, and the connection step relation
      [conn_step].
    - [CfgIpc]: the enums of ipc_cfg.h with their values, every message
      struct as a member list, and a model of GCC's LP64 layout rules
      ([struct_layout], [offset_of]).
    - [Pload]: the handle database ([hdb.h] over libqb's [qb_hdb],
      modelled from its code) and the four pload calls with every [goto]
      path, over a world of handles, open connections and sent requests;
      the step relation [pload_step].
    - [TotemStats]: [corosync_totem_stats_init] and
      [corosync_totem_stats_updater] over totem's statistics structures
      (outside src/, modelled from their declarations) and the objects
      under [runtime.totem], with the token loop [token_loop].
    - [LockFile]: [corosync_flock] over a state monad [sys] on a model of
      the kernel (files, descriptors with offset, lock and close-on-exec
      flag, [errno]) whose system-call answers come from an oracle
      [kernel]; the [EINTR] retry loops as [retry_eintr]; the pid line.
    - [Startup]: [main] as [corosync_main] in a monad [mainM] over the
      statics of main.c and the kernel state, with its helpers
      ([corosync_setscheduler], [corosync_mlockall],
      [corosync_tty_detach], the [getopt] and [strtok_r] loops,
      [sig_exit_handler]); library calls that only register or log are
      recorded in a trace, their results come from a [main_env] record,
      which also says which of the two processes [fork] returns in a run
      follows.
    - [ServiceReady]: [main_service_ready] in Startup's monad, composed
      with Server's [cs_ipcs_init] and TotemStats'
      [corosync_totem_stats_init]; the blackbox objects with the object
      database's key replacement and tracking (modelled from its
      interface); [fplay_key_change_notify_fn], [corosync_state_dump],
      [sig_diag_handler], the fatal-signal handlers,
      [message_source_is_local] and [message_source_set].
    - [LoopGlue]: the poll-handler table [corosync_poll_funcs] libqb runs
      the IPC servers through, main.c's [cs_poll_handle_get] and
      [cs_poll_dispatch_add/delete], and the connection reference-count
      wrappers, over a model of libqb's loops (modelled from its
      interface).

    What the theorems show (the groups, in order of importance).
    - Admission: the verdict of [corosync_sending_allowed] on every branch
      refines the spec's decision, and a failed reservation wins over
      quorum for every request id.  A reservation is released exactly once
      per request.  [cs_ipcs_msg_process] sends the reply and bumps the
      counter of the decision, then calls the handler whatever the
      decision, so a rejected request is still handed to the service; the
      request id is never checked against the handler table (findings).
    - Outbound queue: the context invariant and at most one flush job per
      live connection in every reachable state; events reach the client in
      submission order (rule induction on [loop_step]); the [assert] of
      [msg_send_or_queue] never fires; a flush with room empties the
      queue.  Destroying a queuing connection leaves its flush job pending
      in every later state, and running it touches the freed connection
      (a finding).
    - Flow control: the rate chosen for each service on each input; the
      code turns request reception OFF exactly when the cluster is
      unhealthy, and recheck timers pile up at critical level (findings).
    - Dispatch: byte-order conversion round-trips; [deliver_fn] is
      independent of the sender's byte order and runs the handler its id
      names exactly when that handler exists; its service index is not
      bounded (a finding).
    - Sync: the two sync flags agree after the first membership change;
      before it, for every sync mode and service, flow control runs a
      quorate service at full rate while admission refuses its
      flow-controlled requests (a finding); aborts are counted; the lookup loop of
      [corosync_sync_callbacks_retrieve] is a direct lookup; each service
      is synchronized by one engine.  [member_object_left] misses nodes of
      id 2^31 or more (a finding).
    - Connection names: [pid_to_name] on stat lines, including the
      [strrchr] finding; the [%p] loop terminates within 16 iterations.
    - Server: the accept decision; the ["active"] counter and the
      statistics objects stay consistent with the live connections; a
      statistics update copies the counters.
    - CFG layouts: the layout algorithm is sound for every struct; every
      request starts with the header libqb reads, three of them declared
      with the response header (a finding); the size ipc_glue.c's error
      replies carry is the layout's size of the response header.
    - pload: the handle invariant (no leaked connection, entry or
      reference; no [NULL] dereference) in every reachable state; a handle
      is finalized once and refused afterwards.
    - Totem statistics: the updater's token loop stops after
      [(latest - earliest - 1) mod 100] tokens whenever [earliest_token]
      lies in the ring, and the updater then writes exactly the counters
      and the averages of those tokens; it never stops otherwise; every
      key the updater writes was created by the initialisation.
    - Pid lock file: the error paths of [corosync_flock] close what they
      opened and leave a running instance's pid file alone; a successful
      run holds the lock with [FD_CLOEXEC] and a file holding exactly the
      pid line; the [EINTR] loop stops after the interruptions end and
      never otherwise; the pid line round-trips through its digits; a
      short write with a stale [EINTR] writes the line twice (a finding).
    - Start-up: when no write is short, a daemon that reaches the main
      loop holds the lock and its pid file names the forked child; a
      second instance exits with [AIS_DONE_ALREADY_RUNNING] leaving the
      first one's file; [main] exits with [0] only for [-v], in the
      parent of the fork (before the lock is taken, so a failing daemon's
      caller still sees success), or after the whole shutdown sequence;
      the configuration modules handed to the services are the pieces of
      [COROSYNC_DEFAULT_CONFIG_IFACE], and more than
      [MAX_DYNAMIC_SERVICES] of them overflow [config_modules] (a
      finding).
    - Services coming up: [main_service_ready] exits on a link failure,
      else starts the engines of [minimum_sync_mode] (none for
      [CS_SYNC_V1_APIV2], a finding) and leaves working controls; the
      blackbox notification acts on the key name alone, whatever the
      change or value (a finding); the dump loop is a filter of the
      service table and reads past a short one.  Composed with start-up,
      the engines started are those of the configured compatibility mode.
    - Main-loop glue: every entry of [corosync_poll_funcs] acts on the
      daemon's one loop, so no call libqb makes changes another loop; a
      descriptor added and deleted round-trips, a second add or an unknown
      delete fails and changes nothing; reference counts round-trip.

    Integers.  C integers are [Z].  A counter is wrapped explicitly where
    the code increments or decrements an unsigned field ([queued], [sent]
    are [uint32_t]; [invalid_request], [overload] and the objdb counters
    are [uint64_t]).  Message sizes are not wrapped: [bytes_msg] is an
    [int32_t] sum of lengths, and events over 2 GiB are outside the model.
    Node ids are converted with [to_int32] where the code prints them
    with [%d].  Handles are 64-bit: a 32-bit check value over a 32-bit
    index.

    Fuel.  Three loops take fuel.  [hex_go] (the [%p] digit loop) has 64;
    the theorem [sprintf_p_digits] shows that 16 iterations end it for
    every 64-bit pointer, so the fuel never cuts the output.  [token_loop]
    (the [while (1)] of [corosync_totem_stats_updater]) has the ring size,
    100; [stats_updater_terminates] shows that at most 99 iterations end
    it when [earliest_token] indexes the ring, and that no fuel ends it
    otherwise, so running out of fuel is exactly the loop not returning.
    [retry_eintr] (the [goto retry_fcntl] and [goto retry_write] loops of
    [corosync_flock]) takes the fuel given to [corosync_flock]:
    [flock_lock_retry] shows that [k] interruptions need [k + 1] of it and
    that no fuel ends a run of interruptions that never stops; the
    start-up theorems hold for every fuel.
    The other loops are
    structural recursion on a list or on the service table, and the main
    loops are step relations.

    Not modelled: logging ([logsys] set-up, [_logsys_log_printf], every
    [log_printf]); [priv_drop] and [serialize_lock]/[serialize_unlock],
    whose bodies are empty; what [exec_dump_fn],
    [qb_log_blackbox_write_to_file] and the sync engines do (they are
    recorded calls); the contents of the configuration
    ([corosync_main_config_read], [totem_config_read] are answers of the
    environment); the sync engine, totem and the object database beyond
    the keys the code writes; the bounds of [service_stats_handle], whose
    declaration is outside src/; the reuse of a freed connection's
    address as the handle of a new one (OutQueue.v); [qb_hdb]'s locking, so the concurrent path
    of [pload_finalize] that finds the [finalize] flag set is out of
    reach.  The lines of the four files no definition maps are licence
    headers, includes, forward declarations and the logging calls above.
    The environment is an input: the transport, libqb's answers,
    [random ()] and [qb_ipcc_connect] are parameters of the steps. *)

From stdpp Require Import base list numbers.
From Stdlib Require Import ZArith Lia Strings.Byte.

Declare Scope cs_scope.
Delimit Scope cs_scope with cs.
Open Scope Z_scope.

(** Bytes, as the C [char] buffers hold them, with decidable equality. *)
#[export] Instance byte_eq_decision : EqDecision Byte.byte := Byte.byte_eq_dec.

(** ** Machine integers *)

(** The value of an unsigned [w]-bit C variable after the assignment of [x]. *)
Definition wrap (w x : Z) : Z := x mod 2 ^ w.

Abbreviation u32 := (wrap 32).
Abbreviation u64 := (wrap 64).

(** [x++] and [x--] on an unsigned field of width [w]. *)
Definition incr (w x : Z) : Z := wrap w (x + 1).
Definition decr (w x : Z) : Z := wrap w (x - 1).

Notation "x '+1u32'" := (incr 32 x) (at level 1) : cs_scope.
Notation "x '-1u32'" := (decr 32 x) (at level 1) : cs_scope.
Notation "x '+1u64'" := (incr 64 x) (at level 1) : cs_scope.

(** C truth of an [int]: every non-zero value, negative ones included,
    is true. *)
Definition c_true (z : Z) : bool := negb (z =? 0).

Notation "z '?c'" := (c_true z) (at level 1) : cs_scope.

(** The [int32_t] a 32-bit pattern reads as (two's complement). *)
Definition to_int32 (x : Z) : Z := if x <? 2 ^ 31 then x else x - 2 ^ 32.

(** [QB_TRUE] / [QB_FALSE] as the [int32_t] the code stores. *)
Definition of_bool (b : bool) : Z := if b then 1 else 0.

(** ** Arrays *)

(** A read [a[i]] of a C array: within bounds it yields the element,
    otherwise the behaviour is undefined, which the model keeps visible. *)
Inductive c_read (A : Type) : Type :=
| Loaded (a : A)
| OutOfBounds.
Arguments Loaded {A} a.
Arguments OutOfBounds {A}.

Definition array_get {A : Type} (l : list A) (i : Z) : c_read A :=
  if 0 <=? i then
    match l !! Z.to_nat i with
    | Some a => Loaded a
    | None => OutOfBounds
    end
  else OutOfBounds.

(** ** Invariants, observations and concrete inputs *)

(** The enumerator of [all] whose value is [z]: what a [switch] over the
    enumerators of a C enum selects, [None] for a value it has no case for. *)
Definition enum_of {A : Type} (all : list A) (val : A -> Z) (z : Z) : option A :=
  find (fun a => val a =? z) all.

(** ** Transition systems *)

Section Star.
Context {S : Type} (R : S -> S -> Prop).

Inductive star : S -> S -> Prop :=
| star_refl s : star s s
| star_step s1 s2 s3 : R s1 s2 -> star s2 s3 -> star s1 s3.

Lemma star_one s1 s2 : R s1 s2 -> star s1 s2.
Proof. eauto using star. Qed.

Lemma star_trans s1 s2 s3 : star s1 s2 -> star s2 s3 -> star s1 s3.
Proof. induction 1; eauto using star. Qed.

(** An invariant of single steps holds along every run. *)
Lemma star_invariant (P : S -> Prop) :
  (forall s s', P s -> R s s' -> P s') ->
  forall s s', star s s' -> P s -> P s'.
Proof. intros Hstep s s' Hrun. induction Hrun; eauto. Qed.
End Star.

(** ** Tactics *)

(** Case analysis on every integer comparison of the goal. *)
Ltac zcase :=
  repeat match goal with
  | |- context [Z.eqb ?a ?b] => destruct (Z.eqb_spec a b)
  | |- context [Z.ltb ?a ?b] => destruct (Z.ltb_spec a b)
  | |- context [Z.leb ?a ?b] => destruct (Z.leb_spec a b)
  end.

(** ** Lemmas on machine integers *)

Lemma wrap_range w x : 0 <= w -> 0 <= wrap w x < 2 ^ w.
Proof. intros Hw. unfold wrap. apply Z.mod_pos_bound. lia. Qed.

Lemma wrap_small w x : 0 <= x < 2 ^ w -> wrap w x = x.
Proof. intros Hx. unfold wrap. apply Z.mod_small. lia. Qed.

Lemma wrap_add_idemp w x y : 0 <= w -> wrap w (wrap w x + y) = wrap w (x + y).
Proof. intros Hw. unfold wrap. apply Z.add_mod_idemp_l. lia. Qed.

Lemma wrap_sub_idemp w x y : 0 <= w -> wrap w (wrap w x - y) = wrap w (x - y).
Proof. intros Hw. unfold wrap. apply Zminus_mod_idemp_l. Qed.

Lemma wrap_idemp w x : 0 <= w -> wrap w (wrap w x) = wrap w x.
Proof. intros Hw. unfold wrap. apply Z.mod_mod. lia. Qed.

(** Incrementing the wrapped length of a list gives the wrapped length of
    a list one longer; decrementing it, one shorter. *)
Lemma incr_wrap w x : 0 <= w -> incr w (wrap w x) = wrap w (x + 1).
Proof. intros Hw. unfold incr. by apply wrap_add_idemp. Qed.

Lemma decr_wrap w x : 0 <= w -> decr w (wrap w x) = wrap w (x - 1).
Proof. intros Hw. unfold decr. by apply wrap_sub_idemp. Qed.

Lemma incr_wrap_length {A} w (l : list A) (x : A) :
  0 <= w -> incr w (wrap w (Z.of_nat (length l))) = wrap w (Z.of_nat (length (l ++ [x]))).
Proof.
  intros Hw. unfold incr. rewrite wrap_add_idemp by done.
  rewrite length_app. simpl. f_equal. lia.
Qed.

Lemma decr_wrap_length {A} w (x : A) (l : list A) :
  0 <= w -> decr w (wrap w (Z.of_nat (length (x :: l)))) = wrap w (Z.of_nat (length l)).
Proof.
  intros Hw. unfold decr. rewrite wrap_sub_idemp by done.
  simpl. f_equal. lia.
Qed.

Lemma c_true_iff z : c_true z = true <-> z <> 0.
Proof. unfold c_true. destruct (Z.eqb_spec z 0); simpl; split; congruence. Qed.

Lemma c_true_neg z : z < 0 -> c_true z = true.
Proof. intros H. apply c_true_iff. lia. Qed.

Lemma array_get_lookup {A} (l : list A) (i : nat) :
  array_get l (Z.of_nat i) = match l !! i with Some a => Loaded a | None => OutOfBounds end.
Proof.
  unfold array_get. destruct (Z.leb_spec 0 (Z.of_nat i)); [| lia].
  by rewrite Nat2Z.id.
Qed.

Lemma array_get_oob {A} (l : list A) (i : Z) :
  Z.of_nat (length l) <= i -> array_get l i = OutOfBounds.
Proof.
  intros Hi. unfold array_get. destruct (Z.leb_spec 0 i); [| done].
  rewrite lookup_ge_None_2; [done | lia].
Qed.

Lemma array_get_Loaded {A} (l : list A) (i : Z) (a : A) :
  array_get l i = Loaded a <-> 0 <= i /\ l !! Z.to_nat i = Some a.
Proof.
  unfold array_get. destruct (Z.leb_spec 0 i); [| split; [done | lia]].
  destruct (l !! Z.to_nat i); split; intros Hr.
  - injection Hr as ->. done.
  - destruct Hr as [_ Hr]. congruence.
  - discriminate.
  - destruct Hr as [_ Hr]. discriminate.
Qed.

Lemma u32_to_int32 x : 0 <= x < 2 ^ 32 -> u32 (to_int32 x) = x.
Proof.
  intros Hx. unfold to_int32, wrap. destruct (Z.ltb_spec x (2 ^ 31)).
  - apply Z.mod_small; lia.
  - rewrite <- (Z.mod_add _ 1) by lia. rewrite Z.mod_small; lia.
Qed.

Lemma to_int32_small x : x < 2 ^ 31 -> to_int32 x = x.
Proof. intros Hx. unfold to_int32. destruct (Z.ltb_spec x (2 ^ 31)); lia. Qed.

(** ** C enumerations *)

(** Decoding is the inverse of the numbering when the enumerators have
    distinct values and [all] lists every one of them. *)
Lemma enum_of_spec {A : Type} (all : list A) (val : A -> Z) z a :
  NoDup (map val all) -> In a all -> enum_of all val z = Some a <-> val a = z.
Proof.
  unfold enum_of. induction all as [| h t IH]; simpl; [done |].
  intros Hnd Hin. inversion Hnd as [| ? ? Hh Hnd1]; subst.
  destruct (Z.eqb_spec (val h) z) as [Ehz | Ehz].
  - split; [by intros [= ->] |]. intros Ea. destruct Hin as [-> | Hin]; [done |].
    exfalso. apply Hh, list_elem_of_In, in_map_iff. exists a. split; [congruence | done].
  - destruct Hin as [-> | Hin]; [split; [| intros; congruence] |].
    + intros Hf. apply find_some in Hf as [_ Hf]. by apply Z.eqb_eq in Hf.
    + by apply IH.
Qed.

Create HintDb cs discriminated.
#[export] Hint Resolve wrap_range c_true_neg : cs.
#[export] Hint Resolve star_refl star_one : cs.

Create Rewrite HintDb cs_wrap.
#[export] Hint Rewrite wrap_add_idemp wrap_sub_idemp wrap_idemp using lia : cs_wrap.
