(* ===== verification/CoroDefs.v ===== *)
(** * Constants and shared data of the corosync headers

    The constants ipc_glue.c and main.c compare against come from headers
    outside src/: errno values, [cs_error_t], the service ids of corodefs.h,
    [enum totem_q_level] and libqb's [enum qb_ipcs_rate_limit].  This file
    also holds the read-only service-engine descriptor
    ([struct corosync_service_engine], reduced to the fields the IPC layer
    reads), the libqb request and response headers, and
    [cs_ipcs_serv_short_name]. *)

From stdpp Require Import base list numbers.
From Stdlib Require Import ZArith Lia String.
From S2P Require Import Prelude.

Open Scope Z_scope.

(** ** errno values (Linux) *)
Definition EBADF : Z := 9.
Definition EAGAIN : Z := 11.
Definition ENOMEM : Z := 12.
Definition EACCES : Z := 13.
Definition EINVAL : Z := 22.
Definition EMFILE : Z := 24.
Definition ENOSYS : Z := 38.
Definition ENOBUFS : Z := 105.
Definition ETIMEDOUT : Z := 110.
Definition EHOSTUNREACH : Z := 113.
Definition EINPROGRESS : Z := 115.

(** ** [cs_error_t] codes the IPC layer returns to clients *)
Definition CS_OK : Z := 1.
Definition CS_ERR_LIBRARY : Z := 2.
Definition CS_ERR_TIMEOUT : Z := 5.
Definition CS_ERR_TRY_AGAIN : Z := 6.
Definition CS_ERR_INVALID_PARAM : Z := 7.
Definition CS_ERR_NO_MEMORY : Z := 8.
Definition CS_ERR_BAD_HANDLE : Z := 9.
Definition CS_ERR_ACCESS : Z := 11.
Definition CS_ERR_NO_RESOURCES : Z := 18.

(** ** Booleans of the service tables *)
Definition QB_FALSE : Z := 0.
Definition QB_TRUE : Z := 1.
Definition CS_LIB_FLOW_CONTROL_NOT_REQUIRED : Z := 0.
Definition CS_LIB_FLOW_CONTROL_REQUIRED : Z := 1.
Definition CS_LIB_DISALLOW_INQUORATE : Z := 0.
Definition CS_LIB_ALLOW_INQUORATE : Z := 1.

(** ** Service ids ([enum corosync_service_types], corodefs.h) *)
Inductive corosync_service_types :=
| EVS_SERVICE | CLM_SERVICE | AMF_SERVICE | CKPT_SERVICE | EVT_SERVICE
| LCK_SERVICE | MSG_SERVICE | CFG_SERVICE | CPG_SERVICE | CMAN_SERVICE
| PCMK_SERVICE | CONFDB_SERVICE | QUORUM_SERVICE | PLOAD_SERVICE | TMR_SERVICE
| VOTEQUORUM_SERVICE | NTF_SERVICE | AMF_V2_SERVICE | TST_SV1_SERVICE
| TST_SV2_SERVICE | MON_SERVICE | WD_SERVICE.

#[export] Instance corosync_service_types_eq_dec : EqDecision corosync_service_types.
Proof. solve_decision. Defined.

(** The enumeration's values, in declaration order from 0. *)
Definition service_types_all : list corosync_service_types :=
  [EVS_SERVICE; CLM_SERVICE; AMF_SERVICE; CKPT_SERVICE; EVT_SERVICE;
   LCK_SERVICE; MSG_SERVICE; CFG_SERVICE; CPG_SERVICE; CMAN_SERVICE;
   PCMK_SERVICE; CONFDB_SERVICE; QUORUM_SERVICE; PLOAD_SERVICE; TMR_SERVICE;
   VOTEQUORUM_SERVICE; NTF_SERVICE; AMF_V2_SERVICE; TST_SV1_SERVICE;
   TST_SV2_SERVICE; MON_SERVICE; WD_SERVICE].

(** The [int] value of an enumerator, and the enumerator of an [int]. *)
Definition service_id_val (st : corosync_service_types) : Z :=
  match st with
  | EVS_SERVICE => 0 | CLM_SERVICE => 1 | AMF_SERVICE => 2 | CKPT_SERVICE => 3
  | EVT_SERVICE => 4 | LCK_SERVICE => 5 | MSG_SERVICE => 6 | CFG_SERVICE => 7
  | CPG_SERVICE => 8 | CMAN_SERVICE => 9 | PCMK_SERVICE => 10 | CONFDB_SERVICE => 11
  | QUORUM_SERVICE => 12 | PLOAD_SERVICE => 13 | TMR_SERVICE => 14
  | VOTEQUORUM_SERVICE => 15 | NTF_SERVICE => 16 | AMF_V2_SERVICE => 17
  | TST_SV1_SERVICE => 18 | TST_SV2_SERVICE => 19 | MON_SERVICE => 20 | WD_SERVICE => 21
  end.

Definition service_of_id (id : Z) : option corosync_service_types :=
  if 0 <=? id then service_types_all !! Z.to_nat id else None.

(** Size of the [ais_service] and [ipcs_mapper] arrays. *)
Definition SERVICE_HANDLER_MAXIMUM_COUNT : Z := 64.

(** ** Totem queue level and libqb rate limits *)
Inductive totem_q_level :=
| TOTEM_Q_LEVEL_LOW
| TOTEM_Q_LEVEL_GOOD
| TOTEM_Q_LEVEL_HIGH
| TOTEM_Q_LEVEL_CRITICAL.

Inductive qb_ipcs_rate_limit :=
| QB_IPCS_RATE_FAST
| QB_IPCS_RATE_NORMAL
| QB_IPCS_RATE_SLOW
| QB_IPCS_RATE_OFF
| QB_IPCS_RATE_OFF_2.

#[export] Instance totem_q_level_eq_dec : EqDecision totem_q_level.
Proof. solve_decision. Defined.
#[export] Instance qb_ipcs_rate_limit_eq_dec : EqDecision qb_ipcs_rate_limit.
Proof. solve_decision. Defined.

(** ** Service engines, as the IPC layer reads them *)

(** One entry of a service's [lib_engine] table: the request handler
    (external, identified by its index) and its flow-control flag. *)
Record corosync_lib_handler := {
  flow_control : Z
}.

(** One entry of a service's [exec_engine] table: whether an
    endian-conversion function is present. *)
Record corosync_exec_handler := {
  exec_endian_convert_present : bool
}.

(** [enum cs_sync_mode] (coroapi.h): how a service takes part in
    resynchronization. *)
Inductive cs_sync_mode := CS_SYNC_V1 | CS_SYNC_V2 | CS_SYNC_V1_APIV2.

#[export] Instance cs_sync_mode_eq_dec : EqDecision cs_sync_mode.
Proof. solve_decision. Defined.

(** The fields of [struct corosync_service_engine] that main.c and
    ipc_glue.c read; the function pointers the code tests for NULL
    ([confchg_fn], [exec_dump_fn]) become flags, the others are external
    handlers. *)
Record corosync_service_engine := {
  se_id : Z;
  allow_inquorate : Z;
  private_data_size : Z;
  lib_engine : list corosync_lib_handler;
  lib_engine_count : Z;
  exec_engine : list corosync_exec_handler;
  exec_engine_count : Z;
  sync_mode : cs_sync_mode;
  confchg_fn_present : bool;
  exec_dump_fn_present : bool
}.

(** ** libqb message headers *)

(** [struct qb_ipc_request_header]: [size] and [id] (service in the high
    16 bits, function in the low 16 bits for totem messages; the function
    id alone for IPC requests). *)
Record qb_ipc_request_header := {
  header_size : Z;
  header_id : Z
}.

(** [struct qb_ipc_response_header]: [size], [id], [error]. *)
Record qb_ipc_response_header := {
  res_size : Z;
  res_id : Z;
  res_error : Z
}.

#[export] Instance response_header_eq_dec : EqDecision qb_ipc_response_header.
Proof. solve_decision. Defined.

(** [sizeof (struct qb_ipc_response_header)]: three [int32_t] fields,
    each declared [QB_ALIGNED(8)], so each takes 8 bytes (the layout
    CfgIpc.v computes for it). *)
Definition sizeof_response_header : Z := 24.

(** ** [cs_ipcs_serv_short_name] (ipc_glue.c) *)

(** The [switch] on the service id; the [default] case is [None]
    ([NULL]). *)
Definition cs_ipcs_serv_short_name (service_id : Z) : option string :=
  match service_of_id service_id with
  | Some EVS_SERVICE => Some "evs"%string
  | Some CLM_SERVICE => Some "saClm"%string
  | Some AMF_SERVICE => Some "saAmf"%string
  | Some CKPT_SERVICE => Some "saCkpt"%string
  | Some EVT_SERVICE => Some "saEvt"%string
  | Some LCK_SERVICE => Some "saLck"%string
  | Some MSG_SERVICE => Some "saMsg"%string
  | Some CFG_SERVICE => Some "cfg"%string
  | Some CPG_SERVICE => Some "cpg"%string
  | Some CMAN_SERVICE => Some "cman"%string
  | Some PCMK_SERVICE => Some "pacemaker.engine"%string
  | Some CONFDB_SERVICE => Some "confdb"%string
  | Some QUORUM_SERVICE => Some "quorum"%string
  | Some PLOAD_SERVICE => Some "pload"%string
  | Some TMR_SERVICE => Some "saTmr"%string
  | Some VOTEQUORUM_SERVICE => Some "votequorum"%string
  | Some NTF_SERVICE => Some "saNtf"%string
  | Some AMF_V2_SERVICE => Some "saAmfV2"%string
  | Some TST_SV1_SERVICE => Some "tst"%string
  | Some TST_SV2_SERVICE => Some "tst2"%string
  | Some MON_SERVICE => Some "mon"%string
  | Some WD_SERVICE => Some "wd"%string
  | None => None
  end.

(** ** Invariants, observations and concrete inputs *)

(** A CPG-like service: not quorum tolerant, three request types, the
    second of them not flow controlled. *)
Definition cpg_engine : corosync_service_engine :=
  {| se_id := service_id_val CPG_SERVICE;
     allow_inquorate := CS_LIB_DISALLOW_INQUORATE;
     private_data_size := 16;
     lib_engine := [ {| flow_control := CS_LIB_FLOW_CONTROL_REQUIRED |};
                     {| flow_control := CS_LIB_FLOW_CONTROL_NOT_REQUIRED |};
                     {| flow_control := CS_LIB_FLOW_CONTROL_REQUIRED |} ];
     lib_engine_count := 3;
     exec_engine := [];
     exec_engine_count := 0;
     sync_mode := CS_SYNC_V2;
     confchg_fn_present := true;
     exec_dump_fn_present := true |}.

(** [service_of_id] inverts [service_id_val]. *)
Lemma service_of_id_val st : service_of_id (service_id_val st) = Some st.
Proof. destruct st; reflexivity. Qed.

(** Exactly the ids of the enumeration have a short name: the others make
    [cs_ipcs_serv_short_name] return [NULL]. *)
Lemma cs_ipcs_serv_short_name_some (service_id : Z) :
  is_Some (cs_ipcs_serv_short_name service_id) <-> 0 <= service_id < 22.
Proof.
  unfold cs_ipcs_serv_short_name, service_of_id. split.
  - destruct (Z.leb_spec 0 service_id) as [Hle |]; [| by intros [? ?]].
    destruct (service_types_all !! Z.to_nat service_id) eqn:E; [| by intros [? ?]].
    intros _. apply lookup_lt_Some in E. simpl in E. lia.
  - intros Hr. destruct (Z.leb_spec 0 service_id); [| lia].
    destruct (lookup_lt_is_Some_2 service_types_all (Z.to_nat service_id)) as [st Hst];
      [simpl; lia |].
    rewrite Hst. destruct st; eexists; reflexivity.
Qed.

(** ** An example service engine, used by the concrete runs of the other files *)

