(* ===== verification/ConnContext.v ===== *)
(** * Per-connection context ([struct cs_ipcs_conn_context], ipc_glue.c)

    The context libqb keeps for each IPC connection: the outbound event
    queue ([outq_head], a list of [struct outq_item]), the queuing flag, and
    the counters.  [queued] and [sent] are [uint32_t]; [invalid_request] and
    [overload] are [uint64_t].  The private block of the service
    ([char data[1]] grown by [private_data_size]) is a byte list.
    [stats_handle] is the objdb handle of the connection's statistics
    object (Server.v).

    The flag is an [int32_t] in C, assigned only [QB_TRUE] and [QB_FALSE],
    and read only as a truth value, so it is a [bool] here.

    Also here: the context part of [cs_ipcs_connection_created], the frees of
    [cs_ipcs_connection_destroyed], and the well-formedness invariant
    [ctx_wf], which the operations of [OutQueue] preserve. *)

From stdpp Require Import base list numbers.
From Stdlib Require Import ZArith Lia.
From S2P Require Import Prelude CoroDefs.

Open Scope Z_scope.

(** [struct outq_item]: an owned copy of one event and its length. *)
Record outq_item := {
  msg : list Byte.byte;
  mlen : Z
}.

Record cs_ipcs_conn_context := {
  stats_handle : Z;
  outq_head : list outq_item;
  queuing : bool;
  queued : Z;
  invalid_request : Z;
  overload : Z;
  sent : Z;
  data : list Byte.byte
}.

(** Record updates, one per field the code assigns. *)
Definition set_outq (q : list outq_item) (c : cs_ipcs_conn_context) :=
  {| stats_handle := stats_handle c; outq_head := q; queuing := queuing c; queued := queued c;
     invalid_request := invalid_request c; overload := overload c;
     sent := sent c; data := data c |}.
Definition set_queuing (b : bool) (c : cs_ipcs_conn_context) :=
  {| stats_handle := stats_handle c; outq_head := outq_head c; queuing := b; queued := queued c;
     invalid_request := invalid_request c; overload := overload c;
     sent := sent c; data := data c |}.
Definition set_queued (n : Z) (c : cs_ipcs_conn_context) :=
  {| stats_handle := stats_handle c; outq_head := outq_head c; queuing := queuing c; queued := n;
     invalid_request := invalid_request c; overload := overload c;
     sent := sent c; data := data c |}.
Definition set_sent (n : Z) (c : cs_ipcs_conn_context) :=
  {| stats_handle := stats_handle c; outq_head := outq_head c; queuing := queuing c; queued := queued c;
     invalid_request := invalid_request c; overload := overload c;
     sent := n; data := data c |}.
Definition set_invalid_request (n : Z) (c : cs_ipcs_conn_context) :=
  {| stats_handle := stats_handle c; outq_head := outq_head c; queuing := queuing c; queued := queued c;
     invalid_request := n; overload := overload c;
     sent := sent c; data := data c |}.
Definition set_overload (n : Z) (c : cs_ipcs_conn_context) :=
  {| stats_handle := stats_handle c; outq_head := outq_head c; queuing := queuing c; queued := queued c;
     invalid_request := invalid_request c; overload := n;
     sent := sent c; data := data c |}.

Definition set_stats_handle (h : Z) (c : cs_ipcs_conn_context) :=
  {| stats_handle := h; outq_head := outq_head c; queuing := queuing c; queued := queued c;
     invalid_request := invalid_request c; overload := overload c;
     sent := sent c; data := data c |}.

(** [cnx->invalid_request++] and [cnx->overload++] on the [uint64_t]
    counters. *)
Definition bump_invalid_request (c : cs_ipcs_conn_context) :=
  set_invalid_request (incr 64 (invalid_request c)) c.
Definition bump_overload (c : cs_ipcs_conn_context) :=
  set_overload (incr 64 (overload c)) c.

(** [cs_ipcs_connection_created], lines 306-320: [calloc] of the context
    with the private block of the service appended, then the explicit
    initialisation of the queue, the flag and two counters.  The other
    counters and the private block are zero from [calloc]. *)
Definition cs_ipcs_connection_created_ctx (svc : corosync_service_engine) : cs_ipcs_conn_context :=
  {| stats_handle := 0;
     outq_head := [];
     queuing := false;
     queued := 0;
     invalid_request := 0;
     overload := 0;
     sent := 0;
     data := replicate (Z.to_nat (private_data_size svc)) Byte.x00 |}.

(** [cs_ipcs_private_data_get]: the service's private block. *)
Definition cs_ipcs_private_data_get (c : cs_ipcs_conn_context) : list Byte.byte := data c.

(** The blocks [free] releases. *)
Inductive freed_block :=
| FreedMsg (it : outq_item)
| FreedItem (it : outq_item)
| FreedContext.

(** The loop of [cs_ipcs_connection_destroyed], lines 442-451: unlink each
    item from the head, free its message, then the item. *)
Fixpoint free_outq (q : list outq_item) : list freed_block :=
  match q with
  | [] => []
  | it :: q' => FreedMsg it :: FreedItem it :: free_outq q'
  end.

(** [cs_ipcs_connection_destroyed]: if a context is attached, free its
    queue and then the context itself. *)
Definition cs_ipcs_connection_destroyed (c : option cs_ipcs_conn_context) : list freed_block :=
  match c with
  | Some ctx => free_outq (outq_head ctx) ++ [FreedContext]
  | None => []
  end.

(** ** The context invariant *)

(** Every queued item records its own length. *)
Definition item_wf (it : outq_item) : Prop := mlen it = Z.of_nat (length (msg it)).

(** Outside queuing mode the queue is empty and [queued] is zero; in
    queuing mode [queued] is the queue length as a [uint32_t].  Both
    unsigned 32-bit counters stay in range. *)
Definition ctx_wf (c : cs_ipcs_conn_context) : Prop :=
  (if queuing c then queued c = u32 (Z.of_nat (length (outq_head c)))
   else outq_head c = [] /\ queued c = 0) /\
  0 <= sent c < 2 ^ 32 /\
  Forall item_wf (outq_head c).

(** A fresh context is well formed. *)
Lemma connection_created_wf svc : ctx_wf (cs_ipcs_connection_created_ctx svc).
Proof. repeat split; simpl; try lia. constructor. Qed.

(** The destructor releases two blocks per queued item: its message and
    the item itself. *)
Lemma free_outq_count (q : list outq_item) :
  length (free_outq q) = (2 * length q)%nat.
Proof. induction q; simpl; lia. Qed.
