(* ===== verification/Totem.v ===== *)
(** * The totem transport's reservation interface

    [corosync_sending_allowed] reserves room in the totem send queue with
    [totempg_groups_joined_reserve], and [corosync_sending_allowed_release]
    gives it back with [totempg_groups_joined_release].  totem is outside
    src/.  This file states what the IPC layer relies on, as the class
    [TotemReserve] (the operations) and [TotemReserveLaws] (their
    contract), following the spec's interface "reserve(size) -> slots|fail,
    release(slots)":
    - a reservation is [-1] (failure), [0] (no room) or a positive count;
    - a failed reservation takes nothing;
    - releasing what a reservation returned restores the transport state.

    The admission theorems are proved against these laws.  The instance
    [totempg_slots] is a slot counter over the send queue.  It is modelled
    from the spec and shows that the laws are satisfiable. *)

From stdpp Require Import base list numbers.
From Stdlib Require Import ZArith Lia.
From S2P Require Import Prelude.

Open Scope Z_scope.

Class TotemReserve (T : Type) := {
  totempg_groups_joined_reserve : T -> Z -> Z * T;
  totempg_groups_joined_release : Z -> T -> T
}.

Class TotemReserveLaws (T : Type) `{TotemReserve T} := {
  reserve_range : forall t sz, 0 <= sz ->
    -1 <= fst (totempg_groups_joined_reserve t sz);
  reserve_fail_pure : forall t sz, 0 <= sz ->
    fst (totempg_groups_joined_reserve t sz) = -1 ->
    snd (totempg_groups_joined_reserve t sz) = t;
  release_reserve : forall t sz,
    fst (totempg_groups_joined_reserve t sz) <> -1 ->
    totempg_groups_joined_release (fst (totempg_groups_joined_reserve t sz))
      (snd (totempg_groups_joined_reserve t sz)) = t
}.

(** ** A concrete transport: slot accounting over the send queue *)

(** [tp_reserved] slots are held by in-flight requests out of
    [tp_avail]; a message of [sz] bytes needs [sz / tp_frag + 1] slots; a
    message of [tp_size_limit] bytes or more is refused. *)
Record totempg_slots := {
  tp_reserved : Z;
  tp_avail : Z;
  tp_frag : N;
  tp_size_limit : Z
}.

Definition slots_with_reserved (n : Z) (t : totempg_slots) : totempg_slots :=
  {| tp_reserved := n; tp_avail := tp_avail t; tp_frag := tp_frag t;
     tp_size_limit := tp_size_limit t |}.

Definition slots_reserve (t : totempg_slots) (sz : Z) : Z * totempg_slots :=
  if tp_size_limit t <=? sz then (-1, t)
  else
    let n := sz / Z.of_N (tp_frag t) + 1 in
    if n <? tp_avail t - tp_reserved t
    then (n, slots_with_reserved (tp_reserved t + n) t)
    else (0, t).

Definition slots_release (n : Z) (t : totempg_slots) : totempg_slots :=
  slots_with_reserved (tp_reserved t - n) t.

#[export] Instance totempg_slots_reserve : TotemReserve totempg_slots := {
  totempg_groups_joined_reserve := slots_reserve;
  totempg_groups_joined_release := slots_release
}.

#[export] Instance totempg_slots_laws : TotemReserveLaws totempg_slots.
Proof.
  split; intros t sz; simpl; unfold slots_reserve.
  - intros Hsz. assert (0 <= sz / Z.of_N (tp_frag t)) by (apply Z_div_nonneg_nonneg; lia).
    zcase; simpl; lia.
  - intros Hsz. assert (0 <= sz / Z.of_N (tp_frag t)) by (apply Z_div_nonneg_nonneg; lia).
    zcase; simpl; try done. lia.
  - destruct t as [r a f l]; simpl. zcase; simpl; try done; intros _;
      unfold slots_release, slots_with_reserved; simpl; f_equal; lia.
Qed.
