(* ===== verification/Admission.v ===== *)
(** * Admission control: [corosync_sending_allowed] and [cs_ipcs_msg_process]

    main.c's [corosync_sending_allowed] reserves totem capacity for a
    request and returns a verdict as an [int].  The verdict is [QB_TRUE]
    to admit, or a negative errno: [-EINVAL] (the reservation failed),
    [-EHOSTUNREACH] (inquorate), [-ENOBUFS] (no room), or [-EINPROGRESS]
    (sync in progress).  [corosync_sending_allowed_release] gives the
    reservation back.  ipc_glue.c's [cs_ipcs_msg_process] turns the verdict
    into a reply and counters, calls the service's request handler, and
    releases the reservation.

    The transport is the [TotemReserve] interface of [Totem]; every
    theorem here holds for any transport satisfying [TotemReserveLaws].
    Reads of [lib_engine[id]] go through [array_get]: an id outside the
    table is an out-of-bounds read, which the model returns as
    [OutOfBounds] instead of inventing a value.

    The abstract specification is [evaluate], the five-way decision of the
    spec (section 4.1), and [replies_for], the reply the spec asks for on
    each decision.  The refinement theorems relate the code to them. *)

From stdpp Require Import base list numbers.
From Stdlib Require Import ZArith Lia.
From S2P Require Import Prelude CoroDefs ConnContext Totem.

Open Scope Z_scope.

(** What [cs_ipcs_msg_process] does to the outside world, in order: replies
    on the response channel, and the call of the service's request handler
    [lib_engine[id].lib_handler_fn]. *)
Inductive ipc_effect :=
| ResponseSend (r : qb_ipc_response_header)
| LibHandlerCall (id : Z).

(** The response [cs_ipcs_msg_process] builds for an error. *)
Definition error_response (err : Z) : qb_ipc_response_header :=
  {| res_size := sizeof_response_header; res_id := 0; res_error := err |}.

(** ** Abstract specification (spec section 4.1) *)

Inductive admission :=
| Invalid
| Unreachable
| Overloaded
| SyncBusy
| Admit.

#[export] Instance admission_eq_dec : EqDecision admission.
Proof. solve_decision. Defined.

(** The decision from the reservation result, quorum (or quorum
    tolerance), whether the request type is gated by flow control, and
    whether a resync is in progress. *)
Definition evaluate (reserved : Z) (quorate_ok gated resync : bool) : admission :=
  if reserved =? -1 then Invalid
  else if negb quorate_ok then Unreachable
  else if negb gated then Admit
  else if (0 <? reserved) && negb resync then Admit
  else if reserved =? 0 then Overloaded
  else SyncBusy.

(** The reply the spec asks for: none on admission or for the
    fire-and-forget class, "invalid parameter" for [Invalid], "try again"
    for the three transient rejections. *)
Definition replies_for (d : admission) (is_async_call : bool) : list ipc_effect :=
  if is_async_call then []
  else match d with
       | Admit => []
       | Invalid => [ResponseSend (error_response CS_ERR_INVALID_PARAM)]
       | _ => [ResponseSend (error_response CS_ERR_TRY_AGAIN)]
       end.

(** The counters the spec asks to bump: [invalid_request] for [Invalid],
    [overload] for the transient rejections. *)
Definition counters_for (d : admission) (cnx : option cs_ipcs_conn_context)
    : option cs_ipcs_conn_context :=
  match d with
  | Admit => cnx
  | Invalid => bump_invalid_request <$> cnx
  | _ => bump_overload <$> cnx
  end.

(** The integer the code uses for each decision. *)
Definition admission_code (d : admission) : Z :=
  match d with
  | Invalid => - EINVAL
  | Unreachable => - EHOSTUNREACH
  | Overloaded => - ENOBUFS
  | SyncBusy => - EINPROGRESS
  | Admit => QB_TRUE
  end.

(** ** Invariants, observations and concrete inputs *)

(** A transport with room, and one whose send queue is full. *)
Definition totem_idle : totempg_slots :=
  {| tp_reserved := 0; tp_avail := 64; tp_frag := 1000%N; tp_size_limit := 1048576 |}.

Definition totem_busy : totempg_slots :=
  {| tp_reserved := 63; tp_avail := 64; tp_frag := 1000%N; tp_size_limit := 1048576 |}.

Definition req_join : qb_ipc_request_header := {| header_size := 48; header_id := 0 |}.

Definition req_huge : qb_ipc_request_header := {| header_size := 2097152; header_id := 0 |}.

Definition req_past_table : qb_ipc_request_header := {| header_size := 48; header_id := 3 |}.

Section Admission.
Context {T : Type} `{TotemReserveLaws T}.

(** ** The code *)

(** [corosync_sending_allowed] (main.c).  It returns the verdict, the
    [reserved_msgs] it stores in the caller's private data, and the
    transport state.  [reserve_iovec.iov_len = header->size] converts the
    [int32_t] size to [size_t]. *)
Definition corosync_sending_allowed (is_quorate sync_in_process : Z)
    (svc : corosync_service_engine) (id : Z) (header : qb_ipc_request_header)
    (t : T) : c_read Z * Z * T :=
  let '(reserved_msgs, t1) := totempg_groups_joined_reserve t (u64 (header_size header)) in
  if reserved_msgs =? -1 then (Loaded (- EINVAL), reserved_msgs, t1)
  else if (is_quorate =? 1) || (allow_inquorate svc =? CS_LIB_ALLOW_INQUORATE) then
    match array_get (lib_engine svc) id with
    | OutOfBounds => (OutOfBounds, reserved_msgs, t1)
    | Loaded h =>
        if flow_control h =? CS_LIB_FLOW_CONTROL_NOT_REQUIRED then
          (Loaded QB_TRUE, reserved_msgs, t1)
        else if c_true reserved_msgs && (sync_in_process =? 0) then
          (Loaded QB_TRUE, reserved_msgs, t1)
        else if reserved_msgs =? 0 then (Loaded (- ENOBUFS), reserved_msgs, t1)
        else (Loaded (- EINPROGRESS), reserved_msgs, t1)
    end
  else (Loaded (- EHOSTUNREACH), reserved_msgs, t1).

(** [corosync_sending_allowed_release] (main.c). *)
Definition corosync_sending_allowed_release (reserved_msgs : Z) (t : T) : T :=
  if reserved_msgs =? -1 then t
  else totempg_groups_joined_release reserved_msgs t.

Record msg_process_out := {
  mp_res : Z;
  mp_cnx : option cs_ipcs_conn_context;
  mp_totem : T;
  mp_effects : list ipc_effect
}.

(** The two error branches of [cs_ipcs_msg_process] (lines 634-675): the
    result code, the counter update and the reply. *)
Definition msg_process_errors (send_ok : Z) (is_async_call : bool)
    (cnx : option cs_ipcs_conn_context) : Z * option cs_ipcs_conn_context * list ipc_effect :=
  if send_ok =? - EINVAL then
    (- EINVAL,
     bump_invalid_request <$> cnx,
     if is_async_call then [] else [ResponseSend (error_response CS_ERR_INVALID_PARAM)])
  else if send_ok <? 0 then
    (- ENOBUFS,
     bump_overload <$> cnx,
     if is_async_call then [] else [ResponseSend (error_response CS_ERR_TRY_AGAIN)])
  else (-1, cnx, []).

(** [cs_ipcs_msg_process] (ipc_glue.c) for a request of connection
    [cnx] to service [service], whose engine is [svc]. *)
Definition cs_ipcs_msg_process (is_quorate sync_in_process service : Z)
    (svc : corosync_service_engine) (request : qb_ipc_request_header)
    (cnx : option cs_ipcs_conn_context) (t : T) : c_read msg_process_out :=
  let '(verdict, reserved_msgs, t1) :=
    corosync_sending_allowed is_quorate sync_in_process svc (header_id request) request t in
  match verdict with
  | OutOfBounds => OutOfBounds
  | Loaded send_ok =>
      let is_async_call := (service =? service_id_val CPG_SERVICE) && (header_id request =? 2) in
      let '(res, cnx1, eff) := msg_process_errors send_ok is_async_call cnx in
      let call :=
        if c_true send_ok then
          match array_get (lib_engine svc) (header_id request) with
          | Loaded _ => Loaded (0, eff ++ [LibHandlerCall (header_id request)])
          | OutOfBounds => OutOfBounds
          end
        else Loaded (res, eff) in
      match call with
      | OutOfBounds => OutOfBounds
      | Loaded (res2, eff2) =>
          Loaded {| mp_res := res2; mp_cnx := cnx1;
                    mp_totem := corosync_sending_allowed_release reserved_msgs t1;
                    mp_effects := eff2 |}
      end
  end.

(** A connection's requests, in arrival order, with the quorum and sync
    state fixed; the counters and the transport are threaded through. *)
Fixpoint msg_process_all (is_quorate sync_in_process service : Z)
    (svc : corosync_service_engine) (reqs : list qb_ipc_request_header)
    (cnx : option cs_ipcs_conn_context) (t : T)
    : c_read (option cs_ipcs_conn_context * T * list ipc_effect) :=
  match reqs with
  | [] => Loaded (cnx, t, [])
  | r :: rs =>
      match cs_ipcs_msg_process is_quorate sync_in_process service svc r cnx t with
      | OutOfBounds => OutOfBounds
      | Loaded o =>
          match msg_process_all is_quorate sync_in_process service svc rs (mp_cnx o) (mp_totem o) with
          | OutOfBounds => OutOfBounds
          | Loaded (c', t', eff) => Loaded (c', t', mp_effects o ++ eff)
          end
      end
  end.

(** ** Lemmas *)

Lemma request_size_nonneg (header : qb_ipc_request_header) : 0 <= u64 (header_size header).
Proof. apply wrap_range. lia. Qed.

Lemma reserve_ge_m1 t (header : qb_ipc_request_header) r t1 :
  totempg_groups_joined_reserve t (u64 (header_size header)) = (r, t1) -> -1 <= r.
Proof.
  intros E. pose proof (reserve_range t _ (request_size_nonneg header)) as Hr.
  by rewrite E in Hr.
Qed.

(** Releasing what the request reserved restores the transport. *)
Lemma release_after_reserve t (header : qb_ipc_request_header) r t1 :
  totempg_groups_joined_reserve t (u64 (header_size header)) = (r, t1) ->
  corosync_sending_allowed_release r t1 = t.
Proof.
  intros E. unfold corosync_sending_allowed_release.
  pose proof (reserve_fail_pure t _ (request_size_nonneg header)) as Hfail.
  pose proof (release_reserve t (u64 (header_size header))) as Hrel.
  rewrite E in Hfail, Hrel. simpl in *.
  destruct (Z.eqb_spec r (-1)); auto.
Qed.

(** The reservation [corosync_sending_allowed] reports is the one the
    transport made, on every branch. *)
Lemma sending_allowed_reserve q s svc id header t v r t1 :
  corosync_sending_allowed q s svc id header t = (v, r, t1) ->
  totempg_groups_joined_reserve t (u64 (header_size header)) = (r, t1).
Proof.
  unfold corosync_sending_allowed.
  destruct (totempg_groups_joined_reserve t _) as [r0 t0].
  repeat case_match; congruence.
Qed.

Lemma msg_process_errors_code d is_async_call cnx :
  msg_process_errors (admission_code d) is_async_call cnx =
    (if decide (d = Invalid) then - EINVAL else if decide (d = Admit) then -1 else - ENOBUFS,
     counters_for d cnx, replies_for d is_async_call).
Proof. destruct d, is_async_call; reflexivity. Qed.

Lemma admission_code_true d : c_true (admission_code d) = true.
Proof. by destruct d. Qed.

(** ** Theorems *)

(** The decision [corosync_sending_allowed] takes, as the spec's [evaluate]. *)
Lemma sending_allowed_evaluate q s svc id header t h r t1 :
  array_get (lib_engine svc) id = Loaded h ->
  totempg_groups_joined_reserve t (u64 (header_size header)) = (r, t1) ->
  corosync_sending_allowed q s svc id header t =
    (Loaded (admission_code
       (evaluate r ((q =? 1) || (allow_inquorate svc =? CS_LIB_ALLOW_INQUORATE))
          (negb (flow_control h =? CS_LIB_FLOW_CONTROL_NOT_REQUIRED))
          (negb (s =? 0)))), r, t1).
Proof.
  intros Hh E. pose proof (reserve_ge_m1 t header r t1 E) as Hr.
  unfold corosync_sending_allowed, evaluate, c_true. rewrite E, Hh.
  destruct (Z.eqb_spec r (-1)); [done |].
  destruct (_ || _); [| done]. simpl.
  destruct (Z.eqb_spec (flow_control h) CS_LIB_FLOW_CONTROL_NOT_REQUIRED); [done |]. simpl.
  destruct (Z.eqb_spec r 0), (Z.ltb_spec 0 r), (Z.eqb_spec s 0); simpl; done || lia.
Qed.

(** C1. Refinement of the admission verdict.  When the handler table has
    an entry for the request id, [corosync_sending_allowed] returns the
    code of the decision the spec's [evaluate] makes.  The inputs of
    [evaluate] are the reservation the transport granted, quorum or
    quorum tolerance, the entry's flow-control flag, and the sync flag.
    The reservation itself is passed through unchanged. *)
Theorem sending_allowed_refines q s svc id header t h r t1 :
  array_get (lib_engine svc) id = Loaded h ->
  totempg_groups_joined_reserve t (u64 (header_size header)) = (r, t1) ->
  corosync_sending_allowed q s svc id header t =
    (Loaded (admission_code
       (evaluate r ((q =? 1) || (allow_inquorate svc =? CS_LIB_ALLOW_INQUORATE))
          (negb (flow_control h =? CS_LIB_FLOW_CONTROL_NOT_REQUIRED))
          (negb (s =? 0)))), r, t1).
Proof. exact (sending_allowed_evaluate q s svc id header t h r t1). Qed.

Lemma msg_process_totem q s service svc req cnx t o :
  cs_ipcs_msg_process q s service svc req cnx t = Loaded o -> mp_totem o = t.
Proof.
  unfold cs_ipcs_msg_process.
  destruct (corosync_sending_allowed q s svc (header_id req) req t) as [[v r] t1] eqn:E.
  apply sending_allowed_reserve in E.
  destruct v as [send_ok |]; [| done].
  destruct (msg_process_errors _ _ _) as [[res cnx1] eff].
  repeat case_match; intros Ho; inversion Ho; subst; simpl;
    eapply release_after_reserve; eauto.
Qed.

(** What [cs_ipcs_msg_process] does with a request whose id has a handler. *)
Lemma msg_process_evaluate q s service svc req cnx t h r t1 :
  array_get (lib_engine svc) (header_id req) = Loaded h ->
  totempg_groups_joined_reserve t (u64 (header_size req)) = (r, t1) ->
  let d := evaluate r ((q =? 1) || (allow_inquorate svc =? CS_LIB_ALLOW_INQUORATE))
             (negb (flow_control h =? CS_LIB_FLOW_CONTROL_NOT_REQUIRED))
             (negb (s =? 0)) in
  cs_ipcs_msg_process q s service svc req cnx t =
    Loaded {| mp_res := 0;
              mp_cnx := counters_for d cnx;
              mp_totem := t;
              mp_effects := replies_for d ((service =? service_id_val CPG_SERVICE) && (header_id req =? 2))
                            ++ [LibHandlerCall (header_id req)] |}.
Proof.
  intros Hh E d. unfold cs_ipcs_msg_process.
  rewrite (sending_allowed_evaluate q s svc (header_id req) req t h r t1 Hh E).
  fold d. rewrite msg_process_errors_code, admission_code_true, Hh.
  rewrite (release_after_reserve t req r t1 E). reflexivity.
Qed.

(** C2. Refinement of request processing.  For a request whose id has an
    entry in the handler table, [cs_ipcs_msg_process] does the following,
    where [d] is the spec's decision.  It sends the reply of [d] (none
    for the fire-and-forget CPG request 2).  It bumps the counter of
    [d].  It gives the transport back exactly the state it had.  Then it
    calls the request handler and returns 0, whatever [d] is. *)
Theorem msg_process_spec q s service svc req cnx t h r t1 :
  array_get (lib_engine svc) (header_id req) = Loaded h ->
  totempg_groups_joined_reserve t (u64 (header_size req)) = (r, t1) ->
  let d := evaluate r ((q =? 1) || (allow_inquorate svc =? CS_LIB_ALLOW_INQUORATE))
             (negb (flow_control h =? CS_LIB_FLOW_CONTROL_NOT_REQUIRED))
             (negb (s =? 0)) in
  cs_ipcs_msg_process q s service svc req cnx t =
    Loaded {| mp_res := 0;
              mp_cnx := counters_for d cnx;
              mp_totem := t;
              mp_effects := replies_for d ((service =? service_id_val CPG_SERVICE) && (header_id req =? 2))
                            ++ [LibHandlerCall (header_id req)] |}.
Proof. exact (msg_process_evaluate q s service svc req cnx t h r t1). Qed.

(** C4. Reservations are released exactly once.  After any sequence of a
    connection's requests, the transport's reservation state is the one
    before the first request, whatever was admitted or rejected.  This is
    the spec's testable property 3. *)
Theorem msg_process_all_releases q s service svc reqs cnx t c' t' eff :
  msg_process_all q s service svc reqs cnx t = Loaded (c', t', eff) -> t' = t.
Proof.
  revert cnx t c' t' eff. induction reqs as [| r rs IH]; simpl; intros cnx t c' t' eff.
  - by intros [= _ <- _].
  - destruct (cs_ipcs_msg_process q s service svc r cnx t) as [o |] eqn:Eo; [| done].
    destruct (msg_process_all q s service svc rs (mp_cnx o) (mp_totem o)) as [[[c1 t2] e1] |] eqn:Erest;
      [| done].
    intros [= _ <- _]. rewrite (IH _ _ _ _ _ Erest). by eapply msg_process_totem.
Qed.

(** C5. The request id is never checked against the handler table.
    Neither [corosync_sending_allowed] nor [cs_ipcs_msg_process] compares
    [request_pt->id] with [lib_engine_count].  A request whose id is at or
    past the end of [lib_engine] therefore always reads outside the
    array, whether or not the cluster is quorate and whether or not the
    reservation succeeded. *)
Theorem msg_process_unchecked_id q s service svc req cnx t :
  Z.of_nat (length (lib_engine svc)) <= header_id req ->
  cs_ipcs_msg_process q s service svc req cnx t = OutOfBounds.
Proof.
  intros Hid. unfold cs_ipcs_msg_process, corosync_sending_allowed.
  rewrite (array_get_oob _ _ Hid).
  destruct (totempg_groups_joined_reserve t _) as [r t1].
  destruct (Z.eqb_spec r (-1)); [reflexivity |].
  destruct (_ || _); reflexivity.
Qed.

(** C28. The spec's testable property 1.  A request of a flow-controlled
    type, on a quorate cluster (or a quorum-tolerant service), for which
    the transport reserved zero slots, gets [-ENOBUFS] ([Overloaded]),
    never admission, whatever the sync state. *)
Theorem sending_allowed_zero_slots q s svc id header t h t1 :
  array_get (lib_engine svc) id = Loaded h ->
  flow_control h <> CS_LIB_FLOW_CONTROL_NOT_REQUIRED ->
  (q = 1 \/ allow_inquorate svc = CS_LIB_ALLOW_INQUORATE) ->
  totempg_groups_joined_reserve t (u64 (header_size header)) = (0, t1) ->
  corosync_sending_allowed q s svc id header t = (Loaded (- ENOBUFS), 0, t1).
Proof.
  intros Hh Hfc Hq E. rewrite (sending_allowed_evaluate q s svc id header t h 0 t1 Hh E).
  unfold evaluate. apply Z.eqb_neq in Hfc. rewrite Hfc.
  destruct Hq as [-> | ->]; rewrite ?orb_true_r; reflexivity.
Qed.

(** C40. The spec's testable property 2, as the code has it.  When the
    service is not quorum tolerant and the cluster is not quorate, the
    verdict is [-EHOSTUNREACH] for every reservation that did not fail,
    and for every request id (the table is not read). *)
Theorem sending_allowed_inquorate q s svc id header t r t1 :
  q <> 1 -> allow_inquorate svc <> CS_LIB_ALLOW_INQUORATE ->
  totempg_groups_joined_reserve t (u64 (header_size header)) = (r, t1) -> r <> -1 ->
  corosync_sending_allowed q s svc id header t = (Loaded (- EHOSTUNREACH), r, t1).
Proof.
  intros Hq Ha E Hr. unfold corosync_sending_allowed. rewrite E.
  apply Z.eqb_neq in Hq, Ha, Hr. by rewrite Hr, Hq, Ha.
Qed.
(** C8. A failed reservation takes precedence over quorum and over the
    handler table.  Whatever the quorum and sync state, the service and the
    request id (inside the table or past it), a request the transport
    cannot reserve for gets [-EINVAL], and the reservation result [-1]
    is passed on unchanged.  The spec's property 2 says an inquorate,
    non-tolerant service gets Unreachable "regardless of reservation
    result"; the code (and the spec's own step order, section 4.1) test
    the reservation first. *)
Theorem sending_allowed_reservation_failed q s svc id header t t1 :
  totempg_groups_joined_reserve t (u64 (header_size header)) = (-1, t1) ->
  corosync_sending_allowed q s svc id header t = (Loaded (- EINVAL), -1, t1).
Proof. intros E. unfold corosync_sending_allowed. by rewrite E. Qed.
End Admission.

(** ** Concrete instances *)

Lemma sending_allowed_refines_witness :
  corosync_sending_allowed 1 0 cpg_engine 0 req_join totem_idle =
    (Loaded (admission_code (evaluate 1 true true false)), 1, slots_with_reserved 1 totem_idle).
Proof.
  exact (sending_allowed_refines 1 0 cpg_engine 0 req_join totem_idle
           {| flow_control := CS_LIB_FLOW_CONTROL_REQUIRED |} 1
           (slots_with_reserved 1 totem_idle) eq_refl eq_refl).
Defined.

Lemma msg_process_spec_witness :
  cs_ipcs_msg_process 1 0 (service_id_val CPG_SERVICE) cpg_engine req_join None totem_busy =
    Loaded {| mp_res := 0; mp_cnx := None; mp_totem := totem_busy;
              mp_effects := [ResponseSend (error_response CS_ERR_TRY_AGAIN); LibHandlerCall 0] |}.
Proof.
  exact (msg_process_spec 1 0 (service_id_val CPG_SERVICE) cpg_engine req_join None totem_busy
           {| flow_control := CS_LIB_FLOW_CONTROL_REQUIRED |} 0 totem_busy eq_refl eq_refl).
Defined.

Lemma msg_process_all_releases_witness :
  msg_process_all 1 0 (service_id_val CPG_SERVICE) cpg_engine [req_join; req_huge; req_join] None totem_idle =
    Loaded (None, totem_idle,
            [LibHandlerCall 0; ResponseSend (error_response CS_ERR_INVALID_PARAM);
             LibHandlerCall 0; LibHandlerCall 0]) /\
  totem_idle = totem_idle.
Proof.
  split; [reflexivity |].
  exact (msg_process_all_releases 1 0 (service_id_val CPG_SERVICE) cpg_engine [req_join; req_huge; req_join]
           None totem_idle None totem_idle _ eq_refl).
Defined.

Lemma msg_process_unchecked_id_witness :
  cs_ipcs_msg_process 0 0 (service_id_val CPG_SERVICE) cpg_engine req_past_table None totem_idle = OutOfBounds.
Proof.
  apply msg_process_unchecked_id. simpl. lia.
Defined.

Lemma sending_allowed_zero_slots_witness :
  corosync_sending_allowed 1 0 cpg_engine 0 req_join totem_busy = (Loaded (- ENOBUFS), 0, totem_busy).
Proof.
  apply (sending_allowed_zero_slots 1 0 cpg_engine 0 req_join totem_busy
           {| flow_control := CS_LIB_FLOW_CONTROL_REQUIRED |});
    [reflexivity | discriminate | left; reflexivity | reflexivity].
Defined.

Lemma sending_allowed_inquorate_witness :
  corosync_sending_allowed 0 0 cpg_engine 0 req_join totem_idle =
    (Loaded (- EHOSTUNREACH), 1, slots_with_reserved 1 totem_idle).
Proof.
  apply sending_allowed_inquorate; [discriminate | discriminate | reflexivity | discriminate].
Defined.

Lemma sending_allowed_reservation_failed_witness :
  corosync_sending_allowed 0 1 cpg_engine 7 req_huge totem_idle = (Loaded (- EINVAL), -1, totem_idle).
Proof. apply sending_allowed_reservation_failed. reflexivity. Defined.
