(* ===== verification/EventChannel.v ===== *)
(** * The libqb event channel interface

    [msg_send_or_queue] and [outq_flush] (ipc_glue.c) push events to a
    client with libqb's non-blocking [qb_ipcs_event_sendv] and
    [qb_ipcs_event_send].  These return the number of bytes sent,
    [-EAGAIN] when the client's event buffer is full, or another negative
    errno.  libqb is outside src/.  The class [EventChannel] gives the
    operation (on the concatenation of the iovec) and an observation: the
    events the client has received so far.  [EventChannelLaws] states the
    one property the queueing layer relies on.  A send that returns the
    full length appends the event to what the client received.  Any other
    result leaves it unchanged, so a partial send counts as a failure, as
    the spec says.

    [event_ring] is a concrete channel: a client buffer with a number of
    free bytes and a connected flag.  It is modelled from the spec and
    discharges the laws. *)

From stdpp Require Import base list numbers.
From Stdlib Require Import ZArith Lia.
From S2P Require Import Prelude CoroDefs.

Open Scope Z_scope.

Class EventChannel (Ch : Type) := {
  qb_ipcs_event_sendv : Ch -> list Byte.byte -> Z * Ch;
  ev_delivered : Ch -> list (list Byte.byte)
}.

Class EventChannelLaws (Ch : Type) `{EventChannel Ch} := {
  event_send_delivered : forall ch m,
    ev_delivered (snd (qb_ipcs_event_sendv ch m)) =
      if fst (qb_ipcs_event_sendv ch m) =? Z.of_nat (length m)
      then ev_delivered ch ++ [m] else ev_delivered ch
}.

(** ** A concrete channel: the client's event ring *)

Definition ENOTCONN : Z := 107.

Record event_ring := {
  er_delivered : list (list Byte.byte);
  er_free : Z;
  er_connected : bool
}.

Definition ring_send (r : event_ring) (m : list Byte.byte) : Z * event_ring :=
  if negb (er_connected r) then (- ENOTCONN, r)
  else if Z.of_nat (length m) <=? er_free r then
    (Z.of_nat (length m),
     {| er_delivered := er_delivered r ++ [m];
        er_free := er_free r - Z.of_nat (length m);
        er_connected := true |})
  else (- EAGAIN, r).

(** The client reading [n] bytes of its buffer. *)
Definition ring_consume (n : Z) (r : event_ring) : event_ring :=
  {| er_delivered := er_delivered r; er_free := er_free r + n;
     er_connected := er_connected r |}.

#[export] Instance event_ring_channel : EventChannel event_ring := {
  qb_ipcs_event_sendv := ring_send;
  ev_delivered := er_delivered
}.

#[export] Instance event_ring_laws : EventChannelLaws event_ring.
Proof.
  split. intros r m.
  change (er_delivered (ring_send r m).2 =
          if (ring_send r m).1 =? Z.of_nat (length m) then er_delivered r ++ [m]
          else er_delivered r).
  unfold ring_send. destruct (er_connected r); cbn [negb].
  - destruct (Z.leb_spec (Z.of_nat (length m)) (er_free r)); cbn [fst snd er_delivered].
    + by rewrite Z.eqb_refl.
    + rewrite (proj2 (Z.eqb_neq _ _)); [done | unfold EAGAIN; lia].
  - cbn [fst snd]. rewrite (proj2 (Z.eqb_neq _ _)); [done | unfold ENOTCONN; lia].
Qed.
