(* ===== verification/OutQueue.v ===== *)
(** * The outbound event queue ([msg_send_or_queue], [outq_flush], ipc_glue.c)

    Services send events to a client with [cs_ipcs_dispatch_send] or
    [cs_ipcs_dispatch_iov_send], which call [msg_send_or_queue].  On a
    connection that is not queuing, the event is sent at once.  If the
    client's buffer is full ([-EAGAIN]), the connection enters queuing mode,
    its counters are reset, an [outq_flush] job is added to the main loop,
    and the event is copied to the tail of the queue.  While queuing, every
    event goes to the tail of the queue.  [outq_flush] sends queued events
    from the head until one does not go through.  If the queue empties, it
    leaves queuing mode; otherwise it adds itself to the loop again.

    State.  The main loop's state [ipcs_loop] holds the live connections (a
    map from connection handles to their context, event channel and
    disconnect flag) and the FIFO of pending [outq_flush] jobs (the
    [QB_LOOP_HIGH] job queue of [qb_loop_job_add]).  The channel is any
    [EventChannel].  An operation returns [None] when the C code would
    abort (the [assert] of [msg_send_or_queue]) or touch a connection that
    is no longer there.  The allocation result of the two [malloc]s is an
    input ([alloc_ok]).

    The step relation [loop_step] composes the operations with the
    environment's moves: the client reading its buffer, connection
    creation and destruction.  The invariant [loop_wf] says that every live
    context is well formed ([ctx_wf]) and has exactly one pending flush job
    when queuing and none otherwise.  [stream] is what a connection's client
    has received followed by what is queued for it.  It grows only by the
    events submitted to that connection, in submission order.

    A connection is created only on a handle that has no pending flush
    job ([ls_create]).  In C the handle is the connection's address, which
    [malloc] may hand out again while the job of a destroyed connection is
    still pending; the model leaves that reuse out, and
    [destroy_keeps_flush_job] shows that such a stale job exists after
    every destroy of a queuing connection. *)

From Stdlib Require Import ZArith Lia.
From stdpp Require Import base list gmap fin_maps numbers.
From S2P Require Import Prelude CoroDefs ConnContext EventChannel.

Open Scope Z_scope.

Section OutQueue.
Context {Ch : Type} `{EventChannelLaws Ch}.

(** ** State *)

Record conn_slot := {
  cs_ctx : cs_ipcs_conn_context;
  cs_chan : Ch;
  cs_disconnected : bool
}.

Record ipcs_loop := {
  lp_conns : gmap nat conn_slot;
  lp_jobs : list nat
}.

Definition put_conn (c : nat) (cs : conn_slot) (s : ipcs_loop) : ipcs_loop :=
  {| lp_conns := <[c := cs]> (lp_conns s); lp_jobs := lp_jobs s |}.

Definition with_jobs (js : list nat) (s : ipcs_loop) : ipcs_loop :=
  {| lp_conns := lp_conns s; lp_jobs := js |}.

(** [qb_loop_job_add (cs_poll_handle_get(), QB_LOOP_HIGH, conn, outq_flush)]. *)
Definition qb_loop_job_add (c : nat) (s : ipcs_loop) : ipcs_loop :=
  with_jobs (lp_jobs s ++ [c]) s.

(** [qb_ipcs_disconnect]: libqb marks the connection for teardown. *)
Definition qb_ipcs_disconnect (cs : conn_slot) : conn_slot :=
  {| cs_ctx := cs_ctx cs; cs_chan := cs_chan cs; cs_disconnected := true |}.

Definition with_ctx (ctx : cs_ipcs_conn_context) (ch : Ch) (cs : conn_slot) : conn_slot :=
  {| cs_ctx := ctx; cs_chan := ch; cs_disconnected := cs_disconnected cs |}.

(** ** [msg_send_or_queue] *)

(** [for (i = 0; i < iov_len; i++) bytes_msg += iov[i].iov_len;] *)
Fixpoint iov_bytes (iov : list (list Byte.byte)) : Z :=
  match iov with
  | [] => 0
  | b :: iov' => Z.of_nat (length b) + iov_bytes iov'
  end.

(** Lines 571-591: allocate an item and a copy of the event, append the
    item to the queue and count it; on allocation failure, disconnect. *)
Definition outq_append (alloc_ok : bool) (c : nat) (cs : conn_slot)
    (m : list Byte.byte) (bytes_msg : Z) (s : ipcs_loop) : ipcs_loop :=
  if alloc_ok then
    let ctx := cs_ctx cs in
    let item := {| msg := m; mlen := bytes_msg |} in
    put_conn c (with_ctx (set_queued (incr 32 (queued ctx)) (set_outq (outq_head ctx ++ [item]) ctx))
                  (cs_chan cs) cs) s
  else put_conn c (qb_ipcs_disconnect cs) s.

Definition msg_send_or_queue (alloc_ok : bool) (c : nat) (iov : list (list Byte.byte))
    (s : ipcs_loop) : option ipcs_loop :=
  match lp_conns s !! c with
  | None => None
  | Some cs =>
      let ctx := cs_ctx cs in
      let bytes_msg := iov_bytes iov in
      let m := concat iov in
      if queuing ctx then Some (outq_append alloc_ok c cs m bytes_msg s)
      else
        match outq_head ctx with
        | _ :: _ => None
        | [] =>
            let '(rc, ch1) := qb_ipcs_event_sendv (cs_chan cs) m in
            if rc =? bytes_msg then
              Some (put_conn c (with_ctx (set_sent (incr 32 (sent ctx)) ctx) ch1 cs) s)
            else if rc =? - EAGAIN then
              let cs1 := with_ctx (set_queuing true (set_sent 0 (set_queued 0 ctx))) ch1 cs in
              Some (outq_append alloc_ok c cs1 m bytes_msg (qb_loop_job_add c (put_conn c cs1 s)))
            else Some (put_conn c (with_ctx ctx ch1 cs) s)
        end
  end.

(** [cs_ipcs_dispatch_send]: one buffer; the C function returns 0. *)
Definition cs_ipcs_dispatch_send (alloc_ok : bool) (c : nat) (m : list Byte.byte)
    (s : ipcs_loop) : option ipcs_loop :=
  msg_send_or_queue alloc_ok c [m] s.

(** [cs_ipcs_dispatch_iov_send]: an iovec; the C function returns 0. *)
Definition cs_ipcs_dispatch_iov_send (alloc_ok : bool) (c : nat) (iov : list (list Byte.byte))
    (s : ipcs_loop) : option ipcs_loop :=
  msg_send_or_queue alloc_ok c iov s.

(** ** [outq_flush] *)

(** The loop of lines 510-526: send from the head; stop at the first item
    not sent in full; count each item sent.  It returns the channel, the
    context with its counters updated, and the items left. *)
Fixpoint outq_flush_loop (ch : Ch) (ctx : cs_ipcs_conn_context) (q : list outq_item)
    : Ch * cs_ipcs_conn_context * list outq_item :=
  match q with
  | [] => (ch, ctx, [])
  | it :: q' =>
      let '(rc, ch1) := qb_ipcs_event_sendv ch (msg it) in
      if rc =? mlen it then
        outq_flush_loop ch1 (set_queued (decr 32 (queued ctx)) (set_sent (incr 32 (sent ctx)) ctx)) q'
      else (ch1, ctx, q)
  end.

Definition outq_flush (c : nat) (s : ipcs_loop) : option ipcs_loop :=
  match lp_conns s !! c with
  | None => None
  | Some cs =>
      let '(ch1, ctx1, rest) := outq_flush_loop (cs_chan cs) (cs_ctx cs) (outq_head (cs_ctx cs)) in
      match rest with
      | [] => Some (put_conn c (with_ctx (set_sent 0 (set_queued 0 (set_queuing false (set_outq [] ctx1))))
                                  ch1 cs) s)
      | _ => Some (qb_loop_job_add c (put_conn c (with_ctx (set_outq rest ctx1) ch1 cs) s))
      end
  end.

(** The main loop runs the job at the head of its queue. *)
Definition run_next_job (s : ipcs_loop) : option ipcs_loop :=
  match lp_jobs s with
  | [] => None
  | c :: js => outq_flush c (with_jobs js s)
  end.

(** ** Connection lifecycle on the loop *)

(** [cs_ipcs_connection_created]: a fresh context for service [svc] on
    handle [c], with the connection's channel [ch]. *)
Definition connection_created_loop (svc : corosync_service_engine) (c : nat) (ch : Ch)
    (s : ipcs_loop) : ipcs_loop :=
  put_conn c {| cs_ctx := cs_ipcs_connection_created_ctx svc; cs_chan := ch;
                cs_disconnected := false |} s.

(** [cs_ipcs_connection_destroyed]: the context and its queue are freed
    and the handle is gone.  The loop's jobs are left as they are. *)
Definition connection_destroyed_loop (c : nat) (s : ipcs_loop) : ipcs_loop * list freed_block :=
  match lp_conns s !! c with
  | None => (s, [])
  | Some cs => ({| lp_conns := delete c (lp_conns s); lp_jobs := lp_jobs s |},
                cs_ipcs_connection_destroyed (Some (cs_ctx cs)))
  end.

(** ** The step relation *)

Inductive loop_event :=
| EvSend (c : nat) (m : list Byte.byte)
| EvFlush (c : nat)
| EvClient (c : nat)
| EvCreate (c : nat)
| EvDestroy (c : nat).

Inductive loop_step : ipcs_loop -> loop_event -> ipcs_loop -> Prop :=
| ls_send s c iov alloc_ok s' :
    msg_send_or_queue alloc_ok c iov s = Some s' ->
    loop_step s (EvSend c (concat iov)) s'
| ls_flush s c js s' :
    lp_jobs s = c :: js -> outq_flush c (with_jobs js s) = Some s' ->
    loop_step s (EvFlush c) s'
| ls_client s c cs ch' :
    lp_conns s !! c = Some cs -> ev_delivered ch' = ev_delivered (cs_chan cs) ->
    loop_step s (EvClient c) (put_conn c (with_ctx (cs_ctx cs) ch' cs) s)
| ls_create s c svc ch :
    lp_conns s !! c = None -> c ∉ lp_jobs s -> ev_delivered ch = [] ->
    loop_step s (EvCreate c) (connection_created_loop svc c ch s)
| ls_destroy s c :
    is_Some (lp_conns s !! c) ->
    loop_step s (EvDestroy c) (connection_destroyed_loop c s).1.

Inductive loop_run : ipcs_loop -> list loop_event -> ipcs_loop -> Prop :=
| run_nil s : loop_run s [] s
| run_cons s e s1 tr s2 : loop_step s e s1 -> loop_run s1 tr s2 -> loop_run s (e :: tr) s2.

Definition empty_loop : ipcs_loop := {| lp_conns := ∅; lp_jobs := [] |}.

(** ** Invariant and observations *)

Definition jobs_for (c : nat) (js : list nat) : nat := length (filter (fun j => j = c) js).

Definition loop_wf (s : ipcs_loop) : Prop :=
  forall c cs, lp_conns s !! c = Some cs ->
    ctx_wf (cs_ctx cs) /\ jobs_for c (lp_jobs s) = if queuing (cs_ctx cs) then 1%nat else 0%nat.

(** The client's view of a connection: what it received, then what is
    queued for it. *)
Definition stream (s : ipcs_loop) (c : nat) : list (list Byte.byte) :=
  match lp_conns s !! c with
  | Some cs => ev_delivered (cs_chan cs) ++ map msg (outq_head (cs_ctx cs))
  | None => []
  end.

(** The events a trace submits to connection [c]. *)
Definition sent_to (c : nat) (tr : list loop_event) : list (list Byte.byte) :=
  omap (fun e => match e with EvSend c' m => if decide (c' = c) then Some m else None | _ => None end) tr.

Definition lifecycle_of (c : nat) (e : loop_event) : Prop :=
  e = EvCreate c \/ e = EvDestroy c.

End OutQueue.

Arguments ipcs_loop Ch : clear implicits.
Arguments conn_slot Ch : clear implicits.

(** Unfold the loop's state updates and merge repeated updates of one
    connection. *)
Ltac loop_unfold :=
  unfold outq_append, qb_loop_job_add, with_jobs, put_conn, with_ctx, qb_ipcs_disconnect;
  simpl; rewrite ?insert_insert_eq.

(** ** Invariants, observations and concrete inputs *)

(** Bytes of all queued events. *)
Definition queue_bytes (q : list outq_item) : Z :=
  fold_right (fun it acc => Z.of_nat (length (msg it)) + acc) 0 q.

Definition e1 : list Byte.byte := [Byte.x01; Byte.x02].

Definition e2 : list Byte.byte := [Byte.x03].

Definition e3 : list Byte.byte := [Byte.x04; Byte.x05; Byte.x06].

(** A connected client whose buffer is full. *)
Definition ring_full : event_ring := {| er_delivered := []; er_free := 0; er_connected := true |}.

(** The client reading [n] bytes of its buffer (a move of the
    environment). *)
Definition client_reads (c : nat) (n : Z) (s : ipcs_loop event_ring) : option (ipcs_loop event_ring) :=
  match lp_conns s !! c with
  | Some cs => Some (put_conn c (with_ctx (cs_ctx cs) (ring_consume n (cs_chan cs)) cs) s)
  | None => None
  end.

(** What a connection looks like from outside: flag, counters, queued
    events, events received by the client. *)
Definition conn_view (s : ipcs_loop event_ring) (c : nat)
    : option (bool * Z * Z * list (list Byte.byte) * list (list Byte.byte)) :=
  (fun cs => (queuing (cs_ctx cs), queued (cs_ctx cs), sent (cs_ctx cs),
              map msg (outq_head (cs_ctx cs)), er_delivered (cs_chan cs))) <$> lp_conns s !! c.

Definition scenario_s0 : ipcs_loop event_ring :=
  connection_created_loop cpg_engine 1 ring_full empty_loop.

Definition scenario_s3 : option (ipcs_loop event_ring) :=
  (cs_ipcs_dispatch_send true 1 e1 scenario_s0 ≫= cs_ipcs_dispatch_send true 1 e2)
    ≫= cs_ipcs_dispatch_send true 1 e3.

Definition scenario_s4 : option (ipcs_loop event_ring) := scenario_s3 ≫= client_reads 1 100.

Definition scenario_s5 : option (ipcs_loop event_ring) := scenario_s4 ≫= run_next_job.

Definition scenario_trace : list loop_event :=
  [EvCreate 1; EvSend 1 (concat [e1]); EvSend 1 (concat [e2]); EvSend 1 (concat [e3]);
   EvClient 1; EvFlush 1].

Section Invariants.
Context {Ch : Type} `{EventChannelLaws Ch}.
Implicit Types (s : ipcs_loop Ch) (cs : conn_slot Ch).

(** ** Helper lemmas *)

Lemma iov_bytes_concat (iov : list (list Byte.byte)) :
  iov_bytes iov = Z.of_nat (length (concat iov)).
Proof. induction iov as [| b iov IH]; simpl; [done |]. rewrite length_app, IH. lia. Qed.

Lemma send_delivered (ch : Ch) m rc ch1 :
  qb_ipcs_event_sendv ch m = (rc, ch1) ->
  ev_delivered ch1 = if rc =? Z.of_nat (length m) then ev_delivered ch ++ [m] else ev_delivered ch.
Proof. intros E. pose proof (event_send_delivered ch m) as Hd. by rewrite E in Hd. Qed.

Lemma jobs_for_snoc c c' js :
  jobs_for c (js ++ [c']) = (jobs_for c js + if decide (c' = c) then 1 else 0)%nat.
Proof.
  unfold jobs_for. rewrite list.filter_app, length_app, list.filter_cons, list.filter_nil.
  case_decide; simpl; lia.
Qed.

Lemma jobs_for_cons c c' js :
  jobs_for c (c' :: js) = ((if decide (c' = c) then 1 else 0) + jobs_for c js)%nat.
Proof. unfold jobs_for. rewrite list.filter_cons. case_decide; simpl; lia. Qed.

(** The flush loop sends a prefix of the queue: the client's log grows by
    exactly the events removed from the head, and the counters track the
    rest. *)
Lemma flush_loop_spec (ch : Ch) ctx q ch1 ctx1 rest :
  outq_flush_loop ch ctx q = (ch1, ctx1, rest) ->
  Forall item_wf q ->
  queued ctx = u32 (Z.of_nat (length q)) -> 0 <= sent ctx < 2 ^ 32 ->
  ev_delivered ch1 ++ map msg rest = ev_delivered ch ++ map msg q /\
  Forall item_wf rest /\
  queued ctx1 = u32 (Z.of_nat (length rest)) /\ 0 <= sent ctx1 < 2 ^ 32 /\
  queuing ctx1 = queuing ctx /\ outq_head ctx1 = outq_head ctx.
Proof.
  revert ch ctx. induction q as [| it q IH]; simpl; intros ch ctx E Hwf Hq Hs.
  - injection E as <- <- <-. repeat split; auto; lia.
  - destruct (qb_ipcs_event_sendv ch (msg it)) as [rc ch'] eqn:Es.
    apply send_delivered in Es.
    inversion Hwf as [| ? ? Hit Hwf']; subst. unfold item_wf in Hit.
    destruct (Z.eqb_spec rc (mlen it)) as [Hrc | Hrc].
    + rewrite Hrc, Hit, Z.eqb_refl in Es.
      destruct (IH _ _ E Hwf') as (Hdel & Hwr & Hq' & Hs' & Hqg & Ho).
      * simpl. replace (Z.of_nat (length (it :: q))) with (Z.of_nat (length q) + 1) in Hq
          by (simpl; lia).
        rewrite Hq. unfold decr. autorewrite with cs_wrap. f_equal. lia.
      * apply wrap_range. lia.
      * rewrite Hdel, Es, <- app_assoc. repeat split; auto; lia.
    + injection E as <- <- <-. rewrite Hit in Hrc.
      rewrite (proj2 (Z.eqb_neq _ _) Hrc) in Es. rewrite Es. repeat split; auto; lia.
Qed.

Lemma jobs_for_not_in c js : c ∉ js -> jobs_for c js = 0%nat.
Proof.
  unfold jobs_for. induction js as [| j js IH]; intros Hc; [done |].
  rewrite list.filter_cons. apply not_elem_of_cons in Hc as [Hne Hc'].
  case_decide; [congruence | by apply IH].
Qed.

(** Updating one connection keeps the invariant of all the others. *)
Lemma loop_wf_put s c cs' js' :
  loop_wf s ->
  (forall c', c' <> c -> jobs_for c' js' = jobs_for c' (lp_jobs s)) ->
  ctx_wf (cs_ctx cs') ->
  jobs_for c js' = (if queuing (cs_ctx cs') then 1 else 0)%nat ->
  loop_wf {| lp_conns := <[c:=cs']> (lp_conns s); lp_jobs := js' |}.
Proof.
  intros Hwf Hjs Hctx Hc c0 cs0. simpl. rewrite lookup_insert. case_decide as Heq.
  - intros [= <-]. subst. auto.
  - intros E. destruct (Hwf _ _ E) as [Hw Hj]. rewrite Hjs by congruence. auto.
Qed.

(** Appending an event keeps a queuing context well formed. *)
Lemma append_ctx_wf ctx (iov : list (list Byte.byte)) :
  queuing ctx = true -> ctx_wf ctx ->
  ctx_wf (set_queued (incr 32 (queued ctx))
            (set_outq (outq_head ctx ++ [{| msg := concat iov; mlen := iov_bytes iov |}]) ctx)).
Proof.
  unfold ctx_wf. intros Hq (Hqd & Hs & Hit). simpl. rewrite Hq in *. split; [| split; [done |]].
  - rewrite Hqd. by apply incr_wrap_length.
  - apply Forall_app. split; [done |]. constructor; [| constructor].
    unfold item_wf. simpl. apply iov_bytes_concat.
Qed.

Lemma ctx_wf_idle ctx :
  queuing ctx = false -> outq_head ctx = [] -> queued ctx = 0 -> 0 <= sent ctx < 2 ^ 32 ->
  ctx_wf ctx.
Proof. intros Hq Ho Hqd Hs. unfold ctx_wf. rewrite Hq, Ho. auto. Qed.

Lemma msg_send_or_queue_wf alloc_ok c iov s s' :
  loop_wf s -> msg_send_or_queue alloc_ok c iov s = Some s' -> loop_wf s'.
Proof.
  intros Hwf. unfold msg_send_or_queue. destruct (lp_conns s !! c) as [cs |] eqn:Ec; [| done].
  destruct (Hwf c cs Ec) as [Hctx Hj]. pose proof Hctx as (Hq & Hs & Hit).
  destruct (queuing (cs_ctx cs)) eqn:Eq.
  - intros [= <-]. destruct alloc_ok; loop_unfold; apply loop_wf_put; auto; simpl.
    + by apply append_ctx_wf.
    + by rewrite Eq.
    + by rewrite Eq.
  - destruct Hq as [Ho Hq0]. rewrite Ho.
    destruct (qb_ipcs_event_sendv (cs_chan cs) (concat iov)) as [rc ch1].
    destruct (rc =? iov_bytes iov); [| destruct (rc =? - EAGAIN)];
      intros [= <-]; [| destruct alloc_ok |]; loop_unfold; apply loop_wf_put; auto.
    all: cbn [cs_ctx queuing queued outq_head sent set_sent set_queued set_queuing set_outq].
    all: try (intros c' Hc'; rewrite jobs_for_snoc; case_decide; [congruence | lia]).
    all: try (rewrite ?Eq, ?jobs_for_snoc, Hj; simpl; try case_decide; congruence).
    + apply ctx_wf_idle; simpl; auto. apply wrap_range. lia.
    + refine (append_ctx_wf (set_queuing true (set_sent 0 (set_queued 0 (cs_ctx cs)))) iov eq_refl _).
      unfold ctx_wf. simpl. rewrite Ho. auto with lia.
    + unfold ctx_wf. simpl. rewrite Ho. auto with lia.
Qed.

(** A connection with a pending job is queuing, and has no other job. *)
Lemma job_head_queuing s c js cs :
  loop_wf s -> lp_jobs s = c :: js -> lp_conns s !! c = Some cs ->
  queuing (cs_ctx cs) = true /\ jobs_for c js = 0%nat.
Proof.
  intros Hwf Hj Ec. destruct (Hwf c cs Ec) as [_ Hc]. rewrite Hj, jobs_for_cons in Hc.
  rewrite decide_True in Hc by done. destruct (queuing (cs_ctx cs)); split; auto; lia.
Qed.

Lemma outq_flush_wf s c js s' :
  loop_wf s -> lp_jobs s = c :: js -> outq_flush c (with_jobs js s) = Some s' -> loop_wf s'.
Proof.
  intros Hwf Hj. unfold outq_flush. simpl. destruct (lp_conns s !! c) as [cs |] eqn:Ec; [| done].
  destruct (job_head_queuing s c js cs Hwf Hj Ec) as [Eq Hjs].
  destruct (Hwf c cs Ec) as [(Hq & Hs & Hit) _]. rewrite Eq in Hq.
  destruct (outq_flush_loop (cs_chan cs) (cs_ctx cs) (outq_head (cs_ctx cs))) as [[ch1 ctx1] rest] eqn:El.
  destruct (flush_loop_spec _ _ _ _ _ _ El Hit Hq Hs) as (_ & Hwr & Hq' & Hs' & Hqg & _).
  assert (Hother : forall c', c' <> c -> jobs_for c' js = jobs_for c' (lp_jobs s)).
  { intros c' Hc'. rewrite Hj, jobs_for_cons, decide_False by congruence. done. }
  destruct rest as [| it rest]; intros [= <-]; loop_unfold.
  - apply loop_wf_put; auto; simpl.
    apply ctx_wf_idle; simpl; auto with lia.
  - apply loop_wf_put; simpl; auto.
    + intros c' Hc'. rewrite jobs_for_snoc, decide_False by congruence. rewrite Hother; [lia | done].
    + unfold ctx_wf. simpl. rewrite Hqg, Eq. auto.
    + rewrite jobs_for_snoc, Hjs, decide_True by done. by rewrite Hqg, Eq.
Qed.

Lemma loop_step_wf s e s' : loop_step s e s' -> loop_wf s -> loop_wf s'.
Proof.
  intros Hstep Hwf. destruct Hstep as [s c iov alloc_ok s' E | s c js s' Hj E | s c cs ch' Ec Hd
                                     | s c svc ch Ec Hc Hd | s c Ec].
  - eapply msg_send_or_queue_wf; eauto.
  - eapply outq_flush_wf; eauto.
  - destruct (Hwf c cs Ec). loop_unfold. apply loop_wf_put; auto.
  - unfold connection_created_loop, put_conn. apply loop_wf_put; auto.
    + apply connection_created_wf.
    + by apply jobs_for_not_in.
  - unfold connection_destroyed_loop. destruct Ec as [cs Ec]. rewrite Ec. simpl.
    intros c0 cs0. simpl. rewrite lookup_delete. case_decide; [done |]. apply Hwf.
Qed.

Lemma loop_run_wf s tr s' : loop_run s tr s' -> loop_wf s -> loop_wf s'.
Proof. induction 1; eauto using loop_step_wf. Qed.

Lemma empty_loop_wf : loop_wf (empty_loop (Ch := Ch)).
Proof. intros c cs. simpl. by rewrite lookup_empty. Qed.

(** ** Ordering *)

Lemma stream_unchanged s s' c : lp_conns s' !! c = lp_conns s !! c -> stream s' c = stream s c.
Proof. intros E. unfold stream. by rewrite E. Qed.

Lemma stream_put_ne s c0 cs c : c0 <> c -> stream (put_conn c0 cs s) c = stream s c.
Proof. intros Hne. apply stream_unchanged. simpl. by apply lookup_insert_ne. Qed.

Lemma send_stream alloc_ok c0 iov s s' c :
  loop_wf s -> msg_send_or_queue alloc_ok c0 iov s = Some s' ->
  stream s' c = stream s c \/ (c0 = c /\ stream s' c = stream s c ++ [concat iov]).
Proof.
  intros Hwf. unfold msg_send_or_queue. destruct (lp_conns s !! c0) as [cs |] eqn:Ec; [| done].
  destruct (decide (c0 = c)) as [<- | Hne].
  2: { destruct (queuing (cs_ctx cs)); [| destruct (outq_head (cs_ctx cs)); [| done];
         destruct (qb_ipcs_event_sendv _ _) as [rc ch1];
         destruct (rc =? iov_bytes iov); [| destruct (rc =? - EAGAIN)]];
       intros [= <-]; left; loop_unfold; try destruct alloc_ok;
       apply stream_unchanged; simpl; rewrite ?lookup_insert_ne; done. }
  unfold stream. destruct (Hwf c0 cs Ec) as [(Hq & _) _].
  destruct (queuing (cs_ctx cs)) eqn:Eq.
  - intros [= <-]. destruct alloc_ok; loop_unfold; rewrite lookup_insert_eq, Ec; simpl.
    + right. rewrite map_app, app_assoc. done.
    + by left.
  - destruct Hq as [Ho _]. rewrite Ho.
    destruct (qb_ipcs_event_sendv (cs_chan cs) (concat iov)) as [rc ch1] eqn:Es.
    apply send_delivered in Es. rewrite <- iov_bytes_concat in Es.
    destruct (Z.eqb_spec rc (iov_bytes iov)) as [-> | Hrc].
    + intros [= <-]. right. loop_unfold. rewrite lookup_insert_eq, Ec, Ho. simpl.
      rewrite Es, Ho. simpl. split; [done |]. by rewrite !app_nil_r.
    + destruct (rc =? - EAGAIN); intros [= <-]; [destruct alloc_ok |]; loop_unfold;
        rewrite lookup_insert_eq, Ec; simpl; rewrite Es, ?Ho; simpl;
        [right; split; [done |] | left | left]; by rewrite ?app_nil_r.
Qed.

Lemma flush_stream s c0 js s' c :
  loop_wf s -> lp_jobs s = c0 :: js -> outq_flush c0 (with_jobs js s) = Some s' ->
  stream s' c = stream s c.
Proof.
  intros Hwf Hj. unfold outq_flush. simpl. destruct (lp_conns s !! c0) as [cs |] eqn:Ec; [| done].
  destruct (job_head_queuing s c0 js cs Hwf Hj Ec) as [Eq _].
  destruct (Hwf c0 cs Ec) as [(Hq & Hs & Hit) _]. rewrite Eq in Hq.
  destruct (outq_flush_loop (cs_chan cs) (cs_ctx cs) (outq_head (cs_ctx cs))) as [[ch1 ctx1] rest] eqn:El.
  destruct (flush_loop_spec _ _ _ _ _ _ El Hit Hq Hs) as (Hdel & _).
  destruct (decide (c0 = c)) as [<- | Hne].
  - destruct rest; intros [= <-]; unfold stream; loop_unfold; rewrite lookup_insert_eq, Ec;
      simpl; rewrite <- Hdel; done.
  - destruct rest; intros [= <-]; loop_unfold; apply stream_unchanged; simpl;
      by rewrite lookup_insert_ne.
Qed.

Lemma sent_to_cons c e tr : sent_to c (e :: tr) = sent_to c [e] ++ sent_to c tr.
Proof. unfold sent_to. simpl. by destruct e; try case_decide. Qed.

Lemma step_stream s e s' c :
  loop_wf s -> loop_step s e s' -> ~ lifecycle_of c e ->
  exists l, stream s' c = stream s c ++ l /\ l `sublist_of` sent_to c [e].
Proof.
  intros Hwf Hstep Hlc. destruct Hstep as [s c0 iov alloc_ok s' E | s c0 js s' Hj E | s c0 cs ch' Ec Hd
                                          | s c0 svc ch Ec Hc Hd | s c0 Ec].
  - destruct (send_stream _ _ _ _ _ c Hwf E) as [-> | [<- ->]].
    + exists []. rewrite app_nil_r. split; [done | apply sublist_nil_l].
    + exists [concat iov]. split; [done |]. unfold sent_to. simpl. by rewrite decide_True.
  - exists []. rewrite app_nil_r. split; [eapply flush_stream; eauto | apply sublist_nil_l].
  - exists []. rewrite app_nil_r. split; [| apply sublist_nil_l].
    destruct (decide (c0 = c)) as [<- | Hne]; [| by apply stream_put_ne].
    unfold stream. loop_unfold. rewrite lookup_insert_eq, Ec. simpl. by rewrite Hd.
  - exists []. rewrite app_nil_r. split; [| apply sublist_nil_l].
    apply stream_put_ne. intros ->. apply Hlc. by left.
  - exists []. rewrite app_nil_r. split; [| apply sublist_nil_l].
    unfold connection_destroyed_loop. destruct Ec as [cs Ec]. rewrite Ec. simpl.
    apply stream_unchanged. simpl. rewrite lookup_delete_ne; [done |].
    intros ->. apply Hlc. by right.
Qed.

(** ** A destroyed connection's flush job *)

(** What a send changes: the sending connection (which must be live) and
    the tail of the job queue. *)
Lemma send_frame alloc_ok c0 iov s s' :
  msg_send_or_queue alloc_ok c0 iov s = Some s' ->
  is_Some (lp_conns s !! c0) /\ (forall d, d <> c0 -> lp_conns s' !! d = lp_conns s !! d) /\
  exists js, lp_jobs s' = lp_jobs s ++ js.
Proof.
  unfold msg_send_or_queue. destruct (lp_conns s !! c0) as [cs |] eqn:Ec; [| done].
  intros E. split; [by eexists |].
  destruct (queuing _); [| destruct (outq_head _); [| done];
    destruct (qb_ipcs_event_sendv _ _) as [rc ch1]; destruct (rc =? _); [| destruct (rc =? _)]];
    injection E as <-; try destruct alloc_ok; loop_unfold;
    (split; [intros d Hd; by rewrite ?lookup_insert_ne by congruence |]);
    first [exists []; by rewrite app_nil_r | by eexists].
Qed.

(** What a flush changes: the flushed connection (which must be live) and
    the tail of the job queue. *)
Lemma flush_frame c0 s s' :
  outq_flush c0 s = Some s' ->
  is_Some (lp_conns s !! c0) /\ (forall d, d <> c0 -> lp_conns s' !! d = lp_conns s !! d) /\
  exists js, lp_jobs s' = lp_jobs s ++ js.
Proof.
  unfold outq_flush. destruct (lp_conns s !! c0) as [cs |] eqn:Ec; [| done].
  intros E. split; [by eexists |].
  destruct (outq_flush_loop _ _ _) as [[ch1 ctx1] [| it rest]]; injection E as <-; loop_unfold;
    (split; [intros d Hd; by rewrite ?lookup_insert_ne by congruence |]);
    first [exists []; by rewrite app_nil_r | by eexists].
Qed.

(** A job for a handle with no connection stays pending in every step:
    nothing can run it (its [outq_flush] has no connection), and no
    connection can be created on the handle. *)
Lemma stale_job_step c s e s' :
  lp_conns s !! c = None -> c ∈ lp_jobs s -> loop_step s e s' ->
  lp_conns s' !! c = None /\ c ∈ lp_jobs s'.
Proof.
  intros Hn Hj Hstep.
  destruct Hstep as [s c0 iov alloc_ok s' E | s c0 js s' Hj0 E | s c0 cs ch' Ec Hd
                    | s c0 svc ch Ec Hc Hd | s c0 [cs Ec]].
  - destruct (send_frame _ _ _ _ _ E) as ([cs Ec] & Hl & [js' ->]).
    rewrite Hl by congruence. split; [done | by apply elem_of_app; left].
  - destruct (flush_frame _ _ _ E) as ([cs Ec] & Hl & [js' ->]). simpl in *.
    rewrite Hj0 in Hj. apply elem_of_cons in Hj as [-> | Hj]; [congruence |].
    rewrite Hl by congruence. split; [done | by apply elem_of_app; left].
  - loop_unfold. rewrite lookup_insert_ne by congruence. done.
  - unfold connection_created_loop, put_conn. simpl.
    rewrite lookup_insert_ne by (intros ->; contradiction). done.
  - unfold connection_destroyed_loop. rewrite Ec. simpl.
    rewrite lookup_delete_ne by congruence. done.
Qed.

Lemma stale_job_run c s tr s' :
  lp_conns s !! c = None -> c ∈ lp_jobs s -> loop_run s tr s' ->
  lp_conns s' !! c = None /\ c ∈ lp_jobs s'.
Proof.
  intros Hn Hj Hrun. revert Hn Hj.
  induction Hrun as [| s e s1 tr s2 Hstep _ IH]; [done |].
  intros Hn Hj. destruct (stale_job_step c s e s1 Hn Hj Hstep). by apply IH.
Qed.

(** ** Theorems *)

(** C9. Invariant of the queueing layer.  In every state the main loop
    reaches from an empty one, whatever the channels do, each live
    connection satisfies two things.  Its context is well formed: when not
    queuing, the queue is empty and [queued] is 0; when queuing, [queued]
    is the queue length modulo 2^32; [sent] is in range; every item records
    its own length.  And it has exactly one pending [outq_flush] job when
    queuing and none otherwise. *)
Theorem reachable_loop_wf tr s : loop_run empty_loop tr s -> loop_wf s.
Proof. intros Hrun. eapply loop_run_wf; [exact Hrun | apply empty_loop_wf]. Qed.

(** C10. Events reach a client in the order they were submitted.  Take any
    run from a well-formed state in which connection [c] is neither created
    nor destroyed.  The client's stream (what it received, then what is
    queued for it) only grows, and what it gains is a subsequence of the
    events submitted to [c], in submission order: nothing is reordered,
    duplicated or invented. *)
Theorem events_in_order s tr s' c :
  loop_wf s -> loop_run s tr s' -> Forall (fun e => ~ lifecycle_of c e) tr ->
  exists l, stream s' c = stream s c ++ l /\ l `sublist_of` sent_to c tr.
Proof.
  intros Hwf Hrun. revert Hwf. induction Hrun as [s | s e s1 tr s2 Hstep Hrun IH]; intros Hwf Hlc.
  - exists []. rewrite app_nil_r. split; [done | apply sublist_nil_l].
  - inversion Hlc as [| ? ? He Htr]; subst.
    destruct (step_stream s e s1 c Hwf Hstep He) as (l1 & E1 & S1).
    destruct (IH (loop_step_wf s e s1 Hstep Hwf) Htr) as (l2 & E2 & S2).
    exists (l1 ++ l2). rewrite E2, E1, app_assoc. split; [done |].
    rewrite sent_to_cons. by apply sublist_app.
Qed.

(** C11. The [assert (list_empty (&context->outq_head))] of
    [msg_send_or_queue] never fires.  On a well-formed loop, sending to a
    live connection is always defined, whatever the channel answers and
    whether or not allocation succeeds. *)
Theorem send_never_asserts s c alloc_ok iov :
  loop_wf s -> is_Some (lp_conns s !! c) -> is_Some (msg_send_or_queue alloc_ok c iov s).
Proof.
  intros Hwf [cs Ec]. unfold msg_send_or_queue. rewrite Ec.
  destruct (Hwf c cs Ec) as [(Hq & _) _].
  destruct (queuing (cs_ctx cs)); [done |]. destruct Hq as [-> _].
  destruct (qb_ipcs_event_sendv _ _) as [rc ch1].
  destruct (rc =? iov_bytes iov); [| destruct (rc =? - EAGAIN)]; done.
Qed.

(** C12. The spec's testable property 4.  An event that would block on a
    connection that is not queuing switches the connection to queuing.  It
    resets the counters, adds one [outq_flush] job, and keeps a copy of the
    whole event, byte for byte, as the only queued item. *)
Theorem would_block_queues s c cs iov ch1 :
  lp_conns s !! c = Some cs -> queuing (cs_ctx cs) = false -> outq_head (cs_ctx cs) = [] ->
  qb_ipcs_event_sendv (cs_chan cs) (concat iov) = (- EAGAIN, ch1) ->
  exists s' cs', msg_send_or_queue true c iov s = Some s' /\
    lp_conns s' !! c = Some cs' /\ lp_jobs s' = lp_jobs s ++ [c] /\ cs_chan cs' = ch1 /\
    queuing (cs_ctx cs') = true /\ queued (cs_ctx cs') = 1 /\ sent (cs_ctx cs') = 0 /\
    outq_head (cs_ctx cs') = [{| msg := concat iov; mlen := Z.of_nat (length (concat iov)) |}].
Proof.
  intros Ec Eq Ho Es. unfold msg_send_or_queue. rewrite Ec, Eq, Ho, Es.
  assert (Hb : (- EAGAIN =? iov_bytes iov) = false).
  { apply Z.eqb_neq. rewrite iov_bytes_concat. unfold EAGAIN. lia. }
  rewrite Hb, Z.eqb_refl. loop_unfold. eexists _, _. split; [reflexivity |].
  cbn [lp_conns lp_jobs]. rewrite lookup_insert_eq. split; [reflexivity |]. simpl.
  rewrite Ho, iov_bytes_concat.
  repeat split; reflexivity.
Qed.
(** C15. Destroying a connection does not cancel its flush job.  The spec
    (section 5) requires that a connection destroyed while queuing cancels
    its pending drain job, so that no job refers to a destroyed
    connection.  [cs_ipcs_connection_destroyed] frees the context but
    leaves the [outq_flush] job on the main loop.  Take any well-formed
    state and a live connection that is queuing, and destroy it.  In every
    state the loop reaches afterwards, whatever it does, the handle has no
    connection and still has a pending job, and when that job comes to the
    head of the queue, running it touches the freed connection ([None]).
    (The model creates connections only on handles without a pending job,
    so the stale job also keeps its handle from being reused.) *)
Theorem destroy_keeps_flush_job s c cs tr s2 :
  loop_wf s -> lp_conns s !! c = Some cs -> queuing (cs_ctx cs) = true ->
  loop_run (connection_destroyed_loop c s).1 tr s2 ->
  loop_step s (EvDestroy c) (connection_destroyed_loop c s).1 /\
  lp_conns s2 !! c = None /\ c ∈ lp_jobs s2 /\
  (forall js, lp_jobs s2 = c :: js -> run_next_job s2 = None).
Proof.
  intros Hwf Ec Eq Hrun. destruct (Hwf c cs Ec) as [_ Hjc]. rewrite Eq in Hjc.
  assert (Hin : c ∈ lp_jobs s).
  { destruct (decide (c ∈ lp_jobs s)) as [? | Hn]; [done |]. rewrite jobs_for_not_in in Hjc; done. }
  destruct (stale_job_run c (connection_destroyed_loop c s).1 tr s2) as [Hn Hj]; [| | exact Hrun |].
  - unfold connection_destroyed_loop. rewrite Ec. apply lookup_delete_eq.
  - unfold connection_destroyed_loop. by rewrite Ec.
  - split; [constructor; by eexists |]. split; [done |]. split; [done |].
    intros js Hjs. unfold run_next_job. rewrite Hjs. unfold outq_flush. simpl. by rewrite Hn.
Qed.
End Invariants.

(** ** The concrete client ring *)

(** On a connected ring with room for the whole queue, the flush loop sends
    every item. *)
Lemma ring_flush_loop_all (r : event_ring) ctx q :
  er_connected r = true -> Forall item_wf q -> queue_bytes q <= er_free r ->
  exists r1 ctx1, outq_flush_loop r ctx q = (r1, ctx1, []) /\
                  er_delivered r1 = er_delivered r ++ map msg q.
Proof.
  revert r ctx. induction q as [| it q IH]; intros r ctx Hc Hwf Hroom.
  - exists r, ctx. by rewrite app_nil_r.
  - inversion Hwf as [| ? ? Hit Hwf']; subst. unfold item_wf in Hit. simpl in Hroom.
    cbn [outq_flush_loop qb_ipcs_event_sendv event_ring_channel]. unfold ring_send. rewrite Hc.
    assert (Hq0 : 0 <= queue_bytes q).
    { clear. induction q; simpl; lia. }
    destruct (Z.leb_spec (Z.of_nat (length (msg it))) (er_free r)); [| lia].
    cbn [negb fst snd]. rewrite Hit, Z.eqb_refl.
    edestruct IH as (r1 & ctx1 & E & Hd); [| exact Hwf' | | exists r1, ctx1; split; [exact E |]].
    + done.
    + simpl. lia.
    + rewrite Hd. simpl. by rewrite <- app_assoc.
Qed.

(** A flush on a client that has room empties the queue.  When the job
    at the head of the main loop is a connection's flush, and its client is
    connected with room for every queued byte, the job sends all queued
    events, in order, to the client.  The connection leaves queuing mode
    with both counters reset, and the job is not rescheduled. *)
Theorem flush_with_room (s : ipcs_loop event_ring) c js cs :
  loop_wf s -> lp_jobs s = c :: js -> lp_conns s !! c = Some cs ->
  er_connected (cs_chan cs) = true -> queue_bytes (outq_head (cs_ctx cs)) <= er_free (cs_chan cs) ->
  exists s' cs', run_next_job s = Some s' /\ lp_conns s' !! c = Some cs' /\ lp_jobs s' = js /\
    queuing (cs_ctx cs') = false /\ outq_head (cs_ctx cs') = [] /\
    queued (cs_ctx cs') = 0 /\ sent (cs_ctx cs') = 0 /\
    er_delivered (cs_chan cs') = er_delivered (cs_chan cs) ++ map msg (outq_head (cs_ctx cs)).
Proof.
  intros Hwf Hj Ec Hc Hroom. destruct (Hwf c cs Ec) as [(_ & _ & Hit) _].
  destruct (ring_flush_loop_all (cs_chan cs) (cs_ctx cs) _ Hc Hit Hroom) as (r1 & ctx1 & El & Hd).
  unfold run_next_job. rewrite Hj. unfold outq_flush. simpl. rewrite Ec, El.
  loop_unfold. eexists _, _. split; [reflexivity |]. cbn [lp_conns lp_jobs].
  rewrite lookup_insert_eq. repeat split; done.
Qed.

(** ** Concrete runs *)

(** The spec's scenario 7.  Connection 1 sends e1, e2, e3 while its
    client's buffer is full.  All three become queue items, in order, with
    [queued] = 3 and one flush job.  The client then reads its buffer and
    the flush job runs.  The client has received e1, e2, e3 in that order,
    the connection is no longer queuing, both counters are 0, and no job
    is left. *)
Theorem scenario7 :
  (scenario_s3 ≫= fun s => conn_view s 1) = Some (true, 3, 0, [e1; e2; e3], []) /\
  (lp_jobs <$> scenario_s3) = Some [1%nat] /\
  (scenario_s5 ≫= fun s => conn_view s 1) = Some (false, 0, 0, [], [e1; e2; e3]) /\
  (lp_jobs <$> scenario_s5) = Some [].
Proof. repeat split; vm_compute; reflexivity. Qed.

(** The run of the spec's scenario 7: connection 1 is created on a full
    client, three events are sent, the client reads 100 bytes, and the
    flush job runs. *)
Lemma scenario_run : exists s, loop_run empty_loop scenario_trace s.
Proof.
  eexists. unfold scenario_trace.
  eapply run_cons. { apply (ls_create empty_loop 1 cpg_engine ring_full); [reflexivity | | reflexivity].
                     apply not_elem_of_nil. }
  eapply run_cons. { apply (ls_send _ 1 [e1] true). reflexivity. }
  eapply run_cons. { apply (ls_send _ 1 [e2] true). reflexivity. }
  eapply run_cons. { apply (ls_send _ 1 [e3] true). reflexivity. }
  eapply run_cons. { eapply (ls_client _ 1 _ (ring_consume 100 ring_full)); reflexivity. }
  eapply run_cons. { eapply ls_flush; reflexivity. }
  apply run_nil.
Qed.

(** ** Witnesses *)

Lemma scenario_s0_wf : loop_wf scenario_s0.
Proof.
  eapply loop_step_wf; [| apply empty_loop_wf].
  apply ls_create; [reflexivity | apply not_elem_of_nil | reflexivity].
Qed.

Lemma scenario_tail_run :
  exists s, loop_run scenario_s0 (tail scenario_trace) s.
Proof.
  eexists. simpl.
  eapply run_cons. { apply (ls_send _ 1 [e1] true). reflexivity. }
  eapply run_cons. { apply (ls_send _ 1 [e2] true). reflexivity. }
  eapply run_cons. { apply (ls_send _ 1 [e3] true). reflexivity. }
  eapply run_cons. { eapply (ls_client _ 1 _ (ring_consume 100 ring_full)); reflexivity. }
  eapply run_cons. { eapply ls_flush; reflexivity. }
  apply run_nil.
Qed.

Lemma reachable_loop_wf_witness :
  exists s, loop_run empty_loop scenario_trace s /\ loop_wf s.
Proof.
  destruct scenario_run as [s Hrun]. exists s. split; [exact Hrun |].
  exact (reachable_loop_wf scenario_trace s Hrun).
Defined.

Lemma events_in_order_witness :
  exists s l, loop_run scenario_s0 (tail scenario_trace) s /\
    stream s 1 = stream scenario_s0 1 ++ l /\ l `sublist_of` sent_to 1 (tail scenario_trace).
Proof.
  destruct scenario_tail_run as [s Hrun]. exists s.
  destruct (events_in_order scenario_s0 (tail scenario_trace) s 1 scenario_s0_wf Hrun) as [l Hl].
  - repeat constructor; intros [He | He]; discriminate.
  - exists l. split; [exact Hrun | exact Hl].
Defined.

Lemma send_never_asserts_witness : is_Some (msg_send_or_queue true 1 [e1] scenario_s0).
Proof.
  apply send_never_asserts; [exact scenario_s0_wf | eexists; reflexivity].
Defined.

Lemma would_block_queues_witness :
  exists s' cs', msg_send_or_queue true 1 [e1] scenario_s0 = Some s' /\
    lp_conns s' !! 1%nat = Some cs' /\ lp_jobs s' = [1%nat] /\ cs_chan cs' = ring_full /\
    queuing (cs_ctx cs') = true /\ queued (cs_ctx cs') = 1 /\ sent (cs_ctx cs') = 0 /\
    outq_head (cs_ctx cs') = [{| msg := concat [e1]; mlen := Z.of_nat (length (concat [e1])) |}].
Proof.
  apply (would_block_queues scenario_s0 1
           {| cs_ctx := cs_ipcs_connection_created_ctx cpg_engine; cs_chan := ring_full;
              cs_disconnected := false |} [e1] ring_full); reflexivity.
Defined.

Lemma scenario_s4_run :
  exists s4, scenario_s4 = Some s4 /\ loop_run scenario_s0 (take 4 (tail scenario_trace)) s4.
Proof.
  eexists. split; [reflexivity |]. simpl.
  eapply run_cons. { apply (ls_send _ 1 [e1] true). reflexivity. }
  eapply run_cons. { apply (ls_send _ 1 [e2] true). reflexivity. }
  eapply run_cons. { apply (ls_send _ 1 [e3] true). reflexivity. }
  eapply run_cons. { eapply (ls_client _ 1 _ (ring_consume 100 ring_full)); reflexivity. }
  apply run_nil.
Qed.

Lemma flush_with_room_witness :
  exists s4 cs s' cs', scenario_s4 = Some s4 /\ lp_conns s4 !! 1%nat = Some cs /\
    run_next_job s4 = Some s' /\ lp_conns s' !! 1%nat = Some cs' /\ lp_jobs s' = [] /\
    queuing (cs_ctx cs') = false /\ outq_head (cs_ctx cs') = [] /\
    queued (cs_ctx cs') = 0 /\ sent (cs_ctx cs') = 0 /\
    er_delivered (cs_chan cs') = er_delivered (cs_chan cs) ++ map msg (outq_head (cs_ctx cs)).
Proof.
  destruct scenario_s4_run as (s4 & E4 & Hrun).
  assert (Hwf : loop_wf s4) by exact (loop_run_wf _ _ _ Hrun scenario_s0_wf).
  assert (Hl : is_Some (lp_conns s4 !! 1%nat)) by (vm_compute in E4; injection E4 as <-; eexists; reflexivity).
  destruct Hl as [cs Ec].
  destruct (flush_with_room s4 1 [] cs Hwf) as (s' & cs' & Hr); [| exact Ec | | |].
  - vm_compute in E4. by injection E4 as <-.
  - vm_compute in E4. injection E4 as <-. vm_compute in Ec. injection Ec as <-. reflexivity.
  - vm_compute in E4. injection E4 as <-. vm_compute in Ec. injection Ec as <-. vm_compute. discriminate.
  - exists s4, cs, s', cs'. split; [exact E4 |]. split; [exact Ec |]. exact Hr.
Defined.

Lemma scenario_s3_run :
  exists s3, scenario_s3 = Some s3 /\ loop_run scenario_s0 (take 3 (tail scenario_trace)) s3.
Proof.
  eexists. split; [reflexivity |]. simpl.
  eapply run_cons. { apply (ls_send _ 1 [e1] true). reflexivity. }
  eapply run_cons. { apply (ls_send _ 1 [e2] true). reflexivity. }
  eapply run_cons. { apply (ls_send _ 1 [e3] true). reflexivity. }
  apply run_nil.
Qed.

Lemma destroy_keeps_flush_job_witness :
  exists s3 cs, scenario_s3 = Some s3 /\ lp_conns s3 !! 1%nat = Some cs /\
    loop_step s3 (EvDestroy 1) (connection_destroyed_loop 1 s3).1 /\
    lp_conns (connection_destroyed_loop 1 s3).1 !! 1%nat = None /\
    1%nat ∈ lp_jobs (connection_destroyed_loop 1 s3).1 /\
    run_next_job (connection_destroyed_loop 1 s3).1 = None.
Proof.
  destruct scenario_s3_run as (s3 & E3 & Hrun).
  assert (Hwf : loop_wf s3) by exact (loop_run_wf _ _ _ Hrun scenario_s0_wf).
  vm_compute in E3. injection E3 as <-.
  eexists _, _. split; [reflexivity |]. split; [reflexivity |].
  destruct (destroy_keeps_flush_job _ 1 _ [] _ Hwf eq_refl eq_refl (run_nil _)) as (Hs & Hn & Hj & Hr).
  split; [exact Hs |]. split; [exact Hn |]. split; [exact Hj |]. apply (Hr []). reflexivity.
Defined.
