(* ===== verification/FlowControl.v ===== *)
(** * The flow-control supervisor ([cs_ipcs_check_for_flow_control], ipc_glue.c)

    Three process-wide inputs are kept in statics of ipc_glue.c: the quorum
    flag, the totem queue level and the sync flag.  [cs_ipcs_fc_quorum_changed],
    [cs_ipcs_totem_queue_level_changed] and [cs_ipcs_sync_state_changed] set
    one of them and recompute.  [cs_ipcs_check_for_flow_control] walks the
    [SERVICE_HANDLER_MAXIMUM_COUNT] slots of the service table.  For each
    service with an IPC server, it decides whether flow control is
    enabled: it is disabled only when the cluster is quorate or the service
    tolerates inquorate operation, and the level is not critical and no
    sync runs.  When enabled, the code sets the server's rate limit to
    [QB_IPCS_RATE_OFF] (libqb then stops reading requests) and arms a 1 ms
    timer that calls [corosync_recheck_the_q_level].  Otherwise it sets
    FAST, NORMAL or SLOW by level.  [corosync_recheck_the_q_level] (main.c)
    asks totem to re-evaluate the level and re-arms its own timer while the
    level is critical.

    The recomputation returns the list of its effects, in order: rate-limit
    calls and timer registrations.  [fc_system] applies them to the rate
    of each server and to a count of pending recheck timers.  The step
    relation [fc_step] is the sequence of notifications and timer
    expiries. *)

From Stdlib Require Import ZArith Lia.
From stdpp Require Import base list gmap fin_maps numbers.
From S2P Require Import Prelude CoroDefs.

Open Scope Z_scope.

(** ** State *)

(** [ipc_fc_is_quorate], [ipc_fc_totem_queue_level], [ipc_fc_sync_in_process]. *)
Record fc_state := {
  ipc_fc_is_quorate : Z;
  ipc_fc_totem_queue_level : totem_q_level;
  ipc_fc_sync_in_process : Z
}.

(** One slot of the service table: [ais_service[i]] and whether
    [ipcs_mapper[i].inst] is set. *)
Record service_slot := {
  ais_service_entry : option corosync_service_engine;
  ipcs_mapper_inst : bool
}.

Inductive fc_effect :=
| RequestRateLimit (i : nat) (r : qb_ipcs_rate_limit)
| RecheckTimerAdd.

#[export] Instance fc_effect_eq_dec : EqDecision fc_effect.
Proof. solve_decision. Defined.

(** ** The recomputation *)

(** Lines 736-747: flow control stays enabled unless the cluster is quorate
    (or the service tolerates inquorate operation) and the queue level is
    not critical and no sync is in progress. *)
Definition fc_enabled (st : fc_state) (svc : corosync_service_engine) : bool :=
  negb (((ipc_fc_is_quorate st =? 1) || (allow_inquorate svc =? CS_LIB_ALLOW_INQUORATE)) &&
        (bool_decide (ipc_fc_totem_queue_level st <> TOTEM_Q_LEVEL_CRITICAL) &&
         (ipc_fc_sync_in_process st =? 0))).

(** Lines 748-759 for service [i]. *)
Definition flow_control_service (st : fc_state) (i : nat) (svc : corosync_service_engine)
    : list fc_effect :=
  if fc_enabled st svc then [RequestRateLimit i QB_IPCS_RATE_OFF; RecheckTimerAdd]
  else match ipc_fc_totem_queue_level st with
       | TOTEM_Q_LEVEL_LOW => [RequestRateLimit i QB_IPCS_RATE_FAST]
       | TOTEM_Q_LEVEL_GOOD => [RequestRateLimit i QB_IPCS_RATE_NORMAL]
       | TOTEM_Q_LEVEL_HIGH => [RequestRateLimit i QB_IPCS_RATE_SLOW]
       | TOTEM_Q_LEVEL_CRITICAL => []
       end.

(** The loop over slots [i], [i+1], ... ([n] of them). *)
Fixpoint check_services (st : fc_state) (reg : list service_slot) (i n : nat)
    : c_read (list fc_effect) :=
  match n with
  | O => Loaded []
  | S n' =>
      match array_get reg (Z.of_nat i), check_services st reg (S i) n' with
      | OutOfBounds, _ | _, OutOfBounds => OutOfBounds
      | Loaded slot, Loaded rest =>
          match ais_service_entry slot, ipcs_mapper_inst slot with
          | Some svc, true => Loaded (flow_control_service st i svc ++ rest)
          | _, _ => Loaded rest
          end
      end
  end.

Definition cs_ipcs_check_for_flow_control (st : fc_state) (reg : list service_slot)
    : c_read (list fc_effect) :=
  check_services st reg 0 (Z.to_nat SERVICE_HANDLER_MAXIMUM_COUNT).

(** ** The three notifications *)

Definition set_is_quorate (q : Z) (st : fc_state) : fc_state :=
  {| ipc_fc_is_quorate := q; ipc_fc_totem_queue_level := ipc_fc_totem_queue_level st;
     ipc_fc_sync_in_process := ipc_fc_sync_in_process st |}.
Definition set_queue_level (l : totem_q_level) (st : fc_state) : fc_state :=
  {| ipc_fc_is_quorate := ipc_fc_is_quorate st; ipc_fc_totem_queue_level := l;
     ipc_fc_sync_in_process := ipc_fc_sync_in_process st |}.
Definition set_sync_in_process (v : Z) (st : fc_state) : fc_state :=
  {| ipc_fc_is_quorate := ipc_fc_is_quorate st;
     ipc_fc_totem_queue_level := ipc_fc_totem_queue_level st; ipc_fc_sync_in_process := v |}.

Definition cs_ipcs_fc_quorum_changed (quorate : Z) (st : fc_state) (reg : list service_slot)
    : fc_state * c_read (list fc_effect) :=
  let st' := set_is_quorate quorate st in (st', cs_ipcs_check_for_flow_control st' reg).

Definition cs_ipcs_totem_queue_level_changed (level : totem_q_level) (st : fc_state)
    (reg : list service_slot) : fc_state * c_read (list fc_effect) :=
  let st' := set_queue_level level st in (st', cs_ipcs_check_for_flow_control st' reg).

Definition cs_ipcs_sync_state_changed (sync_in_process : Z) (st : fc_state)
    (reg : list service_slot) : fc_state * c_read (list fc_effect) :=
  let st' := set_sync_in_process sync_in_process st in (st', cs_ipcs_check_for_flow_control st' reg).

Definition cs_ipcs_q_level_get (st : fc_state) : totem_q_level := ipc_fc_totem_queue_level st.

(** [corosync_recheck_the_q_level] (main.c).  [totempg_check_q_level] may
    report a new level through the registered callback ([Some l]); then
    the timer is re-armed if the level is critical. *)
Definition corosync_recheck_the_q_level (reported : option totem_q_level) (st : fc_state)
    (reg : list service_slot) : fc_state * c_read (list fc_effect) :=
  let '(st1, acts) :=
    match reported with
    | Some l => cs_ipcs_totem_queue_level_changed l st reg
    | None => (st, Loaded [])
    end in
  (st1, match acts with
        | OutOfBounds => OutOfBounds
        | Loaded a =>
            Loaded (a ++ if bool_decide (cs_ipcs_q_level_get st1 = TOTEM_Q_LEVEL_CRITICAL)
                         then [RecheckTimerAdd] else [])
        end).

(** ** Effects on the servers and the timer list *)

Record fc_system := {
  fs_state : fc_state;
  fs_rates : gmap nat qb_ipcs_rate_limit;
  fs_timers : nat
}.

Definition apply_fc_effect (e : fc_effect) (sys : fc_system) : fc_system :=
  match e with
  | RequestRateLimit i r =>
      {| fs_state := fs_state sys; fs_rates := <[i := r]> (fs_rates sys); fs_timers := fs_timers sys |}
  | RecheckTimerAdd =>
      {| fs_state := fs_state sys; fs_rates := fs_rates sys; fs_timers := S (fs_timers sys) |}
  end.

Definition apply_fc_effects (es : list fc_effect) (sys : fc_system) : fc_system :=
  fold_left (fun acc e => apply_fc_effect e acc) es sys.

(** A notification or recheck, run against the system. *)
Definition fc_notify (r : fc_state * c_read (list fc_effect)) (sys : fc_system) : option fc_system :=
  match r.2 with
  | Loaded es => Some (apply_fc_effects es {| fs_state := r.1; fs_rates := fs_rates sys;
                                              fs_timers := fs_timers sys |})
  | OutOfBounds => None
  end.

Inductive fc_event :=
| QuorumChanged (q : Z)
| QueueLevelChanged (l : totem_q_level)
| SyncChanged (v : Z)
| RecheckFired (reported : option totem_q_level).

Definition fc_handle (reg : list service_slot) (e : fc_event) (sys : fc_system) : option fc_system :=
  match e with
  | QuorumChanged q => fc_notify (cs_ipcs_fc_quorum_changed q (fs_state sys) reg) sys
  | QueueLevelChanged l => fc_notify (cs_ipcs_totem_queue_level_changed l (fs_state sys) reg) sys
  | SyncChanged v => fc_notify (cs_ipcs_sync_state_changed v (fs_state sys) reg) sys
  | RecheckFired rep =>
      match fs_timers sys with
      | O => None
      | S k => fc_notify (corosync_recheck_the_q_level rep (fs_state sys) reg)
                 {| fs_state := fs_state sys; fs_rates := fs_rates sys; fs_timers := k |}
      end
  end.

Fixpoint fc_run (reg : list service_slot) (es : list fc_event) (sys : fc_system) : option fc_system :=
  match es with
  | [] => Some sys
  | e :: es' => fc_handle reg e sys ≫= fc_run reg es'
  end.

(** ** The rate each server ends up with *)

(** The rate for a service outside flow control, by queue level.  The
    critical level does not occur there (see [fc_disabled_not_critical]). *)
Definition level_rate (l : totem_q_level) : qb_ipcs_rate_limit :=
  match l with
  | TOTEM_Q_LEVEL_LOW => QB_IPCS_RATE_FAST
  | TOTEM_Q_LEVEL_GOOD => QB_IPCS_RATE_NORMAL
  | TOTEM_Q_LEVEL_HIGH => QB_IPCS_RATE_SLOW
  | TOTEM_Q_LEVEL_CRITICAL => QB_IPCS_RATE_OFF
  end.

Definition rate_for (st : fc_state) (svc : corosync_service_engine) : qb_ipcs_rate_limit :=
  if fc_enabled st svc then QB_IPCS_RATE_OFF else level_rate (ipc_fc_totem_queue_level st).

(** The service in slot [j], if it has an IPC server. *)
Definition registered (reg : list service_slot) (j : nat) : option corosync_service_engine :=
  match reg !! j with
  | Some {| ais_service_entry := Some svc; ipcs_mapper_inst := true |} => Some svc
  | _ => None
  end.

(** Slots [i .. i+n-1] whose service is under flow control. *)
Definition throttled (st : fc_state) (reg : list service_slot) (j : nat) : bool :=
  match registered reg j with
  | Some svc => fc_enabled st svc
  | None => false
  end.

Definition count_throttled (st : fc_state) (reg : list service_slot) (i n : nat) : nat :=
  length (filter (fun j => throttled st reg j = true) (seq i n)).

(** ** Invariants, observations and concrete inputs *)

(** Notifications that leave the queue level critical. *)
Definition keeps_critical (e : fc_event) : Prop :=
  match e with
  | QueueLevelChanged l => l = TOTEM_Q_LEVEL_CRITICAL
  | RecheckFired (Some l) => l = TOTEM_Q_LEVEL_CRITICAL
  | _ => True
  end.

Definition empty_service_slot : service_slot :=
  {| ais_service_entry := None; ipcs_mapper_inst := false |}.

(** A service table with the CPG-like engine in slot 8 and nothing else. *)
Definition reg_cpg : list service_slot :=
  <[8%nat := {| ais_service_entry := Some cpg_engine; ipcs_mapper_inst := true |}]>
    (replicate (Z.to_nat SERVICE_HANDLER_MAXIMUM_COUNT) empty_service_slot).

Definition fc_quorate_low : fc_system :=
  {| fs_state := {| ipc_fc_is_quorate := 1; ipc_fc_totem_queue_level := TOTEM_Q_LEVEL_LOW;
                    ipc_fc_sync_in_process := 0 |};
     fs_rates := ∅; fs_timers := 0 |}.

Definition fc_critical : fc_system :=
  {| fs_state := {| ipc_fc_is_quorate := 1; ipc_fc_totem_queue_level := TOTEM_Q_LEVEL_CRITICAL;
                    ipc_fc_sync_in_process := 0 |};
     fs_rates := ∅; fs_timers := 1 |}.

Lemma fc_disabled_not_critical st svc :
  fc_enabled st svc = false -> ipc_fc_totem_queue_level st <> TOTEM_Q_LEVEL_CRITICAL.
Proof.
  unfold fc_enabled. intros H. apply negb_false_iff, andb_prop in H as [_ H].
  apply andb_prop in H as [H _]. by apply bool_decide_eq_true in H.
Qed.

Lemma apply_fc_effects_app es1 es2 sys :
  apply_fc_effects (es1 ++ es2) sys = apply_fc_effects es2 (apply_fc_effects es1 sys).
Proof. unfold apply_fc_effects. by rewrite fold_left_app. Qed.

Lemma apply_fc_effects_state es sys : fs_state (apply_fc_effects es sys) = fs_state sys.
Proof.
  unfold apply_fc_effects. revert sys.
  induction es as [| [] es IH]; intros sys; simpl; [done | |]; by rewrite IH.
Qed.

Lemma fc_handle_sync_state reg v sys sys' :
  fc_handle reg (SyncChanged v) sys = Some sys' ->
  fs_state sys' = set_sync_in_process v (fs_state sys).
Proof.
  unfold fc_handle, fc_notify, cs_ipcs_sync_state_changed. simpl.
  destruct (cs_ipcs_check_for_flow_control _ reg); [| done].
  intros [= <-]. by rewrite apply_fc_effects_state.
Qed.

(** The effects of one service: its rate is set, and a timer is armed when
    it is under flow control. *)
Lemma flow_control_service_effects st i svc sys :
  let sys' := apply_fc_effects (flow_control_service st i svc) sys in
  fs_state sys' = fs_state sys /\
  fs_rates sys' = <[i := rate_for st svc]> (fs_rates sys) /\
  fs_timers sys' = (fs_timers sys + if fc_enabled st svc then 1 else 0)%nat.
Proof.
  unfold flow_control_service, rate_for. destruct (fc_enabled st svc) eqn:E; simpl.
  - repeat split; lia.
  - pose proof (fc_disabled_not_critical st svc E) as Hc.
    destruct (ipc_fc_totem_queue_level st); simpl; try done; repeat split; lia.
Qed.

Lemma check_services_spec st reg i n sys :
  (i + n <= length reg)%nat ->
  exists es, check_services st reg i n = Loaded es /\
    fs_state (apply_fc_effects es sys) = fs_state sys /\
    (forall j, fs_rates (apply_fc_effects es sys) !! j =
       if decide (i <= j < i + n)%nat then
         match registered reg j with
         | Some svc => Some (rate_for st svc)
         | None => fs_rates sys !! j
         end
       else fs_rates sys !! j) /\
    fs_timers (apply_fc_effects es sys) = (fs_timers sys + count_throttled st reg i n)%nat.
Proof.
  revert i sys. induction n as [| n IH]; intros i sys Hlen; simpl.
  - exists []. repeat split; auto. intros j. case_decide; [lia | done].
  - rewrite array_get_lookup.
    destruct (lookup_lt_is_Some_2 reg i) as [slot Hslot]; [lia |]. rewrite Hslot.
    set (es0 := match ais_service_entry slot, ipcs_mapper_inst slot with
                | Some svc, true => flow_control_service st i svc
                | _, _ => []
                end).
    destruct (IH (S i) (apply_fc_effects es0 sys)) as (rest & Erest & Hst & Hr & Ht); [lia |].
    rewrite Erest. exists (es0 ++ rest).
    assert (Hes0 : fs_state (apply_fc_effects es0 sys) = fs_state sys /\
       fs_rates (apply_fc_effects es0 sys) =
         match registered reg i with
         | Some svc => <[i := rate_for st svc]> (fs_rates sys)
         | None => fs_rates sys
         end /\
       fs_timers (apply_fc_effects es0 sys) =
         (fs_timers sys + match registered reg i with
                          | Some svc => if fc_enabled st svc then 1 else 0
                          | None => 0 end)%nat).
    { unfold es0, registered. rewrite Hslot.
      destruct slot as [[svc |] [|]]; simpl; try (repeat split; lia).
      apply flow_control_service_effects. }
    destruct Hes0 as (Hs0 & Hr0 & Ht0).
    split; [by destruct (ais_service_entry slot), (ipcs_mapper_inst slot) |].
    rewrite !apply_fc_effects_app. split; [by rewrite Hst, Hs0 |]. split.
    + intros j. rewrite Hr, Hr0. destruct (decide (j = i)) as [-> | Hne].
      * rewrite decide_False by lia. rewrite decide_True by lia.
        destruct (registered reg i); [by rewrite lookup_insert_eq | done].
      * destruct (registered reg i); [rewrite lookup_insert_ne by congruence |];
          repeat case_decide; done || lia.
    + rewrite Ht, Ht0. unfold count_throttled. simpl. rewrite list.filter_cons.
      unfold throttled. destruct (registered reg i); [destruct (fc_enabled st c) |];
        case_decide; simpl; done || lia.
Qed.

(** ** Theorems *)

(** C16. What a recomputation does to the IPC servers.  On a full service
    table, [cs_ipcs_check_for_flow_control] always completes.  Afterwards
    every service with an IPC server has the rate [rate_for] gives (OFF
    under flow control, else FAST, NORMAL or SLOW by queue level).  Every
    other slot keeps its rate.  One recheck timer is armed per service
    under flow control, and none is cancelled. *)
Theorem check_for_flow_control_spec st reg sys :
  length reg = Z.to_nat SERVICE_HANDLER_MAXIMUM_COUNT ->
  exists es, cs_ipcs_check_for_flow_control st reg = Loaded es /\
    (forall j, fs_rates (apply_fc_effects es sys) !! j =
       match registered reg j with
       | Some svc => Some (rate_for st svc)
       | None => fs_rates sys !! j
       end) /\
    fs_timers (apply_fc_effects es sys) =
      (fs_timers sys + count_throttled st reg 0 (Z.to_nat SERVICE_HANDLER_MAXIMUM_COUNT))%nat.
Proof.
  intros Hlen. destruct (check_services_spec st reg 0 (Z.to_nat SERVICE_HANDLER_MAXIMUM_COUNT) sys)
    as (es & E & _ & Hr & Ht); [lia |].
  exists es. split; [exact E |]. split; [| exact Ht].
  intros j. rewrite Hr. case_decide; [done |].
  unfold registered. rewrite lookup_ge_None_2 by lia. done.
Qed.

(** C17. [QB_IPCS_RATE_OFF] is the throttled state.  A service's server
    is set to OFF exactly when it is not the case that the cluster is
    quorate (or the service is quorum tolerant), the totem queue is below
    critical and no sync runs.  The spec (section 4.3) calls OFF the
    healthy "accept without added delay" directive; in libqb, OFF stops
    request reception. *)
Theorem rate_off_iff_unhealthy st svc :
  rate_for st svc = QB_IPCS_RATE_OFF <->
  ~ ((ipc_fc_is_quorate st = 1 \/ allow_inquorate svc = CS_LIB_ALLOW_INQUORATE) /\
     ipc_fc_totem_queue_level st <> TOTEM_Q_LEVEL_CRITICAL /\ ipc_fc_sync_in_process st = 0).
Proof.
  unfold rate_for, fc_enabled. destruct (ipc_fc_totem_queue_level st) eqn:El;
    rewrite ?bool_decide_true, ?bool_decide_false by congruence;
    destruct (Z.eqb_spec (ipc_fc_is_quorate st) 1), (Z.eqb_spec (allow_inquorate svc) CS_LIB_ALLOW_INQUORATE),
      (Z.eqb_spec (ipc_fc_sync_in_process st) 0); simpl; split; intros; try done; intuition congruence.
Qed.

(** ** Timers while the queue is critical *)

Lemma apply_timer_add sys :
  apply_fc_effects [RecheckTimerAdd] sys =
    {| fs_state := fs_state sys; fs_rates := fs_rates sys; fs_timers := S (fs_timers sys) |}.
Proof. reflexivity. Qed.

(** A full-table recomputation only adds timers and keeps the inputs. *)
Lemma notify_timers st reg sys sys' :
  length reg = Z.to_nat SERVICE_HANDLER_MAXIMUM_COUNT ->
  fc_notify (st, cs_ipcs_check_for_flow_control st reg) sys = Some sys' ->
  fs_state sys' = st /\ (fs_timers sys <= fs_timers sys')%nat.
Proof.
  intros Hlen. unfold fc_notify. simpl.
  destruct (check_services_spec st reg 0 (Z.to_nat SERVICE_HANDLER_MAXIMUM_COUNT)
              {| fs_state := st; fs_rates := fs_rates sys; fs_timers := fs_timers sys |})
    as (es & E & Hs & _ & Ht); [lia |].
  unfold cs_ipcs_check_for_flow_control. rewrite E. intros [= <-].
  rewrite Hs, Ht. simpl. split; [done | lia].
Qed.

Lemma handle_critical_timers reg e sys sys' :
  length reg = Z.to_nat SERVICE_HANDLER_MAXIMUM_COUNT ->
  ipc_fc_totem_queue_level (fs_state sys) = TOTEM_Q_LEVEL_CRITICAL -> keeps_critical e ->
  fc_handle reg e sys = Some sys' ->
  ipc_fc_totem_queue_level (fs_state sys') = TOTEM_Q_LEVEL_CRITICAL /\
  (fs_timers sys <= fs_timers sys')%nat.
Proof.
  intros Hlen Hl Hk. destruct e as [q | l | v | [l |]]; simpl in Hk |- *.
  - intros E. apply notify_timers in E as [-> ?]; simpl; auto.
  - subst l. intros E. apply notify_timers in E as [-> ?]; simpl; auto.
  - intros E. apply notify_timers in E as [-> ?]; simpl; auto.
  - subst l. destruct (fs_timers sys) as [| k] eqn:Et; [done |].
    unfold corosync_recheck_the_q_level, cs_ipcs_totem_queue_level_changed, fc_notify. simpl.
    destruct (check_services_spec (set_queue_level TOTEM_Q_LEVEL_CRITICAL (fs_state sys)) reg 0
                (Z.to_nat SERVICE_HANDLER_MAXIMUM_COUNT)
                {| fs_state := set_queue_level TOTEM_Q_LEVEL_CRITICAL (fs_state sys);
                   fs_rates := fs_rates sys; fs_timers := k |}) as (es & E & Hs & _ & Ht); [lia |].
    unfold cs_ipcs_check_for_flow_control. rewrite E. simpl.
    intros [= <-]. rewrite apply_fc_effects_app, apply_timer_add. simpl. rewrite Hs, Ht. simpl.
    split; [done | lia].
  - destruct (fs_timers sys) as [| k] eqn:Et; [done |].
    unfold corosync_recheck_the_q_level, fc_notify, cs_ipcs_q_level_get. simpl. rewrite Hl.
    simpl. intros [= <-]. simpl. rewrite Hl. split; [done | lia].
Qed.

(** C18. The recheck poll never stops, and timers pile up, while the queue
    stays critical.  Take any sequence of notifications and timer
    expiries that leaves the totem queue level critical.  The number of
    pending recheck timers never goes down.  Each expiry re-arms one timer,
    and each recomputation arms one more per throttled service.  No
    timer is ever cancelled.  This answers the spec's open question
    (section 9): the timer is a continuous poll whose registrations
    accumulate. *)
Theorem critical_timers_never_drain reg es sys sys' :
  length reg = Z.to_nat SERVICE_HANDLER_MAXIMUM_COUNT ->
  ipc_fc_totem_queue_level (fs_state sys) = TOTEM_Q_LEVEL_CRITICAL ->
  Forall keeps_critical es -> fc_run reg es sys = Some sys' ->
  ipc_fc_totem_queue_level (fs_state sys') = TOTEM_Q_LEVEL_CRITICAL /\
  (fs_timers sys <= fs_timers sys')%nat.
Proof.
  intros Hlen. revert sys. induction es as [| e es IH]; intros sys Hl Hk; simpl.
  - intros [= <-]. auto.
  - inversion Hk as [| ? ? He Hes]; subst.
    destruct (fc_handle reg e sys) as [sys1 |] eqn:E; simpl; [| done]. intros Hrun.
    destruct (handle_critical_timers reg e sys sys1 Hlen Hl He E) as [Hl1 Ht1].
    destruct (IH sys1 Hl1 Hes Hrun) as [Hl2 Ht2]. split; [done | lia].
Qed.

(** ** Concrete runs *)

(** The spec's scenario 8, on the code.  With quorum and no sync, a
    queue level going LOW then CRITICAL gives the directives FAST then
    OFF, not OFF then OFF.  When quorum is then lost at CRITICAL, the
    directive is OFF, not SLOW.  Each throttled recomputation arms a
    timer. *)
Theorem scenario8 :
  (fc_run reg_cpg [QueueLevelChanged TOTEM_Q_LEVEL_LOW] fc_quorate_low ≫= fun s => Some (fs_rates s !! 8%nat, fs_timers s))
    = Some (Some QB_IPCS_RATE_FAST, 0%nat) /\
  (fc_run reg_cpg [QueueLevelChanged TOTEM_Q_LEVEL_LOW; QueueLevelChanged TOTEM_Q_LEVEL_CRITICAL] fc_quorate_low
     ≫= fun s => Some (fs_rates s !! 8%nat, fs_timers s))
    = Some (Some QB_IPCS_RATE_OFF, 1%nat) /\
  (fc_run reg_cpg [QueueLevelChanged TOTEM_Q_LEVEL_LOW; QueueLevelChanged TOTEM_Q_LEVEL_CRITICAL;
                   QuorumChanged 0] fc_quorate_low
     ≫= fun s => Some (fs_rates s !! 8%nat, fs_timers s))
    = Some (Some QB_IPCS_RATE_OFF, 2%nat).
Proof. repeat split; vm_compute; reflexivity. Qed.

(** ** Witnesses *)

Lemma check_for_flow_control_spec_witness :
  exists es, cs_ipcs_check_for_flow_control (fs_state fc_quorate_low) reg_cpg = Loaded es /\
    (forall j, fs_rates (apply_fc_effects es fc_quorate_low) !! j =
       match registered reg_cpg j with
       | Some svc => Some (rate_for (fs_state fc_quorate_low) svc)
       | None => fs_rates fc_quorate_low !! j
       end) /\
    fs_timers (apply_fc_effects es fc_quorate_low) =
      (fs_timers fc_quorate_low +
       count_throttled (fs_state fc_quorate_low) reg_cpg 0 (Z.to_nat SERVICE_HANDLER_MAXIMUM_COUNT))%nat.
Proof. apply check_for_flow_control_spec. reflexivity. Defined.

Lemma critical_timers_never_drain_witness :
  exists sys', fc_run reg_cpg [QuorumChanged 0; RecheckFired None; SyncChanged 1] fc_critical = Some sys' /\
    ipc_fc_totem_queue_level (fs_state sys') = TOTEM_Q_LEVEL_CRITICAL /\
    (fs_timers fc_critical <= fs_timers sys')%nat.
Proof.
  eexists. split; [vm_compute; reflexivity |].
  apply (critical_timers_never_drain reg_cpg [QuorumChanged 0; RecheckFired None; SyncChanged 1] fc_critical);
    [reflexivity | reflexivity | repeat constructor | vm_compute; reflexivity].
Defined.
