(* ===== verification/Dispatch.v ===== *)
(** * Totem message dispatch ([deliver_fn] and [main_mcast], main.c)

    A message a service multicasts through [main_mcast] carries a
    [qb_ipc_request_header] whose [id] holds the service number in its
    high 16 bits and the function number in its low 16 bits.  Every node
    gets the message back through totem in [deliver_fn], which
    byte-swaps the id when the sender had the other endianness ([swab32],
    swab.h, outside src/), splits it, and runs the function's
    [exec_handler_fn] (after its [exec_endian_convert_fn] if the message
    needs conversion).  The service table is the [ais_service] array of
    [SERVICE_HANDLER_MAXIMUM_COUNT] slots, as in FlowControl.v.

    The handlers, the statistics database and the transport are
    external.  The model returns what the code asks of them, in order, as
    a list of [dispatch_effect].  An [assert] that fails ends the run
    with [AssertFailed], and a read outside the service array ends it
    with [OutOfBounds].

    Theorems: [swab32] is an involution on 32-bit words; the id split
    is a bijection onto pairs of 16-bit numbers; a message runs at most
    the one handler its id names, exactly when that handler exists; a
    message from a node of the other byte order runs the same handler;
    an id whose service field is 64 or more makes [deliver_fn] read past
    the table. *)

From Stdlib Require Import ZArith Lia.
From stdpp Require Import base list numbers.
From S2P Require Import Prelude CoroDefs FlowControl.

Open Scope Z_scope.

(** ** Byte order *)

(** [swab32] (swab.h): the four bytes of a 32-bit word in reverse order. *)
Definition swab32 (x : Z) : Z :=
  Z.lor (Z.lor (Z.shiftl (Z.land x 255) 24) (Z.shiftl (Z.land x 65280) 8))
        (Z.lor (Z.shiftr (Z.land x 16711680) 8) (Z.shiftr (Z.land x 4278190080) 24)).

(** The header as a node of the other byte order stores it. *)
Definition swap_header (h : qb_ipc_request_header) : qb_ipc_request_header :=
  {| header_size := to_int32 (swab32 (u32 (header_size h)));
     header_id := to_int32 (swab32 (u32 (header_id h))) |}.

(** ** The identifier split (lines 844-845 and 891-892) *)

Definition id_service (id : Z) : Z := Z.shiftr id 16.
Definition id_fn (id : Z) : Z := Z.land id 65535.

(** ** Effects *)

Inductive stat_key := StatRx | StatTx.

Inductive dispatch_effect :=
| EvilDeliver (nodeid service fn_id endian : Z)
| ObjectKeyIncrement (service fn_id : Z) (key : stat_key)
| ExecEndianConvert (service fn_id : Z)
| ExecHandler (service fn_id nodeid : Z)
| TotemMcastJoined (iov_len guarantee : Z).

Inductive exec_outcome :=
| Returned (effs : list dispatch_effect)
| AssertFailed (effs : list dispatch_effect).

(** ** [deliver_fn] *)

(** Lines 834-838: the [int32_t] id read into a [uint32_t], swapped when
    the sender's byte order differs. *)
Definition received_id (h : qb_ipc_request_header) (endian_conversion_required : Z) : Z :=
  if c_true endian_conversion_required then swab32 (u32 (header_id h))
  else u32 (header_id h).

(** [deliver_fn] (lines 822-873).  The statistics increment of line 861
    is the effect [ObjectKeyIncrement]: the dimensions of
    [service_stats_handle] are declared outside src/ and the spec, so the
    read of [service_stats_handle[service][fn_id]] is not bounds checked
    here. *)
Definition deliver_fn (ais : list service_slot) (nodeid : Z) (h : qb_ipc_request_header)
    (endian_conversion_required : Z) : c_read exec_outcome :=
  let id := received_id h endian_conversion_required in
  let service := id_service id in
  let fn_id := id_fn id in
  match array_get ais service with
  | OutOfBounds => OutOfBounds
  | Loaded slot =>
      match ais_service_entry slot with
      | None =>
          Loaded (Returned (if service =? service_id_val EVT_SERVICE
                            then [EvilDeliver nodeid service fn_id endian_conversion_required]
                            else []))
      | Some svc =>
          if exec_engine_count svc <=? fn_id then Loaded (Returned [])
          else
            match array_get (exec_engine svc) fn_id with
            | OutOfBounds => OutOfBounds
            | Loaded eh =>
                let rx := [ObjectKeyIncrement service fn_id StatRx] in
                if c_true endian_conversion_required then
                  if exec_endian_convert_present eh
                  then Loaded (Returned (rx ++ [ExecEndianConvert service fn_id;
                                                ExecHandler service fn_id nodeid]))
                  else Loaded (AssertFailed rx)
                else Loaded (Returned (rx ++ [ExecHandler service fn_id nodeid]))
            end
      end
  end.

(** ** [main_mcast] *)

(** Here the id is split as the signed [int32_t] it is. *)
Definition main_mcast (ais : list service_slot) (req : qb_ipc_request_header)
    (iov_len guarantee : Z) : c_read (list dispatch_effect) :=
  let service := id_service (header_id req) in
  let fn_id := id_fn (header_id req) in
  match array_get ais service with
  | OutOfBounds => OutOfBounds
  | Loaded slot =>
      Loaded (match ais_service_entry slot with
              | Some _ => [ObjectKeyIncrement service fn_id StatTx]
              | None => []
              end ++ [TotemMcastJoined iov_len guarantee])
  end.

(** The handlers a delivery ran: [None] when it aborted or read out of
    bounds. *)
Definition exec_calls (o : c_read exec_outcome) : option (list (Z * Z * Z)) :=
  match o with
  | Loaded (Returned effs) =>
      Some (omap (fun e => match e with ExecHandler s f n => Some (s, f, n) | _ => None end) effs)
  | _ => None
  end.

(** Every exec handler of every loaded service has its conversion
    function. *)
Definition convert_everywhere (ais : list service_slot) : bool :=
  forallb (fun slot => match ais_service_entry slot with
                       | Some svc => forallb exec_endian_convert_present (exec_engine svc)
                       | None => true
                       end) ais.

(** ** Invariants, observations and concrete inputs *)

(** What [deliver_fn] needs to run the handler of [(s, f)]. *)
Definition handler_ready (ais : list service_slot) (s f e : Z) (eh : corosync_exec_handler)
    (svc : corosync_service_engine) (slot : service_slot) : Prop :=
  array_get ais s = Loaded slot /\ ais_service_entry slot = Some svc /\
  f < exec_engine_count svc /\ array_get (exec_engine svc) f = Loaded eh /\
  (c_true e = true -> exec_endian_convert_present eh = true).

(** A service in slot 8 with two exec handlers; the second lacks its
    conversion function. *)
Definition exec_engine_svc (conv2 : bool) : corosync_service_engine :=
  {| se_id := service_id_val CPG_SERVICE;
     allow_inquorate := CS_LIB_DISALLOW_INQUORATE;
     private_data_size := 16;
     lib_engine := lib_engine cpg_engine;
     lib_engine_count := lib_engine_count cpg_engine;
     exec_engine := [ {| exec_endian_convert_present := true |};
                      {| exec_endian_convert_present := conv2 |} ];
     exec_engine_count := 2;
     sync_mode := CS_SYNC_V2;
     confchg_fn_present := true;
     exec_dump_fn_present := false |}.

Definition reg_exec (conv2 : bool) : list service_slot :=
  <[8%nat := {| ais_service_entry := Some (exec_engine_svc conv2); ipcs_mapper_inst := true |}]>
    (replicate (Z.to_nat SERVICE_HANDLER_MAXIMUM_COUNT) empty_service_slot).

(** Service 8, function 1. *)
Definition hdr_8_1 : qb_ipc_request_header := {| header_size := 24; header_id := 524289 |}.

(** ** Bits of [swab32] *)

Lemma swab32_testbit x n : 0 <= n ->
  Z.testbit (swab32 x) n =
    if n <? 32 then Z.testbit x (8 * (3 - n / 8) + n mod 8) else false.
Proof.
  intros Hn. unfold swab32.
  rewrite ?Z.lor_spec, ?Z.shiftl_spec, ?Z.shiftr_spec, ?Z.land_spec by lia.
  destruct (Z.ltb_spec n 32) as [Hlt | Hge].
  - rewrite <- (Z2Nat.id n Hn) in *. remember (Z.to_nat n) as k eqn:Ek; clear Ek Hn.
    assert (k < 32)%nat as Hk by lia. clear Hlt.
    generalize (Z.testbit x) as b; intros b.
    do 32 (destruct k as [|k];
      [simpl; rewrite ?Bool.andb_false_r, ?Bool.andb_true_r, ?Bool.orb_false_r; reflexivity|]).
    lia.
  - assert (Z.log2 255 = 7 /\ Z.log2 65280 = 15 /\ Z.log2 16711680 = 23 /\
            Z.log2 4278190080 = 31) as (L1 & L2 & L3 & L4) by (repeat split; reflexivity).
    rewrite (Z.bits_above_log2 255), (Z.bits_above_log2 65280), (Z.bits_above_log2 16711680),
      (Z.bits_above_log2 4278190080) by lia.
    rewrite ?Bool.andb_false_r. reflexivity.
Qed.

Lemma bits_above_32 x n : 0 <= x < 2 ^ 32 -> 32 <= n -> Z.testbit x n = false.
Proof.
  intros Hx Hn. apply Z.bits_above_log2; [lia |].
  destruct (Z.eq_dec x 0) as [-> |]; [simpl; lia |].
  assert (Z.log2 x < 32) by (apply Z.log2_lt_pow2; lia). lia.
Qed.

Lemma swab32_range x : 0 <= swab32 x < 2 ^ 32.
Proof.
  assert (0 <= swab32 x).
  { unfold swab32.
    repeat first [apply Z.lor_nonneg; split | apply Z.shiftl_nonneg | apply Z.shiftr_nonneg
                 | apply Z.land_nonneg; right; lia]. }
  split; [done |]. destruct (Z.eq_dec (swab32 x) 0) as [-> | Hne]; [lia |].
  apply Z.log2_lt_pow2; [lia |].
  destruct (Z.lt_ge_cases (Z.log2 (swab32 x)) 32) as [| Hge]; [done |].
  pose proof (Z.bit_log2 (swab32 x) ltac:(lia)) as Hb.
  rewrite swab32_testbit in Hb by lia.
  destruct (Z.ltb_spec (Z.log2 (swab32 x)) 32); [lia | discriminate].
Qed.

Lemma received_id_range h e : 0 <= received_id h e < 2 ^ 32.
Proof. unfold received_id. destruct (c_true e); [apply swab32_range | apply wrap_range; lia]. Qed.

Lemma id_service_nonneg id : 0 <= id -> 0 <= id_service id.
Proof. intros. unfold id_service. by apply Z.shiftr_nonneg. Qed.

Lemma id_fn_range id : 0 <= id_fn id < 2 ^ 16.
Proof.
  unfold id_fn. change 65535 with (Z.ones 16). rewrite Z.land_ones by lia.
  apply Z.mod_pos_bound. lia.
Qed.

(** ** Theorems *)

(** Byte-swapping a 32-bit word twice gives the word back. *)
Lemma swab32_involutive x : 0 <= x < 2 ^ 32 -> swab32 (swab32 x) = x.
Proof.
  intros Hx. apply Z.bits_inj'. intros n Hn.
  rewrite swab32_testbit by lia.
  destruct (Z.ltb_spec n 32).
  - rewrite swab32_testbit by (Z.div_mod_to_equations; lia).
    replace (8 * (3 - n / 8) + n mod 8 <? 32) with true
      by (symmetry; apply Z.ltb_lt; Z.div_mod_to_equations; lia).
    f_equal. Z.div_mod_to_equations. lia.
  - symmetry. by apply bits_above_32.
Qed.

(** The id split of [deliver_fn] (lines 844-845): for a 32-bit id,
    the service and the function number are 16-bit numbers and the id is
    the service times 2^16 plus the function number. *)
Theorem id_split_roundtrip id : 0 <= id < 2 ^ 32 ->
  0 <= id_service id < 2 ^ 16 /\ 0 <= id_fn id < 2 ^ 16 /\
  id_service id * 2 ^ 16 + id_fn id = id.
Proof.
  intros Hid. unfold id_service, id_fn. change 65535 with (Z.ones 16).
  rewrite Z.shiftr_div_pow2, Z.land_ones by lia.
  Z.div_mod_to_equations. lia.
Qed.

Lemma received_id_swap h : received_id (swap_header h) 1 = received_id h 0.
Proof.
  unfold received_id, swap_header. simpl.
  rewrite u32_to_int32 by apply swab32_range.
  apply swab32_involutive, wrap_range. lia.
Qed.

Lemma to_int32_u32 x : - 2 ^ 31 <= x < 2 ^ 31 -> to_int32 (u32 x) = x.
Proof.
  intros Hx. unfold to_int32, wrap.
  destruct (Z.leb_spec 0 x).
  - rewrite Z.mod_small by lia. destruct (Z.ltb_spec x (2 ^ 31)); lia.
  - rewrite <- (Z.mod_add _ 1), Z.mod_small by lia. destruct (Z.ltb_spec (x + 1 * 2 ^ 32) (2 ^ 31)); lia.
Qed.

(** Header byte order round trip.  A header a node of the other
    byte order writes, written back by this byte order, is the original
    header; and [deliver_fn] reads from the swapped header, flagged for
    conversion, the id the sender meant. *)
Theorem header_byte_order_roundtrip h :
  - 2 ^ 31 <= header_id h < 2 ^ 31 /\ - 2 ^ 31 <= header_size h < 2 ^ 31 ->
  swap_header (swap_header h) = h /\ received_id (swap_header h) 1 = received_id h 0.
Proof.
  intros [Hid Hsz]. split; [| apply received_id_swap].
  destruct h as [sz id]. unfold swap_header. simpl in *.
  rewrite !u32_to_int32 by apply swab32_range.
  rewrite !swab32_involutive by (apply wrap_range; lia).
  by rewrite !to_int32_u32.
Qed.

Lemma convert_everywhere_lookup ais slot svc eh i j :
  convert_everywhere ais = true -> array_get ais i = Loaded slot ->
  ais_service_entry slot = Some svc -> array_get (exec_engine svc) j = Loaded eh ->
  exec_endian_convert_present eh = true.
Proof.
  unfold convert_everywhere. rewrite forallb_forall. intros Hall Ha Hs Hh.
  apply array_get_Loaded in Ha as [_ Ha]. apply array_get_Loaded in Hh as [_ Hh].
  specialize (Hall slot (proj1 (list_elem_of_In _ _) (list_elem_of_lookup_2 _ _ _ Ha))).
  rewrite Hs, forallb_forall in Hall.
  apply Hall, list_elem_of_In, (list_elem_of_lookup_2 _ _ _ Hh).
Qed.

(** C22. A message from a node of the other byte order runs the same
    handlers as the same message from a node of this byte order: once
    [deliver_fn] has swapped the id back, service and function agree.
    This holds when every handler has its conversion function; otherwise
    the [assert] at line 866 ends the run. *)
Theorem deliver_fn_endian_agnostic ais nodeid h :
  convert_everywhere ais = true ->
  exec_calls (deliver_fn ais nodeid (swap_header h) 1) = exec_calls (deliver_fn ais nodeid h 0).
Proof.
  intros Hconv. unfold deliver_fn. rewrite received_id_swap.
  set (id := received_id h 0).
  destruct (array_get ais (id_service id)) as [slot |] eqn:Ea; [| done].
  destruct (ais_service_entry slot) as [svc |] eqn:Es.
  - destruct (exec_engine_count svc <=? id_fn id); [done |].
    destruct (array_get (exec_engine svc) (id_fn id)) as [eh |] eqn:Eh; [| done].
    change (c_true 1) with true; change (c_true 0) with false; cbv iota.
    by rewrite (convert_everywhere_lookup ais slot svc eh _ _ Hconv Ea Es Eh).
  - by destruct (id_service id =? service_id_val EVT_SERVICE).
Qed.

Lemma deliver_fn_ready ais nodeid h e slot svc eh :
  handler_ready ais (id_service (received_id h e)) (id_fn (received_id h e)) e eh svc slot ->
  exec_calls (deliver_fn ais nodeid h e) =
    Some [(id_service (received_id h e), id_fn (received_id h e), nodeid)].
Proof.
  intros (Ea & Es & Hf & Eh & Hc). unfold deliver_fn. rewrite Ea, Es.
  destruct (Z.leb_spec (exec_engine_count svc) (id_fn (received_id h e))); [lia |].
  rewrite Eh. destruct (c_true e); [by rewrite Hc | done].
Qed.

Lemma deliver_fn_calls ais nodeid h e calls :
  exec_calls (deliver_fn ais nodeid h e) = Some calls ->
  calls = [] \/
  (calls = [(id_service (received_id h e), id_fn (received_id h e), nodeid)] /\
   exists slot svc eh,
     handler_ready ais (id_service (received_id h e)) (id_fn (received_id h e)) e eh svc slot).
Proof.
  unfold deliver_fn, handler_ready.
  set (s := id_service (received_id h e)); set (f := id_fn (received_id h e)).
  destruct (array_get ais s) as [slot |] eqn:Ea; [| done].
  destruct (ais_service_entry slot) as [svc |] eqn:Es.
  - destruct (Z.leb_spec (exec_engine_count svc) f); [by intros [= <-]; left |].
    destruct (array_get (exec_engine svc) f) as [eh |] eqn:Eh; [| done].
    destruct (c_true e) eqn:Ec; [destruct (exec_endian_convert_present eh) eqn:Ep |];
      intros [= <-]; right; split; try done; exists slot, svc, eh; repeat split; done.
  - intros Hc. left. destruct (s =? service_id_val EVT_SERVICE); by injection Hc.
Qed.

(** C20. Dispatch of a delivered message: it runs no handler or exactly
    one, the handler of the service and function its id names; and it
    runs that one exactly when the service is loaded, the function number
    is below the service's [exec_engine_count], the exec table has the
    entry, and, for a message that needs conversion, the entry has its
    conversion function. *)
Theorem deliver_fn_runs_named_handler ais nodeid h e :
  let s := id_service (received_id h e) in
  let f := id_fn (received_id h e) in
  (forall calls, exec_calls (deliver_fn ais nodeid h e) = Some calls ->
     calls = [] \/ calls = [(s, f, nodeid)]) /\
  (exec_calls (deliver_fn ais nodeid h e) = Some [(s, f, nodeid)] <->
   exists slot svc eh, ais !! Z.to_nat s = Some slot /\ ais_service_entry slot = Some svc /\
     f < exec_engine_count svc /\ exec_engine svc !! Z.to_nat f = Some eh /\
     (c_true e = true -> exec_endian_convert_present eh = true)).
Proof.
  intros s f. pose proof (id_service_nonneg _ (proj1 (received_id_range h e))).
  pose proof (id_fn_range (received_id h e)). split; [| split].
  - intros calls Hc. destruct (deliver_fn_calls _ _ _ _ _ Hc) as [| []]; auto.
  - intros Hc. destruct (deliver_fn_calls _ _ _ _ _ Hc)
      as [Hnil | (_ & slot & svc & eh & Ea & Es & Hf & Eh & Hcv)]; [done |].
    apply array_get_Loaded in Ea as [_ Ea]. apply array_get_Loaded in Eh as [_ Eh].
    by exists slot, svc, eh.
  - intros (slot & svc & eh & Ea & Es & Hf & Eh & Hcv).
    apply (deliver_fn_ready _ _ _ _ slot svc eh).
    repeat split; try done; apply array_get_Loaded; split; auto; lia.
Qed.

(** C24. [deliver_fn] indexes [ais_service] with the service field of a
    message received from the network without a bound check (lines
    847-852).  A message whose id has a service field of 64 or more, for
    instance an id of -1 ([0xffff] as service), makes every node read
    past the 64-entry table. *)
Theorem deliver_fn_service_oob ais nodeid h e :
  length ais = Z.to_nat SERVICE_HANDLER_MAXIMUM_COUNT ->
  SERVICE_HANDLER_MAXIMUM_COUNT <= id_service (received_id h e) ->
  deliver_fn ais nodeid h e = OutOfBounds.
Proof.
  intros Hlen Hs. unfold deliver_fn. rewrite array_get_oob; [done |].
  rewrite Hlen. unfold SERVICE_HANDLER_MAXIMUM_COUNT in *. lia.
Qed.

(** ** Concrete deliveries *)

(** The same message from a node of the other byte order runs handler 1
    of service 8 after converting it; without the conversion function the
    [assert] fails. *)
Lemma deliver_fn_swapped_runs :
  deliver_fn (reg_exec true) 3 (swap_header hdr_8_1) 1 =
    Loaded (Returned [ObjectKeyIncrement 8 1 StatRx; ExecEndianConvert 8 1; ExecHandler 8 1 3]) /\
  deliver_fn (reg_exec false) 3 (swap_header hdr_8_1) 1 =
    Loaded (AssertFailed [ObjectKeyIncrement 8 1 StatRx]).
Proof. split; vm_compute; reflexivity. Qed.

Lemma header_byte_order_roundtrip_witness :
  (- 2 ^ 31 <= -16776961 < 2 ^ 31 /\ - 2 ^ 31 <= 24 < 2 ^ 31) /\
  (swap_header (swap_header {| header_size := 24; header_id := -16776961 |}) =
     {| header_size := 24; header_id := -16776961 |} /\
   received_id (swap_header {| header_size := 24; header_id := -16776961 |}) 1 =
     received_id {| header_size := 24; header_id := -16776961 |} 0).
Proof. split; [lia | apply header_byte_order_roundtrip; simpl; lia]. Defined.

Lemma id_split_roundtrip_witness :
  0 <= 524289 < 2 ^ 32 /\
  (0 <= id_service 524289 < 2 ^ 16 /\ 0 <= id_fn 524289 < 2 ^ 16 /\
   id_service 524289 * 2 ^ 16 + id_fn 524289 = 524289).
Proof. split; [lia | apply id_split_roundtrip; lia]. Defined.

Lemma deliver_fn_endian_agnostic_witness :
  convert_everywhere (reg_exec true) = true /\
  exec_calls (deliver_fn (reg_exec true) 3 (swap_header hdr_8_1) 1) =
    exec_calls (deliver_fn (reg_exec true) 3 hdr_8_1 0).
Proof.
  split; [vm_compute; reflexivity |].
  apply deliver_fn_endian_agnostic. vm_compute. reflexivity.
Defined.

Lemma deliver_fn_service_oob_witness :
  length (reg_exec true) = Z.to_nat SERVICE_HANDLER_MAXIMUM_COUNT /\
  SERVICE_HANDLER_MAXIMUM_COUNT <= id_service (received_id {| header_size := 24; header_id := -1 |} 0) /\
  deliver_fn (reg_exec true) 3 {| header_size := 24; header_id := -1 |} 0 = OutOfBounds.
Proof.
  split; [reflexivity |]. split; [vm_compute; discriminate |].
  apply deliver_fn_service_oob; [reflexivity | vm_compute; discriminate].
Defined.
