(* ===== verification/Sync.v ===== *)
(** * Membership changes and the resynchronization flag (main.c)

    totem reports a membership change to [confchg_fn].  It marks the
    cluster as resynchronizing: it sets main.c's [sync_in_process] and
    tells ipc_glue.c through [cs_ipcs_sync_state_changed], which stores
    its own copy [ipc_fc_sync_in_process] and recomputes flow control
    (FlowControl.v).  It also records the members that left and joined
    in the object database ([member_object_left], [member_object_joined]),
    calls the [confchg_fn] of the first [service_count] services, and
    drives the sync engine: it aborts a sync still running and starts or
    prepares the next.  [corosync_sync_completed] clears both flags.  The
    sync engine asks for each service's callbacks through
    [corosync_sync_callbacks_retrieve] and
    [corosync_sync_v2_callbacks_retrieve].

    State: [main_state] holds main.c's statics ([sync_in_process],
    [minimum_sync_mode], [corosync_ring_id]), the member objects as a
    [gmap] from object name to [member_object], and the flow-control
    system of ipc_glue.c.  The object database names a node's object by
    the decimal string of its id, so an object name is the integer that
    string denotes.  The calls to the sync engine and to the services are
    returned as [sync_effect]s.

    Theorems: the two copies of the sync flag agree after the first
    membership event but disagree from start-up until then; a sync is
    aborted exactly when a membership change arrives before the previous
    sync completed; the member objects count joins, except for node ids
    of 2^31 and more, whose departures are filed under another name;
    the callback lookup loop is equivalent to a direct test of the
    slot. *)

From Stdlib Require Import ZArith Lia.
From stdpp Require Import base list gmap fin_maps numbers.
From S2P Require Import Prelude CoroDefs Totem Admission FlowControl.

Open Scope Z_scope.

(** ** Data *)

Inductive totem_configuration_type :=
| TOTEM_CONFIGURATION_REGULAR
| TOTEM_CONFIGURATION_TRANSITIONAL.

#[export] Instance totem_configuration_type_eq_dec : EqDecision totem_configuration_type.
Proof. solve_decision. Defined.

(** [struct memb_ring_id]: the representative's address and the ring
    sequence number. *)
Record memb_ring_id := { ring_rep : Z; ring_seq : Z }.

#[export] Instance memb_ring_id_eq_dec : EqDecision memb_ring_id.
Proof. solve_decision. Defined.

(** The ["status"] key of a member object: ["joined"] or ["left"]. *)
Inductive member_status := MemberJoined | MemberLeft.

#[export] Instance member_status_eq_dec : EqDecision member_status.
Proof. solve_decision. Defined.

(** A member object: the node whose address ["ip"] holds (printed by
    [totem_ifaces_print]), ["join_count"] ([uint32]) and ["status"]. *)
Record member_object := {
  mo_ip_of : Z;
  join_count : Z;
  status : member_status
}.

Record main_state := {
  sync_in_process : Z;
  minimum_sync_mode : cs_sync_mode;
  corosync_ring_id : memb_ring_id;
  memb_objects : gmap Z member_object;
  ipc_fc : fc_system
}.

Inductive sync_effect :=
| ServiceConfchg (i : nat) (ty : totem_configuration_type)
| SyncV2Abort
| SyncV2SaveTransitional (members : list Z) (ring_id : memb_ring_id)
| SyncV2Start (members : list Z) (ring_id : memb_ring_id).

#[export] Instance sync_effect_eq_dec : EqDecision sync_effect.
Proof. solve_decision. Defined.

(** [static unsigned int service_count = 32] (line 145). *)
Definition service_count : nat := 32.

(** ** Member objects (lines 345-414) *)

(** [snprintf (nodeid_str, 64, "%d", nodeid)]: the unsigned id printed
    as a signed [int]. *)
Definition member_object_joined (objs : gmap Z member_object) (nodeid : Z)
    : gmap Z member_object :=
  let name := to_int32 nodeid in
  match objs !! name with
  | Some o => <[name := {| mo_ip_of := mo_ip_of o; join_count := incr 32 (join_count o);
                           status := MemberJoined |}]> objs
  | None => <[name := {| mo_ip_of := nodeid; join_count := 1; status := MemberJoined |}]> objs
  end.

(** [snprintf (nodeid_str, 64, "%u", nodeid)]: printed unsigned. *)
Definition member_object_left (objs : gmap Z member_object) (nodeid : Z)
    : gmap Z member_object :=
  let name := nodeid in
  match objs !! name with
  | Some o => <[name := {| mo_ip_of := mo_ip_of o; join_count := join_count o;
                           status := MemberLeft |}]> objs
  | None => objs
  end.

(** ** [confchg_fn] (lines 416-460) and [corosync_sync_completed] (262-269) *)

(** Lines 442-449: services [i .. i+n-1] with a [confchg_fn]. *)
Fixpoint confchg_services (reg : list service_slot) (ty : totem_configuration_type) (i n : nat)
    : c_read (list sync_effect) :=
  match n with
  | O => Loaded []
  | S n' =>
      match array_get reg (Z.of_nat i), confchg_services reg ty (S i) n' with
      | OutOfBounds, _ | _, OutOfBounds => OutOfBounds
      | Loaded slot, Loaded rest =>
          match ais_service_entry slot with
          | Some svc => if confchg_fn_present svc then Loaded (ServiceConfchg i ty :: rest)
                        else Loaded rest
          | None => Loaded rest
          end
      end
  end.

Definition of_c_read {A} (r : c_read A) : option A :=
  match r with Loaded a => Some a | OutOfBounds => None end.

Definition confchg_fn (reg : list service_slot) (ty : totem_configuration_type)
    (member_list left_list joined_list : list Z) (ring_id : memb_ring_id) (st : main_state)
    : option (main_state * list sync_effect) :=
  let abort_activate := sync_in_process st =? 1 in
  fc' ← fc_handle reg (SyncChanged 1) (ipc_fc st);
  let objs := foldl member_object_joined
                (foldl member_object_left (memb_objects st) left_list) joined_list in
  calls ← of_c_read (confchg_services reg ty 0 service_count);
  let v2 := bool_decide (minimum_sync_mode st = CS_SYNC_V2) in
  Some ({| sync_in_process := 1; minimum_sync_mode := minimum_sync_mode st;
           corosync_ring_id := ring_id; memb_objects := objs; ipc_fc := fc' |},
        calls ++ (if abort_activate then [SyncV2Abort] else [])
              ++ (if v2 && bool_decide (ty = TOTEM_CONFIGURATION_TRANSITIONAL)
                  then [SyncV2SaveTransitional member_list ring_id] else [])
              ++ (if v2 && bool_decide (ty = TOTEM_CONFIGURATION_REGULAR)
                  then [SyncV2Start member_list ring_id] else [])).

Definition corosync_sync_completed (reg : list service_slot) (st : main_state)
    : option main_state :=
  fc' ← fc_handle reg (SyncChanged 0) (ipc_fc st);
  Some {| sync_in_process := 0; minimum_sync_mode := minimum_sync_mode st;
          corosync_ring_id := corosync_ring_id st; memb_objects := memb_objects st;
          ipc_fc := fc' |}.

(** ** Runs *)

Inductive memb_event :=
| Confchg (ty : totem_configuration_type) (member_list left_list joined_list : list Z)
    (ring_id : memb_ring_id)
| SyncCompleted.

Definition memb_handle (reg : list service_slot) (e : memb_event) (st : main_state)
    : option (main_state * list sync_effect) :=
  match e with
  | Confchg ty m l j r => confchg_fn reg ty m l j r st
  | SyncCompleted => st' ← corosync_sync_completed reg st; Some (st', [])
  end.

(** The state after a sequence of events and the effects in order. *)
Fixpoint memb_run (reg : list service_slot) (es : list memb_event) (st : main_state)
    : option (main_state * list sync_effect) :=
  match es with
  | [] => Some (st, [])
  | e :: es' =>
      '(st1, o1) ← memb_handle reg e st;
      '(st2, o2) ← memb_run reg es' st1;
      Some (st2, o1 ++ o2)
  end.

(** Start-up: [sync_in_process = 1] (line 159); ipc_glue.c's statics are
    zero, so its copy of the flag is 0. *)
Definition main_initial (mode : cs_sync_mode) (ring : memb_ring_id) (fc : fc_system) : main_state :=
  {| sync_in_process := 1; minimum_sync_mode := mode; corosync_ring_id := ring;
     memb_objects := ∅; ipc_fc := fc |}.

Definition fc_initial : fc_system :=
  {| fs_state := {| ipc_fc_is_quorate := 0; ipc_fc_totem_queue_level := TOTEM_Q_LEVEL_LOW;
                    ipc_fc_sync_in_process := 0 |};
     fs_rates := ∅; fs_timers := 0 |}.

(** ** Callback lookup for the sync engines (lines 271-343) *)

(** [struct sync_callbacks], as far as the code fills it from a service:
    whose callbacks they are and the API version. *)
Record sync_callbacks := { cb_service : nat; cb_api_version : Z }.

Inductive retrieve_result :=
| EvilCallbacksLoad (id : Z)
| RetrieveFailed
| Retrieved (cb : sync_callbacks).

Definition sync_v1_mode (svc : corosync_service_engine) : bool :=
  bool_decide (sync_mode svc = CS_SYNC_V1) || bool_decide (sync_mode svc = CS_SYNC_V1_APIV2).

Definition callbacks_of (i : nat) (svc : corosync_service_engine) : sync_callbacks :=
  {| cb_service := i;
     cb_api_version := if bool_decide (sync_mode svc = CS_SYNC_V1_APIV2) then 2 else 1 |}.

(** Lines 277-288: the loop, from index [i] with [n] iterations left; it
    ends at the index where it broke or at [i + n].  [sync_id] is
    compared as an [unsigned int]. *)
Fixpoint sync_v1_index (reg : list service_slot) (sync_id : Z) (i n : nat) : c_read nat :=
  match n with
  | O => Loaded i
  | S n' =>
      match array_get reg (Z.of_nat i) with
      | OutOfBounds => OutOfBounds
      | Loaded slot =>
          match ais_service_entry slot with
          | Some svc => if sync_v1_mode svc && (Z.of_nat i =? u32 sync_id) then Loaded i
                        else sync_v1_index reg sync_id (S i) n'
          | None => sync_v1_index reg sync_id (S i) n'
          end
      end
  end.

Definition corosync_sync_callbacks_retrieve (reg : list service_slot) (sync_id : Z)
    : c_read retrieve_result :=
  match sync_v1_index reg sync_id 0 (Z.to_nat SERVICE_HANDLER_MAXIMUM_COUNT) with
  | OutOfBounds => OutOfBounds
  | Loaded idx =>
      if Z.of_nat idx =? SERVICE_HANDLER_MAXIMUM_COUNT then Loaded (EvilCallbacksLoad sync_id)
      else match array_get reg (Z.of_nat idx) with
           | Loaded {| ais_service_entry := Some svc |} => Loaded (Retrieved (callbacks_of idx svc))
           | _ => OutOfBounds
           end
  end.

(** Lines 308-343.  The [&&] of lines 314 and 318 reads
    [ais_service[CLM_SERVICE]] only when the first two tests hold. *)
Definition slot_empty (reg : list service_slot) (i : Z) : c_read bool :=
  match array_get reg i with
  | Loaded slot => Loaded (bool_decide (ais_service_entry slot = None))
  | OutOfBounds => OutOfBounds
  end.

Definition corosync_sync_v2_callbacks_retrieve (mode : cs_sync_mode) (reg : list service_slot)
    (service_id : Z) : c_read retrieve_result :=
  let v2 := bool_decide (mode = CS_SYNC_V2) in
  let evil_if (sid : Z) (k : c_read retrieve_result) :=
    if v2 && (service_id =? sid) then
      match slot_empty reg sid with
      | OutOfBounds => OutOfBounds
      | Loaded true => Loaded (EvilCallbacksLoad service_id)
      | Loaded false => k
      end
    else k in
  evil_if (service_id_val CLM_SERVICE) (evil_if (service_id_val EVT_SERVICE)
    (match array_get reg service_id with
     | OutOfBounds => OutOfBounds
     | Loaded slot =>
         match ais_service_entry slot with
         | None => Loaded RetrieveFailed
         | Some svc =>
             if bool_decide (mode = CS_SYNC_V1) && negb (bool_decide (sync_mode svc = CS_SYNC_V2))
             then Loaded RetrieveFailed
             else Loaded (Retrieved (callbacks_of (Z.to_nat service_id) svc))
         end
     end)).

(** ** Observations *)

Definition count_aborts (effs : list sync_effect) : nat :=
  length (filter (fun e => e = SyncV2Abort) effs).

(** The aborts a sequence of events calls for: a membership change
    aborts when a sync is running, i.e. when no [SyncCompleted] came since
    the previous change ([running] says whether one runs at the start). *)
Fixpoint aborts_spec (running : bool) (es : list memb_event) : nat :=
  match es with
  | [] => 0
  | Confchg _ _ _ _ _ :: es' => (if running then 1 else 0) + aborts_spec true es'
  | SyncCompleted :: es' => aborts_spec false es'
  end.

(** Object names are [int] values. *)
Definition names_int32 (objs : gmap Z member_object) : Prop :=
  map_Forall (fun k _ => - 2 ^ 31 <= k < 2 ^ 31) objs.

(** Node ids are [unsigned int]. *)
Definition node_ids_ok (es : list memb_event) : Prop :=
  Forall (fun e => match e with
                   | Confchg _ _ l j _ => Forall (fun n => 0 <= n < 2 ^ 32) (l ++ j)
                   | SyncCompleted => True
                   end) es.

(** The slot the v1 loop stops at, tested directly. *)
Definition sync_v1_slot (reg : list service_slot) (j : nat) : option corosync_service_engine :=
  match reg !! j with
  | Some {| ais_service_entry := Some svc |} => if sync_v1_mode svc then Some svc else None
  | _ => None
  end.

(** What [corosync_sync_callbacks_retrieve] computes, without the loop. *)
Definition sync_v1_lookup (reg : list service_slot) (sync_id : Z) : retrieve_result :=
  let j := u32 sync_id in
  if j <? SERVICE_HANDLER_MAXIMUM_COUNT then
    match sync_v1_slot reg (Z.to_nat j) with
    | Some svc => Retrieved (callbacks_of (Z.to_nat j) svc)
    | None => EvilCallbacksLoad sync_id
    end
  else EvilCallbacksLoad sync_id.

(** ** Invariants, observations and concrete inputs *)

Definition SERVICE_COUNT_NAT : nat := Z.to_nat SERVICE_HANDLER_MAXIMUM_COUNT.

Definition ring0 : memb_ring_id := {| ring_rep := 1; ring_seq := 4 |}.

Definition ring1 : memb_ring_id := {| ring_rep := 1; ring_seq := 8 |}.

(** Start-up on a node running the CPG-like service, with v2 sync. *)
Definition boot : main_state := main_initial CS_SYNC_V2 ring0 fc_initial.

(** Two membership changes before the first sync completes, then one
    after it: the second change aborts the sync the first started. *)
Definition memb_trace : list memb_event :=
  [Confchg TOTEM_CONFIGURATION_REGULAR [1; 2] [] [2] ring0;
   Confchg TOTEM_CONFIGURATION_REGULAR [1; 2; 3] [] [3] ring1;
   SyncCompleted;
   Confchg TOTEM_CONFIGURATION_TRANSITIONAL [1; 3] [2] [] ring1].

(** ** Lemmas *)

Lemma sync_v1_index_spec reg sync_id i n :
  (i + n <= length reg)%nat ->
  sync_v1_index reg sync_id i n =
    Loaded (if decide (i <= Z.to_nat (u32 sync_id) < i + n)%nat
            then match sync_v1_slot reg (Z.to_nat (u32 sync_id)) with
                 | Some _ => Z.to_nat (u32 sync_id)
                 | None => (i + n)%nat
                 end
            else (i + n)%nat).
Proof.
  pose proof (wrap_range 32 sync_id ltac:(lia)) as Hr. set (j := Z.to_nat (u32 sync_id)).
  assert (Hj : Z.of_nat j = u32 sync_id) by (unfold j; lia). clearbody j.
  revert i. induction n as [| n IH]; intros i Hlen; simpl.
  - case_decide; [lia |]. f_equal. lia.
  - rewrite array_get_lookup.
    destruct (lookup_lt_is_Some_2 reg i) as [slot Hslot]; [lia |]. rewrite Hslot.
    assert (Hnext : sync_v1_index reg sync_id (S i) n =
      Loaded (if decide (i < j < i + S n)%nat
              then match sync_v1_slot reg j with Some _ => j | None => (i + S n)%nat end
              else (i + S n)%nat)).
    { rewrite IH by lia. f_equal. replace (S i + n)%nat with (i + S n)%nat by lia.
      repeat case_decide; done || lia. }
    destruct (decide (i = j)) as [<- | Hne].
    + rewrite Hnext. unfold sync_v1_slot. rewrite Hslot.
      destruct slot as [[svc |] ?]; simpl; rewrite <- ?Hj, ?Z.eqb_refl, ?andb_true_r;
        [destruct (sync_v1_mode svc) |]; repeat case_decide; done || lia.
    + assert (Hneq : (Z.of_nat i =? u32 sync_id) = false) by (apply Z.eqb_neq; lia).
      destruct (ais_service_entry slot) as [svc |]; [rewrite Hneq, andb_false_r |];
        rewrite Hnext; f_equal; repeat case_decide; done || lia.
Qed.

Lemma confchg_services_only_calls reg ty i n calls :
  confchg_services reg ty i n = Loaded calls -> count_aborts calls = 0%nat.
Proof.
  revert i calls. induction n as [| n IH]; intros i calls; simpl; [by intros [= <-] |].
  destruct (array_get reg (Z.of_nat i)) as [slot |]; [| done].
  destruct (confchg_services reg ty (S i) n) as [rest |] eqn:Er; [| done].
  specialize (IH _ _ Er).
  destruct (ais_service_entry slot) as [svc |]; [destruct (confchg_fn_present svc) |];
    intros [= <-]; unfold count_aborts in *; rewrite ?list.filter_cons;
    try case_decide; done.
Qed.

Lemma count_aborts_app a b : count_aborts (a ++ b) = (count_aborts a + count_aborts b)%nat.
Proof. unfold count_aborts. by rewrite list.filter_app, length_app. Qed.

(** One event: the new value of both flags and the aborts it issues. *)
Lemma memb_handle_spec reg e st st' o :
  memb_handle reg e st = Some (st', o) ->
  sync_in_process st' = ipc_fc_sync_in_process (fs_state (ipc_fc st')) /\
  match e with
  | Confchg _ _ _ _ _ =>
      sync_in_process st' = 1 /\ count_aborts o = if sync_in_process st =? 1 then 1%nat else 0%nat
  | SyncCompleted => sync_in_process st' = 0 /\ o = []
  end.
Proof.
  destruct e as [ty m l j r |]; cbn [memb_handle].
  - unfold confchg_fn.
    destruct (fc_handle reg (SyncChanged 1) (ipc_fc st)) as [fc' |] eqn:Efc; [| done].
    destruct (confchg_services reg ty 0 service_count) as [calls |] eqn:Ec; simpl; [| done].
    intros [= <- <-]. simpl. rewrite (fc_handle_sync_state _ _ _ _ Efc).
    split; [done |]. split; [done |].
    rewrite !count_aborts_app, (confchg_services_only_calls _ _ _ _ _ Ec).
    unfold count_aborts.
    destruct (sync_in_process st =? 1), (bool_decide (minimum_sync_mode st = CS_SYNC_V2));
      destruct ty; simpl; rewrite ?list.filter_cons, ?list.filter_nil;
      repeat case_decide; simpl; done.
  - unfold corosync_sync_completed.
    destruct (fc_handle reg (SyncChanged 0) (ipc_fc st)) as [fc' |] eqn:Efc; [| done]. simpl.
    intros [= <- <-]. simpl. by rewrite (fc_handle_sync_state _ _ _ _ Efc).
Qed.

Lemma to_int32_range n : 0 <= n < 2 ^ 32 -> - 2 ^ 31 <= to_int32 n < 2 ^ 31.
Proof. intros Hn. unfold to_int32. destruct (Z.ltb_spec n (2 ^ 31)); lia. Qed.

Lemma names_joined objs n :
  0 <= n < 2 ^ 32 -> names_int32 objs -> names_int32 (member_object_joined objs n).
Proof.
  intros Hn Hobjs. unfold member_object_joined, names_int32.
  destruct (objs !! to_int32 n); apply map_Forall_insert_2; auto using to_int32_range.
Qed.

Lemma names_left objs n : names_int32 objs -> names_int32 (member_object_left objs n).
Proof.
  intros Hobjs. unfold member_object_left, names_int32.
  destruct (objs !! n) eqn:E; [| done].
  apply map_Forall_insert_2; [exact (Hobjs n m E) | done].
Qed.

Lemma names_confchg objs l j :
  Forall (fun n => 0 <= n < 2 ^ 32) (l ++ j) -> names_int32 objs ->
  names_int32 (foldl member_object_joined (foldl member_object_left objs l) j).
Proof.
  rewrite Forall_app. intros [_ Hj] Hobjs.
  assert (Hl : names_int32 (foldl member_object_left objs l)).
  { clear Hj. revert objs Hobjs. induction l; intros; simpl; auto using names_left. }
  revert Hl. generalize (foldl member_object_left objs l). clear Hobjs.
  induction j; intros objs' Hl; inversion Hj; subst; simpl; auto using names_joined.
Qed.

(** Every state a run reaches keeps object names within [int]. *)
Lemma memb_run_names reg es st st' effs :
  node_ids_ok es -> names_int32 (memb_objects st) ->
  memb_run reg es st = Some (st', effs) -> names_int32 (memb_objects st').
Proof.
  revert st st' effs. induction es as [| e es IH]; intros st st' effs Hok Hn; simpl;
    [by intros [= <- _] |].
  inversion Hok as [| ? ? He Hes]; subst.
  destruct (memb_handle reg e st) as [[st1 o1] |] eqn:E1; [| done]. simpl.
  destruct (memb_run reg es st1) as [[st2 o2] |] eqn:E2; [| done]. simpl.
  intros [= <- _]. apply (IH st1 st2 o2); [done | | done].
  destruct e as [ty m l j r |]; simpl in E1.
  - unfold confchg_fn in E1.
    destruct (fc_handle reg (SyncChanged 1) (ipc_fc st)); [| done].
    destruct (confchg_services reg ty 0 service_count); simpl in E1; [| done].
    injection E1 as <- _. by apply names_confchg.
  - unfold corosync_sync_completed in E1.
    destruct (fc_handle reg (SyncChanged 0) (ipc_fc st)); simpl in E1; [| done].
    by injection E1 as <- _.
Qed.

(** ** Theorems *)

(** C25. The two copies of the sync flag agree after any non-empty run
    of membership events: main.c's [sync_in_process] (read by
    [corosync_sending_allowed]) equals ipc_glue.c's
    [ipc_fc_sync_in_process] (read by flow control). *)
Theorem sync_flags_agree reg es st st' effs :
  memb_run reg es st = Some (st', effs) -> es <> [] ->
  sync_in_process st' = ipc_fc_sync_in_process (fs_state (ipc_fc st')).
Proof.
  revert st st' effs. induction es as [| e es IH]; intros st st' effs; simpl; [done |].
  destruct (memb_handle reg e st) as [[st1 o1] |] eqn:E1; [| done]. simpl.
  destruct (memb_run reg es st1) as [[st2 o2] |] eqn:E2; [| done]. simpl.
  intros [= <- _] _. destruct es as [| e' es'].
  - simpl in E2. injection E2 as <- _. apply (memb_handle_spec _ _ _ _ _ E1).
  - by apply (IH st1 st2 o2).
Qed.

(** C19. [confchg_fn] aborts the running sync exactly when a membership
    change arrives before [corosync_sync_completed] has reported the end
    of the previous one: over any run, the number of [sync_v2_abort]
    calls is the number of changes that find a sync running. *)
Theorem sync_aborts_counted reg es st st' effs :
  memb_run reg es st = Some (st', effs) ->
  count_aborts effs = aborts_spec (sync_in_process st =? 1) es.
Proof.
  revert st st' effs. induction es as [| e es IH]; intros st st' effs; simpl;
    [by intros [= _ <-] |].
  destruct (memb_handle reg e st) as [[st1 o1] |] eqn:E1; [| done]. simpl.
  destruct (memb_run reg es st1) as [[st2 o2] |] eqn:E2; [| done]. simpl.
  intros [= _ <-]. rewrite count_aborts_app, (IH _ _ _ E2).
  destruct (memb_handle_spec _ _ _ _ _ E1) as [_ He].
  destruct e; destruct He as [-> Ho]; [rewrite Ho | subst o1]; done.
Qed.

(** C27. [member_object_joined] names a node's object with ["%d"] and
    [member_object_left] looks it up with ["%u"].  For a node id below
    2^31 the two agree and a departure is recorded.  For a node id of
    2^31 or more the departure looks under another name, finds nothing,
    and the object keeps the status ["joined"]. *)
Theorem member_left_recorded objs n :
  names_int32 objs -> 0 <= n < 2 ^ 32 ->
  status <$> member_object_left (member_object_joined objs n) n !! to_int32 n =
    Some (if n <? 2 ^ 31 then MemberLeft else MemberJoined).
Proof.
  intros Hobjs Hn. unfold member_object_joined, member_object_left.
  destruct (Z.ltb_spec n (2 ^ 31)).
  - rewrite !to_int32_small by lia.
    destruct (objs !! n); rewrite lookup_insert_eq, insert_insert_eq, lookup_insert_eq; done.
  - assert (Hne : to_int32 n <> n) by (unfold to_int32; destruct (Z.ltb_spec n (2 ^ 31)); lia).
    assert (Hnone : objs !! n = None).
    { destruct (objs !! n) eqn:E; [| done]. pose proof (Hobjs n m E) as Hk. cbn beta in Hk. lia. }
    destruct (objs !! to_int32 n);
      rewrite lookup_insert_ne, Hnone, lookup_insert_eq by congruence; done.
Qed.

(** The slot search of [corosync_sync_callbacks_retrieve] as a direct lookup. *)
Lemma callbacks_retrieve_lookup reg sync_id :
  length reg = SERVICE_COUNT_NAT ->
  corosync_sync_callbacks_retrieve reg sync_id = Loaded (sync_v1_lookup reg sync_id).
Proof.
  intros Hlen. pose proof (wrap_range 32 sync_id ltac:(lia)) as Hr.
  unfold corosync_sync_callbacks_retrieve, sync_v1_lookup.
  rewrite sync_v1_index_spec by (unfold SERVICE_COUNT_NAT in *; lia).
  unfold SERVICE_HANDLER_MAXIMUM_COUNT in *. simpl (Z.to_nat 64).
  destruct (Z.ltb_spec (u32 sync_id) 64).
  - rewrite decide_True by lia.
    destruct (sync_v1_slot reg (Z.to_nat (u32 sync_id))) as [svc |] eqn:Es.
    + rewrite (proj2 (Z.eqb_neq _ _)) by lia. rewrite array_get_lookup.
      unfold sync_v1_slot in Es.
      destruct (reg !! Z.to_nat (u32 sync_id)) as [[[svc' |] ?] |]; try done.
      destruct (sync_v1_mode svc'); simplify_eq; done.
    + by rewrite Z.eqb_refl.
  - rewrite decide_False by lia. by rewrite Z.eqb_refl.
Qed.

(** The search loop of [corosync_sync_callbacks_retrieve] (lines
    277-294) computes the direct lookup [sync_v1_lookup]: on a full table
    it finds the slot [sync_id] exactly when that slot holds a service in
    a v1 sync mode, and falls back to [evil_callbacks_load] otherwise,
    including for ids outside the table. *)
Theorem callbacks_retrieve_direct reg sync_id :
  length reg = SERVICE_COUNT_NAT ->
  corosync_sync_callbacks_retrieve reg sync_id = Loaded (sync_v1_lookup reg sync_id).
Proof. exact (callbacks_retrieve_lookup reg sync_id). Qed.

Lemma v2_retrieve_loaded mode reg i slot svc :
  reg !! i = Some slot -> ais_service_entry slot = Some svc ->
  corosync_sync_v2_callbacks_retrieve mode reg (Z.of_nat i) =
    if bool_decide (mode = CS_SYNC_V1) && negb (bool_decide (sync_mode svc = CS_SYNC_V2))
    then Loaded RetrieveFailed else Loaded (Retrieved (callbacks_of i svc)).
Proof.
  intros Eslot Es. unfold corosync_sync_v2_callbacks_retrieve, slot_empty. cbv beta zeta.
  assert (Hget : array_get reg (Z.of_nat i) = Loaded slot) by by rewrite array_get_lookup, Eslot.
  assert (Hfull : bool_decide (ais_service_entry slot = None) = false)
    by (apply bool_decide_eq_false; congruence).
  destruct (Z.eqb_spec (Z.of_nat i) (service_id_val CLM_SERVICE)) as [Hc | _];
    [rewrite <- Hc |];
  (destruct (Z.eqb_spec (Z.of_nat i) (service_id_val EVT_SERVICE)) as [He | _];
    [rewrite <- He |]); rewrite ?Hget, ?Hfull, ?andb_false_r, ?if_same, Es, Nat2Z.id;
    by destruct (bool_decide (mode = CS_SYNC_V2)).
Qed.

(** Which sync engine synchronizes a loaded service.  Under a v1
    minimum sync mode exactly one of the two engines does: the v1 loop for
    services in a v1 mode, the v2 engine for the others, with the same
    callbacks.  Under the v2 minimum mode the v2 engine takes every loaded
    service. *)
Theorem sync_engine_assignment reg i svc :
  length reg = SERVICE_COUNT_NAT -> (i < SERVICE_COUNT_NAT)%nat ->
  ais_service_entry <$> reg !! i = Some (Some svc) ->
  ((corosync_sync_callbacks_retrieve reg (Z.of_nat i) = Loaded (Retrieved (callbacks_of i svc)) /\
    corosync_sync_v2_callbacks_retrieve CS_SYNC_V1 reg (Z.of_nat i) = Loaded RetrieveFailed) \/
   (corosync_sync_callbacks_retrieve reg (Z.of_nat i) = Loaded (EvilCallbacksLoad (Z.of_nat i)) /\
    corosync_sync_v2_callbacks_retrieve CS_SYNC_V1 reg (Z.of_nat i) =
      Loaded (Retrieved (callbacks_of i svc)))) /\
  corosync_sync_v2_callbacks_retrieve CS_SYNC_V2 reg (Z.of_nat i) =
    Loaded (Retrieved (callbacks_of i svc)).
Proof.
  intros Hlen Hi Hsvc.
  destruct (reg !! i) as [slot |] eqn:Eslot; simplify_eq/=.
  rewrite !(v2_retrieve_loaded _ _ _ _ _ Eslot Hsvc).
  rewrite callbacks_retrieve_lookup by done.
  unfold sync_v1_lookup, sync_v1_slot. rewrite wrap_small, Nat2Z.id, Eslot
    by (unfold SERVICE_COUNT_NAT, SERVICE_HANDLER_MAXIMUM_COUNT in *; lia).
  destruct (Z.ltb_spec (Z.of_nat i) SERVICE_HANDLER_MAXIMUM_COUNT);
    [| unfold SERVICE_COUNT_NAT in *; lia].
  destruct slot as [entry inst]; simplify_eq/=. unfold sync_v1_mode.
  destruct (sync_mode svc); cbn; auto.
Qed.

(** ** Concrete runs *)

(** C30. At start-up main.c's [sync_in_process] is 1 and ipc_glue.c's
    copy is 0, whatever the sync mode and the ring.  Until the first
    membership change the two disagree: once the node is quorate (and the
    totem queue is low, as it starts), flow control sets the server of
    every service with an IPC server to full rate, while
    [corosync_sending_allowed] refuses every flow-controlled request of
    that same service, for every successful reservation, as
    resynchronizing ([-EINPROGRESS], which the client sees as
    [CS_ERR_TRY_AGAIN]). *)
Theorem startup_flags_disagree {T} `{TotemReserveLaws T} mode ring reg j svc id h header
    (t t1 : T) r :
  length reg = Z.to_nat SERVICE_HANDLER_MAXIMUM_COUNT -> registered reg j = Some svc ->
  array_get (lib_engine svc) id = Loaded h -> flow_control h <> CS_LIB_FLOW_CONTROL_NOT_REQUIRED ->
  totempg_groups_joined_reserve t (u64 (header_size header)) = (r, t1) -> 0 < r ->
  let st := main_initial mode ring fc_initial in
  sync_in_process st = 1 /\ ipc_fc_sync_in_process (fs_state (ipc_fc st)) = 0 /\
  (fc_handle reg (QuorumChanged 1) (ipc_fc st) ≫= fun fc => fs_rates fc !! j) = Some QB_IPCS_RATE_FAST /\
  corosync_sending_allowed 1 (sync_in_process st) svc id header t = (Loaded (- EINPROGRESS), r, t1).
Proof.
  intros Hlen Hj Hh Hfc E Hr st. split; [done |]. split; [done |]. split.
  - assert (Hjl : (j < length reg)%nat).
    { unfold registered in Hj. destruct (reg !! j) eqn:Ej; [| done]. by eapply lookup_lt_Some. }
    unfold fc_handle, fc_notify, cs_ipcs_fc_quorum_changed, cs_ipcs_check_for_flow_control. cbn [fst snd].
    destruct (check_services_spec (set_is_quorate 1 (fs_state (ipc_fc st))) reg 0
                (Z.to_nat SERVICE_HANDLER_MAXIMUM_COUNT)
                {| fs_state := set_is_quorate 1 (fs_state (ipc_fc st)); fs_rates := fs_rates (ipc_fc st);
                   fs_timers := fs_timers (ipc_fc st) |}) as (es & Ees & _ & Hrates & _); [lia |].
    rewrite Ees. simpl. rewrite Hrates, decide_True, Hj by lia. reflexivity.
  - rewrite (sending_allowed_evaluate 1 (sync_in_process st) svc id header t h r t1 Hh E).
    unfold evaluate. simpl.
    destruct (Z.eqb_spec r (-1)); [lia |]. apply Z.eqb_neq in Hfc. rewrite Hfc. simpl.
    rewrite andb_false_r. destruct (Z.eqb_spec r 0); [lia |]. reflexivity.
Qed.

Lemma sync_flags_agree_witness :
  match memb_run reg_cpg memb_trace boot with
  | Some (st', effs) => sync_in_process st' = ipc_fc_sync_in_process (fs_state (ipc_fc st'))
  | None => False
  end.
Proof.
  destruct (memb_run reg_cpg memb_trace boot) as [[st' effs] |] eqn:E.
  - apply (sync_flags_agree reg_cpg memb_trace boot st' effs E). discriminate.
  - vm_compute in E. discriminate.
Defined.

Lemma sync_aborts_counted_witness :
  match memb_run reg_cpg memb_trace boot with
  | Some (st', effs) => count_aborts effs = aborts_spec (sync_in_process boot =? 1) memb_trace
  | None => False
  end.
Proof.
  destruct (memb_run reg_cpg memb_trace boot) as [[st' effs] |] eqn:E.
  - apply (sync_aborts_counted reg_cpg memb_trace boot st' effs E).
  - vm_compute in E. discriminate.
Defined.

(** The run above issues two aborts: the boot-time sync and the one the
    first change started are both cut short. *)
Lemma memb_trace_aborts : aborts_spec (sync_in_process boot =? 1) memb_trace = 2%nat.
Proof. reflexivity. Qed.

Lemma member_left_recorded_witness :
  names_int32 ∅ /\ 0 <= 3000000000 < 2 ^ 32 /\
  status <$> member_object_left (member_object_joined ∅ 3000000000) 3000000000
    !! to_int32 3000000000 = Some (if 3000000000 <? 2 ^ 31 then MemberLeft else MemberJoined).
Proof.
  split; [apply map_Forall_empty |]. split; [lia |].
  apply member_left_recorded; [apply map_Forall_empty | lia].
Defined.

Lemma callbacks_retrieve_direct_witness :
  length reg_cpg = SERVICE_COUNT_NAT /\
  corosync_sync_callbacks_retrieve reg_cpg 8 = Loaded (sync_v1_lookup reg_cpg 8).
Proof. split; [reflexivity | apply callbacks_retrieve_direct; reflexivity]. Defined.

Lemma sync_engine_assignment_witness :
  length reg_cpg = SERVICE_COUNT_NAT /\ (8 < SERVICE_COUNT_NAT)%nat /\
  ais_service_entry <$> reg_cpg !! 8%nat = Some (Some cpg_engine) /\
  (((corosync_sync_callbacks_retrieve reg_cpg (Z.of_nat 8) =
       Loaded (Retrieved (callbacks_of 8 cpg_engine)) /\
     corosync_sync_v2_callbacks_retrieve CS_SYNC_V1 reg_cpg (Z.of_nat 8) = Loaded RetrieveFailed) \/
    (corosync_sync_callbacks_retrieve reg_cpg (Z.of_nat 8) =
       Loaded (EvilCallbacksLoad (Z.of_nat 8)) /\
     corosync_sync_v2_callbacks_retrieve CS_SYNC_V1 reg_cpg (Z.of_nat 8) =
       Loaded (Retrieved (callbacks_of 8 cpg_engine)))) /\
   corosync_sync_v2_callbacks_retrieve CS_SYNC_V2 reg_cpg (Z.of_nat 8) =
     Loaded (Retrieved (callbacks_of 8 cpg_engine))).
Proof.
  split; [reflexivity |]. split; [vm_compute; lia |]. split; [reflexivity |].
  apply sync_engine_assignment; [reflexivity | vm_compute; lia | reflexivity].
Defined.

Lemma startup_flags_disagree_witness :
  sync_in_process boot = 1 /\ ipc_fc_sync_in_process (fs_state (ipc_fc boot)) = 0 /\
  (fc_handle reg_cpg (QuorumChanged 1) (ipc_fc boot) ≫= fun fc => fs_rates fc !! 8%nat) =
    Some QB_IPCS_RATE_FAST /\
  corosync_sending_allowed 1 (sync_in_process boot) cpg_engine 0 req_join totem_idle =
    (Loaded (- EINPROGRESS), 1, slots_with_reserved 1 totem_idle).
Proof.
  exact (startup_flags_disagree CS_SYNC_V2 ring0 reg_cpg 8 cpg_engine 0
           {| flow_control := CS_LIB_FLOW_CONTROL_REQUIRED |} req_join totem_idle
           (slots_with_reserved 1 totem_idle) 1 eq_refl eq_refl eq_refl ltac:(discriminate) eq_refl
           ltac:(lia)).
Defined.
