(* ===== verification/ConnName.v ===== *)
(** * Connection names ([pid_to_name] and the name of the statistics
    object in [cs_ipcs_connection_created], ipc_glue.c)

    When a client connects, [cs_ipcs_connection_created] names the
    connection's statistics object after the client: [pid_to_name] reads
    the first line of [/proc/<pid>/stat], whose second field is the
    process name in parentheses, and [snprintf] formats
    ["%s:%d:%p"] (name, pid, connection pointer) into 42 bytes.

    C strings and buffers are lists of [ascii]: [fgets_buf] is [fgets],
    [cstr] the part before the first NUL, [strrchr] the index of the last
    occurrence of a character, and stdpp's list insert writes one byte.
    [sprintf_d] and [sprintf_p] are the [%d] and [%p] conversions
    (glibc prints a non-null pointer as [0x] and lowercase hex digits).

    Theorems: for a stat line of the usual shape, [pid_to_name] returns
    the process name, cut to 31 characters; a process name that itself
    contains ['('] is cut after its last ['('], because the code searches
    the opening parenthesis with [strrchr] instead of [strchr].  The digit
    loop of [%p] runs on fuel 64 but stops by itself within 16 iterations
    for any 64-bit pointer, and its digits read back to the pointer
    ([hex_read] is the reading).  The 42-byte buffer cuts the pointer of a
    long process name to a few digits, so two connections of one process
    can get the same name. *)

From Stdlib Require Import ZArith Lia Ascii String.
From stdpp Require Import base list numbers sets pretty.
From S2P Require Import Prelude.

Open Scope Z_scope.

(** ** C string functions *)

Definition NUL : ascii := "000"%char.
Definition NEWLINE : ascii := "010"%char.

(** [fgets (buf, n, fp)] on the remaining file [s]: at most [n - 1]
    characters, up to and including the first newline. *)
Fixpoint fgets_take (n : nat) (s : list ascii) : list ascii :=
  match n, s with
  | O, _ | _, [] => []
  | S n', c :: s' => c :: (if decide (c = NEWLINE) then [] else fgets_take n' s')
  end.

Definition fgets_buf (n : nat) (s : list ascii) : list ascii := fgets_take (Nat.pred n) s.

(** The C string a buffer holds: everything before the first NUL. *)
Fixpoint cstr (s : list ascii) : list ascii :=
  match s with
  | [] => []
  | c :: s' => if decide (c = NUL) then [] else c :: cstr s'
  end.

(** [strrchr (s, c)]: the index of the last [c] in the C string [s]. *)
Fixpoint strrchr_go (i : nat) (s : list ascii) (c : ascii) (found : option nat) : option nat :=
  match s with
  | [] => found
  | d :: s' => strrchr_go (S i) s' c (if decide (d = c) then Some i else found)
  end.

Definition strrchr (s : list ascii) (c : ascii) : option nat := strrchr_go 0 (cstr s) c None.

(** ** [pid_to_name] (lines 239-282) *)

(** [stat] is the content of [/proc/<pid>/stat], [None] when [fopen]
    fails.  [name_len] is 32 at the only call. *)
Definition pid_to_name (stat : option (list ascii)) (name_len : nat) : option (list ascii) :=
  match stat with
  | None => None
  | Some [] => None
  | Some content =>
      let buf := cstr (fgets_buf 256 content) in
      match strrchr buf "(" with
      | None => None
      | Some lp =>
          match strrchr buf ")" with
          | None => None
          | Some rp =>
              if decide (buf !! S rp = Some " "%char) then
                Some (take (Nat.pred name_len) (cstr (drop (S lp) (<[rp := NUL]> buf))))
              else None
          end
      end
  end.

(** ** The statistics object's name (lines 330-346) *)

Definition sprintf_d (n : Z) : list ascii := list_ascii_of_string (pretty n).

Fixpoint hex_go (fuel : nat) (n : N) (acc : list ascii) : list ascii :=
  match fuel with
  | O => acc
  | S fuel' =>
      let d := N.modulo n 16 in
      let c := ascii_of_N (if (d <? 10)%N then 48 + d else 87 + d) in
      if (n <? 16)%N then c :: acc else hex_go fuel' (N.div n 16) (c :: acc)
  end.

Definition sprintf_p (p : N) : list ascii :=
  if decide (p = 0%N) then list_ascii_of_string "(nil)"
  else list_ascii_of_string "0x" ++ hex_go 64 p [].

(** The value a string of lowercase hex digits denotes: what
    [strtoull (s, NULL, 16)] reads back from the digits [%p] printed. *)
Definition hex_digit_value (ch : ascii) : N :=
  let k := N_of_ascii ch in if (k <? 58)%N then (k - 48)%N else (k - 87)%N.

Definition hex_read (l : list ascii) : N :=
  fold_left (fun v ch => v * 16 + hex_digit_value ch)%N l 0%N.

(** [snprintf (conn_name, sizeof (conn_name), ...)] with
    [char conn_name[42]]: at most 41 characters are kept. *)
Definition conn_name (client_pid : Z) (proc_name : option (list ascii)) (c : N) : list ascii :=
  take 41 (if 0 <? client_pid then
             match proc_name with
             | Some name => name ++ [":"%char] ++ sprintf_d client_pid ++ [":"%char] ++ sprintf_p c
             | None => sprintf_d client_pid ++ [":"%char] ++ sprintf_p c
             end
           else sprintf_p c).

(** ** A stat line *)

(** None of the characters [cs] occurs in [l]. *)
Definition avoids (cs l : list ascii) : Prop := Forall (fun x => x ∉ cs) l.

#[export] Instance avoids_dec cs l : Decision (avoids cs l).
Proof. unfold avoids. apply _. Defined.

(** The first line of [/proc/<pid>/stat]: pid, process name in
    parentheses, the other fields. *)
Definition stat_line (pid comm rest : list ascii) : list ascii :=
  pid ++ [" "%char; "("%char] ++ comm ++ [")"%char; " "%char] ++ rest ++ [NEWLINE].

Definition plain : list ascii := ["("%char; ")"%char; NUL; NEWLINE].

(** ** Invariants, observations and concrete inputs *)

Definition s_ (s : string) : list ascii := list_ascii_of_string s.

(** ** Lemmas *)

Lemma avoids_app cs a b : avoids cs (a ++ b) <-> avoids cs a /\ avoids cs b.
Proof. apply Forall_app. Qed.

Lemma fgets_take_line n a more :
  avoids [NEWLINE] a -> (length a < n)%nat ->
  fgets_take n (a ++ NEWLINE :: more) = a ++ [NEWLINE].
Proof.
  revert n. induction a as [| c a IH]; intros [| n] Ha Hn; simpl in *; try lia.
  - by rewrite ?decide_True.
  - inversion Ha as [| ? ? Hc Ha']; subst. rewrite decide_False by set_solver.
    f_equal. apply IH; [done | lia].
Qed.

Lemma cstr_plain a : avoids [NUL] a -> cstr a = a.
Proof.
  induction a as [| c a IH]; intros Ha; simpl; [done |].
  inversion Ha; subst. rewrite decide_False by set_solver. f_equal. auto.
Qed.

Lemma cstr_nul a b : avoids [NUL] a -> cstr (a ++ NUL :: b) = a.
Proof.
  induction a as [| c a IH]; intros Ha; simpl; [by rewrite ?decide_True |].
  inversion Ha; subst. rewrite decide_False by set_solver. f_equal. auto.
Qed.

Lemma strrchr_go_app i a b c f :
  strrchr_go i (a ++ b) c f = strrchr_go (i + length a) b c (strrchr_go i a c f).
Proof.
  revert i f. induction a as [| d a IH]; intros i f; simpl; [by rewrite Nat.add_0_r |].
  rewrite IH. f_equal. lia.
Qed.

Lemma strrchr_go_absent i a c f : avoids [c] a -> strrchr_go i a c f = f.
Proof.
  revert i. induction a as [| d a IH]; intros i Ha; simpl; [done |].
  inversion Ha; subst. rewrite decide_False by set_solver. auto.
Qed.

Lemma avoids_weaken cs cs' l : cs' ⊆ cs -> avoids cs l -> avoids cs' l.
Proof. intros Hsub H. eapply Forall_impl; [exact H |]. set_solver. Qed.

Lemma strrchr_go_last i a c b f :
  avoids [c] b -> strrchr_go i (a ++ c :: b) c f = Some (i + length a)%nat.
Proof.
  intros Hb. rewrite strrchr_go_app. simpl. rewrite decide_True by done.
  by apply strrchr_go_absent.
Qed.

(** Discharges [avoids] side conditions: split appends, weaken a
    hypothesis, decide literal lists. *)
Ltac avoid_tac :=
  repeat match goal with
  | |- avoids _ (_ ++ _) => apply avoids_app; split
  | H : avoids _ ?l |- avoids _ ?l =>
      eapply avoids_weaken; [| exact H]; apply (bool_decide_unpack _); vm_compute; reflexivity
  | |- avoids _ _ => apply (bool_decide_unpack _); vm_compute; reflexivity
  | |- avoids ?cs (_ :: ?l) =>
      apply Forall_cons_2; [apply (bool_decide_unpack _); vm_compute; reflexivity |
                            change (avoids cs l)]
  end.

(** [pid_to_name] returns what follows the last ['('] before the closing
    [") "], when nothing after it holds a parenthesis. *)
Lemma pid_to_name_after_last_paren pre b rest more :
  avoids [")"%char; NUL; NEWLINE] pre -> avoids ["("%char; NUL; NEWLINE] b -> avoids plain rest ->
  (length (pre ++ ["("%char] ++ b ++ [")"%char; " "%char] ++ rest) < 255)%nat ->
  pid_to_name (Some (pre ++ ["("%char] ++ b ++ [")"%char; " "%char] ++ rest ++ NEWLINE :: more)) 32 =
    Some (take 31 b).
Proof.
  intros Hpre Hb Hrest Hlen.
  set (line := pre ++ ["("%char] ++ b ++ [")"%char; " "%char] ++ rest).
  assert (Hl : avoids [NEWLINE; NUL] line) by (unfold line; avoid_tac).
  replace (pre ++ ["("%char] ++ b ++ [")"%char; " "%char] ++ rest ++ NEWLINE :: more)
    with (line ++ NEWLINE :: more) by (unfold line; by rewrite <- !app_assoc).
  unfold pid_to_name. destruct (line ++ NEWLINE :: more) eqn:E; [by destruct line |].
  rewrite <- E. unfold fgets_buf. simpl (Nat.pred 256).
  rewrite fgets_take_line by first [unfold line; lia | avoid_tac].
  rewrite cstr_plain by avoid_tac.
  unfold strrchr. rewrite cstr_plain by avoid_tac.
  set (tail := [" "%char] ++ rest ++ [NEWLINE]).
  assert (Hlp : line ++ [NEWLINE] = pre ++ "("%char :: (b ++ ")"%char :: tail))
    by (unfold line, tail; by rewrite <- !app_assoc).
  assert (Hrp : line ++ [NEWLINE] = (pre ++ "("%char :: b) ++ ")"%char :: tail)
    by (unfold line, tail; by rewrite <- !app_assoc).
  rewrite Hlp at 1. rewrite strrchr_go_last by (unfold tail; avoid_tac).
  rewrite Hrp. rewrite strrchr_go_last by (unfold tail; avoid_tac). simpl (0 + _)%nat.
  rewrite lookup_app_r by lia. replace (S _ - _)%nat with 1%nat by lia.
  unfold tail. simpl.
  rewrite <- (Nat.add_0_r (length (pre ++ "("%char :: b))), insert_app_r. simpl.
  replace ((pre ++ "("%char :: b) ++ NUL :: " "%char :: rest ++ [NEWLINE])
    with ((pre ++ ["("%char]) ++ b ++ NUL :: " "%char :: rest ++ [NEWLINE])
    by (by rewrite <- !app_assoc).
  replace (S (length pre)) with (length (pre ++ ["("%char])) by (rewrite length_app; simpl; lia).
  rewrite drop_app_length, cstr_nul by avoid_tac. done.
Qed.

(** ** Theorems *)

(** C31. On the first line of a [/proc/<pid>/stat] file, [pid_to_name]
    returns the process name cut to 31 characters.  The name may hold
    spaces and [')'] (the code looks for the last [')']); it must not
    hold ['('], NUL or a newline. *)
Theorem pid_to_name_stat_line pid comm rest more :
  avoids plain pid -> avoids ["("%char; NUL; NEWLINE] comm -> avoids plain rest ->
  (length (stat_line pid comm rest) <= 255)%nat ->
  pid_to_name (Some (stat_line pid comm rest ++ more)) 32 = Some (take 31 comm).
Proof.
  intros Hpid Hcomm Hrest Hlen. unfold stat_line in *.
  replace ((pid ++ [" "%char; "("%char] ++ comm ++ [")"%char; " "%char] ++ rest ++ [NEWLINE]) ++ more)
    with ((pid ++ [" "%char]) ++ ["("%char] ++ comm ++ [")"%char; " "%char] ++ rest ++ NEWLINE :: more)
    by (by rewrite <- !app_assoc).
  apply pid_to_name_after_last_paren; [avoid_tac | done | done |].
  rewrite !length_app in *. simpl in *. lia.
Qed.

(** C32. A process name that contains ['('] is cut after its last
    ['(']: [pid_to_name] searches the opening parenthesis with [strrchr],
    which finds the one inside the name. *)
Theorem pid_to_name_paren_in_comm pid a b rest more :
  avoids plain pid -> avoids [")"%char; NUL; NEWLINE] a -> avoids ["("%char; NUL; NEWLINE] b ->
  avoids plain rest ->
  (length (stat_line pid (a ++ ["("%char] ++ b) rest) <= 255)%nat ->
  pid_to_name (Some (stat_line pid (a ++ ["("%char] ++ b) rest ++ more)) 32 = Some (take 31 b).
Proof.
  intros Hpid Ha Hb Hrest Hlen. unfold stat_line in *.
  replace ((pid ++ [" "%char; "("%char] ++ (a ++ ["("%char] ++ b) ++ [")"%char; " "%char] ++
            rest ++ [NEWLINE]) ++ more)
    with ((pid ++ [" "%char; "("%char] ++ a) ++ ["("%char] ++ b ++ [")"%char; " "%char] ++
            rest ++ NEWLINE :: more)
    by (by rewrite <- !app_assoc).
  apply pid_to_name_after_last_paren; [avoid_tac | done | done |].
  rewrite !length_app in *. simpl in *. lia.
Qed.

(** ** The [%p] digit loop *)

Lemma hex_digit_roundtrip (d : N) :
  (d < 16)%N -> hex_digit_value (ascii_of_N (if (d <? 10)%N then 48 + d else 87 + d)) = d.
Proof.
  intros Hd. unfold hex_digit_value.
  destruct (N.ltb_spec d 10); rewrite N_ascii_embedding by lia;
    match goal with |- context [(?a <? 58)%N] => destruct (N.ltb_spec a 58) end; lia.
Qed.

Lemma hex_read_shift l v :
  fold_left (fun v ch => v * 16 + hex_digit_value ch)%N l v = (v * 16 ^ N.of_nat (length l) + hex_read l)%N.
Proof.
  unfold hex_read. revert v. induction l as [| x l IH]; intros v; simpl; [lia |].
  rewrite (IH (v * 16 + _)%N), (IH (0 * 16 + _)%N), Nat2N.inj_succ, N.pow_succ_r'. nia.
Qed.

(** Each iteration prints the lowest digit in front of the ones already
    printed; with enough fuel the digits read back to the value. *)
Lemma hex_go_read fuel n acc :
  (n < 16 ^ N.of_nat fuel)%N ->
  hex_read (hex_go fuel n acc) = (n * 16 ^ N.of_nat (length acc) + hex_read acc)%N.
Proof.
  revert n acc. induction fuel as [| f IH]; intros n acc Hn; simpl in *; [lia |].
  rewrite Nat2N.inj_succ, N.pow_succ_r' in Hn.
  pose proof (N.div_mod n 16 ltac:(lia)) as Hdm. pose proof (N.mod_lt n 16 ltac:(lia)) as Hm.
  assert (Hc : forall l, hex_read (ascii_of_N (if (n mod 16 <? 10)%N then 48 + n mod 16 else 87 + n mod 16) :: l) =
                         (n mod 16 * 16 ^ N.of_nat (length l) + hex_read l)%N).
  { intros l. unfold hex_read at 1. simpl. rewrite hex_read_shift, hex_digit_roundtrip by done. lia. }
  destruct (N.ltb_spec n 16).
  - rewrite Hc, N.mod_small by lia. reflexivity.
  - rewrite IH by (apply N.Div0.div_lt_upper_bound; lia). rewrite Hc. simpl length.
    rewrite Nat2N.inj_succ, N.pow_succ_r'. nia.
Qed.

(** The loop stops by itself within [S k] iterations when the value has
    at most [S k] digits: more fuel changes nothing. *)
Lemma hex_go_fuel k : forall n acc fuel,
  (n < 16 ^ N.of_nat (S k))%N -> (S k <= fuel)%nat -> hex_go fuel n acc = hex_go (S k) n acc.
Proof.
  induction k as [| k IH]; intros n acc [| f] Hn Hf; try lia; simpl.
  - destruct (N.ltb_spec n 16); [done | simpl in Hn; lia].
  - destruct (N.ltb_spec n 16); [done |]. f_equal.
    rewrite Nat2N.inj_succ, N.pow_succ_r' in Hn.
    apply IH; [apply N.Div0.div_lt_upper_bound; lia | lia].
Qed.

Lemma hex_go_length fuel n acc : (length (hex_go fuel n acc) <= fuel + length acc)%nat.
Proof.
  revert n acc. induction fuel as [| f IH]; intros n acc; simpl; [lia |].
  destruct (n <? 16)%N; simpl; [lia |]. etransitivity; [apply IH |]. simpl. lia.
Qed.

Lemma hex_go_nonempty fuel n acc : (length acc < length (hex_go (S fuel) n acc))%nat.
Proof.
  revert n acc. induction fuel as [| f IH]; intros n acc; simpl; destruct (n <? 16)%N; simpl; try lia.
  eapply Nat.lt_trans; [| apply IH]. simpl. lia.
Qed.

(** Termination of the [%p] digit loop.  For every non-null 64-bit
    pointer the loop of [hex_go] stops by itself within 16 iterations, so
    the fuel of 64 that [sprintf_p] gives it never ends the loop.  The
    conversion prints [0x] and between 1 and 16 digits, and the digits
    read back to the pointer: no digit is lost or added. *)
Theorem sprintf_p_digits p :
  (0 < p < 2 ^ 64)%N ->
  sprintf_p p = list_ascii_of_string "0x" ++ hex_go 16 p [] /\
  (1 <= length (hex_go 16 p []) <= 16)%nat /\ hex_read (hex_go 16 p []) = p.
Proof.
  intros Hp. assert (H16 : (p < 16 ^ N.of_nat 16)%N)
    by (replace (16 ^ N.of_nat 16)%N with (2 ^ 64)%N by reflexivity; lia).
  unfold sprintf_p. rewrite decide_False by lia.
  split; [f_equal; apply (hex_go_fuel 15); [exact H16 | lia] |].
  split; [split; [apply (hex_go_nonempty 15 p []) | apply (hex_go_length 16 p [])] |].
  rewrite hex_go_read by exact H16. simpl length. rewrite N.pow_0_r. unfold hex_read. simpl. lia.
Qed.

Lemma take_app_same_prefix {A} n (pre a b : list A) :
  take (n - length pre) a = take (n - length pre) b -> take n (pre ++ a) = take n (pre ++ b).
Proof. intros H. by rewrite !take_app, H. Qed.

(** Two connections of one process get the same name as soon as their
    pointers agree on the hex digits that still fit in the 41 characters:
    [snprintf] cuts the rest. *)
Lemma conn_name_collision pid name c1 c2 :
  0 < pid -> c1 <> 0%N -> c2 <> 0%N ->
  take (41 - (length name + length (sprintf_d pid) + 4)) (hex_go 64 c1 []) =
    take (41 - (length name + length (sprintf_d pid) + 4)) (hex_go 64 c2 []) ->
  conn_name pid (Some name) c1 = conn_name pid (Some name) c2.
Proof.
  intros Hpid H1 H2 Ht. unfold conn_name, sprintf_p.
  set (h1 := hex_go 64 c1 []) in *. set (h2 := hex_go 64 c2 []) in *.
  destruct (Z.ltb_spec 0 pid); [| lia]. rewrite !decide_False by done.
  rewrite !(assoc_L app). apply take_app_same_prefix.
  rewrite !length_app. cbn [length list_ascii_of_string].
  replace (length name + 1 + length (sprintf_d pid) + 1 + 2)%nat
    with (length name + length (sprintf_d pid) + 4)%nat by lia. exact Ht.
Qed.

(** ** Witnesses *)

Lemma pid_to_name_stat_line_witness :
  (avoids plain (s_ "1234") /\ avoids ["("%char; NUL; NEWLINE] (s_ "corosync-cfgt)")) /\
  avoids plain (s_ "S 1 1234 1234 0 -1") /\
  (length (stat_line (s_ "1234") (s_ "corosync-cfgt)") (s_ "S 1 1234 1234 0 -1")) <= 255)%nat /\
  pid_to_name (Some (stat_line (s_ "1234") (s_ "corosync-cfgt)") (s_ "S 1 1234 1234 0 -1") ++ []))
    32 = Some (take 31 (s_ "corosync-cfgt)")).
Proof.
  split; [split; apply (bool_decide_unpack _); vm_compute; reflexivity |].
  split; [apply (bool_decide_unpack _); vm_compute; reflexivity |].
  split; [vm_compute; lia |].
  apply pid_to_name_stat_line;
    [apply (bool_decide_unpack _); vm_compute; reflexivity ..| vm_compute; lia].
Defined.

Lemma pid_to_name_paren_in_comm_witness :
  (avoids plain (s_ "77") /\ avoids [")"%char; NUL; NEWLINE] (s_ "a")) /\
  avoids ["("%char; NUL; NEWLINE] (s_ "b") /\ avoids plain (s_ "R 1") /\
  (length (stat_line (s_ "77") (s_ "a" ++ ["("%char] ++ s_ "b") (s_ "R 1")) <= 255)%nat /\
  pid_to_name (Some (stat_line (s_ "77") (s_ "a" ++ ["("%char] ++ s_ "b") (s_ "R 1") ++ [])) 32 =
    Some (take 31 (s_ "b")).
Proof.
  split; [split; apply (bool_decide_unpack _); vm_compute; reflexivity |].
  split; [apply (bool_decide_unpack _); vm_compute; reflexivity |].
  split; [apply (bool_decide_unpack _); vm_compute; reflexivity |].
  split; [vm_compute; lia |].
  apply pid_to_name_paren_in_comm;
    [apply (bool_decide_unpack _); vm_compute; reflexivity ..| vm_compute; lia].
Defined.

Lemma sprintf_p_digits_witness :
  sprintf_p 140737354125312%N = s_ "0x7ffff7ffd000" /\
  hex_read (hex_go 16 140737354125312 []) = 140737354125312%N.
Proof.
  split; [vm_compute; reflexivity |].
  exact (proj2 (proj2 (sprintf_p_digits 140737354125312%N ltac:(lia)))).
Defined.

(** Two connections of a process with a 31-character name and pid 4242,
    at [0x7ffff7ffd000] and [0x7ffff7ffe000], get the same statistics
    object name: only [0x7f] of the pointers fits. *)
Lemma conn_name_collision_example :
  conn_name 4242 (Some (s_ "corosync-cpgverify-long-name-xx")) 140737354125312%N =
  conn_name 4242 (Some (s_ "corosync-cpgverify-long-name-xx")) 140737354129408%N /\
  conn_name 4242 (Some (s_ "corosync-cpgverify-long-name-xx")) 140737354125312%N =
  s_ "corosync-cpgverify-long-name-xx:4242:0x7f".
Proof.
  split; [apply conn_name_collision; [lia | lia | lia | vm_compute; reflexivity] |].
  vm_compute. reflexivity.
Qed.
