(* ===== verification/Server.v ===== *)
(** * The IPC server side of a connection (ipc_glue.c)

    libqb calls the hooks ipc_glue.c registers: [cs_ipcs_connection_accept]
    decides whether a client may connect; [cs_ipcs_connection_created]
    builds the context (ConnContext.v) and the connection's statistics
    object; [cs_ipcs_connection_closed] asks the service to let the
    connection go and then removes the statistics.
    [cs_ipcs_connection_destroyed] frees the context (ConnContext.v).
    Around them: [cs_ipcs_service_init] and [cs_ipcs_service_destroy]
    create and remove a service's server, [cs_ipcs_low_fds_event] records
    descriptor shortage, [cs_ipcs_init] creates the ["connections"]
    object with its ["active"] and ["closed"] counters,
    [cs_ipcs_stats_update] copies counters into the statistics objects,
    and [cs_ipcs_response_send] maps libqb's result.

    State: [ipc_server] holds the service table (as in FlowControl.v:
    [ais_service] and [ipcs_mapper[].inst]), [ais_service_exiting], the
    statics [ipc_not_enough_fds_left] and [object_connection_handle], the
    allowed [uidgid_list], and the part of the object database the code
    writes: the two counters and the statistics objects by handle.  Calls
    to libqb and to the services are returned as [server_effect]s.  A
    NULL dereference or a read past an array is [Undefined]; a failed
    [assert] is [Aborted].

    [srv_world] adds libqb's set of live connections; [conn_step] is the
    step relation of connections being created, closed and updated.

    Theorems: the accept decision; a service without request handlers
    never gets a server, so its clients are refused; after a descriptor
    shortage every connection is refused; ["active"] counts the live
    connections and each has its own statistics object; after a
    statistics update each live connection's object holds its counters. *)

From Stdlib Require Import ZArith Lia Ascii String.
From stdpp Require Import base list gmap fin_maps numbers strings.
From S2P Require Import Prelude CoroDefs ConnContext FlowControl ConnName.

Open Scope Z_scope.

(** ** Data *)

(** [struct uidgid_item]: a user and group allowed to connect. *)
Record uidgid_item := { ugi_uid : Z; ugi_gid : Z }.

Inductive objdb_value_type :=
| OBJDB_VALUETYPE_INT32 | OBJDB_VALUETYPE_UINT32
| OBJDB_VALUETYPE_INT64 | OBJDB_VALUETYPE_UINT64.

Record objdb_key := { key_name : string; key_type : objdb_value_type; key_value : Z }.

Record stats_object := { obj_name : list ascii; obj_keys : list objdb_key }.

Record ipc_server := {
  srv_reg : list service_slot;
  ais_service_exiting : list bool;
  ipc_not_enough_fds_left : Z;
  uidgid_list : list uidgid_item;
  object_connection_handle : option Z;
  conn_active : Z;
  conn_closed : Z;
  conn_objects : gmap Z stats_object;
  next_object_handle : Z
}.

Inductive server_effect :=
| QbIpcsCreate (name : string) (service : Z)
| QbIpcsRun (service : Z)
| QbIpcsDestroy (service : Z)
| LibInitFn (service : Z)
| LibExitFn (service : Z).

Inductive srv_outcome (A : Type) :=
| Done (a : A)
| Undefined
| Aborted.
Arguments Done {A} a.
Arguments Undefined {A}.
Arguments Aborted {A}.

(** [struct qb_ipcs_connection_stats], the fields the code reads. *)
Record qb_ipcs_connection_stats := {
  client_pid : Z;
  requests : Z;
  responses : Z;
  events : Z;
  send_retries : Z;
  recv_retries : Z;
  flow_control_state : Z;
  flow_control_count : Z
}.

(** ** Record updates *)

Definition set_reg (reg : list service_slot) (s : ipc_server) : ipc_server :=
  {| srv_reg := reg; ais_service_exiting := ais_service_exiting s;
     ipc_not_enough_fds_left := ipc_not_enough_fds_left s; uidgid_list := uidgid_list s;
     object_connection_handle := object_connection_handle s; conn_active := conn_active s;
     conn_closed := conn_closed s; conn_objects := conn_objects s;
     next_object_handle := next_object_handle s |}.

Definition set_fds_left (v : Z) (s : ipc_server) : ipc_server :=
  {| srv_reg := srv_reg s; ais_service_exiting := ais_service_exiting s;
     ipc_not_enough_fds_left := v; uidgid_list := uidgid_list s;
     object_connection_handle := object_connection_handle s; conn_active := conn_active s;
     conn_closed := conn_closed s; conn_objects := conn_objects s;
     next_object_handle := next_object_handle s |}.

Definition set_objects (active closed : Z) (objs : gmap Z stats_object) (next : Z)
    (s : ipc_server) : ipc_server :=
  {| srv_reg := srv_reg s; ais_service_exiting := ais_service_exiting s;
     ipc_not_enough_fds_left := ipc_not_enough_fds_left s; uidgid_list := uidgid_list s;
     object_connection_handle := object_connection_handle s; conn_active := active;
     conn_closed := closed; conn_objects := objs; next_object_handle := next |}.

Definition set_inst (b : bool) (slot : service_slot) : service_slot :=
  {| ais_service_entry := ais_service_entry slot; ipcs_mapper_inst := b |}.

(** ** Server set-up and removal (lines 197-204, 842-865) *)

(** [create_ok] is whether [qb_ipcs_create] returned a server. *)
Definition cs_ipcs_service_init (svc : corosync_service_engine) (create_ok : bool)
    (s : ipc_server) : srv_outcome (ipc_server * list server_effect) :=
  if lib_engine_count svc =? 0 then Done (s, [])
  else
    match cs_ipcs_serv_short_name (se_id svc), array_get (srv_reg s) (se_id svc) with
    | None, _ | _, OutOfBounds => Undefined
    | Some name, Loaded slot =>
        if create_ok then
          Done (set_reg (<[Z.to_nat (se_id svc) := set_inst true slot]> (srv_reg s)) s,
                [QbIpcsCreate name (se_id svc); QbIpcsRun (se_id svc)])
        else Aborted
    end.

Definition cs_ipcs_service_destroy (service_id : Z) (s : ipc_server)
    : srv_outcome (Z * ipc_server * list server_effect) :=
  match array_get (srv_reg s) service_id with
  | OutOfBounds => Undefined
  | Loaded slot =>
      if ipcs_mapper_inst slot
      then Done (0, set_reg (<[Z.to_nat service_id := set_inst false slot]> (srv_reg s)) s,
                 [QbIpcsDestroy service_id])
      else Done (0, s, [])
  end.

(** ** Accepting a client (lines 206-237) and descriptor shortage (708-719) *)

Fixpoint uidgid_allowed (l : list uidgid_item) (euid egid : Z) : bool :=
  match l with
  | [] => false
  | ugi :: l' => if (euid =? ugi_uid ugi) || (egid =? ugi_gid ugi) then true
                 else uidgid_allowed l' euid egid
  end.

Definition cs_ipcs_connection_accept (service euid egid : Z) (s : ipc_server) : srv_outcome Z :=
  match array_get (srv_reg s) service with
  | OutOfBounds => Undefined
  | Loaded slot =>
      let unavailable :=
        match ais_service_entry slot with
        | None => Loaded true
        | Some _ =>
            match array_get (ais_service_exiting s) service with
            | OutOfBounds => OutOfBounds
            | Loaded true => Loaded true
            | Loaded false => Loaded (negb (ipcs_mapper_inst slot))
            end
        end in
      match unavailable with
      | OutOfBounds => Undefined
      | Loaded true => Done (- ENOSYS)
      | Loaded false =>
          if c_true (ipc_not_enough_fds_left s) then Done (- EMFILE)
          else if (euid =? 0) || (egid =? 0) then Done 0
          else if uidgid_allowed (uidgid_list s) euid egid then Done 0
          else Done (- EACCES)
      end
  end.

Definition cs_ipcs_low_fds_event (not_enough fds_available : Z) (s : ipc_server) : ipc_server :=
  set_fds_left not_enough s.

(** ** Statistics objects (lines 295-413, 456-480, 781-840, 867-901) *)

(** The keys [cs_ipcs_connection_created] creates, all zero. *)
Definition initial_stats_keys : list objdb_key :=
  [ {| key_name := "service_id"; key_type := OBJDB_VALUETYPE_UINT32; key_value := 0 |};
    {| key_name := "client_pid"; key_type := OBJDB_VALUETYPE_INT32; key_value := 0 |};
    {| key_name := "responses"; key_type := OBJDB_VALUETYPE_UINT64; key_value := 0 |};
    {| key_name := "dispatched"; key_type := OBJDB_VALUETYPE_UINT64; key_value := 0 |};
    {| key_name := "requests"; key_type := OBJDB_VALUETYPE_INT64; key_value := 0 |};
    {| key_name := "send_retries"; key_type := OBJDB_VALUETYPE_UINT64; key_value := 0 |};
    {| key_name := "recv_retries"; key_type := OBJDB_VALUETYPE_UINT64; key_value := 0 |};
    {| key_name := "flow_control"; key_type := OBJDB_VALUETYPE_UINT32; key_value := 0 |};
    {| key_name := "flow_control_count"; key_type := OBJDB_VALUETYPE_UINT64; key_value := 0 |};
    {| key_name := "queue_size"; key_type := OBJDB_VALUETYPE_UINT32; key_value := 0 |};
    {| key_name := "invalid_request"; key_type := OBJDB_VALUETYPE_UINT64; key_value := 0 |};
    {| key_name := "overload"; key_type := OBJDB_VALUETYPE_UINT64; key_value := 0 |} ].

(** [cs_ipcs_connection_created]: the context, the service's
    [lib_init_fn], ["active"] + 1, and a statistics object named after
    the client.  [proc_stat] is the client's [/proc/<pid>/stat], [c] the
    connection pointer.  Without a ["connections"] object
    ([cs_ipcs_init] found no ["runtime"]) [object_create] fails and the
    handle the code stores is uninitialized. *)
Definition cs_ipcs_connection_created (service : Z) (stats : qb_ipcs_connection_stats)
    (proc_stat : option (list ascii)) (c : N) (s : ipc_server)
    : srv_outcome (cs_ipcs_conn_context * ipc_server * list server_effect) :=
  match array_get (srv_reg s) service with
  | OutOfBounds => Undefined
  | Loaded slot =>
      match ais_service_entry slot, object_connection_handle s with
      | None, _ | _, None => Undefined
      | Some svc, Some _ =>
          let h := next_object_handle s in
          let name := conn_name (client_pid stats) (pid_to_name proc_stat 32) c in
          let ctx := set_stats_handle h (cs_ipcs_connection_created_ctx svc) in
          Done (ctx,
                set_objects (incr 64 (conn_active s)) (conn_closed s)
                  (<[h := {| obj_name := name; obj_keys := initial_stats_keys |}]> (conn_objects s))
                  (h + 1) s,
                [LibInitFn service])
      end
  end.

(** [cs_ipcs_connection_closed]: [exit_res] is what the service's
    [lib_exit_fn] returned; a non-zero result keeps the connection. *)
Definition cs_ipcs_connection_closed (service : Z) (cnx : cs_ipcs_conn_context) (exit_res : Z)
    (s : ipc_server) : srv_outcome (Z * ipc_server * list server_effect) :=
  match array_get (srv_reg s) service with
  | OutOfBounds => Undefined
  | Loaded slot =>
      match ais_service_entry slot with
      | None => Undefined
      | Some _ =>
          if negb (exit_res =? 0) then Done (exit_res, s, [LibExitFn service])
          else Done (0, set_objects (decr 64 (conn_active s)) (incr 64 (conn_closed s))
                          (delete (stats_handle cnx) (conn_objects s)) (next_object_handle s) s,
                     [LibExitFn service])
      end
  end.

(** [cs_ipcs_response_iov_send] and [cs_ipcs_response_send]: libqb's
    byte count becomes 0, an error is passed on. *)
Definition cs_ipcs_response_send (rc : Z) : Z := if 0 <=? rc then 0 else rc.

(** [api->object_key_replace]: the first key of that name. *)
Fixpoint key_replace (name : string) (v : Z) (ks : list objdb_key) : list objdb_key :=
  match ks with
  | [] => []
  | k :: ks' => if String.eqb (key_name k) name
                then {| key_name := key_name k; key_type := key_type k; key_value := v |} :: ks'
                else k :: key_replace name v ks'
  end.

Definition object_key_replace (h : Z) (name : string) (v : Z) (objs : gmap Z stats_object)
    : gmap Z stats_object :=
  match objs !! h with
  | Some o => <[h := {| obj_name := obj_name o; obj_keys := key_replace name v (obj_keys o) |}]> objs
  | None => objs
  end.

(** Lines 801-835 for one connection: the keys [object_key_replace]
    sets, in the order of the code, and the values it copies. *)
Definition stats_update_keys (cnx : cs_ipcs_conn_context) (st : qb_ipcs_connection_stats)
    : list (string * Z) :=
  [("client_pid", client_pid st); ("requests", requests st); ("responses", responses st);
   ("dispatched", events st); ("send_retries", send_retries st);
   ("recv_retries", recv_retries st); ("flow_control", flow_control_state st);
   ("flow_control_count", flow_control_count st); ("queue_size", queued cnx);
   ("invalid_request", invalid_request cnx); ("overload", overload cnx)].

Definition stats_update_conn (cnx : cs_ipcs_conn_context) (st : qb_ipcs_connection_stats)
    (objs : gmap Z stats_object) : gmap Z stats_object :=
  foldl (fun acc kv => object_key_replace (stats_handle cnx) kv.1 kv.2 acc) objs
    (stats_update_keys cnx st).

(** A live libqb connection: the service of its server, the context
    ([NULL] before [cs_ipcs_connection_created] set it) and libqb's
    counters. *)
Record live_conn := {
  lc_service : Z;
  lc_ctx : option cs_ipcs_conn_context;
  lc_stats : qb_ipcs_connection_stats
}.

(** The inner loop over the connections of service [i]'s server. *)
Definition stats_update_service (i : Z) (conns : list live_conn) (objs : gmap Z stats_object)
    : gmap Z stats_object :=
  foldl (fun acc lc =>
           if lc_service lc =? i then
             match lc_ctx lc with
             | Some cnx => stats_update_conn cnx (lc_stats lc) acc
             | None => acc
             end
           else acc) objs conns.

Fixpoint stats_update_loop (reg : list service_slot) (conns : list live_conn) (i n : nat)
    (objs : gmap Z stats_object) : c_read (gmap Z stats_object) :=
  match n with
  | O => Loaded objs
  | S n' =>
      match array_get reg (Z.of_nat i) with
      | OutOfBounds => OutOfBounds
      | Loaded slot =>
          let objs' := match ais_service_entry slot, ipcs_mapper_inst slot with
                       | Some _, true => stats_update_service (Z.of_nat i) conns objs
                       | _, _ => objs
                       end in
          stats_update_loop reg conns (S i) n' objs'
      end
  end.

Definition cs_ipcs_stats_update (conns : list live_conn) (s : ipc_server) : c_read ipc_server :=
  match stats_update_loop (srv_reg s) conns 0 (Z.to_nat SERVICE_HANDLER_MAXIMUM_COUNT)
          (conn_objects s) with
  | OutOfBounds => OutOfBounds
  | Loaded objs => Loaded (set_objects (conn_active s) (conn_closed s) objs
                             (next_object_handle s) s)
  end.

(** [cs_ipcs_init]: [runtime] is whether the ["runtime"] object exists;
    without it the function returns before creating ["connections"]. *)
Definition cs_ipcs_init (runtime : bool) (reg : list service_slot) (exiting : list bool)
    (uidgid : list uidgid_item) : ipc_server :=
  {| srv_reg := reg; ais_service_exiting := exiting; ipc_not_enough_fds_left := 0;
     uidgid_list := uidgid;
     object_connection_handle := if runtime then Some 0 else None;
     conn_active := 0; conn_closed := 0; conn_objects := ∅; next_object_handle := 1 |}.

(** ** Invariants, observations and concrete inputs *)

(** The server together with libqb's live connections by id. *)
Record srv_world := { sw_srv : ipc_server; sw_conns : gmap nat live_conn }.

(** A client connects (accept, then created); a connection closes
    ([lib_exit_fn] may keep it; otherwise libqb destroys it and forgets
    it); the statistics timer runs; request and event traffic changes a
    connection's counters and context, but never its [stats_handle]; a
    descriptor shortage is reported. *)
Inductive conn_step : srv_world -> srv_world -> Prop :=
| cs_connect w k service euid egid st proc c ctx srv' effs :
    sw_conns w !! k = None ->
    cs_ipcs_connection_accept service euid egid (sw_srv w) = Done 0 ->
    cs_ipcs_connection_created service st proc c (sw_srv w) = Done (ctx, srv', effs) ->
    conn_step w {| sw_srv := srv';
                   sw_conns := <[k := {| lc_service := service; lc_ctx := Some ctx;
                                         lc_stats := st |}]> (sw_conns w) |}
| cs_close w k lc ctx res r srv' effs :
    sw_conns w !! k = Some lc -> lc_ctx lc = Some ctx ->
    cs_ipcs_connection_closed (lc_service lc) ctx res (sw_srv w) = Done (r, srv', effs) ->
    conn_step w {| sw_srv := srv';
                   sw_conns := if r =? 0 then delete k (sw_conns w) else sw_conns w |}
| cs_update w srv' :
    cs_ipcs_stats_update (map snd (map_to_list (sw_conns w))) (sw_srv w) = Loaded srv' ->
    conn_step w {| sw_srv := srv'; sw_conns := sw_conns w |}
| cs_traffic w k lc ctx ctx' st' :
    sw_conns w !! k = Some lc -> lc_ctx lc = Some ctx -> stats_handle ctx' = stats_handle ctx ->
    conn_step w {| sw_srv := sw_srv w;
                   sw_conns := <[k := {| lc_service := lc_service lc; lc_ctx := Some ctx';
                                         lc_stats := st' |}]> (sw_conns w) |}
| cs_low_fds w n f :
    conn_step w {| sw_srv := cs_ipcs_low_fds_event n f (sw_srv w); sw_conns := sw_conns w |}.

(** What the connection statistics promise: ["active"] is the number of
    live connections, each live connection has a context and its own
    statistics object, there is no other object, and handles are below
    the next one handed out. *)
Definition conn_inv (w : srv_world) : Prop :=
  let objs := conn_objects (sw_srv w) in
  conn_active (sw_srv w) = u64 (Z.of_nat (size (sw_conns w))) /\
  size objs = size (sw_conns w) /\
  (forall k lc, sw_conns w !! k = Some lc ->
     exists ctx, lc_ctx lc = Some ctx /\ is_Some (objs !! stats_handle ctx)) /\
  (forall k1 k2 lc1 lc2 c1 c2, sw_conns w !! k1 = Some lc1 -> sw_conns w !! k2 = Some lc2 ->
     lc_ctx lc1 = Some c1 -> lc_ctx lc2 = Some c2 -> stats_handle c1 = stats_handle c2 -> k1 = k2) /\
  (forall h o, objs !! h = Some o -> h < next_object_handle (sw_srv w)).

(** Two object maps with the same handles. *)
Definition same_shape (objs objs' : gmap Z stats_object) : Prop :=
  size objs' = size objs /\ forall h, is_Some (objs' !! h) <-> is_Some (objs !! h).

(** The world after [cs_ipcs_init] found the ["runtime"] object and
    before any client connected. *)
Definition world_init (reg : list service_slot) (exiting : list bool) (uidgid : list uidgid_item)
    : srv_world :=
  {| sw_srv := cs_ipcs_init true reg exiting uidgid; sw_conns := ∅ |}.

Fixpoint lookup_key (name : string) (ks : list objdb_key) : option Z :=
  match ks with
  | [] => None
  | k :: ks' => if String.eqb (key_name k) name then Some (key_value k) else lookup_key name ks'
  end.

(** The object [h] exists and has the keys [cs_ipcs_connection_created]
    gave it. *)
Definition has_stats_keys (h : Z) (objs : gmap Z stats_object) : Prop :=
  exists o, objs !! h = Some o /\ map key_name (obj_keys o) = map key_name initial_stats_keys.

(** Object [h] holds the values [stats_update_keys] lists. *)
Definition stats_hold (h : Z) (kvs : list (string * Z)) (objs : gmap Z stats_object) : Prop :=
  exists o, objs !! h = Some o /\ map key_name (obj_keys o) = map key_name initial_stats_keys /\
    forall n v, (n, v) ∈ kvs -> lookup_key n (obj_keys o) = Some v.

Definition srv_boot : ipc_server :=
  cs_ipcs_init true reg_cpg (replicate (Z.to_nat SERVICE_HANDLER_MAXIMUM_COUNT) false) [].

Definition client_stats : qb_ipcs_connection_stats :=
  {| client_pid := 4242; requests := 7; responses := 6; events := 3; send_retries := 0;
     recv_retries := 1; flow_control_state := 0; flow_control_count := 2 |}.

Definition client_stat_file : list ascii :=
  s_ "4242 (cpgtest) S 1 4242 4242 0 -1" ++ [NEWLINE].

(** The context and server after a CPG client connected. *)
Definition created_cpg : option (cs_ipcs_conn_context * ipc_server) :=
  match cs_ipcs_connection_created 8 client_stats (Some client_stat_file) 140737354125312 srv_boot with
  | Done (ctx, s, _) => Some (ctx, s)
  | _ => None
  end.

Definition ctx1 : cs_ipcs_conn_context :=
  default (cs_ipcs_connection_created_ctx cpg_engine) (fst <$> created_cpg).

Definition srv1 : ipc_server := default srv_boot (snd <$> created_cpg).

Definition lc1 : live_conn := {| lc_service := 8; lc_ctx := Some ctx1; lc_stats := client_stats |}.

Definition srv2 : ipc_server := match cs_ipcs_stats_update [lc1] srv1 with
                                | Loaded s => s | OutOfBounds => srv1 end.

Definition boot_exiting : list bool := replicate (Z.to_nat SERVICE_HANDLER_MAXIMUM_COUNT) false.

(** The world after one root client of the CPG service connected. *)
Definition world1 : srv_world :=
  {| sw_srv := srv1;
     sw_conns := <[0%nat := lc1]> (sw_conns (world_init reg_cpg boot_exiting [])) |}.

(** ** Lemmas *)


(** ** Theorems *)


(** ** Live connections *)

Lemma same_shape_refl objs : same_shape objs objs.
Proof. split; [done | intros; reflexivity]. Qed.

Lemma same_shape_trans a b c : same_shape a b -> same_shape b c -> same_shape a c.
Proof. intros [Hs1 Hl1] [Hs2 Hl2]. split; [lia |]. intros h. by rewrite Hl2, Hl1. Qed.

Lemma object_key_replace_shape h name v objs : same_shape objs (object_key_replace h name v objs).
Proof.
  unfold object_key_replace. destruct (objs !! h) as [o |] eqn:E; [| apply same_shape_refl].
  split; [apply map_size_insert_Some; eauto |].
  intros h'. destruct (decide (h = h')) as [<- | Hne];
    [rewrite lookup_insert_eq, E | rewrite lookup_insert_ne by done]; done.
Qed.

Lemma stats_update_conn_shape cnx st objs : same_shape objs (stats_update_conn cnx st objs).
Proof.
  unfold stats_update_conn. generalize (stats_update_keys cnx st). intros kvs. revert objs.
  induction kvs as [| kv kvs IH]; intros objs; simpl; [apply same_shape_refl |].
  eapply same_shape_trans; [apply object_key_replace_shape | apply IH].
Qed.

Lemma stats_update_service_shape i conns objs :
  same_shape objs (stats_update_service i conns objs).
Proof.
  unfold stats_update_service. revert objs.
  induction conns as [| lc conns IH]; intros objs; simpl; [apply same_shape_refl |].
  eapply same_shape_trans; [| apply IH].
  destruct (lc_service lc =? i); [destruct (lc_ctx lc) |]; auto using same_shape_refl,
    stats_update_conn_shape.
Qed.

Lemma stats_update_loop_shape reg conns i n objs objs' :
  stats_update_loop reg conns i n objs = Loaded objs' -> same_shape objs objs'.
Proof.
  revert i objs. induction n as [| n IH]; intros i objs; simpl; [intros [= <-]; apply same_shape_refl |].
  destruct (array_get reg (Z.of_nat i)) as [slot |]; [| done]. intros E.
  eapply same_shape_trans; [| exact (IH _ _ E)].
  destruct (ais_service_entry slot), (ipcs_mapper_inst slot);
    auto using same_shape_refl, stats_update_service_shape.
Qed.

Lemma created_spec service st proc c s ctx s' effs :
  cs_ipcs_connection_created service st proc c s = Done (ctx, s', effs) ->
  stats_handle ctx = next_object_handle s /\
  exists o, s' = set_objects (incr 64 (conn_active s)) (conn_closed s)
                   (<[next_object_handle s := o]> (conn_objects s)) (next_object_handle s + 1) s.
Proof.
  unfold cs_ipcs_connection_created.
  destruct (array_get (srv_reg s) service) as [slot |]; [| done].
  destruct (ais_service_entry slot), (object_connection_handle s); try done.
  intros [= <- <- _]. split; [done | eexists; reflexivity].
Qed.

Lemma closed_spec service ctx res s r s' effs :
  cs_ipcs_connection_closed service ctx res s = Done (r, s', effs) ->
  (r <> 0 /\ s' = s) \/
  (r = 0 /\ s' = set_objects (decr 64 (conn_active s)) (incr 64 (conn_closed s))
                   (delete (stats_handle ctx) (conn_objects s)) (next_object_handle s) s).
Proof.
  unfold cs_ipcs_connection_closed.
  destruct (array_get (srv_reg s) service) as [slot |]; [| done].
  destruct (ais_service_entry slot); [| done].
  destruct (Z.eqb_spec res 0) as [-> |]; simpl; intros [= <- <- _]; [right | left]; done.
Qed.

Lemma stats_update_spec conns s s' :
  cs_ipcs_stats_update conns s = Loaded s' ->
  exists objs', same_shape (conn_objects s) objs' /\
    s' = set_objects (conn_active s) (conn_closed s) objs' (next_object_handle s) s.
Proof.
  unfold cs_ipcs_stats_update.
  destruct (stats_update_loop _ _ _ _ _) as [objs' |] eqn:E; [| done].
  intros [= <-]. exists objs'. split; [| done]. exact (stats_update_loop_shape _ _ _ _ _ _ E).
Qed.

Lemma conn_inv_connect w k service st ctx s' o :
  conn_inv w -> sw_conns w !! k = None ->
  stats_handle ctx = next_object_handle (sw_srv w) ->
  s' = set_objects (incr 64 (conn_active (sw_srv w))) (conn_closed (sw_srv w))
         (<[next_object_handle (sw_srv w) := o]> (conn_objects (sw_srv w)))
         (next_object_handle (sw_srv w) + 1) (sw_srv w) ->
  conn_inv {| sw_srv := s';
              sw_conns := <[k := {| lc_service := service; lc_ctx := Some ctx;
                                    lc_stats := st |}]> (sw_conns w) |}.
Proof.
  intros (Ha & Hs & Hl & Hi & Hb) Hk Hh ->. unfold conn_inv; simpl.
  set (n := next_object_handle (sw_srv w)) in *.
  assert (Hfresh : conn_objects (sw_srv w) !! n = None).
  { destruct (conn_objects (sw_srv w) !! n) as [o' |] eqn:E; [| done].
    specialize (Hb _ _ E). lia. }
  rewrite !map_size_insert_None by done. split; [| split; [lia | split; [| split]]].
  - rewrite Ha, incr_wrap by lia. f_equal. lia.
  - intros k' lc Hk'. destruct (decide (k = k')) as [<- | Hne].
    + rewrite lookup_insert_eq in Hk'. injection Hk' as <-. exists ctx.
      split; [done |]. rewrite Hh, lookup_insert_eq. eauto.
    + rewrite lookup_insert_ne in Hk' by done. destruct (Hl _ _ Hk') as (c & Hc & Ho).
      exists c. split; [done |]. rewrite lookup_insert_ne; [done |].
      destruct Ho as [o' Ho]. specialize (Hb _ _ Ho). lia.
  - intros k1 k2 lc1 lc2 c1 c2 H1 H2 Hc1 Hc2 Heq.
    assert (Hold : forall k' lc c, sw_conns w !! k' = Some lc -> lc_ctx lc = Some c ->
                     stats_handle c < n).
    { intros k' lc c Hk' Hc. destruct (Hl _ _ Hk') as (c' & Hc' & [o' Ho]).
      rewrite Hc in Hc'. injection Hc' as <-. exact (Hb _ _ Ho). }
    destruct (decide (k = k1)) as [<- | Hne1], (decide (k = k2)) as [<- | Hne2]; [done | ..].
    + rewrite lookup_insert_eq in H1. rewrite lookup_insert_ne in H2 by done.
      simplify_eq/=. specialize (Hold _ _ _ H2 Hc2). lia.
    + rewrite lookup_insert_eq in H2. rewrite lookup_insert_ne in H1 by done.
      simplify_eq/=. specialize (Hold _ _ _ H1 Hc1). lia.
    + rewrite lookup_insert_ne in H1, H2 by done. eauto.
  - intros h o' Ho. destruct (decide (n = h)) as [<- | Hne]; [lia |].
    rewrite lookup_insert_ne in Ho by done. specialize (Hb _ _ Ho). lia.
Qed.

Lemma conn_inv_close w k lc ctx :
  conn_inv w -> sw_conns w !! k = Some lc -> lc_ctx lc = Some ctx ->
  conn_inv {| sw_srv := set_objects (decr 64 (conn_active (sw_srv w))) (incr 64 (conn_closed (sw_srv w)))
                          (delete (stats_handle ctx) (conn_objects (sw_srv w)))
                          (next_object_handle (sw_srv w)) (sw_srv w);
              sw_conns := delete k (sw_conns w) |}.
Proof.
  intros (Ha & Hs & Hl & Hi & Hb) Hk Hc. unfold conn_inv; simpl.
  destruct (Hl _ _ Hk) as (c & Hc' & Ho). rewrite Hc in Hc'. injection Hc' as <-.
  rewrite !map_size_delete_Some by eauto.
  assert (Hpos : (0 < size (sw_conns w))%nat).
  { destruct (size (sw_conns w)) eqn:E; [| lia]. apply map_size_empty_inv in E.
    rewrite E, lookup_empty in Hk. done. }
  split; [| split; [lia | split; [| split]]].
  - rewrite Ha, decr_wrap by lia. f_equal. lia.
  - intros k' lc' Hk'. destruct (decide (k = k')) as [<- | Hne];
      [by rewrite lookup_delete_eq in Hk' |].
    rewrite lookup_delete_ne in Hk' by done. destruct (Hl _ _ Hk') as (c' & Hc' & Ho').
    exists c'. split; [done |]. rewrite lookup_delete_ne; [done |].
    intros Heq. apply Hne. exact (Hi _ _ _ _ _ _ Hk Hk' Hc Hc' Heq).
  - intros k1 k2 lc1 lc2 c1 c2 H1 H2. apply lookup_delete_Some in H1 as [_ H1].
    apply lookup_delete_Some in H2 as [_ H2]. eauto.
  - intros h o Hob. apply lookup_delete_Some in Hob as [_ Hob]. eauto.
Qed.

Lemma conn_inv_objects w objs' next :
  conn_inv w -> same_shape (conn_objects (sw_srv w)) objs' -> next = next_object_handle (sw_srv w) ->
  conn_inv {| sw_srv := set_objects (conn_active (sw_srv w)) (conn_closed (sw_srv w)) objs' next
                          (sw_srv w);
              sw_conns := sw_conns w |}.
Proof.
  intros (Ha & Hs & Hl & Hi & Hb) [Hsz Hsh] ->. unfold conn_inv; simpl.
  split; [done |]. split; [lia |]. split; [| split; [done |]].
  - intros k lc Hk. destruct (Hl _ _ Hk) as (c & Hc & Ho). exists c. by rewrite Hsh.
  - intros h o Ho. destruct (proj1 (Hsh h) (mk_is_Some _ _ Ho)) as [o' Ho']. eauto.
Qed.

Lemma conn_inv_traffic w k lc ctx ctx' st' :
  conn_inv w -> sw_conns w !! k = Some lc -> lc_ctx lc = Some ctx ->
  stats_handle ctx' = stats_handle ctx ->
  conn_inv {| sw_srv := sw_srv w;
              sw_conns := <[k := {| lc_service := lc_service lc; lc_ctx := Some ctx';
                                    lc_stats := st' |}]> (sw_conns w) |}.
Proof.
  intros (Ha & Hs & Hl & Hi & Hb) Hk Hc Hh. unfold conn_inv; simpl.
  rewrite map_size_insert_Some by eauto.
  assert (Hlook : forall k' lc', <[k := {| lc_service := lc_service lc; lc_ctx := Some ctx';
                                            lc_stats := st' |}]> (sw_conns w) !! k' = Some lc' ->
            exists lc0 c0 c1, sw_conns w !! k' = Some lc0 /\ lc_ctx lc0 = Some c0 /\
              lc_ctx lc' = Some c1 /\ stats_handle c1 = stats_handle c0).
  { intros k' lc' Hk'. destruct (decide (k = k')) as [<- | Hne].
    - rewrite lookup_insert_eq in Hk'. injection Hk' as <-. eauto 7.
    - rewrite lookup_insert_ne in Hk' by done. destruct (Hl _ _ Hk') as (c & Hc' & _). eauto 7. }
  split; [done |]. split; [done |]. split; [| split; [| done]].
  - intros k' lc' Hk'. destruct (Hlook _ _ Hk') as (lc0 & c0 & c1 & H0 & Hc0 & Hc1 & Heq).
    destruct (Hl _ _ H0) as (c & Hcc & Ho). rewrite Hc0 in Hcc. injection Hcc as <-.
    exists c1. by rewrite Heq.
  - intros k1 k2 lc1 lc2 c1 c2 H1 H2 Hc1 Hc2 Heq.
    destruct (Hlook _ _ H1) as (l1 & d1 & e1 & G1 & Gd1 & Ge1 & Gh1).
    destruct (Hlook _ _ H2) as (l2 & d2 & e2 & G2 & Gd2 & Ge2 & Gh2).
    rewrite Hc1 in Ge1. rewrite Hc2 in Ge2. injection Ge1 as <-. injection Ge2 as <-.
    apply (Hi _ _ _ _ _ _ G1 G2 Gd1 Gd2). congruence.
Qed.

Lemma conn_inv_step w w' : conn_inv w -> conn_step w w' -> conn_inv w'.
Proof.
  intros Hinv Hstep. destruct Hstep as [w k service euid egid st proc c ctx srv' effs Hk _ Hc
    | w k lc ctx res r srv' effs Hk Hctx Hcl | w srv' Hu | w k lc ctx ctx' st' Hk Hctx Hh
    | w n f].
  - destruct (created_spec _ _ _ _ _ _ _ _ Hc) as [Hh [o ->]].
    eapply conn_inv_connect; eauto.
  - destruct (closed_spec _ _ _ _ _ _ _ Hcl) as [[Hr ->] | [-> ->]].
    + apply Z.eqb_neq in Hr. rewrite Hr. by destruct w.
    + exact (conn_inv_close w k lc ctx Hinv Hk Hctx).
  - destruct (stats_update_spec _ _ _ Hu) as (objs' & Hsh & ->).
    by apply conn_inv_objects.
  - eapply conn_inv_traffic; eauto.
  - destruct Hinv as (Ha & Hs & Hl & Hi & Hb). by repeat split.
Qed.

(** C34. The connection statistics stay consistent.  In every state
    reachable from start-up by connections, closes, statistics updates,
    traffic and descriptor events, the ["active"] counter is the number of
    live connections (modulo 2^64), every live connection has a context
    whose [stats_handle] names a statistics object of its own, and there
    are no other statistics objects. *)
Theorem connection_stats_consistent reg exiting uidgid w :
  star conn_step (world_init reg exiting uidgid) w -> conn_inv w.
Proof.
  intros Hrun. apply (star_invariant conn_step conn_inv conn_inv_step _ _ Hrun).
  unfold conn_inv. simpl. repeat split; try done; intros; simplify_map_eq.
Qed.

(** ** What a statistics update writes *)

Lemma key_replace_names name v ks : map key_name (key_replace name v ks) = map key_name ks.
Proof.
  induction ks as [| k ks IH]; simpl; [done |].
  destruct (String.eqb_spec (key_name k) name); simpl; [done | by rewrite IH].
Qed.

Lemma lookup_key_replace name n v ks :
  name ∈ map key_name ks ->
  lookup_key n (key_replace name v ks) = if String.eqb name n then Some v else lookup_key n ks.
Proof.
  induction ks as [| k ks IH]; simpl; [by intros ?%elem_of_nil |]. intros Hin.
  destruct (String.eqb_spec (key_name k) name) as [Hk | Hk]; simpl.
  - rewrite Hk. by destruct (String.eqb name n).
  - apply elem_of_cons in Hin as [Hin | Hin]; [congruence |].
    rewrite IH by done. destruct (String.eqb_spec (key_name k) n); [| done].
    destruct (String.eqb_spec name n); congruence.
Qed.

Lemma object_key_replace_ne h h' name v objs :
  h <> h' -> object_key_replace h name v objs !! h' = objs !! h'.
Proof.
  intros Hne. unfold object_key_replace. destruct (objs !! h); [| done].
  by rewrite lookup_insert_ne.
Qed.

Lemma stats_update_conn_ne cnx st objs h' :
  stats_handle cnx <> h' -> stats_update_conn cnx st objs !! h' = objs !! h'.
Proof.
  intros Hne. unfold stats_update_conn. generalize (stats_update_keys cnx st). intros kvs.
  revert objs. induction kvs as [| kv kvs IH]; intros objs; simpl; [done |].
  by rewrite IH, object_key_replace_ne.
Qed.

(** Replacing the keys [kvs] one after the other, in an object that has
    them all: each ends with its value, the others keep theirs. *)
Lemma replace_fold_spec h kvs objs o :
  objs !! h = Some o -> NoDup kvs.*1 -> (forall n, n ∈ kvs.*1 -> n ∈ map key_name (obj_keys o)) ->
  exists o', foldl (fun acc kv => object_key_replace h kv.1 kv.2 acc) objs kvs !! h = Some o' /\
    map key_name (obj_keys o') = map key_name (obj_keys o) /\
    (forall n v, (n, v) ∈ kvs -> lookup_key n (obj_keys o') = Some v) /\
    (forall n, n ∉ kvs.*1 -> lookup_key n (obj_keys o') = lookup_key n (obj_keys o)).
Proof.
  revert objs o. induction kvs as [| [n0 v0] kvs IH]; intros objs o Ho Hnd Hin; simpl.
  - exists o. split; [done |]. split; [done |].
    split; [intros ?? Hnil; by apply elem_of_nil in Hnil | done].
  - apply NoDup_cons in Hnd as [Hn0 Hnd].
    set (o1 := {| obj_name := obj_name o; obj_keys := key_replace n0 v0 (obj_keys o) |}).
    assert (Ho1 : object_key_replace h n0 v0 objs !! h = Some o1)
      by (unfold object_key_replace; rewrite Ho; by rewrite lookup_insert_eq).
    assert (Hin0 : n0 ∈ map key_name (obj_keys o)) by (apply Hin; left).
    destruct (IH _ o1 Ho1 Hnd) as (o' & Ho' & Hnames & Hset & Hkeep).
    { intros n Hn. simpl. rewrite key_replace_names. apply Hin. by right. }
    exists o'. split; [done |]. simpl in Hnames. rewrite key_replace_names in Hnames.
    split; [done | split].
    + intros n v [[= -> ->] | Hnv]%elem_of_cons.
      * rewrite Hkeep by done. simpl. rewrite lookup_key_replace by done.
        by rewrite String.eqb_refl.
      * by apply Hset.
    + intros n Hn. rewrite Hkeep by (intros ?; apply Hn; by right). simpl.
      rewrite lookup_key_replace by done.
      destruct (String.eqb_spec n0 n); [subst; exfalso; apply Hn; left | done].
Qed.

Lemma stats_update_conn_hold cnx st objs :
  has_stats_keys (stats_handle cnx) objs ->
  stats_hold (stats_handle cnx) (stats_update_keys cnx st) (stats_update_conn cnx st objs).
Proof.
  intros (o & Ho & Hn). unfold stats_update_conn.
  destruct (replace_fold_spec (stats_handle cnx) (stats_update_keys cnx st) objs o Ho)
    as (o' & Ho' & Hn' & Hset & _).
  - apply (bool_decide_unpack _). vm_compute. reflexivity.
  - intros n Hin. rewrite Hn. simpl in Hin.
    repeat (apply elem_of_cons in Hin as [-> | Hin];
            [apply (bool_decide_unpack _); vm_compute; reflexivity |]).
    by apply elem_of_nil in Hin.
  - exists o'. rewrite Hn'. auto.
Qed.

Lemma has_stats_keys_conn h cnx st objs :
  has_stats_keys h objs -> has_stats_keys h (stats_update_conn cnx st objs).
Proof.
  intros Hk. destruct (decide (stats_handle cnx = h)) as [<- | Hne].
  - destruct (stats_update_conn_hold cnx st objs Hk) as (o & Ho & Hn & _). by exists o.
  - destruct Hk as (o & Ho & Hn). exists o. by rewrite stats_update_conn_ne.
Qed.

Section StatsUpdate.
Context (conns : list live_conn) (lc : live_conn) (cnx : cs_ipcs_conn_context).
Hypothesis Hctx : lc_ctx lc = Some cnx.
Hypothesis Hdistinct : forall lc' c', lc' ∈ conns -> lc_ctx lc' = Some c' ->
  stats_handle c' = stats_handle cnx -> lc' = lc.

Let h := stats_handle cnx.
Let kvs := stats_update_keys cnx (lc_stats lc).

(** One connection of the pass over service [i]: it writes only its own
    object. *)
Lemma service_step_ne e objs c' :
  e ∈ conns -> lc_ctx e = Some c' -> e <> lc -> stats_update_conn c' (lc_stats e) objs !! h = objs !! h.
Proof.
  intros He Hc Hne. apply stats_update_conn_ne. intros Heq. apply Hne. exact (Hdistinct e c' He Hc Heq).
Qed.

Lemma service_pass_other i l objs :
  (forall e, e ∈ l -> e ∈ conns) -> i <> lc_service lc ->
  stats_update_service i l objs !! h = objs !! h.
Proof.
  unfold stats_update_service. revert objs. induction l as [| e l IH]; intros objs Hl Hi; simpl; [done |].
  rewrite IH by first [done | intros; apply Hl; by right].
  destruct (Z.eqb_spec (lc_service e) i) as [<- |]; [| done].
  destruct (lc_ctx e) as [c' |] eqn:Ec; [| done].
  apply service_step_ne; [apply Hl; left | done |]. congruence.
Qed.

Lemma service_pass_own l objs :
  (forall e, e ∈ l -> e ∈ conns) -> has_stats_keys h objs ->
  (lc ∈ l \/ stats_hold h kvs objs) ->
  stats_hold h kvs (stats_update_service (lc_service lc) l objs).
Proof.
  unfold stats_update_service. revert objs.
  induction l as [| e l IH]; intros objs Hl Hk Hcase; simpl.
  - destruct Hcase as [Hin | Hh]; [by apply elem_of_nil in Hin | done].
  - assert (Hhold : forall o1, o1 !! h = objs !! h ->
              (has_stats_keys h o1 /\ (stats_hold h kvs objs -> stats_hold h kvs o1))).
    { intros o1 E. split; [destruct Hk as (o & ? & ?); exists o; by rewrite E |].
      intros (o & ? & ?). exists o. by rewrite E. }
    destruct (Z.eqb_spec (lc_service e) (lc_service lc)) as [Hs |];
      [destruct (lc_ctx e) as [c' |] eqn:Ec |].
    + destruct (decide (stats_handle c' = h)) as [Heq | Hne].
      * pose proof (Hdistinct e c' ltac:(apply Hl; left) Ec Heq) as ->.
        rewrite Hctx in Ec. injection Ec as <-.
        apply IH; [intros; apply Hl; by right | | right].
        -- by apply has_stats_keys_conn.
        -- by apply stats_update_conn_hold.
      * destruct (Hhold _ (stats_update_conn_ne c' (lc_stats e) objs h Hne)) as [Hk1 Hh1].
        apply IH; [intros; apply Hl; by right | done |].
        destruct Hcase as [[-> | Hin]%elem_of_cons | Hh]; [| by left | by right; apply Hh1].
        rewrite Hctx in Ec. injection Ec as <-. done.
    + apply IH; [intros; apply Hl; by right | done |].
      destruct Hcase as [[-> | Hin]%elem_of_cons | Hh]; [congruence | by left | by right].
    + apply IH; [intros; apply Hl; by right | done |].
      destruct Hcase as [[-> | Hin]%elem_of_cons | Hh]; [done | by left | by right].
Qed.

Lemma stats_at_same objs objs1 :
  objs1 !! h = objs !! h ->
  (has_stats_keys h objs -> has_stats_keys h objs1) /\ (stats_hold h kvs objs -> stats_hold h kvs objs1).
Proof. intros E. split; [intros (o & ? & ?) | intros (o & ? & ?)]; exists o; by rewrite E. Qed.

Lemma stats_loop_own reg i n objs objs' :
  lc ∈ conns -> 0 <= lc_service lc ->
  stats_update_loop reg conns i n objs = Loaded objs' -> has_stats_keys h objs ->
  ((i <= Z.to_nat (lc_service lc) < i + n)%nat /\ is_Some (registered reg (Z.to_nat (lc_service lc)))
   \/ stats_hold h kvs objs) ->
  stats_hold h kvs objs'.
Proof.
  intros Hin Hs. revert i objs. induction n as [| n IH]; intros i objs; simpl.
  - intros [= <-] _ [[? _] | Hh]; [lia | done].
  - destruct (array_get reg (Z.of_nat i)) as [slot |] eqn:Ea; [| done]. intros E Hk Hcase.
    apply array_get_Loaded in Ea as [_ Ea]. rewrite Nat2Z.id in Ea.
    set (objs1 := match ais_service_entry slot, ipcs_mapper_inst slot with
                  | Some _, true => stats_update_service (Z.of_nat i) conns objs
                  | _, _ => objs
                  end) in E.
    destruct (decide (i = Z.to_nat (lc_service lc))) as [Hij | Hne].
    + assert (Hh1 : stats_hold h kvs objs1).
      { unfold objs1. rewrite Hij, Z2Nat.id by done.
        destruct slot as [[svc |] [|]]; simpl;
          try (apply service_pass_own; [done | done | by left]);
          (destruct Hcase as [[_ Hreg] | Hh]; [| done]);
          unfold registered in Hreg; rewrite <- Hij, Ea in Hreg; by destruct Hreg. }
      apply (IH (S i) objs1 E); [destruct Hh1 as (o & ? & ? & _); by exists o | by right].
    + assert (Hsame : objs1 !! h = objs !! h).
      { unfold objs1. destruct (ais_service_entry slot), (ipcs_mapper_inst slot); try done.
        apply service_pass_other; [done | lia]. }
      destruct (stats_at_same _ _ Hsame) as [Hk1 Hh1].
      apply (IH (S i) objs1 E); [auto |].
      destruct Hcase as [[? Hreg] | Hh]; [left; split; [lia | done] | right; auto].
Qed.

End StatsUpdate.

Lemma stats_update_loop_of conns s s' :
  cs_ipcs_stats_update conns s = Loaded s' ->
  stats_update_loop (srv_reg s) conns 0 (Z.to_nat SERVICE_HANDLER_MAXIMUM_COUNT) (conn_objects s) =
    Loaded (conn_objects s').
Proof.
  unfold cs_ipcs_stats_update.
  destruct (stats_update_loop _ _ _ _ _) as [objs' |]; [| discriminate].
  intros [= <-]. reflexivity.
Qed.

Lemma stats_update_loop_copies conns s objs' lc cnx :
  stats_update_loop (srv_reg s) conns 0 (Z.to_nat SERVICE_HANDLER_MAXIMUM_COUNT) (conn_objects s) =
    Loaded objs' ->
  lc ∈ conns -> lc_ctx lc = Some cnx -> 0 <= lc_service lc < SERVICE_HANDLER_MAXIMUM_COUNT ->
  is_Some (registered (srv_reg s) (Z.to_nat (lc_service lc))) ->
  (forall lc' c', lc' ∈ conns -> lc_ctx lc' = Some c' -> stats_handle c' = stats_handle cnx -> lc' = lc) ->
  has_stats_keys (stats_handle cnx) (conn_objects s) ->
  stats_hold (stats_handle cnx) (stats_update_keys cnx (lc_stats lc)) objs'.
Proof.
  intros E Hin Hctx Hs Hreg Hdist Hk.
  apply (stats_loop_own conns lc cnx Hctx Hdist (srv_reg s) 0 (Z.to_nat SERVICE_HANDLER_MAXIMUM_COUNT)
           (conn_objects s) objs' Hin ltac:(lia) E Hk).
  left. split; [| exact Hreg]. unfold SERVICE_HANDLER_MAXIMUM_COUNT in Hs |- *. lia.
Qed.

(** What [cs_ipcs_stats_update] writes.  Take a live connection of
    a service that is loaded and has an IPC server, whose statistics
    object no other live connection shares and still has the keys
    [cs_ipcs_connection_created] gave it.  After the update its object
    holds libqb's counters for the connection and the context's
    [queued], [invalid_request] and [overload]. *)
Theorem stats_update_copies conns s s' lc cnx :
  cs_ipcs_stats_update conns s = Loaded s' ->
  lc ∈ conns -> lc_ctx lc = Some cnx ->
  0 <= lc_service lc < SERVICE_HANDLER_MAXIMUM_COUNT ->
  is_Some (registered (srv_reg s) (Z.to_nat (lc_service lc))) ->
  (forall lc' c', lc' ∈ conns -> lc_ctx lc' = Some c' -> stats_handle c' = stats_handle cnx -> lc' = lc) ->
  has_stats_keys (stats_handle cnx) (conn_objects s) ->
  stats_hold (stats_handle cnx) (stats_update_keys cnx (lc_stats lc)) (conn_objects s').
Proof.
  intros Hu. exact (stats_update_loop_copies conns s (conn_objects s') lc cnx
                      (stats_update_loop_of conns s s' Hu)).
Qed.

(** ** Concrete runs *)

(** A connection from process [cpgtest] gets the statistics object
    ["cpgtest:4242:0x7ffff7ffd000"]; the update then copies its counters. *)
Lemma created_cpg_name :
  (obj_name <$> (conn_objects srv1 !! stats_handle ctx1)) = Some (s_ "cpgtest:4242:0x7ffff7ffd000") /\
  conn_active srv1 = 1.
Proof. split; vm_compute; reflexivity. Qed.

Lemma stats_update_copies_witness :
  (cs_ipcs_stats_update [lc1] srv1 = Loaded srv2 /\ lc1 ∈ [lc1] /\ lc_ctx lc1 = Some ctx1 /\
   0 <= lc_service lc1 < SERVICE_HANDLER_MAXIMUM_COUNT /\
   is_Some (registered (srv_reg srv1) (Z.to_nat (lc_service lc1))) /\
   (forall lc' c', lc' ∈ [lc1] -> lc_ctx lc' = Some c' -> stats_handle c' = stats_handle ctx1 -> lc' = lc1) /\
   has_stats_keys (stats_handle ctx1) (conn_objects srv1)) /\
  stats_hold (stats_handle ctx1) (stats_update_keys ctx1 (lc_stats lc1)) (conn_objects srv2).
Proof.
  assert (Hpre : cs_ipcs_stats_update [lc1] srv1 = Loaded srv2 /\ lc1 ∈ [lc1] /\ lc_ctx lc1 = Some ctx1 /\
   0 <= lc_service lc1 < SERVICE_HANDLER_MAXIMUM_COUNT /\
   is_Some (registered (srv_reg srv1) (Z.to_nat (lc_service lc1))) /\
   (forall lc' c', lc' ∈ [lc1] -> lc_ctx lc' = Some c' -> stats_handle c' = stats_handle ctx1 -> lc' = lc1) /\
   has_stats_keys (stats_handle ctx1) (conn_objects srv1)).
  { split; [vm_compute; reflexivity |]. split; [by left |]. split; [reflexivity |].
    split; [unfold lc1, SERVICE_HANDLER_MAXIMUM_COUNT; simpl; lia |]. split; [vm_compute; eexists; reflexivity |].
    split; [intros lc' c' Hl%list_elem_of_singleton _ _; done |].
    eexists. split; [vm_compute; reflexivity | vm_compute; reflexivity]. }
  split; [exact Hpre |].
  destruct Hpre as (H1 & H2 & H3 & H4 & H5 & H6 & H7).
  exact (stats_update_copies [lc1] srv1 srv2 lc1 ctx1 H1 H2 H3 H4 H5 H6 H7).
Defined.

Lemma connection_stats_consistent_witness :
  star conn_step (world_init reg_cpg boot_exiting []) world1 /\ conn_inv world1.
Proof.
  assert (Hrun : star conn_step (world_init reg_cpg boot_exiting []) world1).
  { apply star_one. unfold world1, lc1.
    apply (cs_connect _ 0 8 0 0 client_stats (Some client_stat_file) 140737354125312 ctx1 srv1
             [LibInitFn 8]); [reflexivity | vm_compute; reflexivity | vm_compute; reflexivity]. }
  split; [exact Hrun | exact (connection_stats_consistent reg_cpg boot_exiting [] world1 Hrun)].
Defined.


(** A user outside [uidgid_list] is refused with [-EACCES], root is
    accepted, and after a descriptor shortage root is refused too. *)
Lemma accept_examples :
  cs_ipcs_connection_accept 8 1000 1000 srv_boot = Done (- EACCES) /\
  cs_ipcs_connection_accept 8 0 0 srv_boot = Done 0 /\
  cs_ipcs_connection_accept 8 0 0 (cs_ipcs_low_fds_event 1 3 srv_boot) = Done (- EMFILE) /\
  cs_ipcs_connection_accept 3 0 0 srv_boot = Done (- ENOSYS).
Proof. repeat split; vm_compute; reflexivity. Qed.
