(* ===== verification/CfgIpc.v ===== *)
(** * The CFG service's IPC messages ([include/corosync/ipc_cfg.h])

    The header declares the request and response numbering of the CFG
    service, three AMF-style enumerations, and one struct per message.  It
    holds no code.  What it fixes is data: the integer of each enumerator
    and the byte layout of each message.

    - The enumerations are [Inductive] types with their constructors in
      the header's order, and one value function each.  A value decodes
      with the generic [enum_of] of the prelude.
    - The layouts are computed the way GCC lays out a struct on the
      targets corosync builds for (LP64).  Every field is placed at the
      next multiple of its alignment.  A field's alignment is the larger
      of its type's alignment and its [__attribute__((aligned(n)))].  The
      struct's size is rounded up to its alignment, the largest field
      alignment.  Alignments are powers of two, kept as their base-2
      logarithm.
    - The types the header uses from outside src/ ([struct qb_ipc_request_header]
      and [struct qb_ipc_response_header] of libqb, [cs_name_t] of corotypes.h,
      [TOTEMIP_ADDRLEN]) are modelled from their declarations there.

    Theorems: the layout algorithm is sound for every struct (fields
    aligned, in order, disjoint and inside the struct); every request
    starts with the id and size a libqb request header reads, although
    three requests are declared with the response header; the numbering
    decodes back to its enumerators; the reply numbering departs from the
    request numbering for exactly two requests. *)

From Stdlib Require Import ZArith Lia String.
From stdpp Require Import base list numbers.
From S2P Require Import Prelude CoroDefs.

Open Scope Z_scope.

(** ** Enumerations *)

Inductive req_lib_cfg_types :=
| MESSAGE_REQ_CFG_RINGSTATUSGET
| MESSAGE_REQ_CFG_RINGREENABLE
| MESSAGE_REQ_CFG_STATETRACKSTART
| MESSAGE_REQ_CFG_STATETRACKSTOP
| MESSAGE_REQ_CFG_ADMINISTRATIVESTATESET
| MESSAGE_REQ_CFG_ADMINISTRATIVESTATEGET
| MESSAGE_REQ_CFG_SERVICELOAD
| MESSAGE_REQ_CFG_SERVICEUNLOAD
| MESSAGE_REQ_CFG_KILLNODE
| MESSAGE_REQ_CFG_TRYSHUTDOWN
| MESSAGE_REQ_CFG_REPLYTOSHUTDOWN
| MESSAGE_REQ_CFG_GET_NODE_ADDRS
| MESSAGE_REQ_CFG_LOCAL_GET
| MESSAGE_REQ_CFG_CRYPTO_SET.

Definition req_lib_cfg_value (t : req_lib_cfg_types) : Z :=
  match t with
  | MESSAGE_REQ_CFG_RINGSTATUSGET => 0
  | MESSAGE_REQ_CFG_RINGREENABLE => 1
  | MESSAGE_REQ_CFG_STATETRACKSTART => 2
  | MESSAGE_REQ_CFG_STATETRACKSTOP => 3
  | MESSAGE_REQ_CFG_ADMINISTRATIVESTATESET => 4
  | MESSAGE_REQ_CFG_ADMINISTRATIVESTATEGET => 5
  | MESSAGE_REQ_CFG_SERVICELOAD => 6
  | MESSAGE_REQ_CFG_SERVICEUNLOAD => 7
  | MESSAGE_REQ_CFG_KILLNODE => 8
  | MESSAGE_REQ_CFG_TRYSHUTDOWN => 9
  | MESSAGE_REQ_CFG_REPLYTOSHUTDOWN => 10
  | MESSAGE_REQ_CFG_GET_NODE_ADDRS => 11
  | MESSAGE_REQ_CFG_LOCAL_GET => 12
  | MESSAGE_REQ_CFG_CRYPTO_SET => 13
  end.

Definition req_lib_cfg_all : list req_lib_cfg_types :=
  [MESSAGE_REQ_CFG_RINGSTATUSGET; MESSAGE_REQ_CFG_RINGREENABLE;
   MESSAGE_REQ_CFG_STATETRACKSTART; MESSAGE_REQ_CFG_STATETRACKSTOP;
   MESSAGE_REQ_CFG_ADMINISTRATIVESTATESET; MESSAGE_REQ_CFG_ADMINISTRATIVESTATEGET;
   MESSAGE_REQ_CFG_SERVICELOAD; MESSAGE_REQ_CFG_SERVICEUNLOAD; MESSAGE_REQ_CFG_KILLNODE;
   MESSAGE_REQ_CFG_TRYSHUTDOWN; MESSAGE_REQ_CFG_REPLYTOSHUTDOWN;
   MESSAGE_REQ_CFG_GET_NODE_ADDRS; MESSAGE_REQ_CFG_LOCAL_GET; MESSAGE_REQ_CFG_CRYPTO_SET].

Inductive res_lib_cfg_types :=
| MESSAGE_RES_CFG_RINGSTATUSGET
| MESSAGE_RES_CFG_RINGREENABLE
| MESSAGE_RES_CFG_STATETRACKSTART
| MESSAGE_RES_CFG_STATETRACKSTOP
| MESSAGE_RES_CFG_ADMINISTRATIVESTATESET
| MESSAGE_RES_CFG_ADMINISTRATIVESTATEGET
| MESSAGE_RES_CFG_SERVICELOAD
| MESSAGE_RES_CFG_SERVICEUNLOAD
| MESSAGE_RES_CFG_KILLNODE
| MESSAGE_RES_CFG_TRYSHUTDOWN
| MESSAGE_RES_CFG_TESTSHUTDOWN
| MESSAGE_RES_CFG_GET_NODE_ADDRS
| MESSAGE_RES_CFG_LOCAL_GET
| MESSAGE_RES_CFG_REPLYTOSHUTDOWN
| MESSAGE_RES_CFG_CRYPTO_SET.

Definition res_lib_cfg_value (t : res_lib_cfg_types) : Z :=
  match t with
  | MESSAGE_RES_CFG_RINGSTATUSGET => 0
  | MESSAGE_RES_CFG_RINGREENABLE => 1
  | MESSAGE_RES_CFG_STATETRACKSTART => 2
  | MESSAGE_RES_CFG_STATETRACKSTOP => 3
  | MESSAGE_RES_CFG_ADMINISTRATIVESTATESET => 4
  | MESSAGE_RES_CFG_ADMINISTRATIVESTATEGET => 5
  | MESSAGE_RES_CFG_SERVICELOAD => 6
  | MESSAGE_RES_CFG_SERVICEUNLOAD => 7
  | MESSAGE_RES_CFG_KILLNODE => 8
  | MESSAGE_RES_CFG_TRYSHUTDOWN => 9
  | MESSAGE_RES_CFG_TESTSHUTDOWN => 10
  | MESSAGE_RES_CFG_GET_NODE_ADDRS => 11
  | MESSAGE_RES_CFG_LOCAL_GET => 12
  | MESSAGE_RES_CFG_REPLYTOSHUTDOWN => 13
  | MESSAGE_RES_CFG_CRYPTO_SET => 14
  end.

Definition res_lib_cfg_all : list res_lib_cfg_types :=
  [MESSAGE_RES_CFG_RINGSTATUSGET; MESSAGE_RES_CFG_RINGREENABLE;
   MESSAGE_RES_CFG_STATETRACKSTART; MESSAGE_RES_CFG_STATETRACKSTOP;
   MESSAGE_RES_CFG_ADMINISTRATIVESTATESET; MESSAGE_RES_CFG_ADMINISTRATIVESTATEGET;
   MESSAGE_RES_CFG_SERVICELOAD; MESSAGE_RES_CFG_SERVICEUNLOAD; MESSAGE_RES_CFG_KILLNODE;
   MESSAGE_RES_CFG_TRYSHUTDOWN; MESSAGE_RES_CFG_TESTSHUTDOWN; MESSAGE_RES_CFG_GET_NODE_ADDRS;
   MESSAGE_RES_CFG_LOCAL_GET; MESSAGE_RES_CFG_REPLYTOSHUTDOWN; MESSAGE_RES_CFG_CRYPTO_SET].

(** The response a request is answered with: the enumerator of the same
    name ([LOCAL_GET] with [LOCAL_GET], and so on). *)
Definition res_for_req (t : req_lib_cfg_types) : res_lib_cfg_types :=
  match t with
  | MESSAGE_REQ_CFG_RINGSTATUSGET => MESSAGE_RES_CFG_RINGSTATUSGET
  | MESSAGE_REQ_CFG_RINGREENABLE => MESSAGE_RES_CFG_RINGREENABLE
  | MESSAGE_REQ_CFG_STATETRACKSTART => MESSAGE_RES_CFG_STATETRACKSTART
  | MESSAGE_REQ_CFG_STATETRACKSTOP => MESSAGE_RES_CFG_STATETRACKSTOP
  | MESSAGE_REQ_CFG_ADMINISTRATIVESTATESET => MESSAGE_RES_CFG_ADMINISTRATIVESTATESET
  | MESSAGE_REQ_CFG_ADMINISTRATIVESTATEGET => MESSAGE_RES_CFG_ADMINISTRATIVESTATEGET
  | MESSAGE_REQ_CFG_SERVICELOAD => MESSAGE_RES_CFG_SERVICELOAD
  | MESSAGE_REQ_CFG_SERVICEUNLOAD => MESSAGE_RES_CFG_SERVICEUNLOAD
  | MESSAGE_REQ_CFG_KILLNODE => MESSAGE_RES_CFG_KILLNODE
  | MESSAGE_REQ_CFG_TRYSHUTDOWN => MESSAGE_RES_CFG_TRYSHUTDOWN
  | MESSAGE_REQ_CFG_REPLYTOSHUTDOWN => MESSAGE_RES_CFG_REPLYTOSHUTDOWN
  | MESSAGE_REQ_CFG_GET_NODE_ADDRS => MESSAGE_RES_CFG_GET_NODE_ADDRS
  | MESSAGE_REQ_CFG_LOCAL_GET => MESSAGE_RES_CFG_LOCAL_GET
  | MESSAGE_REQ_CFG_CRYPTO_SET => MESSAGE_RES_CFG_CRYPTO_SET
  end.

Inductive corosync_administrative_target_t :=
| AIS_AMF_ADMINISTRATIVETARGET_SERVICEUNIT
| AIS_AMF_ADMINISTRATIVETARGET_SERVICEGROUP
| AIS_AMF_ADMINISTRATIVETARGET_COMPONENTSERVICEINSTANCE
| AIS_AMF_ADMINISTRATIVETARGET_NODE.

Definition administrative_target_value (t : corosync_administrative_target_t) : Z :=
  match t with
  | AIS_AMF_ADMINISTRATIVETARGET_SERVICEUNIT => 0
  | AIS_AMF_ADMINISTRATIVETARGET_SERVICEGROUP => 1
  | AIS_AMF_ADMINISTRATIVETARGET_COMPONENTSERVICEINSTANCE => 2
  | AIS_AMF_ADMINISTRATIVETARGET_NODE => 3
  end.

Inductive corosync_administrative_state_t :=
| AIS_AMF_ADMINISTRATIVESTATE_UNLOCKED
| AIS_AMF_ADMINISTRATIVESTATE_LOCKED
| AIS_AMF_ADMINISTRATIVESTATE_STOPPING.

Definition administrative_state_value (t : corosync_administrative_state_t) : Z :=
  match t with
  | AIS_AMF_ADMINISTRATIVESTATE_UNLOCKED => 0
  | AIS_AMF_ADMINISTRATIVESTATE_LOCKED => 1
  | AIS_AMF_ADMINISTRATIVESTATE_STOPPING => 2
  end.

Inductive corosync_shutdown_flags_t :=
| CFG_SHUTDOWN_FLAG_REQUEST
| CFG_SHUTDOWN_FLAG_REGARDLESS
| CFG_SHUTDOWN_FLAG_IMMEDIATE.

Definition shutdown_flags_value (t : corosync_shutdown_flags_t) : Z :=
  match t with
  | CFG_SHUTDOWN_FLAG_REQUEST => 0
  | CFG_SHUTDOWN_FLAG_REGARDLESS => 1
  | CFG_SHUTDOWN_FLAG_IMMEDIATE => 2
  end.

#[export] Instance req_lib_cfg_types_eq_dec : EqDecision req_lib_cfg_types.
Proof. solve_decision. Defined.
#[export] Instance res_lib_cfg_types_eq_dec : EqDecision res_lib_cfg_types.
Proof. solve_decision. Defined.

(** ** Layouts *)

(** A C type as the layout algorithm sees it: its size in bytes and the
    base-2 logarithm of its alignment. *)
Record layout := { ly_size : Z; ly_align_log : nat }.

Definition ly_align (ly : layout) : Z := 2 ^ Z.of_nat (ly_align_log ly).

Definition uint8_t : layout := {| ly_size := 1; ly_align_log := 0 |}.
Definition uint16_t : layout := {| ly_size := 2; ly_align_log := 1 |}.
Definition int32_t : layout := {| ly_size := 4; ly_align_log := 2 |}.
(** [unsigned int], [mar_uint32_t] and every C enum are four bytes. *)
Definition uint32_t : layout := int32_t.
Definition c_enum : layout := int32_t.
Definition c_pointer : layout := {| ly_size := 8; ly_align_log := 3 |}.

(** [T a[n]]: [n] elements, the alignment of [T]. *)
Definition c_array (ly : layout) (n : Z) : layout :=
  {| ly_size := n * ly_size ly; ly_align_log := ly_align_log ly |}.

(** A struct member: its name, its type, and the logarithm of its
    [__attribute__((aligned(n)))] (0 when it has none). *)
Record field := { f_name : string; f_type : layout; f_attr_log : nat }.

Definition member (name : string) (ly : layout) : field :=
  {| f_name := name; f_type := ly; f_attr_log := 0 |}.
Definition member_aligned8 (name : string) (ly : layout) : field :=
  {| f_name := name; f_type := ly; f_attr_log := 3 |}.

Definition field_align_log (f : field) : nat := Nat.max (ly_align_log (f_type f)) (f_attr_log f).
Definition field_align (f : field) : Z := 2 ^ Z.of_nat (field_align_log f).

(** The first multiple of [a] at or after [x]. *)
Definition align_up (a x : Z) : Z := (x + a - 1) / a * a.

(** The offsets of the members placed from byte [pos] on, and the end of
    the last one. *)
Fixpoint place (pos : Z) (fs : list field) : list Z * Z :=
  match fs with
  | [] => ([], pos)
  | f :: fs' =>
      let o := align_up (field_align f) pos in
      let '(os, e) := place (o + ly_size (f_type f)) fs' in (o :: os, e)
  end.

Definition struct_offsets (fs : list field) : list Z := fst (place 0 fs).

(** A struct's alignment: the largest of its members' and of its own
    [aligned] attribute [attr]. *)
Definition struct_align_log (attr : nat) (fs : list field) : nat :=
  fold_right (fun f a => Nat.max (field_align_log f) a) attr fs.

Definition struct_layout (attr : nat) (fs : list field) : layout :=
  {| ly_size := align_up (2 ^ Z.of_nat (struct_align_log attr fs)) (snd (place 0 fs));
     ly_align_log := struct_align_log attr fs |}.

(** [offsetof (struct s, name)]. *)
Fixpoint offset_in (fs : list field) (os : list Z) (name : string) : option Z :=
  match fs, os with
  | f :: fs', o :: os' => if String.eqb (f_name f) name then Some o else offset_in fs' os' name
  | _, _ => None
  end.

Definition offset_of (fs : list field) (name : string) : option Z :=
  offset_in fs (struct_offsets fs) name.

(** The type of the member called [header], when it is the first one. *)
Definition header_type (fs : list field) : option layout :=
  match fs with
  | f :: _ => if String.eqb (f_name f) "header" then Some (f_type f) else None
  | [] => None
  end.

(** ** Types from outside src/ *)

(** libqb's [qbipc_common.h]: every member and the struct are [aligned(8)]. *)
Definition qb_ipc_request_header_fields : list field :=
  [member_aligned8 "id" int32_t; member_aligned8 "size" int32_t].
Definition qb_ipc_request_header_layout : layout := struct_layout 3 qb_ipc_request_header_fields.

Definition qb_ipc_response_header_fields : list field :=
  [member_aligned8 "id" int32_t; member_aligned8 "size" int32_t; member_aligned8 "error" int32_t].
Definition qb_ipc_response_header_layout : layout := struct_layout 3 qb_ipc_response_header_fields.

(** corotypes.h: [typedef struct { uint16_t length; uint8_t value[CS_MAX_NAME_LENGTH]; } cs_name_t]. *)
Definition CS_MAX_NAME_LENGTH : Z := 256.
Definition cs_name_t : layout :=
  struct_layout 0 [member "length" uint16_t; member "value" (c_array uint8_t CS_MAX_NAME_LENGTH)].

(** totemip.h: [TOTEMIP_ADDRLEN] is [sizeof (struct in6_addr)]. *)
Definition TOTEMIP_ADDRLEN : Z := 16.

(** ** The messages *)

Definition req_lib_cfg_statetrack : list field :=
  [member "header" qb_ipc_request_header_layout; member "track_flags" uint8_t;
   member "notification_buffer_address" c_pointer].
Definition res_lib_cfg_statetrack : list field := [member "header" qb_ipc_response_header_layout].
Definition req_lib_cfg_statetrackstop : list field := [member "header" qb_ipc_request_header_layout].
Definition res_lib_cfg_statetrackstop : list field := [member "header" qb_ipc_response_header_layout].
Definition req_lib_cfg_administrativestateset : list field :=
  [member "header" qb_ipc_request_header_layout; member "comp_name" cs_name_t;
   member "administrative_target" c_enum; member "administrative_state" c_enum].
Definition res_lib_cfg_administrativestateset : list field := [member "header" qb_ipc_response_header_layout].
Definition req_lib_cfg_administrativestateget : list field :=
  [member "header" qb_ipc_request_header_layout; member "comp_name" cs_name_t;
   member "administrative_target" c_enum; member "administrative_state" c_enum].
Definition res_lib_cfg_administrativestateget : list field :=
  [member_aligned8 "header" qb_ipc_response_header_layout].
Definition req_lib_cfg_ringstatusget : list field := [member_aligned8 "header" qb_ipc_request_header_layout].
Definition res_lib_cfg_ringstatusget : list field :=
  [member_aligned8 "header" qb_ipc_response_header_layout; member_aligned8 "interface_count" uint32_t;
   member_aligned8 "interface_name" (c_array (c_array uint8_t 128) 16);
   member_aligned8 "interface_status" (c_array (c_array uint8_t 512) 16)].
Definition req_lib_cfg_ringreenable : list field := [member_aligned8 "header" qb_ipc_request_header_layout].
Definition res_lib_cfg_ringreenable : list field := [member_aligned8 "header" qb_ipc_response_header_layout].
Definition req_lib_cfg_serviceload : list field :=
  [member_aligned8 "header" qb_ipc_response_header_layout;
   member_aligned8 "service_name" (c_array uint8_t 256); member "service_ver" uint32_t].
Definition res_lib_cfg_serviceload : list field := [member_aligned8 "header" qb_ipc_response_header_layout].
Definition req_lib_cfg_serviceunload : list field :=
  [member_aligned8 "header" qb_ipc_response_header_layout;
   member_aligned8 "service_name" (c_array uint8_t 256); member "service_ver" uint32_t].
Definition res_lib_cfg_serviceunload : list field := [member_aligned8 "header" qb_ipc_response_header_layout].
Definition req_lib_cfg_killnode : list field :=
  [member_aligned8 "header" qb_ipc_request_header_layout; member_aligned8 "nodeid" uint32_t;
   member_aligned8 "reason" cs_name_t].
Definition res_lib_cfg_killnode : list field := [member_aligned8 "header" qb_ipc_response_header_layout].
Definition req_lib_cfg_tryshutdown : list field :=
  [member_aligned8 "header" qb_ipc_request_header_layout; member "flags" uint32_t].
Definition res_lib_cfg_tryshutdown : list field := [member_aligned8 "header" qb_ipc_response_header_layout].
Definition req_lib_cfg_replytoshutdown : list field :=
  [member_aligned8 "header" qb_ipc_request_header_layout; member "response" uint32_t].
Definition res_lib_cfg_replytoshutdown : list field := [member_aligned8 "header" qb_ipc_response_header_layout].
Definition res_lib_cfg_testshutdown : list field :=
  [member_aligned8 "header" qb_ipc_response_header_layout; member "flags" uint32_t].
Definition req_lib_cfg_get_node_addrs : list field :=
  [member_aligned8 "header" qb_ipc_request_header_layout; member "nodeid" uint32_t].
Definition res_lib_cfg_get_node_addrs : list field :=
  [member_aligned8 "header" qb_ipc_response_header_layout; member "family" uint32_t;
   member "num_addrs" uint32_t; member "addrs" (c_array (c_array uint8_t 0) TOTEMIP_ADDRLEN)].
Definition req_lib_cfg_local_get : list field := [member_aligned8 "header" qb_ipc_request_header_layout].
Definition res_lib_cfg_local_get : list field :=
  [member_aligned8 "header" qb_ipc_response_header_layout; member_aligned8 "local_nodeid" uint32_t].
Definition req_lib_cfg_crypto_set : list field :=
  [member_aligned8 "header" qb_ipc_response_header_layout; member_aligned8 "type" uint32_t].
Definition res_lib_cfg_crypto_set : list field := [member_aligned8 "header" qb_ipc_response_header_layout].

(** The struct a request of each type is sent as. *)
Definition req_struct (t : req_lib_cfg_types) : list field :=
  match t with
  | MESSAGE_REQ_CFG_RINGSTATUSGET => req_lib_cfg_ringstatusget
  | MESSAGE_REQ_CFG_RINGREENABLE => req_lib_cfg_ringreenable
  | MESSAGE_REQ_CFG_STATETRACKSTART => req_lib_cfg_statetrack
  | MESSAGE_REQ_CFG_STATETRACKSTOP => req_lib_cfg_statetrackstop
  | MESSAGE_REQ_CFG_ADMINISTRATIVESTATESET => req_lib_cfg_administrativestateset
  | MESSAGE_REQ_CFG_ADMINISTRATIVESTATEGET => req_lib_cfg_administrativestateget
  | MESSAGE_REQ_CFG_SERVICELOAD => req_lib_cfg_serviceload
  | MESSAGE_REQ_CFG_SERVICEUNLOAD => req_lib_cfg_serviceunload
  | MESSAGE_REQ_CFG_KILLNODE => req_lib_cfg_killnode
  | MESSAGE_REQ_CFG_TRYSHUTDOWN => req_lib_cfg_tryshutdown
  | MESSAGE_REQ_CFG_REPLYTOSHUTDOWN => req_lib_cfg_replytoshutdown
  | MESSAGE_REQ_CFG_GET_NODE_ADDRS => req_lib_cfg_get_node_addrs
  | MESSAGE_REQ_CFG_LOCAL_GET => req_lib_cfg_local_get
  | MESSAGE_REQ_CFG_CRYPTO_SET => req_lib_cfg_crypto_set
  end.

(** The struct a response of each type is sent as. *)
Definition res_struct (t : res_lib_cfg_types) : list field :=
  match t with
  | MESSAGE_RES_CFG_RINGSTATUSGET => res_lib_cfg_ringstatusget
  | MESSAGE_RES_CFG_RINGREENABLE => res_lib_cfg_ringreenable
  | MESSAGE_RES_CFG_STATETRACKSTART => res_lib_cfg_statetrack
  | MESSAGE_RES_CFG_STATETRACKSTOP => res_lib_cfg_statetrackstop
  | MESSAGE_RES_CFG_ADMINISTRATIVESTATESET => res_lib_cfg_administrativestateset
  | MESSAGE_RES_CFG_ADMINISTRATIVESTATEGET => res_lib_cfg_administrativestateget
  | MESSAGE_RES_CFG_SERVICELOAD => res_lib_cfg_serviceload
  | MESSAGE_RES_CFG_SERVICEUNLOAD => res_lib_cfg_serviceunload
  | MESSAGE_RES_CFG_KILLNODE => res_lib_cfg_killnode
  | MESSAGE_RES_CFG_TRYSHUTDOWN => res_lib_cfg_tryshutdown
  | MESSAGE_RES_CFG_TESTSHUTDOWN => res_lib_cfg_testshutdown
  | MESSAGE_RES_CFG_GET_NODE_ADDRS => res_lib_cfg_get_node_addrs
  | MESSAGE_RES_CFG_LOCAL_GET => res_lib_cfg_local_get
  | MESSAGE_RES_CFG_REPLYTOSHUTDOWN => res_lib_cfg_replytoshutdown
  | MESSAGE_RES_CFG_CRYPTO_SET => res_lib_cfg_crypto_set
  end.

(** [sizeof] of the struct a request or response is sent as. *)
Definition req_sizeof (t : req_lib_cfg_types) : Z := ly_size (struct_layout 0 (req_struct t)).
Definition res_sizeof (t : res_lib_cfg_types) : Z := ly_size (struct_layout 0 (res_struct t)).

(** ** The layout algorithm *)

Lemma pow2_pos (n : nat) : 0 < 2 ^ Z.of_nat n.
Proof. apply Z.pow_pos_nonneg; lia. Qed.

Lemma pow2_divide (a b : nat) : (a <= b)%nat -> (2 ^ Z.of_nat a | 2 ^ Z.of_nat b).
Proof.
  intros Hab. exists (2 ^ (Z.of_nat b - Z.of_nat a)).
  rewrite <- Z.pow_add_r by lia. f_equal. lia.
Qed.

Lemma align_up_spec a x : 0 < a -> x <= align_up a x /\ align_up a x mod a = 0.
Proof.
  intros Ha. unfold align_up. split; [| apply Z.mod_mul; lia].
  pose proof (Z.mod_pos_bound (x + a - 1) a Ha). pose proof (Z.div_mod (x + a - 1) a ltac:(lia)).
  nia.
Qed.

(** What [place] computes, from any start [pos]: every member begins at a
    multiple of its alignment, after [pos], after the end of every earlier
    member, and ends before the end it returns. *)
Lemma place_spec pos fs :
  Forall (fun f => 0 <= ly_size (f_type f)) fs ->
  pos <= snd (place pos fs) /\
  forall i f o, fs !! i = Some f -> fst (place pos fs) !! i = Some o ->
    pos <= o /\ o mod field_align f = 0 /\ o + ly_size (f_type f) <= snd (place pos fs) /\
    forall j f' o', (i < j)%nat -> fs !! j = Some f' -> fst (place pos fs) !! j = Some o' ->
      o + ly_size (f_type f) <= o'.
Proof.
  revert pos. induction fs as [| g fs IH]; intros pos Hsz; simpl; [split; [lia | done] |].
  inversion Hsz as [| ? ? Hg Hfs]; subst.
  destruct (align_up_spec (field_align g) pos (pow2_pos _)) as [Hpos Hmod].
  destruct (IH (align_up (field_align g) pos + ly_size (f_type g)) Hfs) as [Hend Hrest].
  destruct (place _ fs) as [os e] eqn:E; simpl in *. split; [lia |].
  intros [| i] f o Hf Ho; simpl in Hf, Ho; simplify_eq.
  - split_and!; [lia | done | lia |].
    intros [| j] f' o' Hj Hf' Ho'; [lia |]. simpl in *.
    destruct (Hrest j f' o' Hf' Ho'). lia.
  - destruct (Hrest i f o Hf Ho) as (H1 & H2 & H3 & H4). split_and!; [lia | done | done |].
    intros [| j] f' o' Hj Hf' Ho'; [lia |]. apply (H4 j f'); [lia | done | done].
Qed.

Lemma struct_align_log_ge attr fs f :
  f ∈ fs -> (field_align_log f <= struct_align_log attr fs)%nat.
Proof.
  induction fs as [| g fs IH]; simpl; [by intros ?%elem_of_nil |].
  intros [-> | Hin]%elem_of_cons; [lia |]. specialize (IH Hin). lia.
Qed.

(** ** The numbering *)

Lemma req_lib_cfg_all_complete t : In t req_lib_cfg_all.
Proof. destruct t; simpl; tauto. Qed.

Lemma res_lib_cfg_all_complete t : In t res_lib_cfg_all.
Proof. destruct t; simpl; tauto. Qed.

Lemma req_lib_cfg_values_distinct : NoDup (map req_lib_cfg_value req_lib_cfg_all).
Proof. apply (bool_decide_unpack _). vm_compute. exact I. Qed.

Lemma res_lib_cfg_values_distinct : NoDup (map res_lib_cfg_value res_lib_cfg_all).
Proof. apply (bool_decide_unpack _). vm_compute. exact I. Qed.

(** Decoding a wire id as a request or as a response type. *)
Lemma req_lib_cfg_decode z t :
  enum_of req_lib_cfg_all req_lib_cfg_value z = Some t <-> req_lib_cfg_value t = z.
Proof. apply enum_of_spec; [apply req_lib_cfg_values_distinct | apply req_lib_cfg_all_complete]. Qed.

Lemma res_lib_cfg_decode z t :
  enum_of res_lib_cfg_all res_lib_cfg_value z = Some t <-> res_lib_cfg_value t = z.
Proof. apply enum_of_spec; [apply res_lib_cfg_values_distinct | apply res_lib_cfg_all_complete]. Qed.

(** ** Theorems *)

(** The layout algorithm is sound for every struct whose members have
    non-negative sizes.  Each member starts at a non-negative multiple of
    its alignment, and that alignment divides the struct's, so the member
    is aligned wherever the struct is.  Each member ends before any later
    member starts and inside [sizeof] of the struct.  [sizeof] is a
    multiple of the struct's alignment, so the members of every element
    of an array of the struct are aligned too. *)
Theorem struct_layout_sound attr fs i f o :
  Forall (fun f => 0 <= ly_size (f_type f)) fs ->
  fs !! i = Some f -> struct_offsets fs !! i = Some o ->
  0 <= o /\ o mod field_align f = 0 /\ (field_align f | ly_align (struct_layout attr fs)) /\
  o + ly_size (f_type f) <= ly_size (struct_layout attr fs) /\
  ly_size (struct_layout attr fs) mod ly_align (struct_layout attr fs) = 0 /\
  (forall j f' o', (i < j)%nat -> fs !! j = Some f' -> struct_offsets fs !! j = Some o' ->
     o + ly_size (f_type f) <= o').
Proof.
  intros Hsz Hf Ho. destruct (place_spec 0 fs Hsz) as [_ Hp].
  destruct (Hp i f o Hf Ho) as (H0 & Hmod & Hend & Hdisj).
  destruct (align_up_spec (2 ^ Z.of_nat (struct_align_log attr fs)) (snd (place 0 fs)) (pow2_pos _))
    as [Hup Hm].
  unfold ly_align, field_align. simpl. split_and!; [lia | done | | lia | done | done].
  apply pow2_divide, struct_align_log_ge. by eapply list_elem_of_lookup_2.
Qed.

(** Every CFG request starts with a header whose [id] and [size] are
    at offsets 0 and 8, where libqb's server reads them through a
    [struct qb_ipc_request_header].  The header of three requests
    ([serviceload], [serviceunload], [crypto_set]) is declared as a
    [struct qb_ipc_response_header], eight bytes longer, with an [error] field
    the request does not use.  Their payload therefore starts at offset 24
    instead of 16.  Both ends are compiled from the same header, so they
    agree on it. *)
Theorem cfg_request_header_view t :
  offset_of (req_struct t) "header" = Some 0 /\
  exists hfs, header_type (req_struct t) = Some (struct_layout 3 hfs) /\
    offset_of hfs "id" = Some 0 /\ offset_of hfs "size" = Some 8 /\
    (hfs = qb_ipc_request_header_fields \/ hfs = qb_ipc_response_header_fields) /\
    (hfs = qb_ipc_response_header_fields <->
       t = MESSAGE_REQ_CFG_SERVICELOAD \/ t = MESSAGE_REQ_CFG_SERVICEUNLOAD \/
       t = MESSAGE_REQ_CFG_CRYPTO_SET).
Proof.
  destruct t; (split; [reflexivity |]);
    first [ exists qb_ipc_request_header_fields;
            split_and!; [reflexivity | reflexivity | reflexivity | by left |];
            split; [by inversion 1 | intros [H | [H | H]]; discriminate H]
          | exists qb_ipc_response_header_fields;
            split_and!; [reflexivity | reflexivity | reflexivity | by right |]; tauto ].
Qed.

(** The reply numbering is not the request numbering.  Decoding a
    request's id as a response type gives the response of the same name for
    every request except two: [MESSAGE_REQ_CFG_REPLYTOSHUTDOWN] (10)
    decodes as [MESSAGE_RES_CFG_TESTSHUTDOWN], and
    [MESSAGE_REQ_CFG_CRYPTO_SET] (13) as [MESSAGE_RES_CFG_REPLYTOSHUTDOWN].
    A reply must therefore be built from [res_lib_cfg_types], never by
    copying the request's id. *)
Theorem cfg_reply_id_mismatch t :
  enum_of res_lib_cfg_all res_lib_cfg_value (req_lib_cfg_value t) = Some (res_for_req t) <->
  t <> MESSAGE_REQ_CFG_REPLYTOSHUTDOWN /\ t <> MESSAGE_REQ_CFG_CRYPTO_SET.
Proof. rewrite res_lib_cfg_decode. destruct t; simpl; intuition (congruence || lia). Qed.

(** ** Instances *)

(** The largest CFG message: the ring status reply.  Its last member,
    [interface_status], starts at byte 2080 and ends at byte 10272, which
    is [sizeof (struct res_lib_cfg_ringstatusget)]. *)
Lemma struct_layout_sound_witness :
  struct_offsets res_lib_cfg_ringstatusget !! 3%nat = Some 2080 /\
  2080 + 8192 <= ly_size (struct_layout 0 res_lib_cfg_ringstatusget) /\
  ly_size (struct_layout 0 res_lib_cfg_ringstatusget) = 10272.
Proof.
  split_and!; [reflexivity | | reflexivity].
  destruct (struct_layout_sound 0 res_lib_cfg_ringstatusget 3
              (member_aligned8 "interface_status" (c_array (c_array uint8_t 512) 16)) 2080)
    as (_ & _ & _ & H & _);
    [repeat constructor; vm_compute; congruence | reflexivity | reflexivity | exact H].
Defined.

(** The response header size that ipc_glue.c's error replies carry
    ([sizeof_response_header], CoroDefs.v) is the size of the layout of
    [struct qb_ipc_response_header]. *)
Lemma sizeof_response_header_layout :
  sizeof_response_header = ly_size qb_ipc_response_header_layout.
Proof. vm_compute. reflexivity. Qed.

(** The sizes of all requests and responses, in numbering order. *)
Lemma cfg_message_sizes :
  map req_sizeof req_lib_cfg_all = [16; 16; 32; 16; 288; 288; 288; 288; 288; 24; 24; 24; 16; 32] /\
  map res_sizeof res_lib_cfg_all = [10272; 24; 24; 24; 24; 24; 24; 24; 24; 24; 32; 32; 32; 24; 24].
Proof. split; vm_compute; reflexivity. Qed.
