(* ===== verification/Pload.v ===== *)
(** * The pload client library ([lib/pload.c]) over the handle database

    [pload.c] keeps one [struct pload_inst] per client handle in the handle
    database [pload_handle_t_db] ([DECLARE_HDB_DATABASE], corosync's
    [hdb.h] over libqb's [qb_hdb]).  Every API call looks its instance up
    with [hdb_handle_get], which takes a reference, and gives the reference
    back with [hdb_handle_put].

    - [Hdb]: the database as libqb implements it.  [hdb.h] and libqb are
      outside src/, so this part is modelled from their code: an array of
      entries (state, instance, reference count, check value), a handle
      made of the check value (high 32 bits) and the array index (low 32
      bits).  [hdb_handle_create] reuses the first empty entry or grows the
      array; [hdb_handle_put] frees the entry when the count drops to 0;
      [hdb_handle_destroy] marks the entry for removal and puts it.  The
      instance pointer [hdb_handle_get] hands out aliases the entry: a write
      through it ([pload_inst->c = ...], [pload_inst->finalize = 1]) is
      [hdb_instance_write] on the entry.
    - The client's side of libqb IPC is the list of open connections;
      [qb_ipcc_connect], [qb_ipcc_sendv_recv] and the reply's error field
      are inputs of the environment.
    - [pload_initialize], [pload_finalize], [pload_fd_get] and [pload_start]
      are translated line by line, every [goto] path included.  The request
      [pload_start] sends is laid out with the layout algorithm of [CfgIpc].

    Theorems: the handle invariant (an entry is either empty or active,
    holds exactly its one long-lived reference and an open connection, and
    every open connection belongs to exactly one handle) holds in every
    reachable state; finalizing a handle closes its connection and frees its
    entry, and finalizing it again is refused with [CS_ERR_BAD_HANDLE]. *)

From Stdlib Require Import ZArith Lia String.
From S2P Require Import Prelude CoroDefs CfgIpc.
From stdpp Require Import base list numbers.

Open Scope Z_scope.

(** ** Error codes (lib/util.h, common_lib) *)

(** [hdb_error_to_cs]: the [cs_error_t] of an hdb result. *)
Definition hdb_error_to_cs (res : Z) : Z :=
  if res =? 0 then CS_OK
  else if res =? - EBADF then CS_ERR_BAD_HANDLE
  else if res =? - ENOMEM then CS_ERR_NO_MEMORY
  else if res =? - EMFILE then CS_ERR_NO_RESOURCES
  else if res =? - EACCES then CS_ERR_ACCESS
  else CS_ERR_LIBRARY.

(** [qb_to_cs_error]: the [cs_error_t] of a libqb result, [CS_OK] for any
    non-negative one. *)
Definition qb_to_cs_error (result : Z) : Z :=
  if 0 <=? result then CS_OK
  else let res := - result in
  if res =? EBADF then CS_ERR_BAD_HANDLE
  else if res =? ENOMEM then CS_ERR_NO_MEMORY
  else if res =? ETIMEDOUT then CS_ERR_TIMEOUT
  else if res =? EAGAIN then CS_ERR_TRY_AGAIN
  else if res =? EINVAL then CS_ERR_INVALID_PARAM
  else if res =? EACCES then CS_ERR_ACCESS
  else CS_ERR_LIBRARY.

(** [pload.h]: the pload codes are the [cs_error_t] ones. *)
Definition PLOAD_OK : Z := CS_OK.
Definition PLOAD_ERR_BAD_HANDLE : Z := CS_ERR_BAD_HANDLE.

(** ** The instance *)

(** [struct pload_inst]: the IPC connection ([NULL] is [None]; a
    connection is named by a number) and the [finalize] flag. *)
Record pload_inst := { c : option nat; finalize : Z }.

(** What [hdb_handle_create] allocates: [memset] to zero. *)
Definition pload_inst_zero : pload_inst := {| c := None; finalize := 0 |}.

(** ** The handle database *)

Inductive hdb_handle_state :=
| QB_HDB_HANDLE_STATE_EMPTY
| QB_HDB_HANDLE_STATE_PENDINGREMOVAL
| QB_HDB_HANDLE_STATE_ACTIVE.

#[export] Instance hdb_handle_state_eq_dec : EqDecision hdb_handle_state.
Proof. solve_decision. Defined.

Record qb_hdb_handle := {
  state : hdb_handle_state;
  instance : option pload_inst;
  ref_count : Z;
  check : Z
}.

(** [struct qb_hdb] is the [handles] array, a [list qb_hdb_handle];
    [handle_count] is its length. *)

(** An entry after [memset (entry, 0, sizeof)]. *)
Definition hdb_entry_empty : qb_hdb_handle :=
  {| state := QB_HDB_HANDLE_STATE_EMPTY; instance := None; ref_count := 0; check := 0 |}.

Definition set_ref_count (n : Z) (e : qb_hdb_handle) : qb_hdb_handle :=
  {| state := state e; instance := instance e; ref_count := n; check := check e |}.
Definition set_state (st : hdb_handle_state) (e : qb_hdb_handle) : qb_hdb_handle :=
  {| state := st; instance := instance e; ref_count := ref_count e; check := check e |}.
Definition set_instance (i : option pload_inst) (e : qb_hdb_handle) : qb_hdb_handle :=
  {| state := state e; instance := i; ref_count := ref_count e; check := check e |}.

(** A handle: the check value in the high 32 bits, the index in the low. *)
Definition handle_of (chk : Z) (index : nat) : Z := Z.lor (Z.shiftl chk 32) (Z.of_nat index).
Definition handle_index (h : Z) : Z := Z.land h (Z.ones 32).
Definition handle_check (h : Z) : Z := Z.shiftr h 32.

(** The entry a handle names, when its index is within [handle_count]
    and its check value matches (or is the wildcard [0xffffffff]). *)
Definition hdb_entry (db : list qb_hdb_handle) (h : Z) : option (nat * qb_hdb_handle) :=
  let i := handle_index h in
  if Z.of_nat (length db) <=? i then None
  else match db !! Z.to_nat i with
       | None => None
       | Some e =>
           if negb (handle_check h =? 0xffffffff) && negb (handle_check h =? check e) then None
           else Some (Z.to_nat i, e)
       end.

(** The loop of [qb_hdb_handle_create]: the first empty entry, or a new
    one at the end of the array ([qb_array_grow]). *)
Definition hdb_free_slot (db : list qb_hdb_handle) : nat * list qb_hdb_handle :=
  match list_find (fun e => state e = QB_HDB_HANDLE_STATE_EMPTY) db with
  | Some (i, _) => (i, db)
  | None => (length db, db ++ [hdb_entry_empty])
  end.

(** The entry [qb_hdb_handle_create] fills in: active, one reference, a
    zeroed instance, the check value [chk]. *)
Definition created_entry (chk : Z) : qb_hdb_handle :=
  {| state := QB_HDB_HANDLE_STATE_ACTIVE; instance := Some pload_inst_zero; ref_count := 1; check := chk |}.

(** [qb_hdb_handle_create]: [alloc_ok] is whether the instance could be
    allocated, [chk] the value [random ()] returned. *)
Definition hdb_handle_create (db : list qb_hdb_handle) (alloc_ok : bool) (chk : Z)
    : Z * option Z * list qb_hdb_handle :=
  let '(i, db1) := hdb_free_slot db in
  if alloc_ok then
    (0, Some (handle_of chk i), <[i := created_entry chk]> db1)
  else (- ENOMEM, None, db1).

(** [qb_hdb_handle_get]: a reference on an active entry. *)
Definition hdb_handle_get (db : list qb_hdb_handle) (h : Z) : Z * option pload_inst * list qb_hdb_handle :=
  match hdb_entry db h with
  | Some (i, e) =>
      if decide (state e = QB_HDB_HANDLE_STATE_ACTIVE) then
        (0, instance e, <[i := set_ref_count (ref_count e + 1) e]> db)
      else (- EBADF, None, db)
  | None => (- EBADF, None, db)
  end.

(** [qb_hdb_handle_put]: drop a reference; the last one frees the entry. *)
Definition hdb_handle_put (db : list qb_hdb_handle) (h : Z) : Z * list qb_hdb_handle :=
  match hdb_entry db h with
  | Some (i, e) =>
      if ref_count e - 1 =? 0 then (0, <[i := hdb_entry_empty]> db)
      else (0, <[i := set_ref_count (ref_count e - 1) e]> db)
  | None => (- EBADF, db)
  end.

(** [qb_hdb_handle_destroy]: mark for removal, then put. *)
Definition hdb_handle_destroy (db : list qb_hdb_handle) (h : Z) : Z * list qb_hdb_handle :=
  match hdb_entry db h with
  | Some (i, e) => hdb_handle_put (<[i := set_state QB_HDB_HANDLE_STATE_PENDINGREMOVAL e]> db) h
  | None => (- EBADF, db)
  end.

(** A write through the instance pointer [hdb_handle_get] returned. *)
Definition hdb_instance_write (db : list qb_hdb_handle) (h : Z) (f : pload_inst -> pload_inst)
    : list qb_hdb_handle :=
  match hdb_entry db h with
  | Some (i, e) => <[i := set_instance (f <$> instance e) e]> db
  | None => db
  end.

(** ** The request of [pload_start] (include/corosync/ipc_pload.h) *)

Definition MESSAGE_REQ_PLOAD_START : Z := 0.

Record req_lib_pload_start := {
  header : qb_ipc_request_header;
  msg_code : Z;
  msg_count : Z;
  msg_size : Z
}.

Definition req_lib_pload_start_fields : list field :=
  [member "header" qb_ipc_request_header_layout; member "msg_code" uint32_t;
   member "msg_count" uint32_t; member "msg_size" uint32_t].

(** [sizeof (struct req_lib_pload_start)]. *)
Definition sizeof_req_lib_pload_start : Z := ly_size (struct_layout 0 req_lib_pload_start_fields).

(** ** The library's world *)

(** The handle database, the client's open IPC connections, and the
    requests sent on them, oldest first. *)
Record pload_world := {
  db : list qb_hdb_handle;
  open_conns : list nat;
  sent : list (option nat * req_lib_pload_start)
}.

Definition with_db (d : list qb_hdb_handle) (w : pload_world) : pload_world :=
  {| db := d; open_conns := open_conns w; sent := sent w |}.

(** What the environment answers during [pload_initialize]: whether the
    instance could be allocated, the check value [random ()] drew, and the
    connection [qb_ipcc_connect] returned ([None] for [NULL], with
    [errno]). *)
Record init_env := {
  ie_alloc_ok : bool;
  ie_check : Z;
  ie_connect : option nat;
  ie_errno : Z
}.

(** ** The API *)

(** [pload_initialize] (lines 74-107).  It returns the result, the handle
    written to [*handle] (if any) and the new world. *)
Definition pload_initialize (env : init_env) (w : pload_world) : Z * option Z * pload_world :=
  let '(r, oh, db1) := hdb_handle_create (db w) (ie_alloc_ok env) (ie_check env) in
  let error := hdb_error_to_cs r in
  match oh with
  | Some handle =>
      if negb (error =? CS_OK) then (error, Some handle, with_db db1 w)
      else
        let '(r2, _, db2) := hdb_handle_get db1 handle in
        let error2 := hdb_error_to_cs r2 in
        if negb (error2 =? CS_OK) then
          (error2, Some handle, with_db (snd (hdb_handle_destroy db2 handle)) w)
        else
          let db3 := hdb_instance_write db2 handle
                       (fun i => {| c := ie_connect env; finalize := finalize i |}) in
          match ie_connect env with
          | None =>
              (qb_to_cs_error (- ie_errno env), Some handle,
               with_db (snd (hdb_handle_destroy (snd (hdb_handle_put db3 handle)) handle)) w)
          | Some cn =>
              (CS_OK, Some handle,
               {| db := snd (hdb_handle_put db3 handle); open_conns := cn :: open_conns w;
                  sent := sent w |})
          end
  | None => (error, None, with_db db1 w)
  end.

(** [qb_ipcc_disconnect]: the connection is closed. *)
Definition qb_ipcc_disconnect (conn : option nat) (open : list nat) : list nat :=
  match conn with
  | Some cn => filter (fun x => x <> cn) open
  | None => open
  end.

(** [pload_finalize] (lines 109-137).  [None] is a dereference of a
    [NULL] instance, which a handle in the invariant never yields. *)
Definition pload_finalize (handle : Z) (w : pload_world) : option (Z * pload_world) :=
  let '(r, pi, db1) := hdb_handle_get (db w) handle in
  let error := hdb_error_to_cs r in
  if negb (error =? CS_OK) then Some (error, with_db db1 w)
  else
    match pi with
    | None => None
    | Some inst =>
        if c_true (finalize inst) then
          Some (PLOAD_ERR_BAD_HANDLE, with_db (snd (hdb_handle_put db1 handle)) w)
        else
          let db2 := hdb_instance_write db1 handle
                       (fun i => {| c := c i; finalize := 1 |}) in
          let open := qb_ipcc_disconnect (c inst) (open_conns w) in
          let db3 := snd (hdb_handle_destroy db2 handle) in
          let db4 := snd (hdb_handle_put db3 handle) in
          Some (PLOAD_OK, {| db := db4; open_conns := open; sent := sent w |})
    end.

(** [pload_fd_get] (lines 139-156): the connection whose descriptor
    [qb_ipcc_fd_get] writes to [*fd]. *)
Definition pload_fd_get (handle : Z) (w : pload_world) : option (Z * option nat * pload_world) :=
  let '(r, pi, db1) := hdb_handle_get (db w) handle in
  let error := hdb_error_to_cs r in
  if negb (error =? CS_OK) then Some (error, None, with_db db1 w)
  else
    match pi with
    | None => None
    | Some inst => Some (CS_OK, c inst, with_db (snd (hdb_handle_put db1 handle)) w)
    end.

(** [pload_start] (lines 158-200).  [send_res] is what
    [qb_ipcc_sendv_recv] returns and [res_error] the [header.error] of
    the reply it received. *)
Definition pload_start (handle code msg_count_ msg_size_ send_res res_error : Z)
    (w : pload_world) : option (Z * pload_world) :=
  let '(r, pi, db1) := hdb_handle_get (db w) handle in
  let error := hdb_error_to_cs r in
  if negb (error =? CS_OK) then Some (error, with_db db1 w)
  else
    match pi with
    | None => None
    | Some inst =>
        let req := {| header := {| header_size := sizeof_req_lib_pload_start;
                                   header_id := MESSAGE_REQ_PLOAD_START |};
                      msg_code := u32 code; msg_count := u32 msg_count_; msg_size := u32 msg_size_ |} in
        let w1 := {| db := db1; open_conns := open_conns w; sent := sent w ++ [(c inst, req)] |} in
        let error1 := qb_to_cs_error send_res in
        let error2 := if negb (error1 =? CS_OK) then error1 else res_error in
        Some (error2, with_db (snd (hdb_handle_put db1 handle)) w1)
    end.

(** ** Invariants, observations and concrete inputs *)

(** What [hdb_handle_put] leaves in the entry it drops a reference on. *)
Definition entry_put (e : qb_hdb_handle) : qb_hdb_handle :=
  if ref_count e - 1 =? 0 then hdb_entry_empty else set_ref_count (ref_count e - 1) e.

(** The only non-empty entry a call leaves behind: active, holding the
    one reference [pload_initialize] keeps, with its connection open and
    its [finalize] flag clear. *)
Definition active_entry (chk : Z) (cn : nat) : qb_hdb_handle :=
  {| state := QB_HDB_HANDLE_STATE_ACTIVE; instance := Some {| c := Some cn; finalize := 0 |};
     ref_count := 1; check := chk |}.

Definition entry_ok (e : qb_hdb_handle) : Prop :=
  e = hdb_entry_empty \/ exists chk cn, 0 <= chk < 2 ^ 31 /\ e = active_entry chk cn.

(** The connection an entry owns. *)
Definition conn_of (e : qb_hdb_handle) : option nat := instance e ≫= c.

(** Between calls: every entry is empty or active; the handles fit their
    32-bit index; and the open connections are exactly the connections
    the entries own, each owned once. *)
Definition pload_inv (w : pload_world) : Prop :=
  Forall entry_ok (db w) /\ Z.of_nat (length (db w)) < 2 ^ 32 /\
  NoDup (open_conns w) /\ open_conns w ≡ₚ omap conn_of (db w).

(** The request [pload_start] sends for [code], [msg_count_], [msg_size_]. *)
Definition pload_start_request (code msg_count_ msg_size_ : Z) : req_lib_pload_start :=
  {| header := {| header_size := sizeof_req_lib_pload_start; header_id := MESSAGE_REQ_PLOAD_START |};
     msg_code := u32 code; msg_count := u32 msg_count_; msg_size := u32 msg_size_ |}.

(** One API call, with whatever the environment answers.  The
    environment's side conditions: [random ()] returns a value below
    2^31; the array of handles never reaches 2^32 entries; a connection
    [qb_ipcc_connect] returns is not one the client already has open. *)
Inductive pload_step : pload_world -> pload_world -> Prop :=
| step_initialize env w r oh w' :
    0 <= ie_check env < 2 ^ 31 -> Z.of_nat (length (db w)) + 1 < 2 ^ 32 ->
    (forall cn, ie_connect env = Some cn -> cn ∉ open_conns w) ->
    pload_initialize env w = (r, oh, w') -> pload_step w w'
| step_finalize h w r w' : pload_finalize h w = Some (r, w') -> pload_step w w'
| step_fd_get h w r fd w' : pload_fd_get h w = Some (r, fd, w') -> pload_step w w'
| step_start h code n sz sres rerr w r w' :
    pload_start h code n sz sres rerr w = Some (r, w') -> pload_step w w'.

(** The library when the process starts: [DECLARE_HDB_DATABASE] gives an
    empty array. *)
Definition pload_world_init : pload_world := {| db := []; open_conns := []; sent := [] |}.

(** A client process: [random ()] draws 7, the daemon accepts the
    connection as number 3. *)
Definition env_ok : init_env :=
  {| ie_alloc_ok := true; ie_check := 7; ie_connect := Some 3%nat; ie_errno := 0 |}.

Definition handle_ok : Z := handle_of 7 0.

Definition world_started : pload_world :=
  {| db := [active_entry 7 3]; open_conns := [3%nat];
     sent := [(Some 3%nat, pload_start_request 1 100 1000)] |}.

(** ** Handles *)

Lemma handle_of_fields chk (i : nat) :
  0 <= chk -> Z.of_nat i < 2 ^ 32 ->
  handle_index (handle_of chk i) = Z.of_nat i /\ handle_check (handle_of chk i) = chk.
Proof.
  intros Hc Hi. unfold handle_index, handle_check, handle_of. split.
  - rewrite Z.land_lor_distr_l, !Z.land_ones, Z.shiftl_mul_pow2 by lia.
    rewrite Z.mod_mul, (Z.mod_small (Z.of_nat i)) by lia. reflexivity.
  - rewrite Z.shiftr_lor, Z.shiftr_shiftl_l, Z.sub_diag, Z.shiftl_0_r by lia.
    rewrite Z.shiftr_div_pow2, Z.div_small by lia. apply Z.lor_0_r.
Qed.

Lemma handle_index_nonneg h : 0 <= handle_index h.
Proof. unfold handle_index. apply Z.land_nonneg. right. rewrite Z.ones_equiv. lia. Qed.

Lemma hdb_entry_Some db h i e :
  hdb_entry db h = Some (i, e) ->
  db !! i = Some e /\ Z.of_nat i = handle_index h /\
  (handle_check h = 0xffffffff \/ handle_check h = check e).
Proof.
  pose proof (handle_index_nonneg h) as Hn. unfold hdb_entry.
  destruct (Z.leb_spec (Z.of_nat (length db)) (handle_index h)); [done |].
  destruct (db !! _) as [e' |] eqn:E; [| done].
  destruct (Z.eqb_spec (handle_check h) 0xffffffff), (Z.eqb_spec (handle_check h) (check e'));
    simpl; intros [= <- <-]; split_and!; auto; lia.
Qed.

(** The entry a handle names can be rewritten in place. *)
Lemma hdb_entry_insert db h i e e' :
  hdb_entry db h = Some (i, e) -> check e' = check e ->
  hdb_entry (<[i := e']> db) h = Some (i, e').
Proof.
  intros He Hc. pose proof (hdb_entry_Some _ _ _ _ He) as (Hl & Hi & _).
  revert He. unfold hdb_entry. cbv zeta. rewrite length_insert.
  destruct (Z.leb_spec (Z.of_nat (length db)) (handle_index h)); [done |].
  rewrite <- Hi, Nat2Z.id, Hl, list_lookup_insert_eq by (eapply lookup_lt_Some; eauto).
  rewrite Hc. by destruct (_ && _).
Qed.

Lemma hdb_entry_handle_of db chk (i : nat) e :
  db !! i = Some e -> 0 <= chk < 2 ^ 31 -> Z.of_nat i < 2 ^ 32 -> chk = check e ->
  hdb_entry db (handle_of chk i) = Some (i, e).
Proof.
  intros Hl Hc Hi ->. destruct (handle_of_fields (check e) i) as [Hx Hy]; [lia | lia |].
  pose proof (lookup_lt_Some _ _ _ Hl).
  unfold hdb_entry. rewrite Hx, Hy, Nat2Z.id, Hl.
  destruct (Z.leb_spec (Z.of_nat (length db)) (Z.of_nat i)); [lia |].
  by rewrite Z.eqb_refl, andb_false_r.
Qed.

(** ** The database operations on a named entry *)

Section NamedEntry.
Context (db : list qb_hdb_handle) (h : Z) (i : nat) (e : qb_hdb_handle).
Hypothesis Hnamed : hdb_entry db h = Some (i, e).

Lemma hdb_named_lookup : db !! i = Some e.
Proof. by apply hdb_entry_Some in Hnamed as [? _]. Qed.

Lemma hdb_named_here : db = <[i := e]> db.
Proof. symmetry. apply list_insert_id, hdb_named_lookup. Qed.

Lemma hdb_get_named :
  state e = QB_HDB_HANDLE_STATE_ACTIVE ->
  hdb_handle_get db h = (0, instance e, <[i := set_ref_count (ref_count e + 1) e]> db).
Proof. intros Hs. unfold hdb_handle_get. rewrite Hnamed. by rewrite decide_True. Qed.

Section Rewritten.
Context (e' : qb_hdb_handle).
Hypothesis Hcheck : check e' = check e.

Lemma hdb_get_at :
  state e' = QB_HDB_HANDLE_STATE_ACTIVE ->
  hdb_handle_get (<[i := e']> db) h = (0, instance e', <[i := set_ref_count (ref_count e' + 1) e']> db).
Proof.
  intros Hs. unfold hdb_handle_get. rewrite (hdb_entry_insert _ _ _ _ _ Hnamed Hcheck).
  rewrite decide_True by done. by rewrite list_insert_insert_eq.
Qed.

Lemma hdb_get_not_active :
  state e' <> QB_HDB_HANDLE_STATE_ACTIVE ->
  hdb_handle_get (<[i := e']> db) h = (- EBADF, None, <[i := e']> db).
Proof.
  intros Hs. unfold hdb_handle_get. rewrite (hdb_entry_insert _ _ _ _ _ Hnamed Hcheck).
  by rewrite decide_False.
Qed.

Lemma hdb_put_at : hdb_handle_put (<[i := e']> db) h = (0, <[i := entry_put e']> db).
Proof.
  unfold hdb_handle_put, entry_put. rewrite (hdb_entry_insert _ _ _ _ _ Hnamed Hcheck).
  by destruct (_ =? 0); rewrite list_insert_insert_eq.
Qed.

Lemma hdb_destroy_at :
  hdb_handle_destroy (<[i := e']> db) h =
    (0, <[i := entry_put (set_state QB_HDB_HANDLE_STATE_PENDINGREMOVAL e')]> db).
Proof.
  unfold hdb_handle_destroy. rewrite (hdb_entry_insert _ _ _ _ _ Hnamed Hcheck).
  rewrite list_insert_insert_eq. unfold hdb_handle_put, entry_put.
  rewrite (hdb_entry_insert _ _ _ _ _ Hnamed) by done.
  by destruct (_ =? 0); rewrite list_insert_insert_eq.
Qed.

Lemma hdb_write_at f :
  hdb_instance_write (<[i := e']> db) h f = <[i := set_instance (f <$> instance e') e']> db.
Proof.
  unfold hdb_instance_write. rewrite (hdb_entry_insert _ _ _ _ _ Hnamed Hcheck).
  by rewrite list_insert_insert_eq.
Qed.
End Rewritten.
End NamedEntry.

(** ** The handle invariant *)

Lemma omap_insert_perm {A B} (f : A -> option B) (l : list A) i x y :
  l !! i = Some y -> omap f (<[i := x]> l) ++ option_list (f y) ≡ₚ omap f l ++ option_list (f x).
Proof.
  intros Hy. pose proof (lookup_lt_Some _ _ _ Hy).
  rewrite (insert_take_drop l i x) by done.
  set (T := take i l). set (D := drop (S i) l).
  rewrite <- (take_drop_middle l i y Hy). fold T D.
  rewrite !omap_app, <- !app_assoc. simpl. apply Permutation_app_head.
  destruct (f x), (f y); simpl; rewrite ?app_nil_r;
    rewrite ?(Permutation_app_comm _ [_]); simpl; try apply perm_swap; reflexivity.
Qed.

Lemma entry_ok_lookup w i e : pload_inv w -> db w !! i = Some e -> entry_ok e.
Proof. intros [Hok _] Hl. by eapply Forall_lookup_1 in Hok; [| exact Hl]. Qed.

(** Under the invariant a handle either names an active entry or is
    refused by [hdb_handle_get] without any change. *)
Lemma hdb_get_cases w h :
  pload_inv w ->
  (exists i chk cn, hdb_entry (db w) h = Some (i, active_entry chk cn)) \/
  hdb_handle_get (db w) h = (- EBADF, None, db w).
Proof.
  intros Hinv. destruct (hdb_entry (db w) h) as [[i e] |] eqn:E.
  - destruct (entry_ok_lookup w i e Hinv (hdb_named_lookup _ _ _ _ E)) as [-> | (chk & cn & _ & ->)].
    + right. unfold hdb_handle_get. by rewrite E.
    + left. eauto.
  - right. unfold hdb_handle_get. by rewrite E.
Qed.

(** ** The calls on a live handle and on a refused one *)

Lemma entry_put_after_get e : 1 <= ref_count e -> entry_put (set_ref_count (ref_count e + 1) e) = e.
Proof.
  intros Hr. unfold entry_put. simpl. rewrite (proj2 (Z.eqb_neq _ _)) by lia.
  destruct e; unfold set_ref_count; simpl in *. f_equal. lia.
Qed.

Lemma with_db_same w : with_db (db w) w = w.
Proof. by destruct w. Qed.

Section LiveHandle.
Context (w : pload_world) (h : Z) (i : nat) (chk : Z) (cn : nat).
Hypothesis Hn : hdb_entry (db w) h = Some (i, active_entry chk cn).

Lemma pload_finalize_active :
  pload_finalize h w =
    Some (PLOAD_OK, {| db := <[i := hdb_entry_empty]> (db w);
                       open_conns := qb_ipcc_disconnect (Some cn) (open_conns w); sent := sent w |}).
Proof.
  unfold pload_finalize. rewrite (hdb_get_named _ _ _ _ Hn) by done. cbn beta iota zeta.
  rewrite (hdb_write_at _ _ _ _ Hn), (hdb_destroy_at _ _ _ _ Hn) by done. simpl.
  rewrite (hdb_put_at _ _ _ _ Hn) by done. reflexivity.
Qed.

Lemma pload_fd_get_active : pload_fd_get h w = Some (CS_OK, Some cn, w).
Proof.
  unfold pload_fd_get. rewrite (hdb_get_named _ _ _ _ Hn) by done. cbn beta iota zeta.
  rewrite (hdb_put_at _ _ _ _ Hn), entry_put_after_get, <- (hdb_named_here _ _ _ _ Hn) by done.
  by destruct w.
Qed.

Lemma pload_start_active code msg_count_ msg_size_ send_res res_error :
  pload_start h code msg_count_ msg_size_ send_res res_error w =
    Some (if qb_to_cs_error send_res =? CS_OK then res_error else qb_to_cs_error send_res,
          {| db := db w; open_conns := open_conns w;
             sent := sent w ++ [(Some cn, pload_start_request code msg_count_ msg_size_)] |}).
Proof.
  unfold pload_start. rewrite (hdb_get_named _ _ _ _ Hn) by done. cbn beta iota zeta.
  rewrite (hdb_put_at _ _ _ _ Hn), entry_put_after_get, <- (hdb_named_here _ _ _ _ Hn) by done.
  by destruct (qb_to_cs_error send_res =? CS_OK).
Qed.
End LiveHandle.

Section RefusedHandle.
Context (w : pload_world) (h : Z).
Hypothesis Hbad : hdb_handle_get (db w) h = (- EBADF, None, db w).

Lemma pload_finalize_refused : pload_finalize h w = Some (CS_ERR_BAD_HANDLE, w).
Proof. unfold pload_finalize. rewrite Hbad. simpl. by rewrite with_db_same. Qed.

Lemma pload_fd_get_refused : pload_fd_get h w = Some (CS_ERR_BAD_HANDLE, None, w).
Proof. unfold pload_fd_get. rewrite Hbad. simpl. by rewrite with_db_same. Qed.

Lemma pload_start_refused code msg_count_ msg_size_ send_res res_error :
  pload_start h code msg_count_ msg_size_ send_res res_error w = Some (CS_ERR_BAD_HANDLE, w).
Proof. unfold pload_start. rewrite Hbad. simpl. by rewrite with_db_same. Qed.
End RefusedHandle.

(** ** [pload_initialize] on every path *)

Lemma conn_of_empty : conn_of hdb_entry_empty = None.
Proof. reflexivity. Qed.

(** The slot the create loop picks is empty; growing the array adds
    nothing the invariant sees. *)
Lemma hdb_free_slot_spec d i d1 :
  Forall entry_ok d -> hdb_free_slot d = (i, d1) ->
  d1 !! i = Some hdb_entry_empty /\ Forall entry_ok d1 /\ omap conn_of d1 = omap conn_of d /\
  (length d1 <= length d + 1)%nat.
Proof.
  intros Hok. unfold hdb_free_slot.
  destruct (list_find _ d) as [[j e] |] eqn:E; intros [= <- <-].
  - apply list_find_Some in E as (Hl & Hs & _).
    pose proof (Forall_lookup_1 _ _ _ _ Hok Hl) as [-> | (chk & cn & _ & ->)]; [| done].
    split_and!; [done | done | done | lia].
  - split_and!.
    + by rewrite lookup_app_r, Nat.sub_diag by lia.
    + apply Forall_app. split; [done | constructor; [by left | constructor]].
    + rewrite omap_app. apply app_nil_r.
    + rewrite length_app. simpl. lia.
Qed.

Section Initialize.
Context (w : pload_world) (env : init_env) (i : nat) (db1 : list qb_hdb_handle).
Hypothesis Hinv : pload_inv w.
Hypothesis Hslot : hdb_free_slot (db w) = (i, db1).
Hypothesis Hchk : 0 <= ie_check env < 2 ^ 31.
Hypothesis Hlen : Z.of_nat (length (db w)) + 1 < 2 ^ 32.

Lemma init_slot : db1 !! i = Some hdb_entry_empty /\ Forall entry_ok db1 /\
  omap conn_of db1 = omap conn_of (db w) /\ (length db1 <= length (db w) + 1)%nat.
Proof. apply hdb_free_slot_spec; [apply Hinv | exact Hslot]. Qed.

Lemma init_named :
  hdb_entry (<[i := created_entry (ie_check env)]> db1) (handle_of (ie_check env) i) =
    Some (i, created_entry (ie_check env)).
Proof.
  destruct init_slot as (Hl & _ & _ & Hle). pose proof (lookup_lt_Some _ _ _ Hl).
  apply hdb_entry_handle_of; [apply list_lookup_insert_eq | | |]; [lia | done | lia | done].
Qed.

Lemma pload_initialize_no_memory :
  ie_alloc_ok env = false -> pload_initialize env w = (CS_ERR_NO_MEMORY, None, with_db db1 w).
Proof. intros Ha. unfold pload_initialize, hdb_handle_create. by rewrite Hslot, Ha. Qed.

Lemma pload_initialize_connected cn :
  ie_alloc_ok env = true -> ie_connect env = Some cn ->
  pload_initialize env w =
    (CS_OK, Some (handle_of (ie_check env) i),
     {| db := <[i := active_entry (ie_check env) cn]> db1; open_conns := cn :: open_conns w;
        sent := sent w |}).
Proof.
  intros Ha Hc. unfold pload_initialize, hdb_handle_create. rewrite Hslot, Ha. cbn beta iota zeta.
  pose proof init_named as Hn. rewrite (hdb_get_named _ _ _ _ Hn) by done. cbn beta iota zeta.
  rewrite (hdb_write_at _ _ _ _ Hn), Hc by done. simpl.
  rewrite (hdb_put_at _ _ _ _ Hn) by done. by rewrite list_insert_insert_eq.
Qed.

Lemma pload_initialize_connect_failed :
  ie_alloc_ok env = true -> ie_connect env = None ->
  pload_initialize env w =
    (qb_to_cs_error (- ie_errno env), Some (handle_of (ie_check env) i), with_db db1 w).
Proof.
  intros Ha Hc. destruct init_slot as (Hl & _).
  unfold pload_initialize, hdb_handle_create. rewrite Hslot, Ha. cbn beta iota zeta.
  pose proof init_named as Hn. rewrite (hdb_get_named _ _ _ _ Hn) by done. cbn beta iota zeta.
  rewrite (hdb_write_at _ _ _ _ Hn), Hc by done. simpl.
  rewrite (hdb_put_at _ _ _ _ Hn) by done. simpl.
  rewrite (hdb_destroy_at _ _ _ _ Hn) by done. simpl.
  by rewrite list_insert_insert_eq, list_insert_id.
Qed.
End Initialize.

(** ** The invariant is preserved *)

Lemma filter_ne_notin (cn : nat) (l : list nat) : cn ∉ l -> filter (fun x => x <> cn) l = l.
Proof.
  induction l as [| x l IH]; [done |]. intros [Hx Hl]%not_elem_of_cons.
  rewrite filter_cons_True by done. by rewrite IH.
Qed.

Lemma entry_ok_active chk cn : 0 <= chk < 2 ^ 31 -> entry_ok (active_entry chk cn).
Proof. intros Hc. right. eauto. Qed.

Lemma entry_ok_empty : entry_ok hdb_entry_empty.
Proof. by left. Qed.

(** A call that only replaces the database by [d1] keeps the invariant
    when [d1] holds well-formed entries owning the same connections. *)
Lemma pload_inv_with_db w d1 :
  pload_inv w -> Forall entry_ok d1 -> Z.of_nat (length d1) < 2 ^ 32 ->
  omap conn_of d1 = omap conn_of (db w) -> pload_inv (with_db d1 w).
Proof. intros (_ & _ & Hnd & Hp) Hok Hl Ho. split_and!; simpl; [done | done | done | by rewrite Ho]. Qed.

Lemma pload_initialize_inv env w r oh w' :
  pload_inv w -> 0 <= ie_check env < 2 ^ 31 -> Z.of_nat (length (db w)) + 1 < 2 ^ 32 ->
  (forall cn, ie_connect env = Some cn -> cn ∉ open_conns w) ->
  pload_initialize env w = (r, oh, w') -> pload_inv w'.
Proof.
  intros Hinv Hchk Hlen Hfresh. destruct (hdb_free_slot (db w)) as [i db1] eqn:Hslot.
  destruct (init_slot w i db1 Hinv Hslot) as (Hl & Hok & Ho & Hle).
  assert (Hlen1 : Z.of_nat (length db1) < 2 ^ 32) by lia.
  destruct (ie_alloc_ok env) eqn:Ha;
    [destruct (ie_connect env) as [cn |] eqn:Hc |].
  - rewrite (pload_initialize_connected w env i db1 Hinv Hslot Hchk Hlen cn Ha Hc).
    intros [= <- <- <-]. destruct Hinv as (_ & _ & Hnd & Hp).
    pose proof (omap_insert_perm conn_of db1 i (active_entry (ie_check env) cn) _ Hl) as Hperm.
    simpl in Hperm. rewrite app_nil_r in Hperm.
    split_and!; simpl.
    + apply Forall_insert; [done | by apply entry_ok_active].
    + by rewrite length_insert.
    + constructor; [by apply Hfresh | done].
    + rewrite Hperm, Ho, <- Hp. apply Permutation_cons_append.
  - rewrite (pload_initialize_connect_failed w env i db1 Hinv Hslot Hchk Hlen Ha Hc).
    intros [= <- <- <-]. by apply pload_inv_with_db.
  - rewrite (pload_initialize_no_memory w env i db1 Hslot Ha).
    intros [= <- <- <-]. by apply pload_inv_with_db.
Qed.

Lemma pload_finalize_inv h w r w' :
  pload_inv w -> pload_finalize h w = Some (r, w') -> pload_inv w'.
Proof.
  intros Hinv. destruct (hdb_get_cases w h Hinv) as [(i & chk & cn & Hn) | Hbad].
  - rewrite (pload_finalize_active w h i chk cn Hn). intros [= <- <-].
    pose proof (hdb_named_lookup _ _ _ _ Hn) as Hl.
    destruct Hinv as (Hok & Hlen & Hnd & Hp).
    pose proof (omap_insert_perm conn_of (db w) i hdb_entry_empty _ Hl) as Hperm.
    simpl in Hperm. rewrite app_nil_r, <- Hp in Hperm.
    assert (Hnd' : NoDup (omap conn_of (<[i := hdb_entry_empty]> (db w)) ++ [cn]))
      by (by rewrite Hperm).
    apply list.NoDup_app in Hnd' as (Hnd' & Hnot & _).
    assert (Hcn : cn ∉ omap conn_of (<[i := hdb_entry_empty]> (db w)))
      by (intros Hin; apply (Hnot cn Hin); left).
    split_and!; simpl.
    + apply Forall_insert; [done | apply entry_ok_empty].
    + by rewrite length_insert.
    + by apply list.NoDup_filter.
    + rewrite <- Hperm, list.filter_app, filter_ne_notin by done. simpl.
      rewrite filter_cons_False by (intros []; reflexivity). by rewrite app_nil_r.
  - rewrite (pload_finalize_refused w h Hbad). by intros [= _ <-].
Qed.

Lemma pload_fd_get_inv h w r fd w' :
  pload_inv w -> pload_fd_get h w = Some (r, fd, w') -> pload_inv w'.
Proof.
  intros Hinv. destruct (hdb_get_cases w h Hinv) as [(i & chk & cn & Hn) | Hbad].
  - rewrite (pload_fd_get_active w h i chk cn Hn). by intros [= _ _ <-].
  - rewrite (pload_fd_get_refused w h Hbad). by intros [= _ _ <-].
Qed.

Lemma pload_start_inv h code n sz sres rerr w r w' :
  pload_inv w -> pload_start h code n sz sres rerr w = Some (r, w') -> pload_inv w'.
Proof.
  intros Hinv. destruct (hdb_get_cases w h Hinv) as [(i & chk & cn & Hn) | Hbad].
  - rewrite (pload_start_active w h i chk cn Hn). intros [= _ <-]. apply Hinv.
  - rewrite (pload_start_refused w h Hbad). by intros [= _ <-].
Qed.

(** ** Runs of the library *)

Lemma pload_step_inv w w' : pload_inv w -> pload_step w w' -> pload_inv w'.
Proof.
  intros Hinv Hs. destruct Hs.
  - eapply pload_initialize_inv; eauto.
  - eapply pload_finalize_inv; eauto.
  - eapply pload_fd_get_inv; eauto.
  - eapply pload_start_inv; eauto.
Qed.

Lemma pload_init_inv : pload_inv pload_world_init.
Proof. split_and!; simpl; [constructor | lia | constructor | done]. Qed.

(** Under the invariant no call dereferences a [NULL] instance. *)
Lemma pload_calls_defined w h :
  pload_inv w ->
  is_Some (pload_finalize h w) /\ is_Some (pload_fd_get h w) /\
  forall code n sz sres rerr, is_Some (pload_start h code n sz sres rerr w).
Proof.
  intros Hinv. destruct (hdb_get_cases w h Hinv) as [(i & chk & cn & Hn) | Hbad].
  - rewrite (pload_finalize_active w h i chk cn Hn), (pload_fd_get_active w h i chk cn Hn).
    split_and!; [done | done |]. intros. by rewrite (pload_start_active w h i chk cn Hn).
  - rewrite (pload_finalize_refused w h Hbad), (pload_fd_get_refused w h Hbad).
    split_and!; [done | done |]. intros. by rewrite (pload_start_refused w h Hbad).
Qed.

(** A handle whose slot is empty is refused. *)
Lemma hdb_get_empty_slot d h (i : nat) :
  d !! i = Some hdb_entry_empty -> Z.of_nat i = handle_index h ->
  hdb_handle_get d h = (- EBADF, None, d).
Proof.
  intros Hl Hi. unfold hdb_handle_get.
  destruct (hdb_entry d h) as [[j e] |] eqn:E; [| done].
  apply hdb_entry_Some in E as (Hj & Hji & _).
  assert (j = i) as -> by lia. rewrite Hl in Hj. injection Hj as <-.
  by rewrite decide_False.
Qed.

(** ** Theorems *)

(** C38. The handle invariant holds in every reachable state of the
    library: after any sequence of [pload_initialize], [pload_finalize],
    [pload_fd_get] and [pload_start] calls, with any handles and any
    answers of the environment.  Every entry is empty or active with
    exactly one reference and a clear [finalize] flag; the open
    connections are exactly those the active entries own, each owned by
    one entry, so no path (the three [goto]s of [pload_initialize]
    included) leaks a connection, an entry or a reference.  And no call
    dereferences a [NULL] instance.  In particular the [finalize] flag is
    never found set, so the branch of [pload_finalize] that tests it is
    unreachable without a concurrent caller. *)
Theorem pload_reachable_inv w :
  star pload_step pload_world_init w ->
  pload_inv w /\
  forall h, is_Some (pload_finalize h w) /\ is_Some (pload_fd_get h w) /\
            forall code n sz sres rerr, is_Some (pload_start h code n sz sres rerr w).
Proof.
  intros Hrun.
  assert (Hinv : pload_inv w)
    by (eapply star_invariant; [exact pload_step_inv | exact Hrun | exact pload_init_inv]).
  split; [done |]. intros h. by apply pload_calls_defined.
Qed.

(** C39. The handle lifecycle.  A handle [pload_initialize] returned is
    finalized once with [PLOAD_OK], which closes its connection and gives
    back the open connections as they were before the handle was made.
    Finalizing the same handle again is refused with
    [CS_ERR_BAD_HANDLE] and changes nothing: its slot is empty, so
    [hdb_handle_get] fails before the instance is read. *)
Theorem pload_finalize_twice w env cn h w1 :
  pload_inv w -> 0 <= ie_check env < 2 ^ 31 -> Z.of_nat (length (db w)) + 1 < 2 ^ 32 ->
  ie_alloc_ok env = true -> ie_connect env = Some cn -> cn ∉ open_conns w ->
  pload_initialize env w = (CS_OK, Some h, w1) ->
  exists w2, pload_finalize h w1 = Some (PLOAD_OK, w2) /\ open_conns w2 = open_conns w /\
             pload_finalize h w2 = Some (CS_ERR_BAD_HANDLE, w2).
Proof.
  intros Hinv Hchk Hlen Ha Hc Hfresh.
  destruct (hdb_free_slot (db w)) as [i db1] eqn:Hslot.
  destruct (init_slot w i db1 Hinv Hslot) as (Hl & _ & _ & Hle).
  pose proof (lookup_lt_Some _ _ _ Hl) as Hi.
  rewrite (pload_initialize_connected w env i db1 Hinv Hslot Hchk Hlen cn Ha Hc).
  intros [= <- <-].
  assert (Hn : hdb_entry (<[i := active_entry (ie_check env) cn]> db1) (handle_of (ie_check env) i) =
               Some (i, active_entry (ie_check env) cn))
    by (apply hdb_entry_handle_of; [apply list_lookup_insert_eq | | |]; [lia | done | lia | done]).
  eexists.
  rewrite (pload_finalize_active {| db := <[i := active_entry (ie_check env) cn]> db1;
                                    open_conns := cn :: open_conns w; sent := sent w |}
             _ i (ie_check env) cn Hn).
  split_and!; [reflexivity | |].
  - simpl. rewrite filter_cons_False by (intros []; reflexivity). by apply filter_ne_notin.
  - apply pload_finalize_refused. simpl.
    apply (hdb_get_empty_slot _ _ i); [by rewrite list_insert_insert_eq, list_lookup_insert_eq by lia |].
    destruct (handle_of_fields (ie_check env) i) as [-> _]; lia.
Qed.

(** ** Instances *)

(** The client initializes, starts a load of 100 messages of 1000 bytes
    (the daemon answers [CS_OK]), and asks for its descriptor. *)
Lemma pload_run_started : star pload_step pload_world_init world_started.
Proof.
  eapply star_step.
  { eapply (step_initialize env_ok); [simpl; lia | simpl; lia | |].
    - intros cn [= <-]. apply not_elem_of_nil.
    - vm_compute. reflexivity. }
  eapply star_step.
  { eapply (step_start handle_ok 1 100 1000 64 CS_OK). vm_compute. reflexivity. }
  eapply star_step.
  { eapply (step_fd_get handle_ok). vm_compute. reflexivity. }
  apply star_refl.
Qed.

Lemma pload_reachable_inv_witness :
  pload_inv world_started /\ is_Some (pload_finalize handle_ok world_started).
Proof.
  destruct (pload_reachable_inv world_started pload_run_started) as [Hinv Hdef].
  split; [exact Hinv | apply (Hdef handle_ok)].
Defined.

Lemma pload_finalize_twice_witness :
  exists w2, pload_finalize handle_ok {| db := [active_entry 7 3]; open_conns := [3%nat]; sent := [] |} =
               Some (PLOAD_OK, w2) /\ open_conns w2 = [] /\
             pload_finalize handle_ok w2 = Some (CS_ERR_BAD_HANDLE, w2).
Proof.
  apply (pload_finalize_twice pload_world_init env_ok 3%nat handle_ok).
  - exact pload_init_inv.
  - simpl. lia.
  - simpl. lia.
  - reflexivity.
  - reflexivity.
  - apply not_elem_of_nil.
  - vm_compute. reflexivity.
Defined.
