(* ===== verification/TotemStats.v ===== *)
(** * The totem statistics objects ([corosync_totem_stats_init] and
      [corosync_totem_stats_updater], main.c)

    At start-up [corosync_totem_stats_init] creates the objects
    [runtime.totem.pg], [.mrp], [.srp] and [.srp.members] in the object
    database, with one typed key per counter of totem's statistics
    structures, and arms a 1500 ms timer.  Each expiry of that timer runs
    [corosync_totem_stats_updater]: it copies totem's counters into the
    keys, sets [firewall_enabled_or_nic_failure], averages the round trip,
    hold time and backlog of the recent tokens, calls
    [cs_ipcs_stats_update] (Server.v) and re-arms the timer.

    - Totem's structures ([totempg_stats_t], [totemsrp_stats_t], the token
      ring [token[TOTEM_TOKEN_STATS_MAX]]) are outside src/ and modelled
      from their declarations; the [uint64_t] counters of
      [totemsrp_stats_t] are a function from field name to value, since the
      code copies each one to the key of the same name.
    - The objects live in a part of the object database of their own
      ([totem_objdb]), next to the connection objects of Server.v.  Object
      handles are allocated from a counter.
    - The token loop ([while (1)] of lines 643-662) is [token_loop], with
      fuel.  The fuel it is given is the ring size, and the theorems show
      that it is enough whenever [earliest_token] indexes the ring, and
      that no fuel is enough otherwise.

    - [token_fold] is the reference walk of the ring: [n] tokens from
      [latest_token] back.  It maps to no code; the termination theorem
      says the updater's result is the one its sums give.

    Theorems: the loop visits the [(latest - earliest - 1) mod 100] most
    recent tokens, newest first, and stops, and the updater writes the
    counters and the averages [token_fold] gives for them; with an [earliest_token]
    outside the ring it never stops; every key the updater writes was
    created by the initialisation. *)

From Stdlib Require Import ZArith Lia Ascii String.
From stdpp Require Import base list gmap fin_maps numbers strings.
From S2P Require Import Prelude CoroDefs Server.

Open Scope Z_scope.

(** ** Totem's statistics structures (totemstats.h) *)

Definition TOTEM_TOKEN_STATS_MAX : Z := 100.
Definition MAX_NO_CONT_GATHER : Z := 3.

(** [totemsrp_token_stats_t]: receive and send times, and the backlog. *)
Record totemsrp_token_stats := { tk_rx : Z; tk_tx : Z; tk_backlog_calc : Z }.

Record totemsrp_stats := {
  srp_handle : Z;
  srp_counter : string -> Z;
  continuous_gather : Z;
  earliest_token : Z;
  latest_token : Z;
  token : list totemsrp_token_stats
}.

Record totempg_stats := {
  pg_handle : Z;
  mrp_handle : Z;
  msg_reserved : Z;
  msg_queue_avail : Z;
  srp : totemsrp_stats
}.

(** The [uint64_t] counters the updater copies, in the order of lines
    560-629. *)
Definition srp_counter_keys : list string :=
  ["orf_token_tx"; "orf_token_rx"; "memb_merge_detect_tx"; "memb_merge_detect_rx";
   "memb_join_tx"; "memb_join_rx"; "mcast_tx"; "mcast_retx"; "mcast_rx";
   "memb_commit_token_tx"; "memb_commit_token_rx"; "token_hold_cancel_tx";
   "token_hold_cancel_rx"; "operational_entered"; "operational_token_lost";
   "gather_entered"; "gather_token_lost"; "commit_entered"; "commit_token_lost";
   "recovery_entered"; "recovery_token_lost"; "consensus_timeouts"; "rx_msg_dropped"].

(** ** The object database part *)

Record totem_objdb := { tobjs : gmap Z stats_object; tnext : Z }.

(** [object_create]: a new object with no keys, at the next handle. *)
Definition object_create (name : string) (db : totem_objdb) : Z * totem_objdb :=
  (tnext db, {| tobjs := <[tnext db := {| obj_name := list_ascii_of_string name; obj_keys := [] |}]> (tobjs db);
                tnext := tnext db + 1 |}).

(** [object_key_create_typed]: a key appended to an existing object. *)
Definition object_key_create_typed (h : Z) (name : string) (v : Z) (ty : objdb_value_type)
    (db : totem_objdb) : totem_objdb :=
  match tobjs db !! h with
  | Some o => {| tobjs := <[h := {| obj_name := obj_name o;
                                    obj_keys := obj_keys o ++ [{| key_name := name; key_type := ty;
                                                                  key_value := v |}] |}]> (tobjs db);
                 tnext := tnext db |}
  | None => db
  end.

Definition with_tobjs (objs : gmap Z stats_object) (db : totem_objdb) : totem_objdb :=
  {| tobjs := objs; tnext := tnext db |}.

(** The timer the two functions arm: 1500 ms, callback the updater. *)
Inductive stats_effect := StatsTimerAdd (ns : Z).

Definition MILLI_2_NANO_SECONDS : Z := 1000000.

(** ** [corosync_totem_stats_updater] *)

(** Lines 554-632: the counters copied to their keys, in the code's order. *)
Definition counter_updates (st : totempg_stats) : list (Z * string * Z) :=
  [(pg_handle st, "msg_reserved", msg_reserved st);
   (pg_handle st, "msg_queue_avail", msg_queue_avail st)] ++
  map (fun k => (srp_handle (srp st), k, srp_counter (srp st) k)) srp_counter_keys ++
  [(srp_handle (srp st), "continuous_gather", continuous_gather (srp st))].

(** Line 634. *)
Definition firewall_enabled_or_nic_failure (st : totempg_stats) : Z :=
  if MAX_NO_CONT_GATHER <? continuous_gather (srp st) then 1 else 0.

Definition replace_all (ups : list (Z * string * Z)) (objs : gmap Z stats_object)
    : gmap Z stats_object :=
  foldl (fun acc u => object_key_replace u.1.1 u.1.2 u.2 acc) objs ups.

(** The sums and the count of the token loop. *)
Record token_acc := {
  total_mtt_rx_token : Z;
  total_token_holdtime : Z;
  total_backlog_calc : Z;
  token_count : Z
}.

Definition token_acc0 : token_acc :=
  {| total_mtt_rx_token := 0; total_token_holdtime := 0; total_backlog_calc := 0; token_count := 0 |}.

(** The ring index before [t] (lines 644-647). *)
Definition ring_prev (t : Z) : Z := if t =? 0 then TOTEM_TOKEN_STATS_MAX - 1 else t - 1.

(** The body of the loop for the token [t] and its predecessor (lines
    650-657).  The differences are [uint64_t]; the sums are [uint32_t]. *)
Definition token_step (tk : list totemsrp_token_stats) (t prev : Z) (acc : token_acc)
    : c_read token_acc :=
  match array_get tk t, array_get tk prev with
  | Loaded a, Loaded b =>
      let d := u64 (tk_rx a - tk_rx b) in
      if negb (tk_tx a =? 0) || (0 <? d) then
        Loaded {| total_mtt_rx_token := u32 (total_mtt_rx_token acc + d);
                  total_token_holdtime := u32 (total_token_holdtime acc + u64 (tk_tx a - tk_rx a));
                  total_backlog_calc := u32 (total_backlog_calc acc + tk_backlog_calc a);
                  token_count := token_count acc + 1 |}
      else Loaded acc
  | _, _ => OutOfBounds
  end.

(** The [while (1)] loop of lines 643-662, from [t] back to
    [earliest].  [Loaded None] is fuel running out. *)
Fixpoint token_loop (fuel : nat) (tk : list totemsrp_token_stats) (earliest t : Z)
    (acc : token_acc) : c_read (option token_acc) :=
  match fuel with
  | O => Loaded None
  | S f =>
      let prev := ring_prev t in
      if prev =? earliest then Loaded (Some acc)
      else match token_step tk t prev acc with
           | OutOfBounds => OutOfBounds
           | Loaded acc' => token_loop f tk earliest prev acc'
           end
  end.

(** Lines 663-676: the three averages, written when a token was counted. *)
Definition average_updates (st : totempg_stats) (acc : token_acc) : list (Z * string * Z) :=
  if token_count acc =? 0 then []
  else [(srp_handle (srp st), "mtt_rx_token", total_mtt_rx_token acc / token_count acc);
        (srp_handle (srp st), "avg_token_workload", total_token_holdtime acc / token_count acc);
        (srp_handle (srp st), "avg_backlog_calc", total_backlog_calc acc / token_count acc)].

(** What a run of the updater ends in: it returns (with the new state and
    the timer it arms), reads outside an array, or never leaves the token
    loop. *)
Inductive updater_outcome :=
| UpdDone (db : totem_objdb) (s : ipc_server) (eff : list stats_effect)
| UpdUndefined
| UpdLoops.

Definition corosync_totem_stats_updater (st : totempg_stats) (conns : list live_conn)
    (db : totem_objdb) (s : ipc_server) : updater_outcome :=
  let objs1 := replace_all (counter_updates st) (tobjs db) in
  let objs2 := object_key_replace (srp_handle (srp st)) "firewall_enabled_or_nic_failure"
                 (firewall_enabled_or_nic_failure st) objs1 in
  match token_loop (Z.to_nat TOTEM_TOKEN_STATS_MAX) (token (srp st)) (earliest_token (srp st))
          (latest_token (srp st)) token_acc0 with
  | OutOfBounds => UpdUndefined
  | Loaded None => UpdLoops
  | Loaded (Some acc) =>
      let objs3 := replace_all (average_updates st acc) objs2 in
      match cs_ipcs_stats_update conns s with
      | OutOfBounds => UpdUndefined
      | Loaded s' => UpdDone (with_tobjs objs3 db) s' [StatsTimerAdd (1500 * MILLI_2_NANO_SECONDS)]
      end
  end.

(** ** [corosync_totem_stats_init] *)

Definition set_handles (pg mrp srp_h : Z) (st : totempg_stats) : totempg_stats :=
  {| pg_handle := pg; mrp_handle := mrp; msg_reserved := msg_reserved st;
     msg_queue_avail := msg_queue_avail st;
     srp := {| srp_handle := srp_h; srp_counter := srp_counter (srp st);
               continuous_gather := continuous_gather (srp st);
               earliest_token := earliest_token (srp st); latest_token := latest_token (srp st);
               token := token (srp st) |} |}.

(** The [srp] keys of lines 726-806, in the code's order, with their
    types and initial values. *)
Definition srp_initial_keys (st : totempg_stats) : list (string * Z * objdb_value_type) :=
  map (fun k => (k, srp_counter (srp st) k, OBJDB_VALUETYPE_UINT64))
      (take 22 srp_counter_keys) ++
  [("mtt_rx_token", 0, OBJDB_VALUETYPE_UINT32); ("avg_token_workload", 0, OBJDB_VALUETYPE_UINT32);
   ("avg_backlog_calc", 0, OBJDB_VALUETYPE_UINT32); ("rx_msg_dropped", 0, OBJDB_VALUETYPE_UINT64);
   ("continuous_gather", 0, OBJDB_VALUETYPE_UINT32);
   ("firewall_enabled_or_nic_failure", 0, OBJDB_VALUETYPE_UINT32)].

Definition create_keys (h : Z) (ks : list (string * Z * objdb_value_type)) (db : totem_objdb)
    : totem_objdb :=
  foldl (fun acc k => object_key_create_typed h k.1.1 k.1.2 k.2 acc) db ks.

(** [corosync_totem_stats_init]: [runtime] is what [object_find_next]
    found for ["runtime"].  It returns totem's statistics with the object
    handles the code stores in them, the database, the handle of the
    ["members"] object, and the timer. *)
Definition corosync_totem_stats_init (runtime : option Z) (st : totempg_stats) (db : totem_objdb)
    : totempg_stats * totem_objdb * option Z * list stats_effect :=
  let timer := [StatsTimerAdd (1500 * MILLI_2_NANO_SECONDS)] in
  match runtime with
  | None => (st, db, None, timer)
  | Some _ =>
      let '(_, db1) := object_create "totem" db in
      let '(pg, db2) := object_create "pg" db1 in
      let '(mrp, db3) := object_create "mrp" db2 in
      let '(srp_h, db4) := object_create "srp" db3 in
      let st1 := set_handles pg mrp srp_h st in
      let db5 := object_key_create_typed pg "msg_reserved" (msg_reserved st) OBJDB_VALUETYPE_UINT32 db4 in
      let db6 := object_key_create_typed pg "msg_queue_avail" (msg_queue_avail st)
                   OBJDB_VALUETYPE_UINT32 db5 in
      let '(memb, db7) := object_create "members" db6 in
      (st1, create_keys srp_h (srp_initial_keys st) db7, Some memb, timer)
  end.

(** Every key write of one run of the updater whose loop ended with [acc],
    in the code's order. *)
Definition updater_writes (st : totempg_stats) (acc : token_acc) : list (Z * string * Z) :=
  counter_updates st ++
  [(srp_handle (srp st), "firewall_enabled_or_nic_failure", firewall_enabled_or_nic_failure st)] ++
  average_updates st acc.

(** The tokens the loop adds up, from [t] back, [n] of them: a bounded
    walk of the ring. *)
Fixpoint token_fold (tk : list totemsrp_token_stats) (t : Z) (n : nat) (acc : token_acc)
    : c_read token_acc :=
  match n with
  | O => Loaded acc
  | S n' =>
      match token_step tk t (ring_prev t) acc with
      | OutOfBounds => OutOfBounds
      | Loaded a => token_fold tk (ring_prev t) n' a
      end
  end.

(** ** Concrete inputs *)

(** A ring of 100 tokens, each received 1000 ticks after the one before
    and held for 300. *)
Definition demo_tokens : list totemsrp_token_stats :=
  map (fun i => let z := Z.of_nat i in
                {| tk_rx := 1000 * z; tk_tx := 1000 * z + 300; tk_backlog_calc := z mod 4 |})
      (seq 0 100).

Definition demo_stats (earliest latest : Z) : totempg_stats :=
  {| pg_handle := 1; mrp_handle := 2; msg_reserved := 0; msg_queue_avail := 0;
     srp := {| srp_handle := 3; srp_counter := fun _ => 0; continuous_gather := 0;
               earliest_token := earliest; latest_token := latest; token := demo_tokens |} |}.

Definition demo_db : totem_objdb := {| tobjs := ∅; tnext := 0 |}.

Definition srv_boot_updated : ipc_server :=
  match cs_ipcs_stats_update [] srv_boot with Loaded s => s | OutOfBounds => srv_boot end.

Definition mk_key (k : string * Z * objdb_value_type) : objdb_key :=
  {| key_name := k.1.1; key_type := k.2; key_value := k.1.2 |}.

(** The keys the updater writes into ["srp"]. *)
Definition srp_written_names : list string :=
  srp_counter_keys ++ ["continuous_gather"; "firewall_enabled_or_nic_failure";
                       "mtt_rx_token"; "avg_token_workload"; "avg_backlog_calc"].

Definition demo_init := corosync_totem_stats_init (Some 0) (demo_stats 2 7) demo_db.

Ltac in_list := solve [simpl; repeat (first [left; reflexivity | right])].

(** ** The token loop *)

Lemma ring_prev_mod t : 0 <= t < TOTEM_TOKEN_STATS_MAX -> ring_prev t = (t - 1) mod TOTEM_TOKEN_STATS_MAX.
Proof.
  unfold ring_prev, TOTEM_TOKEN_STATS_MAX. intros Ht.
  destruct (Z.eqb_spec t 0) as [-> | Hne]; [reflexivity |].
  rewrite Z.mod_small; lia.
Qed.

Lemma ring_prev_range t : 0 <= t < TOTEM_TOKEN_STATS_MAX -> 0 <= ring_prev t < TOTEM_TOKEN_STATS_MAX.
Proof. intros Ht. rewrite ring_prev_mod by done. apply Z.mod_pos_bound. reflexivity. Qed.

Section TokenRing.
Context (tk : list totemsrp_token_stats).
Hypothesis Hlen : length tk = Z.to_nat TOTEM_TOKEN_STATS_MAX.

Lemma token_read t : 0 <= t < TOTEM_TOKEN_STATS_MAX -> exists a, array_get tk t = Loaded a.
Proof.
  intros Ht. destruct (tk !! Z.to_nat t) as [a |] eqn:E.
  - exists a. apply array_get_Loaded. split; [lia | done].
  - apply lookup_ge_None_1 in E. unfold TOTEM_TOKEN_STATS_MAX in *. lia.
Qed.

Lemma token_step_defined t acc :
  0 <= t < TOTEM_TOKEN_STATS_MAX -> exists a, token_step tk t (ring_prev t) acc = Loaded a.
Proof.
  intros Ht. destruct (token_read t Ht) as [x Ex].
  destruct (token_read (ring_prev t) (ring_prev_range t Ht)) as [y Ey].
  unfold token_step. rewrite Ex, Ey. destruct (_ || _); eauto.
Qed.

(** From [t], the loop makes [(t - earliest - 1) mod 100] steps and stops,
    given one more unit of fuel than that. *)
Lemma token_loop_after e (k : nat) : forall t fuel acc,
  0 <= e < TOTEM_TOKEN_STATS_MAX -> 0 <= t < TOTEM_TOKEN_STATS_MAX ->
  Z.to_nat ((t - e - 1) mod TOTEM_TOKEN_STATS_MAX) = k -> (k < fuel)%nat ->
  exists a, token_fold tk t k acc = Loaded a /\ token_loop fuel tk e t acc = Loaded (Some a).
Proof.
  induction k as [| k IH]; intros t [| f] acc He Ht Hk Hf; try lia; simpl;
    pose proof (Z.mod_pos_bound (t - e - 1) TOTEM_TOKEN_STATS_MAX ltac:(reflexivity)) as Hm.
  - assert (ring_prev t = e) as ->.
    { rewrite ring_prev_mod by done. unfold TOTEM_TOKEN_STATS_MAX in *.
      assert ((t - e - 1) mod 100 = 0) as H0 by lia. Z.div_mod_to_equations. lia. }
    rewrite Z.eqb_refl. eauto.
  - pose proof (ring_prev_range t Ht) as Hp.
    assert (ring_prev t <> e) as Hne.
    { rewrite ring_prev_mod by done. unfold TOTEM_TOKEN_STATS_MAX in *. intros Heq.
      assert ((t - e - 1) mod 100 = 0); [| lia]. Z.div_mod_to_equations. lia. }
    rewrite (proj2 (Z.eqb_neq _ _) Hne).
    destruct (token_step_defined t acc Ht) as [a1 E1]. rewrite E1.
    apply IH; [done | done | | lia].
    rewrite ring_prev_mod by done. unfold TOTEM_TOKEN_STATS_MAX in *.
    assert (Z.of_nat (S k) = (t - e - 1) mod 100) as Hk' by lia. Z.div_mod_to_equations. lia.
Qed.

(** With an [earliest_token] outside the ring the loop never meets it. *)
Lemma token_loop_diverges e : forall fuel t acc,
  ~ (0 <= e < TOTEM_TOKEN_STATS_MAX) -> 0 <= t < TOTEM_TOKEN_STATS_MAX ->
  token_loop fuel tk e t acc = Loaded None.
Proof.
  induction fuel as [| f IH]; intros t acc He Ht; simpl; [done |].
  pose proof (ring_prev_range t Ht) as Hp.
  rewrite (proj2 (Z.eqb_neq (ring_prev t) e)) by lia.
  destruct (token_step_defined t acc Ht) as [a1 E1]. rewrite E1. by apply IH.
Qed.
End TokenRing.

(** ** Theorems *)

(** C14. Termination and result of [corosync_totem_stats_updater].  Its
    [while (1)] loop walks totem's token ring back from [latest_token] and
    stops when the token before the current one is [earliest_token].  When
    both indexes lie in the ring, the loop stops within the 100 iterations
    the model allows it, and the updater returns, arming its next 1500 ms
    timer, with the object database written by exactly [updater_writes]:
    the counters, the firewall flag and the averages of the
    [(latest - earliest - 1) mod 100] newest tokens ([token_fold], the
    bounded walk of the ring from [latest_token]).  When [earliest_token]
    lies outside the ring, the loop never stops, whatever the fuel. *)
Theorem stats_updater_terminates st conns db s s' :
  length (token (srp st)) = Z.to_nat TOTEM_TOKEN_STATS_MAX ->
  0 <= latest_token (srp st) < TOTEM_TOKEN_STATS_MAX ->
  cs_ipcs_stats_update conns s = Loaded s' ->
  (0 <= earliest_token (srp st) < TOTEM_TOKEN_STATS_MAX ->
   exists acc,
     token_fold (token (srp st)) (latest_token (srp st))
       (Z.to_nat ((latest_token (srp st) - earliest_token (srp st) - 1) mod TOTEM_TOKEN_STATS_MAX))
       token_acc0 = Loaded acc /\
     corosync_totem_stats_updater st conns db s =
       UpdDone (with_tobjs (replace_all (updater_writes st acc) (tobjs db)) db) s'
         [StatsTimerAdd (1500 * MILLI_2_NANO_SECONDS)]) /\
  (~ (0 <= earliest_token (srp st) < TOTEM_TOKEN_STATS_MAX) ->
   forall fuel acc, token_loop fuel (token (srp st)) (earliest_token (srp st)) (latest_token (srp st)) acc = Loaded None /\
   corosync_totem_stats_updater st conns db s = UpdLoops).
Proof.
  intros Hlen Hl Hs. split.
  - intros He.
    destruct (token_loop_after (token (srp st)) Hlen (earliest_token (srp st)) _ (latest_token (srp st))
                (Z.to_nat TOTEM_TOKEN_STATS_MAX) token_acc0 He Hl eq_refl) as (acc & Hf & Hloop).
    { pose proof (Z.mod_pos_bound (latest_token (srp st) - earliest_token (srp st) - 1)
                    TOTEM_TOKEN_STATS_MAX ltac:(reflexivity)). lia. }
    exists acc. split; [exact Hf |].
    unfold corosync_totem_stats_updater. rewrite Hloop, Hs.
    unfold updater_writes, replace_all. rewrite (foldl_app _ (counter_updates st)), (foldl_app _ [_]).
    cbn [foldl fst snd]. reflexivity.
  - intros He fuel acc. split; [by apply token_loop_diverges |].
    unfold corosync_totem_stats_updater. by rewrite token_loop_diverges.
Qed.

Lemma stats_updater_terminates_witness :
  (exists acc, token_fold demo_tokens 7 4 token_acc0 = Loaded acc /\
     corosync_totem_stats_updater (demo_stats 2 7) [] demo_db srv_boot =
       UpdDone (with_tobjs (replace_all (updater_writes (demo_stats 2 7) acc) (tobjs demo_db)) demo_db)
         srv_boot_updated [StatsTimerAdd (1500 * MILLI_2_NANO_SECONDS)]) /\
  corosync_totem_stats_updater (demo_stats 100 7) [] demo_db srv_boot = UpdLoops.
Proof.
  assert (Hlen : length demo_tokens = Z.to_nat TOTEM_TOKEN_STATS_MAX) by reflexivity.
  assert (Hl : 0 <= 7 < TOTEM_TOKEN_STATS_MAX) by (unfold TOTEM_TOKEN_STATS_MAX; lia).
  assert (Hs : cs_ipcs_stats_update [] srv_boot = Loaded srv_boot_updated) by (vm_compute; reflexivity).
  split.
  - apply (proj1 (stats_updater_terminates (demo_stats 2 7) [] demo_db srv_boot srv_boot_updated Hlen Hl Hs)).
    cbn. unfold TOTEM_TOKEN_STATS_MAX. lia.
  - apply (proj2 (stats_updater_terminates (demo_stats 100 7) [] demo_db srv_boot srv_boot_updated Hlen Hl Hs)
             ltac:(cbn; unfold TOTEM_TOKEN_STATS_MAX; lia) 1%nat token_acc0).
Defined.

(** ** The keys of the two functions *)

Lemma create_keys_at h ks : forall db o,
  tobjs db !! h = Some o ->
  tobjs (create_keys h ks db) !! h = Some {| obj_name := obj_name o; obj_keys := obj_keys o ++ map mk_key ks |} /\
  forall h', h' <> h -> tobjs (create_keys h ks db) !! h' = tobjs db !! h'.
Proof.
  induction ks as [| k ks IH]; intros db o Ho; simpl.
  - rewrite app_nil_r. by destruct o.
  - unfold create_keys in *. simpl.
    assert (Hk : tobjs (object_key_create_typed h k.1.1 k.1.2 k.2 db) !! h =
                 Some {| obj_name := obj_name o; obj_keys := obj_keys o ++ [mk_key k] |})
      by (unfold object_key_create_typed; rewrite Ho; simpl; by rewrite lookup_insert_eq).
    destruct (IH _ _ Hk) as [Hh Hne]. split.
    + rewrite Hh. simpl. by rewrite <- app_assoc.
    + intros h' Hh'. rewrite Hne by done. unfold object_key_create_typed. rewrite Ho. simpl.
      by rewrite lookup_insert_ne by congruence.
Qed.

(** ** The object database operations *)

Lemma object_create_spec name db h db' :
  object_create name db = (h, db') ->
  h = tnext db /\ tnext db' = tnext db + 1 /\
  forall k, tobjs db' !! k =
    if decide (k = tnext db) then Some {| obj_name := list_ascii_of_string name; obj_keys := [] |}
    else tobjs db !! k.
Proof.
  unfold object_create. intros [= <- <-]. split_and!; [done | done |]. cbn [tobjs].
  intros k. case_decide as Hk.
  - subst. apply lookup_insert_eq.
  - by apply lookup_insert_ne.
Qed.

Lemma object_key_create_typed_ne h name v ty db h' :
  h' <> h -> tobjs (object_key_create_typed h name v ty db) !! h' = tobjs db !! h'.
Proof.
  intros Hne. unfold object_key_create_typed.
  destruct (tobjs db !! h); [| done]. cbn [tobjs]. by apply lookup_insert_ne.
Qed.

Lemma object_key_create_typed_eq h name v ty db o :
  tobjs db !! h = Some o ->
  tobjs (object_key_create_typed h name v ty db) !! h =
    Some {| obj_name := obj_name o; obj_keys := obj_keys o ++ [mk_key (name, v, ty)] |}.
Proof.
  intros Ho. unfold object_key_create_typed. rewrite Ho. cbn [tobjs]. apply lookup_insert_eq.
Qed.

Lemma object_key_create_typed_tnext h name v ty db :
  tnext (object_key_create_typed h name v ty db) = tnext db.
Proof. unfold object_key_create_typed. by destruct (tobjs db !! h). Qed.

(** The two objects the updater writes, as [corosync_totem_stats_init]
    leaves them: ["pg"] at the second new handle, ["srp"] at the fourth. *)
Lemma init_objects r st db st1 db1 m eff :
  corosync_totem_stats_init (Some r) st db = (st1, db1, m, eff) ->
  pg_handle st1 = tnext db + 1 /\ srp_handle (srp st1) = tnext db + 3 /\
  tobjs db1 !! (tnext db + 1) =
    Some {| obj_name := list_ascii_of_string "pg";
            obj_keys := map mk_key [("msg_reserved", msg_reserved st, OBJDB_VALUETYPE_UINT32);
                                    ("msg_queue_avail", msg_queue_avail st, OBJDB_VALUETYPE_UINT32)] |} /\
  tobjs db1 !! (tnext db + 3) =
    Some {| obj_name := list_ascii_of_string "srp"; obj_keys := map mk_key (srp_initial_keys st) |}.
Proof.
  unfold corosync_totem_stats_init.
  destruct (object_create "totem" db) as [h1 db2] eqn:E1.
  apply object_create_spec in E1 as (_ & T2 & L2).
  destruct (object_create "pg" db2) as [pg db3] eqn:E2.
  apply object_create_spec in E2 as (-> & T3 & L3).
  destruct (object_create "mrp" db3) as [mrp db4] eqn:E3.
  apply object_create_spec in E3 as (-> & T4 & L4).
  destruct (object_create "srp" db4) as [srp_h db5] eqn:E4.
  apply object_create_spec in E4 as (-> & T5 & L5).
  set (db6 := object_key_create_typed (tnext db2) "msg_queue_avail" _ _ _).
  destruct (object_create "members" db6) as [memb db7] eqn:E5.
  apply object_create_spec in E5 as (-> & _ & L7).
  lazy beta iota. intros Heq.
  apply pair_eq in Heq as [Heq _]. apply pair_eq in Heq as [Heq _]. apply pair_eq in Heq as [<- <-].
  rewrite T4, T3, T2. replace (tnext db + 1 + 1 + 1) with (tnext db + 3) by lia.
  assert (T6 : tnext db6 = tnext db + 4) by (subst db6; rewrite !object_key_create_typed_tnext; lia).
  assert (Hsrp : tobjs db7 !! (tnext db + 3) =
                 Some {| obj_name := list_ascii_of_string "srp"; obj_keys := [] |}).
  { rewrite L7, decide_False by lia. subst db6.
    rewrite !object_key_create_typed_ne by lia. rewrite L5, decide_True by lia. done. }
  destruct (create_keys_at (tnext db + 3) (srp_initial_keys st) db7 _ Hsrp) as [Hs Hne].
  cbn [pg_handle srp srp_handle set_handles]. split_and!; [lia | lia | |].
  - assert (Hpg : tobjs db5 !! (tnext db + 1) =
                   Some {| obj_name := list_ascii_of_string "pg"; obj_keys := [] |}).
    { rewrite L5, decide_False by lia. rewrite L4, decide_False by lia. by rewrite L3, decide_True by lia. }
    rewrite Hne by lia. rewrite L7, decide_False by lia. subst db6. rewrite T2.
    by rewrite (object_key_create_typed_eq _ _ _ _ _ _ (object_key_create_typed_eq _ _ _ _ _ _ Hpg)).
  - by rewrite Hs.
Qed.

Lemma updater_writes_where st acc h k v :
  In (h, k, v) (updater_writes st acc) ->
  (h = pg_handle st /\ In k ["msg_reserved"; "msg_queue_avail"]) \/
  (h = srp_handle (srp st) /\ In k srp_written_names).
Proof.
  unfold updater_writes, counter_updates, average_updates, srp_written_names.
  rewrite !in_app_iff. intros [[Hin | [Hin | Hin]] | [Hin | Hin]].
  - left. destruct Hin as [[= <- <- _] | [[= <- <- _] | []]]; split; [done | by left | done | by right; left].
  - right. apply in_map_iff in Hin as (k' & [= <- <- _] & Hk). split; [done |]. by left.
  - right. destruct Hin as [[= <- <- _] | []]. split; [done |]. right. by left.
  - right. destruct Hin as [[= <- <- _] | []]. split; [done |]. right. right. by left.
  - right. destruct (token_count acc =? 0); [destruct Hin |].
    split; destruct Hin as [[= <- <- _] | [[= <- <- _] | [[= <- <- _] | []]]];
      try done; right; in_list.
Qed.

Lemma srp_written_created st k :
  In k srp_written_names -> In k (map key_name (map mk_key (srp_initial_keys st))).
Proof.
  intros Hk. change (map key_name (map mk_key (srp_initial_keys st))) with
    (take 22 srp_counter_keys ++ ["mtt_rx_token"; "avg_token_workload"; "avg_backlog_calc";
                                   "rx_msg_dropped"; "continuous_gather"; "firewall_enabled_or_nic_failure"]).
  unfold srp_written_names in Hk. simpl in Hk.
  repeat (destruct Hk as [<- | Hk]; [in_list |]). contradiction.
Qed.

(** C21. The initialisation and the updater agree on the keys.  After
    [corosync_totem_stats_init] found the ["runtime"] object, every key
    write of any later run of [corosync_totem_stats_updater] (the
    counters, the firewall flag and the three averages) goes to an object
    the initialisation created and to a key it created there.  Since
    [object_key_replace] silently ignores a missing key, this is what
    makes every value the updater copies visible in the object database. *)
Theorem init_creates_updated_keys r st db st1 db1 m eff acc :
  corosync_totem_stats_init (Some r) st db = (st1, db1, m, eff) ->
  forall h k v, In (h, k, v) (updater_writes st1 acc) ->
    exists o, tobjs db1 !! h = Some o /\ In k (map key_name (obj_keys o)).
Proof.
  intros Hinit h k v Hin.
  destruct (init_objects r st db st1 db1 m eff Hinit) as (Hpg & Hsh & Opg & Osrp).
  destruct (updater_writes_where st1 acc h k v Hin) as [[-> Hk] | [-> Hk]].
  - rewrite Hpg. eexists. split; [exact Opg |]. simpl. destruct Hk as [<- | [<- | []]]; in_list.
  - rewrite Hsh. eexists. split; [exact Osrp |]. by apply srp_written_created.
Qed.

Lemma init_creates_updated_keys_witness :
  exists o, tobjs demo_init.1.1.2 !! 3 = Some o /\ In "mtt_rx_token" (map key_name (obj_keys o)).
Proof.
  apply (init_creates_updated_keys 0 (demo_stats 2 7) demo_db demo_init.1.1.1 demo_init.1.1.2
           demo_init.1.2 demo_init.2
           {| total_mtt_rx_token := 5; total_token_holdtime := 6; total_backlog_calc := 7; token_count := 1 |}
           eq_refl 3 "mtt_rx_token" 5).
  cbn. in_list.
Defined.
