(* ===== verification/LockFile.v ===== *)
(** * The pid lock file ([corosync_flock], main.c)

    [corosync_flock] opens [corosync.pid], takes a write lock on it with
    [fcntl (F_SETLK)], truncates it, writes the daemon's pid with a
    newline, and sets close-on-exec on the descriptor, which stays open
    (and the lock held) for the life of the process.  Every failure after
    the [open] closes the descriptor ([error_close]); a failure after the
    lock was taken also removes the file ([error_close_unlink]).  An
    interrupted [fcntl] or [write] is retried ([goto retry_fcntl],
    [goto retry_write]).

    - The operating system is the record [os]: the files by path, the open
      descriptors with their offset, lock and close-on-exec flag, [errno],
      and the pid.  What the kernel answers to each call is an input: the
      oracle [kernel] gives the answer to the [n]-th call, [tick] counts
      the calls made.  An answer is success, failure with an errno, or a
      short write of [n] bytes (success for the calls that do not write).
      A successful call leaves [errno] as it was, as C does.
    - The calls run in the state monad [sys] over [os]; [None] is a run
      that did not return.  Both retry loops are [retry_eintr], with fuel:
      the theorems show that fuel beyond the number of interrupted calls
      is enough, and that a kernel that interrupts forever makes the loop
      run forever.
    - The pid line is [snprintf (pid_s, 16, "%u\n", pid)].

    Theorems: the error paths leave no descriptor open and leave a running
    instance's lock file alone; a successful run leaves the lock held on a
    close-on-exec descriptor over a file that holds exactly the pid line;
    the pid line is at most 11 characters and reads back as the pid; a
    short write after an interrupted [fcntl] is written again in full after
    its prefix, and the run still succeeds. *)

From Stdlib Require Import ZArith Lia Ascii String.
From stdpp Require Import base list gmap fin_maps strings pretty numbers.
From S2P Require Import Prelude CoroDefs.

Open Scope Z_scope.

(** ** Exit codes ([enum e_ais_done], exec/util.h) *)

Inductive e_ais_done :=
| AIS_DONE_EXIT | AIS_DONE_UID_DETERMINE | AIS_DONE_GID_DETERMINE | AIS_DONE_MEMPOOL_INIT
| AIS_DONE_FORK | AIS_DONE_LIBAIS_SOCKET | AIS_DONE_LIBAIS_BIND | AIS_DONE_READKEY
| AIS_DONE_MAINCONFIGREAD | AIS_DONE_LOGSETUP | AIS_DONE_AMFCONFIGREAD | AIS_DONE_DYNAMICLOAD
| AIS_DONE_OBJDB | AIS_DONE_INIT_SERVICES | AIS_DONE_OUT_OF_MEMORY | AIS_DONE_FATAL_ERR
| AIS_DONE_DIR_NOT_PRESENT | AIS_DONE_AQUIRE_LOCK | AIS_DONE_ALREADY_RUNNING
| AIS_DONE_STD_TO_NULL_REDIR.

#[export] Instance e_ais_done_eq_dec : EqDecision e_ais_done.
Proof. solve_decision. Defined.

Definition e_ais_done_value (e : e_ais_done) : Z :=
  match e with
  | AIS_DONE_EXIT => 0 | AIS_DONE_UID_DETERMINE => 1 | AIS_DONE_GID_DETERMINE => 2
  | AIS_DONE_MEMPOOL_INIT => 3 | AIS_DONE_FORK => 4 | AIS_DONE_LIBAIS_SOCKET => 5
  | AIS_DONE_LIBAIS_BIND => 6 | AIS_DONE_READKEY => 7 | AIS_DONE_MAINCONFIGREAD => 8
  | AIS_DONE_LOGSETUP => 9 | AIS_DONE_AMFCONFIGREAD => 10 | AIS_DONE_DYNAMICLOAD => 11
  | AIS_DONE_OBJDB => 12 | AIS_DONE_INIT_SERVICES => 13 | AIS_DONE_OUT_OF_MEMORY => 14
  | AIS_DONE_FATAL_ERR => 15 | AIS_DONE_DIR_NOT_PRESENT => 16 | AIS_DONE_AQUIRE_LOCK => 17
  | AIS_DONE_ALREADY_RUNNING => 18 | AIS_DONE_STD_TO_NULL_REDIR => 19
  end.

Definition EINTR : Z := 4.
Definition FD_CLOEXEC : Z := 1.

(** ** The operating system *)

Record open_file := {
  of_path : string;
  of_offset : nat;
  of_locked : bool;
  of_cloexec : bool
}.

Inductive answer :=
| KOk
| KFail (e : Z)
| KShort (n : nat).

Record os := {
  files : gmap string (list ascii);
  fds : gmap Z open_file;
  next_fd : Z;
  errno : Z;
  kernel : nat -> answer;
  tick : nat;
  getpid : Z
}.

Definition set_files (f : gmap string (list ascii)) (s : os) : os :=
  {| files := f; fds := fds s; next_fd := next_fd s; errno := errno s; kernel := kernel s;
     tick := tick s; getpid := getpid s |}.
Definition set_fds (f : gmap Z open_file) (s : os) : os :=
  {| files := files s; fds := f; next_fd := next_fd s; errno := errno s; kernel := kernel s;
     tick := tick s; getpid := getpid s |}.
Definition set_errno (e : Z) (s : os) : os :=
  {| files := files s; fds := fds s; next_fd := next_fd s; errno := e; kernel := kernel s;
     tick := tick s; getpid := getpid s |}.

(** ** The monad of system calls *)

Definition sys (A : Type) : Type := os -> option (A * os).

Definition sys_ret {A} (a : A) : sys A := fun s => Some (a, s).
Definition sys_bind {A B} (m : sys A) (f : A -> sys B) : sys B :=
  fun s => match m s with Some (a, s') => f a s' | None => None end.

Declare Scope sys_scope.
Delimit Scope sys_scope with sys.
Notation "'let*' x ':=' c1 'in' c2" := (sys_bind c1 (fun x => c2))
  (at level 100, x name, c1 at next level, right associativity) : sys_scope.
Notation "c1 ;; c2" := (sys_bind c1 (fun _ => c2)) (at level 100, right associativity) : sys_scope.
Open Scope sys_scope.

(** The kernel's answer to the next call. *)
Definition ask : sys answer := fun s =>
  Some (kernel s (tick s),
        {| files := files s; fds := fds s; next_fd := next_fd s; errno := errno s;
           kernel := kernel s; tick := S (tick s); getpid := getpid s |}).

Definition modify (f : os -> os) : sys unit := fun s => Some (tt, f s).
Definition gets {A} (f : os -> A) : sys A := fun s => Some (f s, s).

(** A failed call: [-1] with [errno] set. *)
Definition fail_errno (e : Z) : sys Z := modify (set_errno e);; sys_ret (-1).

Definition update_fd (fd : Z) (f : open_file -> open_file) (s : os) : os :=
  match fds s !! fd with
  | Some o => set_fds (<[fd := f o]> (fds s)) s
  | None => s
  end.

Definition update_file_of (fd : Z) (f : list ascii -> list ascii) (s : os) : os :=
  match fds s !! fd with
  | Some o => match files s !! of_path o with
              | Some c => set_files (<[of_path o := f c]> (files s)) s
              | None => s
              end
  | None => s
  end.

(** [open (path, O_WRONLY | O_CREAT, 0640)]: the file is created empty if
    it does not exist; the descriptor starts at offset 0. *)
Definition sys_open (path : string) : sys Z :=
  let* a := ask in
  match a with
  | KFail e => fail_errno e
  | _ =>
      let* fd := gets next_fd in
      modify (fun s =>
        {| files := match files s !! path with Some _ => files s | None => <[path := []]> (files s) end;
           fds := <[fd := {| of_path := path; of_offset := 0; of_locked := false; of_cloexec := false |}]> (fds s);
           next_fd := fd + 1; errno := errno s; kernel := kernel s; tick := tick s; getpid := getpid s |});;
      sys_ret fd
  end.

(** [fcntl (fd, F_SETLK, &lock)] with a write lock on the whole file. *)
Definition sys_fcntl_setlk (fd : Z) : sys Z :=
  let* a := ask in
  match a with
  | KFail e => fail_errno e
  | _ => modify (update_fd fd (fun o => {| of_path := of_path o; of_offset := of_offset o;
                                           of_locked := true; of_cloexec := of_cloexec o |}));;
         sys_ret 0
  end.

(** [ftruncate (fd, 0)]. *)
Definition sys_ftruncate (fd : Z) : sys Z :=
  let* a := ask in
  match a with
  | KFail e => fail_errno e
  | _ => modify (update_file_of fd (fun _ => []));; sys_ret 0
  end.

(** The file after writing [data] at offset [off]: a gap past the end
    reads as zero bytes. *)
Definition overwrite (off : nat) (data c : list ascii) : list ascii :=
  take off c ++ replicate (off - length c) "000"%char ++ data ++ drop (off + length data) c.

(** [write (fd, data, len)]: all of [data], or the [n] first bytes of a
    short write; the offset advances by what was written. *)
Definition sys_write (fd : Z) (data : list ascii) : sys Z :=
  let* a := ask in
  match a with
  | KFail e => fail_errno e
  | _ =>
      let n := match a with KShort n => Nat.min n (length data) | _ => length data end in
      let* fo := gets (fun s => fds s !! fd) in
      match fo with
      | None => fail_errno EBADF
      | Some o =>
          modify (fun s => update_fd fd (fun o => {| of_path := of_path o; of_offset := of_offset o + n;
                                                   of_locked := of_locked o; of_cloexec := of_cloexec o |})
                             (update_file_of fd (overwrite (of_offset o) (take n data)) s));;
          sys_ret (Z.of_nat n)
      end
  end.

(** [fcntl (fd, F_GETFD, 0)] and [fcntl (fd, F_SETFD, flags)]. *)
Definition sys_fcntl_getfd (fd : Z) : sys Z :=
  let* a := ask in
  match a with
  | KFail e => fail_errno e
  | _ => gets (fun s => match fds s !! fd with
                        | Some o => if of_cloexec o then FD_CLOEXEC else 0
                        | None => 0
                        end)
  end.

Definition sys_fcntl_setfd (fd flags : Z) : sys Z :=
  let* a := ask in
  match a with
  | KFail e => fail_errno e
  | _ => modify (update_fd fd (fun o => {| of_path := of_path o; of_offset := of_offset o;
                                           of_locked := of_locked o; of_cloexec := Z.testbit flags 0 |}));;
         sys_ret 0
  end.

(** [unlink (path)]. *)
Definition sys_unlink (path : string) : sys Z :=
  let* a := ask in
  match a with
  | KFail e => fail_errno e
  | _ => modify (fun s => set_files (delete path (files s)) s);; sys_ret 0
  end.

(** [close (fd)]: the descriptor is released, and its lock with it, even
    when the call reports an error. *)
Definition sys_close (fd : Z) : sys Z :=
  let* a := ask in
  modify (fun s => set_fds (delete fd (fds s)) s);;
  match a with
  | KFail e => fail_errno e
  | _ => sys_ret 0
  end.

(** ** [corosync_flock] *)

(** [goto retry_...] on [EINTR]: call again while the call [failed] and
    [errno] is [EINTR]. *)
Fixpoint retry_eintr (fuel : nat) (call : sys Z) (failed : Z -> bool) : sys Z :=
  match fuel with
  | O => fun _ => None
  | S f =>
      let* r := call in
      let* e := gets errno in
      if failed r && (e =? EINTR) then retry_eintr f call failed else sys_ret r
  end.

(** [%u] of a [pid_t]. *)
Definition sprintf_u (n : Z) : list ascii := list_ascii_of_string (pretty (Z.to_N (n mod 2 ^ 32))).

(** What [snprintf (buf, n, ...)] keeps of the formatted text: [n - 1]
    characters and the terminating NUL. *)
Definition snprintf_keep (n : nat) (text : list ascii) : list ascii := take (n - 1) text.

(** [memset (pid_s, 0, 17); snprintf (pid_s, sizeof (pid_s) - 1, "%u\n", pid)]. *)
Definition pid_line (pid : Z) : list ascii := snprintf_keep 16 (sprintf_u pid ++ ["010"%char]).

Definition error_close (lf : Z) (err : e_ais_done) : sys e_ais_done :=
  sys_close lf;; sys_ret err.

Definition error_close_unlink (lockfile : string) (lf : Z) (err : e_ais_done) : sys e_ais_done :=
  sys_unlink lockfile;; error_close lf err.

Definition corosync_flock (fuel : nat) (lockfile : string) (pid : Z) : sys e_ais_done :=
  let* lf := sys_open lockfile in
  if lf =? -1 then sys_ret AIS_DONE_AQUIRE_LOCK else
  let* r := retry_eintr fuel (sys_fcntl_setlk lf) (fun r => r =? -1) in
  if r =? -1 then
    let* e := gets errno in
    error_close lf (if (e =? EAGAIN) || (e =? EACCES) then AIS_DONE_ALREADY_RUNNING
                    else AIS_DONE_AQUIRE_LOCK)
  else
  let* r := sys_ftruncate lf in
  if r =? -1 then error_close_unlink lockfile lf AIS_DONE_AQUIRE_LOCK else
  let pid_s := pid_line pid in
  let len := Z.of_nat (length pid_s) in
  let* r := retry_eintr fuel (sys_write lf pid_s) (fun r => negb (r =? len)) in
  if negb (r =? len) then error_close_unlink lockfile lf AIS_DONE_AQUIRE_LOCK else
  let* fd_flag := sys_fcntl_getfd lf in
  if fd_flag =? -1 then error_close_unlink lockfile lf AIS_DONE_AQUIRE_LOCK else
  let* r := sys_fcntl_setfd lf (Z.lor fd_flag FD_CLOEXEC) in
  if r =? -1 then error_close_unlink lockfile lf AIS_DONE_AQUIRE_LOCK else
  sys_ret AIS_DONE_EXIT.

(** A reading of the pid file: the value of its decimal digits. *)
Definition dec_digit (c : ascii) : N := (N_of_ascii c - 48)%N.
Definition dec_read (l : list ascii) : N := foldl (fun acc c => acc * 10 + dec_digit c)%N 0%N l.

Definition fresh_file (p : string) : open_file :=
  {| of_path := p; of_offset := 0; of_locked := false; of_cloexec := false |}.

(** The digits [pretty_N_go] puts in front of what it is given. *)
Definition digits (x : N) : list ascii := list_ascii_of_string (pretty_N_go x "").

(** A call that succeeded consumed one answer and left [errno] alone. *)
Definition advance (s s1 : os) : Prop :=
  tick s1 = S (tick s) /\ kernel s1 = kernel s /\ errno s1 = errno s.

Definition not_failed (a : answer) : Prop := match a with KFail _ => False | _ => True end.

(** What a [write] that was not refused writes: all of [data], or the
    prefix of a short write. *)
Definition written (a : answer) (data : list ascii) : nat :=
  match a with KShort n => Nat.min n (length data) | _ => length data end.

Definition moved (o : open_file) (n : nat) : open_file :=
  {| of_path := of_path o; of_offset := of_offset o + n; of_locked := of_locked o;
     of_cloexec := of_cloexec o |}.

Definition no_short_writes (k : nat -> answer) : Prop := forall i n, k i <> KShort n.

Definition with_lock (o : open_file) : open_file :=
  {| of_path := of_path o; of_offset := of_offset o; of_locked := true; of_cloexec := of_cloexec o |}.

(** A kernel that interrupts the first [fcntl (F_SETLK)] and makes the
    first [write] short, [n] bytes: the answers to the calls [open],
    [F_SETLK], [F_SETLK], [ftruncate], [write], [write], [F_GETFD],
    [F_SETFD]. *)
Definition short_write_kernel (n : nat) (i : nat) : answer :=
  match i with 1 => KFail EINTR | 4 => KShort n | _ => KOk end%nat.

(** The lock file, [LOCALSTATEDIR "/run/corosync.pid"]. *)
Definition corosync_lock_file : string := "/var/run/corosync.pid".

(** A system with the given files, no open descriptor, descriptors
    numbered from 3, and the pid 4242. *)
Definition demo_os (k : nat -> answer) (fs : gmap string (list ascii)) : os :=
  {| files := fs; fds := ∅; next_fd := 3; errno := 0; kernel := k; tick := 0; getpid := 4242 |}.

(** A second instance: the lock is held by the running one (pid 1234). *)
Definition second_instance : os :=
  demo_os (fun i => if (i =? 1)%nat then KFail EAGAIN else KOk) {[corosync_lock_file := pid_line 1234]}.

(** The descriptors are numbered from [next_fd] on. *)
Definition os_wf (s : os) : Prop := 0 <= next_fd s /\ forall k, next_fd s <= k -> fds s !! k = None.

(** [prog] leaves the part [f] of the system unchanged. *)
Definition keeps {X A} (f : os -> X) (prog : sys A) : Prop :=
  forall s a s', prog s = Some (a, s') -> f s' = f s.

(** ** The monad *)

Lemma sys_bind_Some {A B} (m : sys A) (k : A -> sys B) s b s' :
  sys_bind m k s = Some (b, s') <-> exists a s1, m s = Some (a, s1) /\ k a s1 = Some (b, s').
Proof.
  unfold sys_bind. split.
  - destruct (m s) as [[a s1] |]; [eauto | done].
  - intros (a & s1 & -> & H). exact H.
Qed.

Lemma sys_ret_Some {A} (a b : A) s s' : sys_ret a s = Some (b, s') <-> a = b /\ s = s'.
Proof. unfold sys_ret. split; [intros [= -> ->] | intros [-> ->]]; done. Qed.

Ltac sys_inv H :=
  repeat match type of H with
  | sys_bind (gets _) _ _ = Some _ =>
      let E := fresh "E" in
      apply sys_bind_Some in H as (? & ? & E & H); injection E as <- <-; cbv beta in H
  | sys_bind ask _ _ = Some _ =>
      let E := fresh "E" in
      apply sys_bind_Some in H as (? & ? & E & H); injection E as <- <-; cbv beta in H
  | sys_bind (modify _) _ _ = Some _ =>
      let E := fresh "E" in
      apply sys_bind_Some in H as (? & ? & E & H); injection E as _ <-; cbv beta in H
  | fail_errno _ _ = Some _ => unfold fail_errno in H
  | gets _ _ = Some _ => injection H as ? ?; subst
  | sys_bind _ _ _ = Some _ => apply sys_bind_Some in H as (? & ? & ? & H); cbv beta in H
  | sys_ret _ _ = Some _ => apply sys_ret_Some in H as [? ?]; subst
  end.

Section Keeps.
Context {X : Type} (f : os -> X).

Lemma keeps_bind {A B} (m : sys A) (k : A -> sys B) :
  keeps f m -> (forall a, keeps f (k a)) -> keeps f (sys_bind m k).
Proof.
  intros Hm Hk s b s' H. apply sys_bind_Some in H as (a & s1 & E1 & E2).
  rewrite (Hk _ _ _ _ E2). exact (Hm _ _ _ E1).
Qed.

Lemma keeps_ret {A} (a : A) : keeps f (sys_ret a).
Proof. intros s b s' H. by sys_inv H. Qed.

Lemma keeps_gets {A} (g : os -> A) : keeps f (gets g).
Proof. by intros s b s' [= _ <-]. Qed.

Lemma keeps_modify g : (forall s, f (g s) = f s) -> keeps f (modify g).
Proof. intros Hg s b s' [= _ <-]. apply Hg. Qed.

Lemma keeps_if {A} (b : bool) (m1 m2 : sys A) : keeps f m1 -> keeps f m2 -> keeps f (if b then m1 else m2).
Proof. by destruct b. Qed.

Lemma keeps_retry fuel call failed : keeps f call -> keeps f (retry_eintr fuel call failed).
Proof.
  intros Hc. induction fuel as [| n IH]; [by intros ? ? ? ? |].
  apply keeps_bind; [done | intros r]. apply keeps_bind; [apply keeps_gets | intros e].
  apply keeps_if; [done | apply keeps_ret].
Qed.
End Keeps.

#[export] Hint Resolve keeps_ret keeps_gets keeps_if keeps_retry : cs.

Lemma keeps_ask {X} (f : os -> X) :
  (forall s, f {| files := files s; fds := fds s; next_fd := next_fd s; errno := errno s;
                  kernel := kernel s; tick := S (tick s); getpid := getpid s |} = f s) ->
  keeps f ask.
Proof. intros Hf s a s' [= _ <-]. apply Hf. Qed.

Lemma keeps_fail_errno {X} (f : os -> X) e :
  (forall s, f (set_errno e s) = f s) -> keeps f (fail_errno e).
Proof. intros Hf. apply keeps_bind; [by apply keeps_modify | intros; apply keeps_ret]. Qed.

Ltac keeps_tac :=
  repeat first
    [ apply keeps_bind; [| intros ?]
    | apply keeps_ask; reflexivity
    | apply keeps_fail_errno; reflexivity
    | apply keeps_modify; intros ?; reflexivity
    | progress (eauto with cs)
    | match goal with |- keeps _ (match ?a with _ => _ end) => destruct a end ].

(** ** The system calls *)

Lemma fds_update_fd lf g s : delete lf (fds (update_fd lf g s)) = delete lf (fds s).
Proof. unfold update_fd. destruct (fds s !! lf); [apply delete_insert_eq | done]. Qed.

Lemma files_update_fd fd g s : files (update_fd fd g s) = files s.
Proof. unfold update_fd. by destruct (fds s !! fd). Qed.

Lemma fds_update_file_of fd g s : fds (update_file_of fd g s) = fds s.
Proof. unfold update_file_of. destruct (fds s !! fd); [by destruct (files s !! _) | done]. Qed.

Ltac os_eq :=
  intros ?; first [ reflexivity | apply fds_update_fd | apply files_update_fd
                  | cbn [fds set_files]; apply fds_update_file_of
                  | rewrite files_update_fd; reflexivity
                  | rewrite fds_update_file_of; reflexivity
                  | rewrite fds_update_fd, fds_update_file_of; reflexivity
                  | unfold update_fd, update_file_of; repeat case_match; reflexivity ].

Ltac keeps_tac ::=
  repeat first
    [ apply keeps_bind; [| intros ?]
    | apply keeps_retry
    | apply keeps_ask; reflexivity
    | apply keeps_fail_errno; reflexivity
    | apply keeps_modify; os_eq
    | progress (eauto with cs)
    | match goal with |- keeps _ (match ?a with _ => _ end) => destruct a end ].

Lemma setlk_keeps_files lf : keeps files (sys_fcntl_setlk lf).
Proof. unfold sys_fcntl_setlk. keeps_tac. Qed.
Lemma setlk_keeps_fds lf : keeps (fun s => delete lf (fds s)) (sys_fcntl_setlk lf).
Proof. unfold sys_fcntl_setlk. keeps_tac. Qed.
Lemma ftruncate_keeps_fds lf : keeps (fun s => delete lf (fds s)) (sys_ftruncate lf).
Proof. unfold sys_ftruncate. keeps_tac. Qed.
Lemma write_keeps_fds lf data : keeps (fun s => delete lf (fds s)) (sys_write lf data).
Proof. unfold sys_write. keeps_tac. Qed.
Lemma getfd_keeps_files lf : keeps files (sys_fcntl_getfd lf).
Proof. unfold sys_fcntl_getfd. keeps_tac. Qed.
Lemma getfd_keeps_fds lf : keeps (fun s => delete lf (fds s)) (sys_fcntl_getfd lf).
Proof. unfold sys_fcntl_getfd. keeps_tac. Qed.
Lemma setfd_keeps_files lf fl : keeps files (sys_fcntl_setfd lf fl).
Proof. unfold sys_fcntl_setfd. keeps_tac. Qed.
Lemma setfd_keeps_fds lf fl : keeps (fun s => delete lf (fds s)) (sys_fcntl_setfd lf fl).
Proof. unfold sys_fcntl_setfd. keeps_tac. Qed.
Lemma unlink_keeps_fds lf p : keeps (fun s => delete lf (fds s)) (sys_unlink p).
Proof. unfold sys_unlink. keeps_tac. Qed.
Lemma close_keeps_files lf : keeps files (sys_close lf).
Proof. unfold sys_close. keeps_tac. Qed.

Lemma close_spec lf s r s' :
  sys_close lf s = Some (r, s') -> fds s' = delete lf (fds s) /\ files s' = files s.
Proof.
  unfold sys_close. intros H. sys_inv H. destruct (kernel s (tick s)); sys_inv H; done.
Qed.

Lemma error_close_spec lf err s e s' :
  error_close lf err s = Some (e, s') -> e = err /\ fds s' = delete lf (fds s) /\ files s' = files s.
Proof. unfold error_close. intros H. sys_inv H. by destruct (close_spec _ _ _ _ H0). Qed.

Lemma error_close_unlink_spec p lf err s e s' :
  error_close_unlink p lf err s = Some (e, s') -> e = err /\ fds s' = delete lf (fds s).
Proof.
  unfold error_close_unlink. intros H. sys_inv H.
  destruct (error_close_spec _ _ _ _ _ H) as (-> & -> & _). split; [done |].
  exact (unlink_keeps_fds lf p _ _ _ H0).
Qed.

Lemma open_spec p s lf s1 :
  os_wf s -> sys_open p s = Some (lf, s1) ->
  (lf = -1 /\ files s1 = files s /\ fds s1 = fds s) \/
  (lf = next_fd s /\ fds s !! lf = None /\ fds s1 = <[lf := fresh_file p]> (fds s) /\
   files s1 !! p = Some (default [] (files s !! p)) /\
   (forall q, q <> p -> files s1 !! q = files s !! q)).
Proof.
  intros [Hpos Hfree] H. unfold sys_open in H. sys_inv H.
  destruct (kernel s (tick s)) eqn:Ek.
  2: { left. by sys_inv H. }
  all: right; sys_inv H; cbn;
    split_and!; [done | apply Hfree; lia | done | |
                 intros q Hq; destruct (files s !! p); [done | rewrite lookup_insert_ne; congruence]];
    destruct (files s !! p) eqn:Ep; [done | by rewrite lookup_insert_eq].
Qed.

(** After the [open], every call up to the final [close] touches only
    the lock file's descriptor. *)
Lemma retry_setlk_keeps fuel lf :
  keeps files (retry_eintr fuel (sys_fcntl_setlk lf) (fun r => r =? -1)) /\
  keeps (fun s => delete lf (fds s)) (retry_eintr fuel (sys_fcntl_setlk lf) (fun r => r =? -1)).
Proof. split; apply keeps_retry; [apply setlk_keeps_files | apply setlk_keeps_fds]. Qed.

Ltac bind_inv H a s E := apply sys_bind_Some in H as (a & s & E & H); cbv beta in H.

(** ** The pid line *)

Lemma list_ascii_of_string_app a b :
  list_ascii_of_string (a +:+ b) = list_ascii_of_string a ++ list_ascii_of_string b.
Proof. induction a as [| c a IH]; [done |]. simpl. f_equal. exact IH. Qed.

Lemma pretty_N_go_digits x : forall s, list_ascii_of_string (pretty_N_go x s) = digits x ++ list_ascii_of_string s.
Proof.
  unfold digits. induction (N.lt_wf_0 x) as [x _ IH]; intros s.
  destruct (decide (x = 0%N)) as [-> | Hx]; [by rewrite !pretty_N_go_0 |].
  rewrite !(pretty_N_go_step x) by lia.
  assert (Hlt : (x `div` 10 < x)%N) by (apply N.div_lt; lia).
  rewrite (IH _ Hlt (String (pretty_N_char (x `mod` 10)) s)), (IH _ Hlt (String (pretty_N_char (x `mod` 10)) "")).
  cbn [list_ascii_of_string]. by rewrite <- app_assoc.
Qed.

Lemma digits_step x : (0 < x)%N -> digits x = digits (x `div` 10) ++ [pretty_N_char (x `mod` 10)].
Proof. intros Hx. unfold digits at 1. rewrite pretty_N_go_step by done. apply pretty_N_go_digits. Qed.

Lemma dec_read_snoc l c : dec_read (l ++ [c]) = (dec_read l * 10 + dec_digit c)%N.
Proof. unfold dec_read. by rewrite foldl_app. Qed.

Lemma dec_digit_char d : (d < 10)%N -> dec_digit (pretty_N_char d) = d.
Proof.
  intros Hd. assert (d = 0 \/ d = 1 \/ d = 2 \/ d = 3 \/ d = 4 \/ d = 5 \/ d = 6 \/ d = 7 \/ d = 8 \/ d = 9)%N
    as H by lia.
  repeat destruct H as [-> | H]; try reflexivity. subst. reflexivity.
Qed.

Lemma dec_read_digits x : dec_read (digits x) = x.
Proof.
  induction (N.lt_wf_0 x) as [x _ IH].
  destruct (decide (x = 0%N)) as [-> | Hx]; [done |].
  rewrite digits_step, dec_read_snoc by lia. rewrite IH by (apply N.div_lt; lia).
  rewrite dec_digit_char by (apply N.mod_lt; lia). pose proof (N.div_mod x 10). lia.
Qed.

Lemma digits_length k : forall x, (x < 10 ^ N.of_nat k)%N -> (length (digits x) <= k)%nat.
Proof.
  induction k as [| k IH]; intros x Hx.
  - assert (x = 0%N) as -> by (cbn in Hx; lia). done.
  - destruct (decide (x = 0%N)) as [-> | H0]; [unfold digits; rewrite pretty_N_go_0; cbn; lia |].
    rewrite digits_step, length_app by lia. cbn [length].
    enough (length (digits (x `div` 10)) <= k)%nat by lia. apply IH.
    apply N.Div0.div_lt_upper_bound. rewrite Nat2N.inj_succ, N.pow_succ_r' in Hx. lia.
Qed.

Lemma sprintf_u_spec n :
  dec_read (sprintf_u n) = Z.to_N (n mod 2 ^ 32) /\ (1 <= length (sprintf_u n) <= 10)%nat.
Proof.
  unfold sprintf_u, pretty, pretty_N. set (y := Z.to_N (n mod 2 ^ 32)).
  assert (Hy : (y < 10 ^ N.of_nat 10)%N).
  { subst y. pose proof (Z.mod_pos_bound n (2 ^ 32) ltac:(lia)). cbn. lia. }
  case_decide as H0; [rewrite H0; split; [reflexivity | cbn; lia] |].
  change (list_ascii_of_string (pretty_N_go y "")) with (digits y).
  split; [apply dec_read_digits |]. split; [| by apply digits_length].
  rewrite digits_step by lia. rewrite length_app. cbn. lia.
Qed.

(** ** The lock loop *)

Lemma sys_bind_run {A B} (m : sys A) (k : A -> sys B) s a s1 :
  m s = Some (a, s1) -> sys_bind m k s = k a s1.
Proof. intros E. unfold sys_bind. by rewrite E. Qed.

(** One [fcntl (F_SETLK)]: it answers [-1] exactly on a failure, sets
    [errno] to the failure's code, and consumes one answer. *)
Lemma setlk_run lf s :
  exists s1, sys_fcntl_setlk lf s = Some (match kernel s (tick s) with KFail _ => -1 | _ => 0 end, s1) /\
             tick s1 = S (tick s) /\ kernel s1 = kernel s /\
             (forall e, kernel s (tick s) = KFail e -> errno s1 = e) /\
             (not_failed (kernel s (tick s)) -> errno s1 = errno s) /\ files s1 = files s /\
             (forall o, fds s !! lf = Some o ->
                fds s1 !! lf = Some (match kernel s (tick s) with KFail _ => o | _ => with_lock o end)).
Proof.
  unfold sys_fcntl_setlk, sys_bind, ask, fail_errno, modify, sys_ret.
  destruct (kernel s (tick s)) as [| e |] eqn:Ek; (eexists; split; [reflexivity |]);
    unfold update_fd; cbn; try destruct (fds s !! lf) eqn:Eo; cbn; split_and!; try done;
    try congruence; intros o' [= <-]; by rewrite lookup_insert_eq.
Qed.

Lemma retry_again f call failed s r s1 :
  call s = Some (r, s1) -> failed r = true -> errno s1 = EINTR ->
  retry_eintr (S f) call failed s = retry_eintr f call failed s1.
Proof.
  intros E Hf He. cbn [retry_eintr]. rewrite (sys_bind_run _ _ _ _ _ E). unfold sys_bind, gets.
  by rewrite Hf, He, Z.eqb_refl.
Qed.

Lemma retry_stop f call failed s r s1 :
  call s = Some (r, s1) -> failed r && (errno s1 =? EINTR) = false ->
  retry_eintr (S f) call failed s = Some (r, s1).
Proof. intros E Hf. cbn [retry_eintr]. rewrite (sys_bind_run _ _ _ _ _ E). unfold sys_bind, gets. by rewrite Hf. Qed.

Lemma kernel_shift (k : nat -> answer) t i : k (S t + i)%nat = k (t + S i)%nat.
Proof. f_equal. lia. Qed.

(** ** Runs of single calls *)

Lemma open_run p s :
  not_failed (kernel s (tick s)) ->
  exists s1, sys_open p s = Some (next_fd s, s1) /\ advance s s1 /\
             fds s1 = <[next_fd s := fresh_file p]> (fds s) /\
             files s1 !! p = Some (default [] (files s !! p)) /\
             (forall q, q <> p -> files s1 !! q = files s !! q).
Proof.
  intros Hk. unfold advance; unfold sys_open, sys_bind, ask, gets, modify, sys_ret.
  destruct (kernel s (tick s)); [| done |]; (eexists; split; [reflexivity |]); cbn;
    (split_and!; [done | done | done | done | |]);
    destruct (files s !! p) eqn:Ep; try done; try (by rewrite lookup_insert_eq);
    intros q Hq; by rewrite lookup_insert_ne by congruence.
Qed.

Lemma ftruncate_run lf o c s :
  not_failed (kernel s (tick s)) -> fds s !! lf = Some o -> files s !! of_path o = Some c ->
  exists s1, sys_ftruncate lf s = Some (0, s1) /\ advance s s1 /\
             fds s1 = fds s /\ files s1 = <[of_path o := []]> (files s).
Proof.
  intros Hk Ho Hc. unfold advance; unfold sys_ftruncate, sys_bind, ask, modify, sys_ret.
  destruct (kernel s (tick s)); [| done |]; (eexists; split; [reflexivity |]);
    unfold update_file_of; cbn; rewrite Ho, Hc; cbn; done.
Qed.

Lemma write_run lf o c data s :
  not_failed (kernel s (tick s)) -> fds s !! lf = Some o -> files s !! of_path o = Some c ->
  let n := written (kernel s (tick s)) data in
  exists s1, sys_write lf data s = Some (Z.of_nat n, s1) /\ advance s s1 /\
             fds s1 = <[lf := moved o n]> (fds s) /\
             files s1 = <[of_path o := overwrite (of_offset o) (take n data) c]> (files s).
Proof.
  intros Hk Ho Hc n. subst n. unfold advance; unfold sys_write, sys_bind, ask, gets, modify, sys_ret.
  destruct (kernel s (tick s)); [| done |]; cbn; rewrite Ho; (eexists; split; [reflexivity |]);
    unfold update_file_of, update_fd; cbn; rewrite Ho, Hc; cbn; rewrite Ho; done.
Qed.

Lemma getfd_run lf o s :
  not_failed (kernel s (tick s)) -> fds s !! lf = Some o ->
  exists s1, sys_fcntl_getfd lf s = Some (if of_cloexec o then FD_CLOEXEC else 0, s1) /\ advance s s1 /\
             fds s1 = fds s /\ files s1 = files s.
Proof.
  intros Hk Ho. unfold advance; unfold sys_fcntl_getfd, sys_bind, ask, gets.
  destruct (kernel s (tick s)); [| done |]; cbn; rewrite Ho; (eexists; split; [reflexivity |]); done.
Qed.

Lemma setfd_run lf o fl s :
  not_failed (kernel s (tick s)) -> fds s !! lf = Some o ->
  exists s1, sys_fcntl_setfd lf fl s = Some (0, s1) /\ advance s s1 /\ files s1 = files s.
Proof.
  intros Hk Ho. unfold advance; unfold sys_fcntl_setfd, sys_bind, ask, modify, sys_ret.
  destruct (kernel s (tick s)); [| done |]; (eexists; split; [reflexivity |]);
    unfold update_fd; cbn; rewrite Ho; done.
Qed.

Lemma flock_keeps_getpid fuel p pid : keeps getpid (corosync_flock fuel p pid).
Proof.
  unfold corosync_flock, error_close, error_close_unlink, sys_open, sys_fcntl_setlk, sys_ftruncate,
    sys_write, sys_fcntl_getfd, sys_fcntl_setfd, sys_unlink, sys_close.
  keeps_tac.
Qed.

(** ** The success path *)

Lemma keeps_kernel_setlk lf : keeps kernel (sys_fcntl_setlk lf).
Proof. unfold sys_fcntl_setlk. keeps_tac. Qed.
Lemma keeps_kernel_write lf d : keeps kernel (sys_write lf d).
Proof. unfold sys_write. keeps_tac. Qed.
Lemma keeps_kernel_ftruncate lf : keeps kernel (sys_ftruncate lf).
Proof. unfold sys_ftruncate. keeps_tac. Qed.
Lemma keeps_kernel_getfd lf : keeps kernel (sys_fcntl_getfd lf).
Proof. unfold sys_fcntl_getfd. keeps_tac. Qed.
Lemma keeps_kernel_open p : keeps kernel (sys_open p).
Proof. unfold sys_open. keeps_tac. Qed.

(** The lock loop ends with the lock taken when it returns [0]. *)
Lemma retry_setlk_ok fuel lf o : forall s r s',
  fds s !! lf = Some o ->
  retry_eintr fuel (sys_fcntl_setlk lf) (fun r => r =? -1) s = Some (r, s') -> r <> -1 ->
  fds s' = <[lf := with_lock o]> (fds s).
Proof.
  induction fuel as [| f IH]; intros s r s' Ho H Hr; [done |].
  cbn [retry_eintr] in H. bind_inv H r1 s1 E1. sys_inv H.
  unfold sys_fcntl_setlk in E1. sys_inv E1. destruct (kernel s (tick s)); sys_inv E1.
  - cbn [Z.eqb andb] in H. sys_inv H. unfold update_fd. cbn [fds]. by rewrite Ho.
  - cbn [errno set_errno] in H. destruct (e =? EINTR); cbn [Z.eqb Pos.eqb andb] in H.
    + eapply IH in H; [exact H | exact Ho | exact Hr].
    + by sys_inv H.
  - cbn [Z.eqb andb] in H. sys_inv H. unfold update_fd. cbn [fds]. by rewrite Ho.
Qed.

(** Without short writes the write loop, when it returns the length,
    has written the whole line at the descriptor's offset. *)
Lemma retry_write_full fuel lf o data : forall s r s',
  no_short_writes (kernel s) -> fds s !! lf = Some o -> files s !! of_path o = Some [] ->
  of_offset o = 0%nat ->
  retry_eintr fuel (sys_write lf data) (fun r => negb (r =? Z.of_nat (length data))) s = Some (r, s') ->
  r = Z.of_nat (length data) ->
  files s' = <[of_path o := data]> (files s) /\
  fds s' = <[lf := {| of_path := of_path o; of_offset := length data; of_locked := of_locked o;
                      of_cloexec := of_cloexec o |}]> (fds s).
Proof.
  induction fuel as [| f IH]; intros s r s' Hns Ho Hc H0 H Hr; [done |].
  cbn [retry_eintr] in H. bind_inv H r1 s1 E1. sys_inv H.
  unfold sys_write in E1. sys_inv E1. destruct (kernel s (tick s)) eqn:Ek; sys_inv E1.
  - rewrite Ho in E1. sys_inv E1. rewrite Z.eqb_refl in H. cbn [negb andb] in H. sys_inv H.
    unfold update_fd, update_file_of. cbn [fds files set_files set_fds]. rewrite Ho, Hc.
    cbn [fds files set_files set_fds]. rewrite Ho. cbn [fds files set_fds set_files].
    rewrite H0, firstn_all. unfold overwrite. cbn. by rewrite drop_nil, app_nil_r.
  - cbn [errno set_errno] in H. rewrite (proj2 (Z.eqb_neq (-1) _)) in H by lia.
    destruct (e =? EINTR); cbn [negb andb] in H.
    + eapply IH in H; [exact H | exact Hns | exact Ho | exact Hc | exact H0 | reflexivity].
    + sys_inv H. lia.
  - by destruct (Hns _ _ Ek).
Qed.

Lemma ftruncate_ok lf o c s r s' :
  fds s !! lf = Some o -> files s !! of_path o = Some c ->
  sys_ftruncate lf s = Some (r, s') -> r <> -1 ->
  files s' = <[of_path o := []]> (files s) /\ fds s' = fds s.
Proof.
  intros Ho Hc H Hr. unfold sys_ftruncate in H. sys_inv H.
  destruct (kernel s (tick s)); sys_inv H; try done;
    unfold update_file_of; cbn [fds files]; rewrite Ho, Hc; done.
Qed.

Lemma getfd_ok lf s r s' :
  sys_fcntl_getfd lf s = Some (r, s') -> r <> -1 -> files s' = files s /\ fds s' = fds s.
Proof.
  intros H Hr. unfold sys_fcntl_getfd in H. sys_inv H.
  destruct (kernel s (tick s)); sys_inv H; done.
Qed.

Lemma setfd_ok lf o fl s r s' :
  fds s !! lf = Some o -> sys_fcntl_setfd lf fl s = Some (r, s') -> r <> -1 ->
  files s' = files s /\
  fds s' = <[lf := {| of_path := of_path o; of_offset := of_offset o; of_locked := of_locked o;
                      of_cloexec := Z.testbit fl 0 |}]> (fds s).
Proof.
  intros Ho H Hr. unfold sys_fcntl_setfd in H. sys_inv H.
  destruct (kernel s (tick s)); sys_inv H; try done; unfold update_fd; cbn [fds files]; rewrite Ho; done.
Qed.

Lemma lor_cloexec x : Z.testbit (Z.lor x FD_CLOEXEC) 0 = true.
Proof. rewrite Z.lor_spec. apply orb_true_r. Qed.

(** A failure after the lock was taken: [error_close_unlink] gives the
    descriptors back. *)
Ltac unlink_exit H Hback :=
  destruct (error_close_unlink_spec _ _ _ _ _ _ H) as (-> & ->);
  split_and!; [by left | apply Hback; congruence | done].

(** A failure path on a run that succeeded. *)
Ltac exit_contra H :=
  let Heq := fresh in
  first [ destruct (error_close_unlink_spec _ _ _ _ _ _ H) as [Heq _]
        | destruct (error_close_spec _ _ _ _ _ H) as [Heq _] ];
  revert Heq; repeat case_match; discriminate.

(** What a failed [corosync_flock] leaves behind. *)
Lemma flock_error_state fuel p pid s err s' :
  os_wf s -> corosync_flock fuel p pid s = Some (err, s') -> err <> AIS_DONE_EXIT ->
  (err = AIS_DONE_AQUIRE_LOCK \/ err = AIS_DONE_ALREADY_RUNNING) /\ fds s' = fds s /\
  (err = AIS_DONE_ALREADY_RUNNING -> forall c, files s !! p = Some c -> files s' !! p = Some c).
Proof.
  intros Hwf H Hne. unfold corosync_flock in H. bind_inv H lf s1 E1.
  destruct (open_spec p s _ _ Hwf E1) as [(-> & Hf & Hd) | (-> & Hfresh & Hd & Hp & _)].
  { rewrite Z.eqb_refl in H. sys_inv H. split_and!; [by left | done | done]. }
  assert (Hn : (next_fd s =? -1) = false) by (apply Z.eqb_neq; destruct Hwf; lia).
  rewrite Hn in H. bind_inv H r2 s2 E2.
  destruct (retry_setlk_keeps fuel (next_fd s)) as [Kf Kd].
  pose proof (Kf _ _ _ E2) as Hf2. pose proof (Kd _ _ _ E2) as Hd2.
  assert (Hback : forall s', delete (next_fd s) (fds s') = delete (next_fd s) (fds s1) ->
                            delete (next_fd s) (fds s') = fds s).
  { intros s'' ->. rewrite Hd, delete_insert_eq. by apply delete_id. }
  destruct (r2 =? -1).
  { sys_inv H. destruct (error_close_spec _ _ _ _ _ H) as (-> & -> & ->). split_and!.
    - destruct (_ || _); auto.
    - by apply Hback.
    - intros Hr c Hc. rewrite Hf2, Hp, Hc. done. }
  bind_inv H r3 s3 E3. pose proof (ftruncate_keeps_fds _ _ _ _ E3) as Hd3.
  destruct (r3 =? -1).
  { unlink_exit H Hback. }
  bind_inv H r4 s4 E4.
  pose proof (keeps_retry _ fuel _ _ (write_keeps_fds (next_fd s) (pid_line pid)) _ _ _ E4) as Hd4.
  destruct (negb _).
  { unlink_exit H Hback. }
  bind_inv H r5 s5 E5. pose proof (getfd_keeps_fds _ _ _ _ E5) as Hd5.
  destruct (r5 =? -1).
  { unlink_exit H Hback. }
  bind_inv H r6 s6 E6. pose proof (setfd_keeps_fds _ _ _ _ _ E6) as Hd6.
  destruct (r6 =? -1).
  { unlink_exit H Hback. }
  sys_inv H. done.
Qed.

(** What a successful [corosync_flock] leaves behind. *)
Lemma flock_success_state fuel p pid s s' :
  os_wf s -> no_short_writes (kernel s) ->
  corosync_flock fuel p pid s = Some (AIS_DONE_EXIT, s') ->
  fds s' !! next_fd s = Some {| of_path := p; of_offset := length (pid_line pid);
                                of_locked := true; of_cloexec := true |} /\
  files s' !! p = Some (pid_line pid) /\
  (forall q, q <> p -> files s' !! q = files s !! q) /\
  (forall k, k <> next_fd s -> fds s' !! k = fds s !! k).
Proof.
  intros Hwf Hns H. unfold corosync_flock in H. bind_inv H lf s1 E1.
  pose proof (keeps_kernel_open _ _ _ _ E1) as K1.
  destruct (open_spec p s _ _ Hwf E1) as [(-> & _) | (-> & Hfresh & Hd & Hp & Hq)].
  { rewrite Z.eqb_refl in H. by sys_inv H. }
  assert (Hn : (next_fd s =? -1) = false) by (apply Z.eqb_neq; destruct Hwf; lia).
  rewrite Hn in H. bind_inv H r2 s2 E2.
  pose proof (keeps_retry _ _ _ _ (keeps_kernel_setlk _) _ _ _ E2) as K2.
  pose proof (proj1 (retry_setlk_keeps fuel (next_fd s)) _ _ _ E2) as Hf2.
  destruct (Z.eqb_spec r2 (-1)) as [| Hr2]; [sys_inv H; exit_contra H |].
  assert (Ho1 : fds s1 !! next_fd s = Some (fresh_file p)) by (rewrite Hd; apply lookup_insert_eq).
  pose proof (retry_setlk_ok _ _ _ _ _ _ Ho1 E2 Hr2) as Hd2.
  bind_inv H r3 s3 E3. pose proof (keeps_kernel_ftruncate _ _ _ _ E3) as K3.
  destruct (Z.eqb_spec r3 (-1)) as [| Hr3]; [exit_contra H |].
  assert (Ho2 : fds s2 !! next_fd s = Some (with_lock (fresh_file p))) by (rewrite Hd2; apply lookup_insert_eq).
  destruct (ftruncate_ok _ _ _ _ _ _ Ho2 ltac:(cbn; rewrite Hf2; exact Hp) E3 Hr3) as [Hf3 Hd3].
  bind_inv H r4 s4 E4.
  destruct (Z.eqb_spec r4 (Z.of_nat (length (pid_line pid)))) as [Hr4 |]; [| exit_contra H].
  destruct (retry_write_full _ _ _ _ _ _ _ ltac:(rewrite K3, K2, K1; exact Hns) ltac:(rewrite Hd3; exact Ho2)
              ltac:(rewrite Hf3; apply lookup_insert_eq) eq_refl E4 Hr4) as [Hf4 Hd4].
  cbn [negb] in H. bind_inv H r5 s5 E5.
  destruct (Z.eqb_spec r5 (-1)) as [| Hr5]; [exit_contra H |].
  destruct (getfd_ok _ _ _ _ E5 Hr5) as [Hf5 Hd5].
  bind_inv H r6 s6 E6.
  destruct (Z.eqb_spec r6 (-1)) as [| Hr6]; [exit_contra H |].
  assert (Ho5 : fds s5 !! next_fd s = Some {| of_path := p; of_offset := length (pid_line pid);
                                               of_locked := true; of_cloexec := false |})
    by (rewrite Hd5, Hd4; apply lookup_insert_eq).
  destruct (setfd_ok _ _ _ _ _ _ Ho5 E6 Hr6) as [Hf6 Hd6].
  sys_inv H. rewrite lor_cloexec in Hd6. cbn in Hd6.
  rewrite Hd6, Hf6, Hf5, Hf4, Hf3. cbn [of_path with_lock fresh_file] in *. split_and!.
  - by rewrite lookup_insert_eq.
  - by rewrite lookup_insert_eq.
  - intros q Hqp. rewrite !lookup_insert_ne by congruence. rewrite Hf2. by apply Hq.
  - intros k Hk. rewrite Hd5, Hd4, Hd3, Hd2, Hd, !lookup_insert_ne by congruence. done.
Qed.

(** ** Theorems *)

Lemma overwrite_short_then_full n (line : list ascii) :
  (n < length line)%nat -> overwrite (0 + n) line (overwrite 0 (take n line) []) = take n line ++ line.
Proof.
  intros Hn. unfold overwrite.
  rewrite take_nil, drop_nil. cbn. rewrite app_nil_r, take_take, Nat.min_id, length_take, Nat.min_l by lia.
  rewrite Nat.sub_diag, drop_ge by (rewrite length_take; lia). cbn. by rewrite app_nil_r.
Qed.

(** [F_SETLK] interrupted once, then granted. *)
Lemma setlk_interrupted_once f lf o s :
  kernel s (tick s) = KFail EINTR -> kernel s (S (tick s)) = KOk -> fds s !! lf = Some o ->
  exists s2, retry_eintr (S (S f)) (sys_fcntl_setlk lf) (fun r => r =? -1) s = Some (0, s2) /\
             tick s2 = S (S (tick s)) /\ kernel s2 = kernel s /\ errno s2 = EINTR /\
             files s2 = files s /\ fds s2 !! lf = Some (with_lock o).
Proof.
  intros K1 K2 Ho.
  destruct (setlk_run lf s) as (s1 & E1 & T1 & L1 & R1 & _ & F1 & D1). rewrite K1 in E1, R1, D1.
  destruct (setlk_run lf s1) as (s2 & E2 & T2 & L2 & _ & R2 & F2 & D2).
  rewrite L1, T1, K2 in E2, R2, D2.
  exists s2. split_and!.
  - rewrite (retry_again _ _ (fun r => r =? -1) _ _ _ E1 eq_refl (R1 _ eq_refl)).
    exact (retry_stop _ _ (fun r => r =? -1) _ _ _ E2 eq_refl).
  - congruence.
  - congruence.
  - rewrite R2 by exact I. exact (R1 _ eq_refl).
  - congruence.
  - exact (D2 _ (D1 _ Ho)).
Qed.

(** A short write of [n] bytes with [errno] still [EINTR], then a full
    one: the retry loop writes the line again after the prefix. *)
Lemma write_short_then_full f lf o c line n s :
  kernel s (tick s) = KShort n -> kernel s (S (tick s)) = KOk -> errno s = EINTR ->
  (0 < n < length line)%nat -> fds s !! lf = Some o -> files s !! of_path o = Some c ->
  exists s2, retry_eintr (S (S f)) (sys_write lf line) (fun r => negb (r =? Z.of_nat (length line))) s =
               Some (Z.of_nat (length line), s2) /\
             tick s2 = S (S (tick s)) /\ kernel s2 = kernel s /\
             fds s2 = <[lf := moved (moved o n) (length line)]> (fds s) /\
             files s2 = <[of_path o := overwrite (of_offset o + n) line (overwrite (of_offset o) (take n line) c)]>
                          (files s).
Proof.
  intros K1 K2 Er Hn Ho Hc.
  destruct (write_run lf o c line s ltac:(rewrite K1; exact I) Ho Hc) as (s1 & E1 & (T1 & L1 & R1) & D1 & F1).
  rewrite K1 in E1, D1, F1. cbn [written] in E1, D1, F1. rewrite Nat.min_l in E1, D1, F1 by lia.
  destruct (write_run lf (moved o n) (overwrite (of_offset o) (take n line) c) line s1
              ltac:(rewrite L1, T1, K2; exact I) ltac:(rewrite D1; apply lookup_insert_eq)
              ltac:(rewrite F1; apply lookup_insert_eq)) as (s2 & E2 & (T2 & L2 & R2) & D2 & F2).
  rewrite L1, T1, K2 in E2, D2, F2. cbn [written] in E2, D2, F2.
  exists s2. split_and!.
  - rewrite (retry_again _ _ _ _ _ _ E1).
    + apply (retry_stop _ _ _ _ _ _ E2). cbv beta. by rewrite Z.eqb_refl.
    + apply negb_true_iff, Z.eqb_neq. lia.
    + by rewrite R1.
  - congruence.
  - congruence.
  - by rewrite D2, D1, insert_insert_eq.
  - by rewrite F2, F1, insert_insert_eq, firstn_all.
Qed.

(** C6. The error paths of [corosync_flock].  Whatever the kernel
    answers, a run that fails returns [AIS_DONE_AQUIRE_LOCK] or
    [AIS_DONE_ALREADY_RUNNING] and leaves the descriptor table as it found
    it: the lock file's descriptor is closed on every path of the [goto]s.
    When the lock is held by another instance ([AIS_DONE_ALREADY_RUNNING])
    the file, which holds that instance's pid, is left as it was. *)
Theorem flock_error_paths fuel p pid s err s' :
  os_wf s -> corosync_flock fuel p pid s = Some (err, s') -> err <> AIS_DONE_EXIT ->
  (err = AIS_DONE_AQUIRE_LOCK \/ err = AIS_DONE_ALREADY_RUNNING) /\ fds s' = fds s /\
  (err = AIS_DONE_ALREADY_RUNNING -> forall c, files s !! p = Some c -> files s' !! p = Some c).
Proof. intros; eapply flock_error_state; eauto. Qed.

(** C7. A successful [corosync_flock].  When no write is short, a run
    that returns [AIS_DONE_EXIT] leaves the new descriptor open on the
    lock file with the lock taken and close-on-exec set, positioned after
    what it wrote, and the file holds exactly the pid line; no other file
    and no other descriptor changed. *)
Theorem flock_success fuel p pid s s' :
  os_wf s -> no_short_writes (kernel s) ->
  corosync_flock fuel p pid s = Some (AIS_DONE_EXIT, s') ->
  fds s' !! next_fd s = Some {| of_path := p; of_offset := length (pid_line pid);
                                of_locked := true; of_cloexec := true |} /\
  files s' !! p = Some (pid_line pid) /\
  (forall q, q <> p -> files s' !! q = files s !! q) /\
  (forall k, k <> next_fd s -> fds s' !! k = fds s !! k).
Proof. intros; eapply flock_success_state; eauto. Qed.

(** The pid line [corosync_flock] writes.  The [%u] of any pid,
    with its newline, is at most 11 characters, so the [snprintf] into the
    16-byte [pid_s] never cuts it; reading its digits back gives the pid
    as an unsigned 32-bit number. *)
Theorem pid_line_roundtrip pid :
  pid_line pid = sprintf_u pid ++ ["010"%char] /\ (2 <= length (pid_line pid) <= 11)%nat /\
  dec_read (sprintf_u pid) = Z.to_N (pid mod 2 ^ 32).
Proof.
  destruct (sprintf_u_spec pid) as [Hr Hl].
  assert (Hp : pid_line pid = sprintf_u pid ++ ["010"%char]).
  { unfold pid_line, snprintf_keep. apply take_ge. rewrite length_app. cbn. lia. }
  rewrite Hp, length_app. cbn [length]. split_and!; [done | lia | lia | done].
Qed.

(** C13. Termination of the [retry_fcntl] loop of [corosync_flock].
    When the kernel interrupts the lock call [k] times and then answers
    otherwise, the loop stops after exactly [k + 1] calls given more fuel
    than [k], and returns [-1] exactly when that last answer is a failure;
    when the kernel interrupts every call, the loop never stops, whatever
    the fuel. *)
Theorem flock_lock_retry lf :
  (forall k fuel s,
     (forall i, (i < k)%nat -> kernel s (tick s + i) = KFail EINTR) ->
     kernel s (tick s + k) <> KFail EINTR -> (k < fuel)%nat ->
     exists r s', retry_eintr fuel (sys_fcntl_setlk lf) (fun r => r =? -1) s = Some (r, s') /\
                  tick s' = (tick s + S k)%nat /\
                  (r = -1 <-> exists e, kernel s (tick s + k) = KFail e)) /\
  (forall fuel s, (forall i, kernel s (tick s + i) = KFail EINTR) ->
     retry_eintr fuel (sys_fcntl_setlk lf) (fun r => r =? -1) s = None).
Proof.
  split.
  - induction k as [| k IH]; intros [| f] s Hint Hlast Hf; try lia;
      destruct (setlk_run lf s) as (s1 & E1 & T1 & K1 & Er1 & _);
      cbn [retry_eintr]; rewrite (sys_bind_run _ _ _ _ _ E1); unfold sys_bind, gets.
    + rewrite Nat.add_0_r in Hlast.
      destruct (kernel s (tick s)) as [| e |] eqn:Ek; cbn.
      * exists 0, s1. split_and!; [done | lia | split; [done | rewrite Nat.add_0_r, Ek; intros [? [=]]]].
      * rewrite (Er1 e eq_refl). destruct (Z.eqb_spec e EINTR) as [-> | _]; [done |].
        exists (-1), s1. rewrite Nat.add_0_r. split_and!; [done | lia | split; eauto].
      * exists 0, s1. split_and!; [done | lia | split; [done | rewrite Nat.add_0_r, Ek; intros [? [=]]]].
    + pose proof (Hint 0%nat ltac:(lia)) as H0. rewrite Nat.add_0_r in H0. rewrite H0, (Er1 _ H0). cbn.
      destruct (IH f s1) as (r & s' & E & T & Hr).
      * intros i Hi. rewrite K1, T1, kernel_shift. apply Hint. lia.
      * rewrite K1, T1, kernel_shift. exact Hlast.
      * lia.
      * exists r, s'. rewrite K1, T1, kernel_shift in Hr. split_and!; [exact E | lia | exact Hr].
  - induction fuel as [| f IH]; intros s Hint; [done |].
    destruct (setlk_run lf s) as (s1 & E1 & T1 & K1 & Er1 & _).
    cbn [retry_eintr]. rewrite (sys_bind_run _ _ _ _ _ E1). unfold sys_bind, gets.
    pose proof (Hint 0%nat) as H0. rewrite Nat.add_0_r in H0. rewrite H0, (Er1 _ H0). cbn.
    apply IH. intros i. rewrite K1, T1, kernel_shift. apply Hint.
Qed.

(** C23. A short write is written again after its own prefix.  After an
    interrupted [fcntl], [errno] is still [EINTR] when a later [write]
    returns fewer bytes than asked without setting it; [corosync_flock]
    reads that stale [EINTR] as an interrupted [write] and writes the whole
    pid line again at the advanced offset.  The run reports success and the
    lock file holds the first [n] bytes of the line followed by the line. *)
Theorem flock_short_write_repeated fuel p pid n s :
  os_wf s -> tick s = 0%nat -> kernel s = short_write_kernel n ->
  (0 < n < length (pid_line pid))%nat -> (2 <= fuel)%nat ->
  exists s', corosync_flock fuel p pid s = Some (AIS_DONE_EXIT, s') /\
             files s' !! p = Some (take n (pid_line pid) ++ pid_line pid).
Proof.
  intros Hwf T0 K0 Hn Hf. destruct fuel as [| [| f]]; [lia | lia |].
  assert (Kat : forall s1 i, kernel s1 = kernel s -> tick s1 = i -> kernel s1 (tick s1) = short_write_kernel n i)
    by (intros ? ? -> ->; by rewrite K0).
  unfold corosync_flock. remember (pid_line pid) as line eqn:Hline.
  destruct (open_run p s) as (s1 & E1 & (T1 & K1 & R1) & D1 & F1 & _); [by rewrite K0, T0 |].
  rewrite (sys_bind_run _ _ _ _ _ E1). cbv beta.
  replace (next_fd s =? -1) with false by (symmetry; apply Z.eqb_neq; destruct Hwf; lia).
  set (lf := next_fd s) in *.
  (* the lock: interrupted, then taken *)
  assert (Ho1 : fds s1 !! lf = Some (fresh_file p)) by (rewrite D1; apply lookup_insert_eq).
  destruct (setlk_interrupted_once f lf _ s1 ltac:(rewrite (Kat s1 1%nat); [done | done | lia])
              ltac:(rewrite K1, T1, T0, K0; reflexivity) Ho1) as (s3 & Er & T3 & K3 & R3 & F3 & Ho3).
  rewrite (sys_bind_run _ _ _ _ _ Er). cbv beta. replace (0 =? -1) with false by reflexivity.
  (* ftruncate *)
  destruct (ftruncate_run lf _ _ s3 ltac:(rewrite (Kat s3 3%nat); [exact I | congruence | lia]) Ho3
              ltac:(cbn; rewrite F3; exact F1)) as (s4 & E4 & (T4 & K4 & R4) & D4 & F4).
  rewrite (sys_bind_run _ _ _ _ _ E4). cbv beta. replace (0 =? -1) with false by reflexivity.
  (* the short write, then the whole line again *)
  assert (K4s : kernel s4 = kernel s) by congruence. assert (T4s : tick s4 = 4%nat) by lia.
  destruct (write_short_then_full f lf _ _ line n s4 ltac:(rewrite K4s, T4s, K0; reflexivity)
              ltac:(rewrite K4s, T4s, K0; reflexivity)
              ltac:(rewrite R4 by exact I; exact R3) ltac:(subst line; lia)
              ltac:(rewrite D4; exact Ho3) ltac:(rewrite F4; apply lookup_insert_eq))
    as (s6 & Ew & T6 & K6 & D6 & F6).
  rewrite (sys_bind_run _ _ _ _ _ Ew). cbv beta. rewrite Z.eqb_refl. cbn [negb].
  (* close-on-exec *)
  destruct (getfd_run lf _ s6 ltac:(rewrite (Kat s6 6%nat); [exact I | congruence | lia])
              ltac:(rewrite D6; apply lookup_insert_eq)) as (s7 & E7 & (T7 & K7 & R7) & D7 & F7).
  cbn [of_cloexec moved with_lock fresh_file] in E7.
  rewrite (sys_bind_run _ _ _ _ _ E7). cbv beta. replace (0 =? -1) with false by reflexivity.
  destruct (setfd_run lf _ (Z.lor 0 FD_CLOEXEC) s7 ltac:(rewrite (Kat s7 7%nat); [exact I | congruence | lia])
              ltac:(rewrite D7, D6; apply lookup_insert_eq)) as (s8 & E8 & _ & F8).
  rewrite (sys_bind_run _ _ _ _ _ E8). cbv beta. replace (0 =? -1) with false by reflexivity.
  exists s8. split; [reflexivity |].
  rewrite F8, F7, F6. cbn [of_path of_offset moved with_lock fresh_file].
  rewrite lookup_insert_eq. f_equal. apply overwrite_short_then_full. lia.
Qed.

Lemma demo_os_wf k fs : os_wf (demo_os k fs).
Proof. split; [cbn; lia | intros; apply lookup_empty]. Qed.

Lemma flock_error_paths_witness :
  exists s', corosync_flock 3 corosync_lock_file 4242 second_instance = Some (AIS_DONE_ALREADY_RUNNING, s') /\
             fds s' = ∅ /\ files s' !! corosync_lock_file = Some (pid_line 1234).
Proof.
  destruct (corosync_flock 3 corosync_lock_file 4242 second_instance) as [[e s'] |] eqn:E;
    [| vm_compute in E; discriminate].
  assert (e = AIS_DONE_ALREADY_RUNNING) as -> by (vm_compute in E; congruence).
  destruct (flock_error_paths 3 corosync_lock_file 4242 second_instance _ _ (demo_os_wf _ _) E ltac:(discriminate))
    as (_ & Hfds & Hfile).
  exists s'. split_and!; [done | exact Hfds | apply Hfile; [done | reflexivity]].
Defined.

Lemma flock_success_witness :
  exists s', corosync_flock 3 corosync_lock_file 4242 (demo_os (fun _ => KOk) ∅) = Some (AIS_DONE_EXIT, s') /\
             fds s' !! 3 = Some {| of_path := corosync_lock_file; of_offset := 5%nat;
                                   of_locked := true; of_cloexec := true |} /\
             files s' !! corosync_lock_file = Some (pid_line 4242).
Proof.
  destruct (corosync_flock 3 corosync_lock_file 4242 (demo_os (fun _ => KOk) ∅)) as [[e s'] |] eqn:E;
    [| vm_compute in E; discriminate].
  assert (e = AIS_DONE_EXIT) as -> by (vm_compute in E; congruence).
  destruct (flock_success 3 corosync_lock_file 4242 (demo_os (fun _ => KOk) ∅) s' (demo_os_wf _ _)
              ltac:(by intros i n') E)
    as (Hfd & Hfile & _).
  exists s'. split_and!; [done | exact Hfd | exact Hfile].
Defined.

Lemma flock_lock_retry_witness :
  exists r s', retry_eintr 3 (sys_fcntl_setlk 3) (fun r => r =? -1)
                 (demo_os (fun i => if (i <? 2)%nat then KFail EINTR else KOk) ∅) = Some (r, s') /\
               tick s' = 3%nat /\ (r = -1 <-> exists e, KOk = KFail e).
Proof.
  apply (proj1 (flock_lock_retry 3) 2%nat 3%nat).
  - intros i Hi. destruct i as [| [| i]]; [reflexivity | reflexivity | lia].
  - discriminate.
  - lia.
Defined.

Lemma flock_short_write_repeated_witness :
  exists s', corosync_flock 2 corosync_lock_file 4242 (demo_os (short_write_kernel 2%nat) ∅) = Some (AIS_DONE_EXIT, s') /\
             files s' !! corosync_lock_file = Some (take 2%nat (pid_line 4242) ++ pid_line 4242).
Proof.
  apply flock_short_write_repeated; [apply demo_os_wf | reflexivity | reflexivity | vm_compute; lia | lia].
Defined.
