(* ===== verification/Startup.v ===== *)
(** * Start-up and shutdown of the daemon ([main], main.c)

    [main] parses its options, optionally switches to real-time
    scheduling, locks its memory, loads the object database and the
    configuration modules, reads the main and totem configuration, creates
    the ["runtime"] object, detaches from the terminal, takes the pid lock
    file, starts totem and runs the main loop.  Each failing step ends the
    process through [corosync_exit_error] with its [e_ais_done] code.  A
    termination signal unlinks the services ([sig_exit_handler]); when that
    completes, [unlink_all_completed] stops the loop, and [main] finalizes
    totem, removes the lock file and exits with [AIS_DONE_EXIT].

    - The answers of the libraries and of the kernel that [main] only reads
      (configuration results, [fork], [freopen], scheduling calls, whether
      a shutdown is requested) form the record [main_env].  The kernel
      state that the lock file lives in is LockFile's [os], shared with
      [corosync_flock].
    - [main] runs in the monad [mainM]: a state of the action trace, the
      [os] and main.c's statics, and an outcome that is a value, an exit
      code, or the main loop serving forever.  The trace records the calls
      [main] makes in order.
    - [getopt] (glibc, outside src/) is modelled from its documentation:
      the option characters of every argument that starts with [-] before
      a [--], non-options skipped as glibc permutes them, [?] for an
      unknown option.  [strtok_r] over [":"] is [strtok_split].

    - [fork] returns in two processes; [fork_in_parent] says which one a
      run follows.  The parent exits with [0] at once; every other step
      is the child's.

    Theorems: when no write is short, a daemon that reaches its main loop
    holds the lock on a file that holds its own pid, the child's after the
    fork; a second instance exits with [AIS_DONE_ALREADY_RUNNING] and
    leaves the running instance's lock file alone; [main] exits with [0]
    only after [-v], in the parent of the fork (before the lock is taken),
    or after a requested shutdown, which finalizes totem before it removes
    the lock file.  A daemon in its
    main loop runs with the configured compatibility mode and hands the
    services exactly the configuration modules of
    [COROSYNC_DEFAULT_CONFIG_IFACE]; a list of more modules than
    [config_modules] holds is written past the array. *)

From Stdlib Require Import ZArith Lia Ascii String.
From stdpp Require Import base list gmap fin_maps strings.
From S2P Require Import Prelude CoroDefs LockFile.

Open Scope Z_scope.

Definition EXIT_SUCCESS : Z := 0.
Definition EXIT_FAILURE : Z := 1.

(** ** What [main] does, in order *)

Inductive main_action :=
| LogModeStderr | PrintVersion | PrintUsage
| SchedSetScheduler (prio : Z) | LogThreadPriority (rr : bool)
| Setrlimit | Mlockall
| LoopCreate | SignalsAdd
| ObjdbInit | ApiInit | ConfigRead (iface : list ascii) | MainConfigRead | TotemConfigRead
| LogsysApply | RuntimeCreate
| ParentExit | Setsid | StdToNull
| LogThreadStart | Flock (err : e_ais_done)
| TotemInitialize | ServiceReadyRegister | GroupsInitialize | GroupsJoin | PrivDrop | SchedwrkInit
| LoopRun | ServiceUnlinkAll | StatsTimerDelete | LoopStop
| TotemFinalize | UnlinkLockFile (res : Z).

#[global] Instance main_action_eq_dec : EqDecision main_action.
Proof. solve_decision. Defined.

(** The answers [main] reads. *)
Record main_env := {
  argv : list (list ascii);
  sched_priority_max : Z;          (** [sched_get_priority_max (SCHED_RR)] *)
  sched_setscheduler_res : Z;
  log_thread_priority_res : Z;     (** [qb_log_thread_priority_set (SCHED_RR, ...)] *)
  objdb_load_res : Z;              (** [lcr_ifact_reference (..., "objdb", ...)] *)
  default_config_iface : option (list ascii);   (** [getenv ("COROSYNC_DEFAULT_CONFIG_IFACE")] *)
  strdup_ok : bool;
  iface_load_res : list ascii -> Z;
  iface_readconfig_res : list ascii -> Z;
  main_config_res : Z;
  lib_dir_stat : option bool;      (** [stat]: [None] on failure, else [S_ISDIR] *)
  totem_config_read_res : Z;
  totem_config_keyread_res : Z;
  totem_config_validate_res : Z;
  compatibility_res : Z;
  compatibility_mode : cs_sync_mode;
  fork_res : option Z;             (** [None]: [fork] failed; [Some pid]: the child's pid *)
  fork_in_parent : bool;           (** which of the two processes [fork] returns in the run
                                       follows: the parent ([true]) or the child *)
  freopen_ok : bool * bool * bool; (** stdin, stderr, stdout *)
  shutdown_requested : bool        (** a [SIGINT], [SIGQUIT] or [SIGTERM] reaches the loop *)
}.

(** The statics of main.c that start-up sets. *)
Record main_st := {
  trace : list main_action;
  mos : os;
  sched_priority : Z;
  minimum_sync_mode : cs_sync_mode;
  config_modules : list (list ascii)   (** [config_modules[0 .. num_config_modules - 1]], by name *)
}.

(** ** The monad of [main] *)

Inductive outcome (A : Type) :=
| Go (a : A)
| Stop (code : Z)
| Serving.
Arguments Go {A} a.
Arguments Stop {A} code.
Arguments Serving {A}.

Definition mainM (A : Type) : Type := main_st -> option (outcome A * main_st).

Definition mret {A} (a : A) : mainM A := fun st => Some (Go a, st).
Definition mbind {A B} (m : mainM A) (f : A -> mainM B) : mainM B :=
  fun st => match m st with
            | Some (Go a, st') => f a st'
            | Some (Stop c, st') => Some (Stop c, st')
            | Some (Serving, st') => Some (Serving, st')
            | None => None
            end.

Declare Scope main_scope.
Delimit Scope main_scope with main.
Notation "'let*' x ':=' c1 'in' c2" := (mbind c1 (fun x => c2))
  (at level 100, x name, c1 at next level, right associativity) : main_scope.
Notation "c1 ;; c2" := (mbind c1 (fun _ => c2)) (at level 100, right associativity) : main_scope.
Close Scope sys_scope.
Open Scope main_scope.

Definition emit (a : main_action) : mainM unit :=
  fun st => Some (Go tt, {| trace := trace st ++ [a]; mos := mos st; sched_priority := sched_priority st;
                            minimum_sync_mode := minimum_sync_mode st; config_modules := config_modules st |}).

(** [exit (code)] and [corosync_exit_error (err)] (exec/util.c: log, then
    [exit (err)]). *)
Definition exit_with {A} (code : Z) : mainM A := fun st => Some (Stop code, st).
Definition corosync_exit_error {A} (err : e_ais_done) : mainM A := exit_with (e_ais_done_value err).

Definition set_sched_priority (p : Z) : mainM unit :=
  fun st => Some (Go tt, {| trace := trace st; mos := mos st; sched_priority := p;
                            minimum_sync_mode := minimum_sync_mode st; config_modules := config_modules st |}).
Definition set_minimum_sync_mode (m : cs_sync_mode) : mainM unit :=
  fun st => Some (Go tt, {| trace := trace st; mos := mos st; sched_priority := sched_priority st;
                            minimum_sync_mode := m; config_modules := config_modules st |}).

Definition set_mos (s : os) (st : main_st) : main_st :=
  {| trace := trace st; mos := s; sched_priority := sched_priority st;
     minimum_sync_mode := minimum_sync_mode st; config_modules := config_modules st |}.

(** [MAX_DYNAMIC_SERVICES] (coroapi.h), the size of [config_modules]. *)
Definition MAX_DYNAMIC_SERVICES : nat := 128.

(** [num_config_modules = 0] (line 1349). *)
Definition reset_config_modules : mainM unit :=
  fun st => Some (Go tt, {| trace := trace st; mos := mos st; sched_priority := sched_priority st;
                            minimum_sync_mode := minimum_sync_mode st; config_modules := [] |}).

(** [config_modules[num_config_modules++] = config] (line 1389): nothing
    bounds the index, and a write past the array has no defined outcome
    ([None]). *)
Definition store_config_module (iface : list ascii) : mainM unit :=
  fun st => if (length (config_modules st) <? MAX_DYNAMIC_SERVICES)%nat
            then Some (Go tt, {| trace := trace st; mos := mos st; sched_priority := sched_priority st;
                                 minimum_sync_mode := minimum_sync_mode st;
                                 config_modules := config_modules st ++ [iface] |})
            else None.

(** [main_get_config_modules] (lines 875-879). *)
Definition main_get_config_modules (st : main_st) : list (list ascii) * Z :=
  (config_modules st, Z.of_nat (length (config_modules st))).

(** A run of system calls on the shared [os]. *)
Definition on_os {A} (m : sys A) : mainM A :=
  fun st => match m (mos st) with
            | Some (a, s') => Some (Go a, set_mos s' st)
            | None => None
            end.

(** After [fork] the daemon goes on in the child, whose pid is [child]. *)
Definition with_pid (s : os) (child : Z) : os :=
  {| files := files s; fds := fds s; next_fd := next_fd s; errno := errno s;
     kernel := kernel s; tick := tick s; getpid := child |}.

Definition become_child (child : Z) : mainM unit :=
  fun st => Some (Go tt, {| trace := trace st; mos := with_pid (mos st) child;
                            sched_priority := sched_priority st; minimum_sync_mode := minimum_sync_mode st; config_modules := config_modules st |}).

(** ** The C library *)

Definition DASH : ascii := "-"%char.
Definition COLON : ascii := ":"%char.

(** The characters [getopt (argc, argv, "fprv")] returns, in order. *)
Definition getopt_char (c : ascii) : ascii :=
  if decide (c ∈ ["f"; "p"; "r"; "v"]%char) then c else "?"%char.

Fixpoint getopt_args (args : list (list ascii)) : list ascii :=
  match args with
  | [] => []
  | a :: rest =>
      match a with
      | [d1; d2] => if decide (d1 = DASH /\ d2 = DASH) then [] else
                    if decide (d1 = DASH) then getopt_char d2 :: getopt_args rest else getopt_args rest
      | d :: ((_ :: _) as cs) => if decide (d = DASH) then map getopt_char cs ++ getopt_args rest
                               else getopt_args rest
      | _ => getopt_args rest
      end
  end.

Definition getopt (args : list (list ascii)) : list ascii := getopt_args (tail args).

(** [strtok_r (s, ":", ...)] and its successive calls: the non-empty
    pieces between colons. *)
Fixpoint strtok_go (s cur : list ascii) : list (list ascii) :=
  match s with
  | [] => if decide (cur = []) then [] else [cur]
  | c :: rest => if decide (c = COLON) then (if decide (cur = []) then strtok_go rest []
                                              else cur :: strtok_go rest [])
                 else strtok_go rest (cur ++ [c])
  end.

Definition strtok_split (s : list ascii) : list (list ascii) := strtok_go s [].

(** ** The start-up helpers of main.c *)

(** The [while (getopt (...))] loop of [main] (lines 1266-1293): the
    flags it sets, or the return from [main]. *)
Fixpoint main_options (cs : list ascii) (background setprio : bool) : mainM (bool * bool) :=
  match cs with
  | [] => mret (background, setprio)
  | c :: rest =>
      if decide (c = "f"%char) then emit LogModeStderr;; main_options rest false setprio
      else if decide (c = "p"%char) then main_options rest background setprio
      else if decide (c = "r"%char) then main_options rest background true
      else if decide (c = "v"%char) then emit PrintVersion;; exit_with EXIT_SUCCESS
      else emit PrintUsage;; exit_with EXIT_FAILURE
  end.

(** [corosync_setscheduler] (lines 992-1039), with the scheduling and
    log-thread calls available. *)
Definition corosync_setscheduler (env : main_env) : mainM unit :=
  let prio := sched_priority_max env in
  set_sched_priority prio;;
  if negb (prio =? -1) then
    emit (SchedSetScheduler prio);;
    if sched_setscheduler_res env =? -1 then emit (LogThreadPriority false)
    else
      emit (LogThreadPriority true);;
      if log_thread_priority_res env =? -1 then corosync_exit_error AIS_DONE_LOGSETUP else mret tt
  else set_sched_priority 0.

(** [corosync_mlockall] (lines 509-537): failures are only logged. *)
Definition corosync_mlockall : mainM unit := emit Setrlimit;; emit Mlockall.

(** [corosync_tty_detach] (lines 467-507).  [fork] returns in two
    processes, and [fork_in_parent] says which one the run follows.  The
    parent exits with [0] at once (line 485); the child goes on in a new
    session with its standard streams on [/dev/null]. *)
Definition corosync_tty_detach (env : main_env) : mainM unit :=
  match fork_res env with
  | None => corosync_exit_error AIS_DONE_FORK
  | Some child =>
      if fork_in_parent env then emit ParentExit;; exit_with EXIT_SUCCESS else
      become_child child;; emit Setsid;;
      let '(in_ok, err_ok, out_ok) := freopen_ok env in
      if negb in_ok then corosync_exit_error AIS_DONE_STD_TO_NULL_REDIR else
      if negb err_ok then corosync_exit_error AIS_DONE_STD_TO_NULL_REDIR else
      if negb out_ok then corosync_exit_error AIS_DONE_STD_TO_NULL_REDIR else
      emit StdToNull
  end.

(** The [strtok_r] loop over the configuration modules (lines 1367-1392). *)
Fixpoint config_modules_read (env : main_env) (ifaces : list (list ascii)) : mainM unit :=
  match ifaces with
  | [] => mret tt
  | iface :: rest =>
      if iface_load_res env iface =? -1 then corosync_exit_error AIS_DONE_MAINCONFIGREAD else
      if iface_readconfig_res env iface =? -1 then corosync_exit_error AIS_DONE_MAINCONFIGREAD else
      emit (ConfigRead iface);; store_config_module iface;; config_modules_read env rest
  end.

(** [unlink_all_completed] (lines 205-209), the callback of
    [corosync_service_unlink_all]. *)
Definition unlink_all_completed : mainM unit := emit StatsTimerDelete;; emit LoopStop.

(** [sig_exit_handler] and [corosync_shutdown_request] (lines 211-227):
    the services are unlinked, then the callback runs. *)
Definition sig_exit_handler : mainM unit := emit ServiceUnlinkAll;; unlink_all_completed.

Definition COROSYNC_PARSER : list ascii := list_ascii_of_string "corosync_parser".

(** ** [main] *)

(** [main] (lines 1240-1532), with [fuel] for the retry loops of
    [corosync_flock]. *)
Definition corosync_main (fuel : nat) (env : main_env) : mainM unit :=
  let* opts := main_options (getopt (argv env)) true false in
  let '(background, setprio) := opts in
  (if setprio then corosync_setscheduler env else mret tt);;
  corosync_mlockall;;
  emit LoopCreate;; emit SignalsAdd;;
  if objdb_load_res env =? -1 then corosync_exit_error AIS_DONE_OBJDB else
  emit ObjdbInit;; emit ApiInit;; reset_config_modules;;
  let config_iface_init := default COROSYNC_PARSER (default_config_iface env) in
  if negb (strdup_ok env) then corosync_exit_error AIS_DONE_OBJDB else
  config_modules_read env (strtok_split config_iface_init);;
  if main_config_res env =? -1 then corosync_exit_error AIS_DONE_MAINCONFIGREAD else
  emit MainConfigRead;;
  match lib_dir_stat env with
  | None | Some false => corosync_exit_error AIS_DONE_DIR_NOT_PRESENT
  | Some true =>
  if totem_config_read_res env =? -1 then corosync_exit_error AIS_DONE_MAINCONFIGREAD else
  if totem_config_keyread_res env =? -1 then corosync_exit_error AIS_DONE_MAINCONFIGREAD else
  if totem_config_validate_res env =? -1 then corosync_exit_error AIS_DONE_MAINCONFIGREAD else
  emit TotemConfigRead;; emit LogsysApply;;
  if compatibility_res env =? -1 then corosync_exit_error AIS_DONE_MAINCONFIGREAD else
  set_minimum_sync_mode (compatibility_mode env);;
  emit RuntimeCreate;;
  (if background then corosync_tty_detach env else mret tt);;
  emit LogThreadStart;;
  let* pid := on_os (gets getpid) in
  let* flock_err := on_os (corosync_flock fuel corosync_lock_file pid) in
  emit (Flock flock_err);;
  if decide (flock_err <> AIS_DONE_EXIT) then corosync_exit_error flock_err else
  emit TotemInitialize;; emit ServiceReadyRegister;; emit GroupsInitialize;; emit GroupsJoin;;
  emit PrivDrop;; emit SchedwrkInit;;
  emit LoopRun;;
  if negb (shutdown_requested env) then (fun st => Some (Serving, st)) else
  sig_exit_handler;;
  emit TotemFinalize;;
  let* r := on_os (LockFile.sys_unlink corosync_lock_file) in
  emit (UnlinkLockFile r);;
  corosync_exit_error AIS_DONE_EXIT
  end.

(** The process at start-up: nothing done yet, main.c's statics at their
    initial values. *)
Definition main_start (s : os) : main_st :=
  {| trace := []; mos := s; sched_priority := 0; minimum_sync_mode := CS_SYNC_V1; config_modules := [] |}.

(** A start-up in which every library call succeeds: [corosync] run with
    no option forks the child [5000]; [shutdown] says whether a signal
    then stops the loop. *)
Definition demo_env (args : list string) (shutdown : bool) : main_env := {|
  argv := map list_ascii_of_string ("corosync"%string :: args);
  sched_priority_max := 99; sched_setscheduler_res := 0; log_thread_priority_res := 0;
  objdb_load_res := 0; default_config_iface := None; strdup_ok := true;
  iface_load_res := fun _ => 0; iface_readconfig_res := fun _ => 0; main_config_res := 0;
  lib_dir_stat := Some true; totem_config_read_res := 0; totem_config_keyread_res := 0;
  totem_config_validate_res := 0; compatibility_res := 0; compatibility_mode := CS_SYNC_V1;
  fork_res := Some 5000; fork_in_parent := false; freopen_ok := (true, true, true); shutdown_requested := shutdown |}.

(** A machine on which every system call succeeds and no file exists. *)
Definition demo_boot : os := demo_os (fun _ => KOk) ∅.

(** ** Lemmas *)

(** A step of start-up that does not enter the main loop and does not
    touch the system. *)
Definition plain {A} (m : mainM A) : Prop :=
  forall st o st', m st = Some (o, st') -> o <> Serving /\ mos st' = mos st.

(** The exit codes a step can end the process with. *)
Definition exits_in {A} (codes : list Z) (m : mainM A) : Prop :=
  forall st c st', m st = Some (Stop c, st') -> c ∈ codes.

(** What start-up leaves for the services: the sync mode and the loaded
    configuration modules. *)
Definition cfg_view (st : main_st) : cs_sync_mode * list (list ascii) :=
  (minimum_sync_mode st, config_modules st).

(** A step that does not enter the main loop and leaves [cfg_view] as it
    was. *)
Definition quiet {A} (m : mainM A) : Prop :=
  forall st o st', m st = Some (o, st') -> o <> Serving /\ cfg_view st' = cfg_view st.

Lemma plain_bind {A B} (m : mainM A) (f : A -> mainM B) :
  plain m -> (forall a, plain (f a)) -> plain (mbind m f).
Proof.
  intros Hm Hf st o st' H. unfold mbind in H.
  destruct (m st) as [[[a | c |] st1] |] eqn:E; try discriminate.
  - destruct (Hm _ _ _ E) as [_ Hs]. destruct (Hf a _ _ _ H) as [Ho Hs']. split; congruence.
  - injection H as <- <-. split; [discriminate | exact (proj2 (Hm _ _ _ E))].
  - by destruct (Hm _ _ _ E).
Qed.

Lemma plain_emit a : plain (emit a).
Proof. by intros st o st' [= <- <-]. Qed.
Lemma plain_mret {A} (a : A) : plain (mret a).
Proof. by intros st o st' [= <- <-]. Qed.
Lemma plain_exit {A} c : plain (@exit_with A c).
Proof. by intros st o st' [= <- <-]. Qed.
Lemma plain_exit_error {A} e : plain (@corosync_exit_error A e).
Proof. apply plain_exit. Qed.
Lemma plain_set_sched p : plain (set_sched_priority p).
Proof. by intros st o st' [= <- <-]. Qed.
Lemma plain_set_mode m : plain (set_minimum_sync_mode m).
Proof. by intros st o st' [= <- <-]. Qed.
Lemma plain_reset : plain reset_config_modules.
Proof. by intros st o st' [= <- <-]. Qed.
Lemma plain_store i : plain (store_config_module i).
Proof.
  intros st o st' H. unfold store_config_module in H.
  destruct (_ <? _)%nat; [by injection H as <- <- | done].
Qed.
Lemma plain_if {A} (b : bool) (m1 m2 : mainM A) : plain m1 -> plain m2 -> plain (if b then m1 else m2).
Proof. by destruct b. Qed.

#[export] Hint Resolve plain_bind plain_emit plain_mret plain_exit plain_exit_error plain_set_sched
  plain_reset plain_store
  plain_set_mode plain_if : cs.

Ltac plain_tac :=
  repeat first [ progress (eauto with cs) | apply plain_bind; [| intros ?]
               | match goal with |- plain (match ?x with _ => _ end) => destruct x end ].

Lemma plain_options cs b p : plain (main_options cs b p).
Proof. revert b p. induction cs as [| c cs IH]; intros b p; cbn [main_options]; plain_tac. Qed.

Lemma plain_setscheduler env : plain (corosync_setscheduler env).
Proof. unfold corosync_setscheduler. plain_tac. Qed.

Lemma plain_mlockall : plain corosync_mlockall.
Proof. unfold corosync_mlockall. plain_tac. Qed.

Lemma plain_config env l : plain (config_modules_read env l).
Proof. induction l as [| i l IH]; cbn [config_modules_read]; plain_tac. Qed.

Lemma plain_sig_exit : plain sig_exit_handler.
Proof. unfold sig_exit_handler, unlink_all_completed. plain_tac. Qed.

#[export] Hint Resolve plain_options plain_setscheduler plain_mlockall plain_config plain_sig_exit : cs.

(** Runs through a plain step. *)
Lemma serving_step {A B} (m : mainM A) (f : A -> mainM B) st st' :
  plain m -> mbind m f st = Some (Serving, st') ->
  exists a st1, m st = Some (Go a, st1) /\ mos st1 = mos st /\ f a st1 = Some (Serving, st').
Proof.
  intros Hm H. unfold mbind in H. destruct (m st) as [[[a | c |] st1] |] eqn:E; try discriminate.
  - destruct (Hm _ _ _ E) as [_ Hs]. eauto.
  - by destruct (Hm _ _ _ E).
Qed.

Lemma stop_step {A B} (m : mainM A) (f : A -> mainM B) st c st' :
  plain m -> mbind m f st = Some (Stop c, st') ->
  (exists a st1, m st = Some (Go a, st1) /\ mos st1 = mos st /\ f a st1 = Some (Stop c, st')) \/
  (m st = Some (Stop c, st') /\ mos st' = mos st).
Proof.
  intros Hm H. unfold mbind in H. destruct (m st) as [[[a | c' |] st1] |] eqn:E; try discriminate.
  - destruct (Hm _ _ _ E) as [_ Hs]. left. eauto.
  - injection H as <- <-. right. split; [done | exact (proj2 (Hm _ _ _ E))].
Qed.

Lemma exits_in_bind {A B} cs (m : mainM A) (f : A -> mainM B) :
  exits_in cs m -> (forall a, exits_in cs (f a)) -> exits_in cs (mbind m f).
Proof.
  intros Hm Hf st c st' H. unfold mbind in H.
  destruct (m st) as [[[a | c' |] st1] |] eqn:E; try discriminate.
  - exact (Hf _ _ _ _ H).
  - injection H as <- <-. exact (Hm _ _ _ E).
Qed.

Lemma exits_in_emit cs a : exits_in cs (emit a).
Proof. by intros st c st' [=]. Qed.
Lemma exits_in_mret {A} cs (a : A) : exits_in cs (mret a).
Proof. by intros st c st' [=]. Qed.
Lemma exits_in_set_sched cs p : exits_in cs (set_sched_priority p).
Proof. by intros st c st' [=]. Qed.
Lemma exits_in_become cs p : exits_in cs (become_child p).
Proof. by intros st c st' [=]. Qed.
Lemma exits_in_reset cs : exits_in cs reset_config_modules.
Proof. by intros st c st' [=]. Qed.
Lemma exits_in_store cs i : exits_in cs (store_config_module i).
Proof. intros st c st' H. unfold store_config_module in H. by destruct (_ <? _)%nat. Qed.
Lemma exits_in_exit {A} cs e : e_ais_done_value e ∈ cs -> exits_in cs (@corosync_exit_error A e).
Proof. by intros He st c st' [= <- _]. Qed.
Lemma exits_in_exit_with {A} cs c0 : c0 ∈ cs -> exits_in cs (@exit_with A c0).
Proof. by intros He st c st' [= <- _]. Qed.
Lemma exits_in_if {A} cs (b : bool) (m1 m2 : mainM A) :
  exits_in cs m1 -> exits_in cs m2 -> exits_in cs (if b then m1 else m2).
Proof. by destruct b. Qed.

#[export] Hint Resolve exits_in_emit exits_in_mret exits_in_set_sched exits_in_become exits_in_if
  exits_in_reset exits_in_store : cs.

Ltac exits_tac :=
  repeat first [ progress (eauto with cs) | apply exits_in_bind; [| intros ?]
               | apply exits_in_exit; vm_compute; set_solver
               | apply exits_in_exit_with; vm_compute; set_solver
               | match goal with |- exits_in _ (match ?x with _ => _ end) => destruct x end ].

Lemma exits_options cs b p : exits_in [EXIT_SUCCESS; EXIT_FAILURE] (main_options cs b p).
Proof. revert b p. induction cs as [| c cs IH]; intros b p; cbn [main_options]; exits_tac. Qed.
Lemma exits_setscheduler env : exits_in [9] (corosync_setscheduler env).
Proof. unfold corosync_setscheduler. exits_tac. Qed.
Lemma exits_mlockall : exits_in [] corosync_mlockall.
Proof. unfold corosync_mlockall. exits_tac. Qed.
Lemma exits_config env l : exits_in [8] (config_modules_read env l).
Proof. induction l as [| i l IH]; cbn [config_modules_read]; exits_tac. Qed.
Lemma exits_detach env : exits_in [0; 4; 19] (corosync_tty_detach env).
Proof. unfold corosync_tty_detach. exits_tac. Qed.
Lemma exits_sig_exit : exits_in [] sig_exit_handler.
Proof. unfold sig_exit_handler, unlink_all_completed. exits_tac. Qed.

Lemma exits_in_weaken {A} cs cs' (m : mainM A) : cs ⊆ cs' -> exits_in cs m -> exits_in cs' m.
Proof. intros Hs Hm st c st' H. apply Hs. exact (Hm _ _ _ H). Qed.


Lemma detach_spec env st o st' :
  corosync_tty_detach env st = Some (o, st') ->
  o <> Serving /\
  (mos st' = mos st \/ exists child, fork_res env = Some child /\ mos st' = with_pid (mos st) child) /\
  (o = Go tt -> exists child, fork_res env = Some child /\ mos st' = with_pid (mos st) child).
Proof.
  unfold corosync_tty_detach. destruct (fork_res env) as [child |].
  2: { intros [= <- <-]. split_and!; [done | by left | done]. }
  destruct (fork_in_parent env).
  { intros [= <- <-]. split_and!; [done | by left | done]. }
  destruct (freopen_ok env) as [[i e] out].
  intros H. unfold mbind, emit, become_child in H. cbn in H.
  destruct i, e, out; cbn in H; injection H as <- <-; cbn;
    (split_and!; [done | right; eauto | eauto || done]).
Qed.

(** The option loop keeps [background] exactly when no [-f] comes. *)
Lemma main_options_go cs : forall b p st b' p' st',
  main_options cs b p st = Some (Go (b', p'), st') -> b' = true <-> b = true /\ "f"%char ∉ cs.
Proof.
  induction cs as [| c cs IH]; intros b p st b' p' st' H.
  - injection H as <- <- <-. split; [intros ->; split; [done | apply not_elem_of_nil] | by intros [-> _]].
  - cbn [main_options] in H. rewrite not_elem_of_cons.
    destruct (decide (c = "f"%char)) as [-> | Hf].
    { unfold mbind, emit at 1 in H. apply IH in H. rewrite H. split; [by intros [? _] | by intros [_ [? _]]]. }
    assert (Hf' : "f"%char <> c) by congruence.
    destruct (decide (c = "p"%char)); [apply IH in H; rewrite H; tauto |].
    destruct (decide (c = "r"%char)); [apply IH in H; rewrite H; tauto |].
    destruct (decide (c = "v"%char)); discriminate.
Qed.

Lemma on_os_step {A B} (m : sys A) (f : A -> mainM B) st o st' :
  mbind (on_os m) f st = Some (o, st') ->
  exists a s1, m (mos st) = Some (a, s1) /\ f a (set_mos s1 st) = Some (o, st').
Proof.
  unfold mbind, on_os. destruct (m (mos st)) as [[a s1] |] eqn:E; [| discriminate]. eauto.
Qed.

Lemma detach_go env st st' :
  corosync_tty_detach env st = Some (Go tt, st') ->
  exists child, fork_res env = Some child /\ mos st' = with_pid (mos st) child.
Proof. intros H. destruct (detach_spec _ _ _ _ H) as (_ & _ & Hgo). by apply Hgo. Qed.

Lemma detach_step {B} (b : bool) env (f : unit -> mainM B) st st' :
  mbind (if b then corosync_tty_detach env else mret tt) f st = Some (Serving, st') ->
  exists st1, f tt st1 = Some (Serving, st') /\
    (b = true -> exists child, fork_res env = Some child /\ mos st1 = with_pid (mos st) child) /\
    (b = false -> mos st1 = mos st).
Proof.
  unfold mbind. destruct b.
  - destruct (corosync_tty_detach env st) as [[[[] | c |] st1] |] eqn:E; try discriminate.
    + intros H. exists st1. split_and!; [done | intros _; by apply detach_go | done].
    + by destruct (detach_spec _ _ _ _ E).
  - intros H. exists st. split_and!; done.
Qed.

Lemma exits_contra {A} cs (m : mainM A) st c st' :
  exits_in cs m -> m st = Some (Stop c, st') -> c ∉ cs -> False.
Proof. intros Hm E Hc. exact (Hc (Hm _ _ _ E)). Qed.

Lemma e_ais_done_value_inj e1 e2 : e_ais_done_value e1 = e_ais_done_value e2 -> e1 = e2.
Proof. destruct e1, e2; cbn; congruence. Qed.

(** The exits of [corosync_tty_detach]: a failure, or the parent's
    [exit (0)] right after the fork. *)
Lemma detach_stop env st c st' :
  corosync_tty_detach env st = Some (Stop c, st') ->
  c ∈ [4; 19] \/
  (c = EXIT_SUCCESS /\ fork_in_parent env = true /\ is_Some (fork_res env) /\
   trace st' = trace st ++ [ParentExit] /\ mos st' = mos st).
Proof.
  unfold corosync_tty_detach. destruct (fork_res env) as [child |].
  2: { intros [= <- <-]. left. vm_compute. set_solver. }
  destruct (fork_in_parent env); [intros [= <- <-]; right; split_and!; by eauto |].
  destruct (freopen_ok env) as [[i e] out].
  unfold mbind, emit, become_child. cbn.
  destruct i, e, out; cbn; intros H; try discriminate H; injection H as <- _; left; vm_compute; set_solver.
Qed.

Lemma detach_stop_step {B} (b : bool) env (f : unit -> mainM B) st c st' :
  mbind (if b then corosync_tty_detach env else mret tt) f st = Some (Stop c, st') ->
  (b = true /\ (c ∈ [4; 19] \/
     (c = EXIT_SUCCESS /\ fork_in_parent env = true /\ is_Some (fork_res env) /\
      trace st' = trace st ++ [ParentExit] /\ mos st' = mos st))) \/
  exists st1, f tt st1 = Some (Stop c, st') /\
    (b = true -> exists child, fork_res env = Some child /\ mos st1 = with_pid (mos st) child) /\
    (b = false -> mos st1 = mos st).
Proof.
  unfold mbind. destruct b.
  - destruct (corosync_tty_detach env st) as [[[[] | c' |] st1] |] eqn:E; try discriminate.
    + intros H. right. exists st1. split_and!; [done | intros _; by apply detach_go | done].
    + intros [= <- <-]. left. split; [done |]. by apply detach_stop.
  - intros H. right. exists st. split_and!; done.
Qed.

Lemma options_stop cs : forall b p st c st',
  main_options cs b p st = Some (Stop c, st') ->
  mos st' = mos st /\ (c = EXIT_SUCCESS -> PrintVersion ∈ trace st').
Proof.
  induction cs as [| ch cs IH]; intros b p st c st' H; [discriminate |].
  cbn [main_options] in H.
  destruct (decide (ch = "f"%char)); [apply IH in H; done |].
  destruct (decide (ch = "p"%char)); [apply IH in H; done |].
  destruct (decide (ch = "r"%char)); [apply IH in H; done |].
  destruct (decide (ch = "v"%char)); unfold mbind, emit, exit_with in H; injection H as <- <-; cbn;
    (split; [done |]); [intros _; apply elem_of_app; right; apply elem_of_cons; by left | done].
Qed.

Lemma unlink_result p s r s' : sys_unlink p s = Some (r, s') -> r = -1 \/ files s' !! p = None.
Proof.
  unfold sys_unlink, sys_bind, ask, fail_errno, modify, sys_ret.
  destruct (kernel s (tick s)); intros [= <- <-]; [right | left | right]; try done; apply lookup_delete_eq.
Qed.

Lemma sig_exit_trace st st' :
  sig_exit_handler st = Some (Go tt, st') ->
  trace st' = trace st ++ [ServiceUnlinkAll; StatsTimerDelete; LoopStop] /\ mos st' = mos st.
Proof. intros [= <-]. cbn. by rewrite <- !app_assoc. Qed.

(** ** Steps that keep [minimum_sync_mode] *)

Lemma quiet_bind {A B} (m : mainM A) (f : A -> mainM B) :
  quiet m -> (forall a, quiet (f a)) -> quiet (mbind m f).
Proof.
  intros Hm Hf st o st' H. unfold mbind in H.
  destruct (m st) as [[[a | c |] st1] |] eqn:E; try discriminate.
  - destruct (Hm _ _ _ E) as [_ Hs]. destruct (Hf a _ _ _ H) as [Ho Hs']. split; congruence.
  - injection H as <- <-. split; [discriminate | exact (proj2 (Hm _ _ _ E))].
  - by destruct (Hm _ _ _ E).
Qed.

Lemma quiet_emit a : quiet (emit a).
Proof. by intros st o st' [= <- <-]. Qed.
Lemma quiet_mret {A} (a : A) : quiet (mret a).
Proof. by intros st o st' [= <- <-]. Qed.
Lemma quiet_exit {A} c : quiet (@exit_with A c).
Proof. by intros st o st' [= <- <-]. Qed.
Lemma quiet_exit_error {A} e : quiet (@corosync_exit_error A e).
Proof. apply quiet_exit. Qed.
Lemma quiet_set_sched p : quiet (set_sched_priority p).
Proof. by intros st o st' [= <- <-]. Qed.
Lemma quiet_become p : quiet (become_child p).
Proof. by intros st o st' [= <- <-]. Qed.
Lemma quiet_on_os {A} (m : sys A) : quiet (on_os m).
Proof. intros st o st' H. unfold on_os in H. destruct (m (mos st)) as [[a s'] |]; [| done]. by injection H as <- <-. Qed.
Lemma quiet_if {A} (b : bool) (m1 m2 : mainM A) : quiet m1 -> quiet m2 -> quiet (if b then m1 else m2).
Proof. by destruct b. Qed.

Create HintDb cs_mode.
#[export] Hint Resolve quiet_bind quiet_emit quiet_mret quiet_exit quiet_exit_error quiet_set_sched
  quiet_become quiet_on_os quiet_if : cs_mode.

Ltac quiet_tac :=
  repeat first [ progress (eauto with cs_mode) | apply quiet_bind; [| intros ?]
               | match goal with |- quiet (match ?x with _ => _ end) => destruct x end ].

Lemma quiet_options cs b p : quiet (main_options cs b p).
Proof. revert b p. induction cs as [| c cs IH]; intros b p; cbn [main_options]; quiet_tac. Qed.
Lemma quiet_setscheduler env : quiet (corosync_setscheduler env).
Proof. unfold corosync_setscheduler. quiet_tac. Qed.
Lemma quiet_mlockall : quiet corosync_mlockall.
Proof. unfold corosync_mlockall. quiet_tac. Qed.
Lemma quiet_detach env : quiet (corosync_tty_detach env).
Proof. unfold corosync_tty_detach. quiet_tac. Qed.
Lemma quiet_sig_exit : quiet sig_exit_handler.
Proof. unfold sig_exit_handler, unlink_all_completed. quiet_tac. Qed.

#[export] Hint Resolve quiet_options quiet_setscheduler quiet_mlockall quiet_detach
  quiet_sig_exit : cs_mode.

Lemma serving_step_mode {A B} (m : mainM A) (f : A -> mainM B) st st' :
  quiet m -> mbind m f st = Some (Serving, st') ->
  exists a st1, m st = Some (Go a, st1) /\ cfg_view st1 = cfg_view st /\ f a st1 = Some (Serving, st').
Proof.
  intros Hm H. unfold mbind in H. destruct (m st) as [[[a | c |] st1] |] eqn:E; try discriminate.
  - destruct (Hm _ _ _ E) as [_ Hs]. eauto.
  - by destruct (Hm _ _ _ E).
Qed.

Lemma serving_set_mode {B} md (f : unit -> mainM B) st st' :
  mbind (set_minimum_sync_mode md) f st = Some (Serving, st') ->
  exists st1, cfg_view st1 = (md, snd (cfg_view st)) /\ f tt st1 = Some (Serving, st').
Proof. unfold mbind, set_minimum_sync_mode. intros H. eexists. split; [| exact H]. reflexivity. Qed.

Lemma serving_reset {B} (f : unit -> mainM B) st st' :
  mbind reset_config_modules f st = Some (Serving, st') ->
  exists st1, cfg_view st1 = (fst (cfg_view st), []) /\ f tt st1 = Some (Serving, st').
Proof. unfold mbind, reset_config_modules. intros H. eexists. split; [| exact H]. reflexivity. Qed.

(** A run of the [strtok_r] loop that goes on appends the modules, in
    order. *)
Lemma config_read_go env l : forall st st1,
  config_modules_read env l st = Some (Go tt, st1) ->
  cfg_view st1 = (minimum_sync_mode st, config_modules st ++ l).
Proof.
  induction l as [| i l IH]; intros st st1 H; cbn [config_modules_read] in H.
  - injection H as <-. unfold cfg_view. by rewrite app_nil_r.
  - destruct (_ =? -1); [unfold corosync_exit_error, exit_with in H; discriminate H |].
    destruct (_ =? -1); [unfold corosync_exit_error, exit_with in H; discriminate H |].
    unfold mbind at 1, emit in H. unfold mbind at 1, store_config_module in H.
    destruct (_ <? _)%nat; [| discriminate H]. apply IH in H. rewrite H. cbn. by rewrite <- app_assoc.
Qed.

(** ... and never fills [config_modules] past its end. *)
Lemma config_read_go_bound env l : forall st st1,
  config_modules_read env l st = Some (Go tt, st1) ->
  (length (config_modules st) <= MAX_DYNAMIC_SERVICES)%nat ->
  (length (config_modules st) + length l <= MAX_DYNAMIC_SERVICES)%nat.
Proof.
  induction l as [| i l IH]; intros st st1 H Hb; cbn [config_modules_read length] in *; [lia |].
  destruct (_ =? -1); [unfold corosync_exit_error, exit_with in H; discriminate H |].
  destruct (_ =? -1); [unfold corosync_exit_error, exit_with in H; discriminate H |].
  unfold mbind at 1, emit in H. unfold mbind at 1, store_config_module in H.
  destruct (_ <? _)%nat eqn:Hlt; [| discriminate H]. apply Nat.ltb_lt in Hlt.
  apply IH in H; cbn [config_modules] in *; rewrite ?length_app in *; cbn in *; lia.
Qed.

Lemma serving_config {B} env l (f : unit -> mainM B) st st' :
  mbind (config_modules_read env l) f st = Some (Serving, st') ->
  exists st1, cfg_view st1 = (fst (cfg_view st), snd (cfg_view st) ++ l) /\
              ((length (snd (cfg_view st)) <= MAX_DYNAMIC_SERVICES)%nat ->
               (length (snd (cfg_view st)) + length l <= MAX_DYNAMIC_SERVICES)%nat) /\
              f tt st1 = Some (Serving, st').
Proof.
  intros H. unfold mbind in H. destruct (config_modules_read env l st) as [[[[] | c |] st1] |] eqn:E;
    try discriminate.
  - exists st1. split_and!; [exact (config_read_go _ _ _ _ E) | exact (config_read_go_bound _ _ _ _ E) | exact H].
  - by destruct (plain_config env l _ _ _ E).
Qed.

(** ** Walking through [main]

    [walk] follows a run of [corosync_main] that reaches the main loop
    through its binds, keeping the system state in [Hmos]; [swalk] does the
    same for a run that stops with an exit code, and closes the branches
    whose exit code the step cannot produce ([exits_in]). *)

Ltac no_serve H := unfold corosync_exit_error, exit_with in H; discriminate H.

Ltac walk0 H :=
  repeat first
    [ apply serving_step in H as (? & ? & ? & ? & H); [cbv beta in H | solve [plain_tac]]
    | apply on_os_step in H as (? & ? & ? & H); cbv beta in H
    | no_serve H ].

Ltac walk H Hmos :=
  repeat first
    [ let Hm := fresh in
      apply serving_step in H as (? & ? & ? & Hm & H);
      [cbv beta in H; rewrite Hmos in Hm; clear Hmos; rename Hm into Hmos | solve [plain_tac]]
    | match type of H with
      | (if ?b then _ else _) _ = Some (Serving, _) => destruct b; try no_serve H
      | (match ?x with _ => _ end) _ = Some (Serving, _) => destruct x; try no_serve H
      end ].

Create HintDb cs_exits.
#[export] Hint Resolve exits_options exits_setscheduler exits_mlockall exits_config exits_detach exits_sig_exit
  exits_in_if exits_in_mret exits_in_emit : cs_exits.

Ltac stop_here E :=
  first [ discriminate E
        | exfalso; refine (exits_contra _ _ _ _ _ _ E _);
          [solve [eauto with cs_exits] | apply (bool_decide_unpack _); vm_compute; exact I] ].

Ltac not_in Hc :=
  exfalso; match type of Hc with
  | ?x ∈ ?l =>
      let Hn := fresh in
      assert (Hn : x ∉ l) by (apply (bool_decide_unpack _); vm_compute; exact I); exact (Hn Hc) end.

Ltac exit_code_contra H :=
  let Hc := fresh in
  exfalso; unfold corosync_exit_error, exit_with in H; injection H as Hc _; vm_compute in Hc; discriminate Hc.

Ltac swalk H Hmos :=
  repeat first
    [ let Hm := fresh in let E := fresh "E" in
      apply stop_step in H as [(? & ? & ? & Hm & H) | [E Hm]];
      [ cbv beta in H; rewrite Hmos in Hm; clear Hmos; rename Hm into Hmos
      | stop_here E
      | solve [plain_tac] ]
    | match type of H with
      | (if ?b then _ else _) _ = Some (Stop _, _) => destruct b eqn:?; try exit_code_contra H; try discriminate H
      | (match ?x with _ => _ end) _ = Some (Stop _, _) => destruct x; try exit_code_contra H
      end ].

(** [mwalk] follows a run that reaches the main loop keeping [cfg_view]
    in [Hmd]. *)
Ltac mwalk H Hmd :=
  repeat first
    [ let Hm := fresh in
      first [ apply serving_set_mode in H as (? & Hm & H)
            | apply serving_reset in H as (? & Hm & H)
            | let Hb := fresh "Hbound" in
              apply serving_config in H as (? & Hm & Hb & H); rewrite Hmd in Hb; cbn [fst snd length] in Hb ];
      rewrite Hmd in Hm; cbn [fst snd app] in Hm; clear Hmd; rename Hm into Hmd
    | let Hm := fresh in
      apply serving_step_mode in H as (? & ? & ? & Hm & H);
      [cbv beta in H; rewrite Hmd in Hm; clear Hmd; rename Hm into Hmd | solve [quiet_tac]]
    | match type of H with
      | (if ?b then _ else _) _ = Some (Serving, _) => destruct b; try no_serve H
      | (match ?x with _ => _ end) _ = Some (Serving, _) => destruct x; try no_serve H
      end
    | no_serve H ].

(** A daemon that reaches its main loop runs with the compatibility
    mode the configuration gave ([corosync_main_config_compatibility_read])
    and has recorded the configuration modules of
    [COROSYNC_DEFAULT_CONFIG_IFACE], in order. *)
Lemma main_serving_cfg fuel env s st :
  corosync_main fuel env (main_start s) = Some (Serving, st) ->
  cfg_view st = (compatibility_mode env, strtok_split (default COROSYNC_PARSER (default_config_iface env))) /\
  (length (strtok_split (default COROSYNC_PARSER (default_config_iface env))) <= MAX_DYNAMIC_SERVICES)%nat.
Proof.
  intros H. unfold corosync_main in H.
  assert (Hmd : cfg_view (main_start s) = (CS_SYNC_V1, [])) by reflexivity.
  mwalk H Hmd. injection H as <-. split; [exact Hmd | apply Hbound; lia].
Qed.

Lemma main_serving_mode fuel env s st :
  corosync_main fuel env (main_start s) = Some (Serving, st) -> minimum_sync_mode st = compatibility_mode env.
Proof. intros H. apply main_serving_cfg in H as [H _]. unfold cfg_view in H. by injection H. Qed.

(** C37. [config_modules] has [MAX_DYNAMIC_SERVICES] entries and nothing
    checks [num_config_modules] against it: once every module of the list
    loads, a list of more modules than fit writes past the array. *)
Theorem config_modules_overflow env l : forall st,
  Forall (fun i => iface_load_res env i <> -1 /\ iface_readconfig_res env i <> -1) l ->
  (length (config_modules st) <= MAX_DYNAMIC_SERVICES)%nat ->
  (MAX_DYNAMIC_SERVICES < length (config_modules st) + length l)%nat ->
  config_modules_read env l st = None.
Proof.
  induction l as [| i l IH]; intros st Hok Hb Hover; cbn [length] in Hover; [lia |].
  apply Forall_cons in Hok as [[Hl Hr] Hok]. cbn [config_modules_read].
  rewrite (proj2 (Z.eqb_neq _ _) Hl), (proj2 (Z.eqb_neq _ _) Hr).
  unfold mbind at 1, emit. unfold mbind at 1, store_config_module.
  destruct (_ <? _)%nat eqn:Hlt; [| reflexivity]. apply Nat.ltb_lt in Hlt.
  cbn [config_modules] in Hlt.
  apply IH; [exact Hok | |]; cbn [config_modules]; rewrite length_app; cbn [length]; lia.
Qed.

(** What [main_get_config_modules] hands to the services of a daemon that
    reached its main loop: the [strtok_r] pieces of
    [COROSYNC_DEFAULT_CONFIG_IFACE] (default ["corosync_parser"]), in
    order, with their number, at most [MAX_DYNAMIC_SERVICES]. *)
Theorem main_config_modules fuel env s st :
  corosync_main fuel env (main_start s) = Some (Serving, st) ->
  let mods := strtok_split (default COROSYNC_PARSER (default_config_iface env)) in
  main_get_config_modules st = (mods, Z.of_nat (length mods)) /\ (length mods <= MAX_DYNAMIC_SERVICES)%nat.
Proof.
  intros H mods. destruct (main_serving_cfg _ _ _ _ H) as [Hv Hb]. unfold cfg_view in Hv.
  injection Hv as _ Hc. unfold main_get_config_modules. rewrite Hc. by split.
Qed.

(** ** Start-up, the lock and shutdown *)

(** C26. When no write to the pid file is short ([no_short_writes], the
    condition of C7; C23 shows what a short write leaves), a daemon that
    reaches the main loop holds the pid lock file: [/var/run/corosync.pid]
    holds its pid line, the descriptor [corosync_flock] opened holds the
    lock with [FD_CLOEXEC] set, and the pid written is the child's pid
    after [fork] unless [-f] kept corosync in the foreground. *)
Theorem main_daemon_holds_lock fuel env s st :
  os_wf s -> no_short_writes (kernel s) ->
  corosync_main fuel env (main_start s) = Some (Serving, st) ->
  files (mos st) !! corosync_lock_file = Some (pid_line (getpid (mos st))) /\
  fds (mos st) !! next_fd s = Some {| of_path := corosync_lock_file; of_offset := length (pid_line (getpid (mos st)));
                                      of_locked := true; of_cloexec := true |} /\
  ("f"%char ∉ getopt (argv env) -> fork_res env = Some (getpid (mos st))) /\
  ("f"%char ∈ getopt (argv env) -> getpid (mos st) = getpid s).
Proof.
  intros Hwf Hns H. unfold corosync_main in H.
  assert (Hmos : mos (main_start s) = s) by reflexivity.
  walk H Hmos.
  apply detach_step in H as (st1 & H & Hbg1 & Hbg0).
  assert (Hm1 : mos st1 = with_pid s (getpid (mos st1))).
  { destruct b; [destruct (Hbg1 eq_refl) as (c & _ & ->) | rewrite (Hbg0 eq_refl)]; rewrite Hmos;
      [reflexivity | by destruct s]. }
  rename Hmos into Hx23. assert (Hmos : mos st1 = mos st1) by reflexivity.
  walk H Hmos.
  apply on_os_step in H as (pid & s1 & Eg & H). injection Eg as <- <-. cbv beta in H.
  apply on_os_step in H as (err & s2 & Ef & H). cbv beta in H.
  match type of H with _ (set_mos s2 ?t) = _ => assert (Hmos2 : mos (set_mos s2 t) = s2) by reflexivity end.
  walk H Hmos2.
  2: walk0 H.
  injection H as <-. apply dec_stable in n. subst err.
  cbn [mos set_mos] in Ef. set (pid := getpid (mos st1)) in *. rewrite Hm1 in Ef.
  destruct (flock_success_state _ _ _ (with_pid s pid) _ Hwf Hns Ef) as (Hfd & Hfile & _ & _).
  pose proof (flock_keeps_getpid _ _ _ _ _ _ Ef) as Hg. cbn [getpid with_pid] in Hg.
  rewrite Hmos2, Hg. split_and!; [exact Hfile | exact Hfd | |].
  - intros Hf. assert (b = true) as Hb by (apply (main_options_go _ _ _ _ _ _ _ H1); done).
    destruct (Hbg1 Hb) as (c & Hc & Hs). rewrite Hc. subst pid. by rewrite Hs.
  - intros Hf. assert (b = false) as Hb.
    { destruct b; [| done]. apply (main_options_go _ _ _ _ _ _ _ H1) in Hf; [done | done]. }
    subst pid. rewrite (Hbg0 Hb), Hx23. done.
Qed.

(** C29. When [corosync_flock] finds the lock held by another instance,
    [main] exits with [AIS_DONE_ALREADY_RUNNING] without leaving a
    descriptor open, and the pid file of the running instance is left as
    it was. *)
Theorem main_second_instance fuel env s st :
  os_wf s ->
  corosync_main fuel env (main_start s) = Some (Stop (e_ais_done_value AIS_DONE_ALREADY_RUNNING), st) ->
  fds (mos st) = fds s /\
  (forall c, files s !! corosync_lock_file = Some c -> files (mos st) !! corosync_lock_file = Some c).
Proof.
  intros Hwf H. unfold corosync_main in H.
  assert (Hmos : mos (main_start s) = s) by reflexivity.
  swalk H Hmos.
  apply detach_stop_step in H as [(_ & [Hc | (Hc & _)]) | (st1 & H & Hbg1 & Hbg0)];
    [not_in Hc | vm_compute in Hc; discriminate Hc |].
  assert (Hm1 : files (mos st1) = files s /\ fds (mos st1) = fds s /\ os_wf (mos st1)).
  { destruct b; [destruct (Hbg1 eq_refl) as (c & _ & ->) | rewrite (Hbg0 eq_refl)]; rewrite Hmos; done. }
  clear Hmos Hbg1 Hbg0. assert (Hmos : mos st1 = mos st1) by reflexivity.
  swalk H Hmos.
  apply on_os_step in H as (pid & s1 & Eg & H). injection Eg as <- <-. cbv beta in H.
  apply on_os_step in H as (err & s2 & Ef & H). cbv beta in H.
  match type of H with _ (set_mos s2 ?t) = _ => assert (Hmos2 : mos (set_mos s2 t) = s2) by reflexivity end.
  swalk H Hmos2.
  2: { apply on_os_step in H as (r & s3 & _ & H). cbv beta in H.
       apply stop_step in H as [(? & ? & ? & _ & H) | [E _]]; [exit_code_contra H | discriminate E | plain_tac]. }
  unfold corosync_exit_error, exit_with in H. injection H as Hc <-.
  assert (err = AIS_DONE_ALREADY_RUNNING) as -> by (destruct err; cbn in Hc; congruence).
  cbn [mos set_mos] in Ef. destruct Hm1 as (Hf1 & Hd1 & Hw1).
  destruct (flock_error_state _ _ _ _ _ _ Hw1 Ef n) as (_ & Hfds & Hfile).
  rewrite Hmos2. split; [congruence |]. intros c Hc0. apply Hfile; [done |]. rewrite Hf1. exact Hc0.
Qed.

(** C33. When [main] exits with [0].  A process running [main] exits
    with [0] in three cases only.  (1) [-v] printed the version, and the
    system was not touched.  (2) It is the parent of the fork: [-f] was not
    given, the fork succeeded, and the parent's [exit (0)] is its last
    action; it leaves the system as it found it, before the child takes
    the pid lock file or starts totem, so its caller sees success whatever
    the daemon then does (for instance exit with
    [AIS_DONE_ALREADY_RUNNING]).  (3) It ran the main loop and a shutdown
    signal stopped it: then its last steps are the services' unlink, the
    stats timer deleted, the loop stopped, totem finalized and the pid file
    unlinked, and the pid file is gone unless the unlink failed. *)
Theorem main_shutdown fuel env s st :
  os_wf s -> corosync_main fuel env (main_start s) = Some (Stop EXIT_SUCCESS, st) ->
  (PrintVersion ∈ trace st /\ mos st = s) \/
  (fork_in_parent env = true /\ ("f"%char ∉ getopt (argv env)) /\ is_Some (fork_res env) /\
   last (trace st) = Some ParentExit /\ mos st = s) \/
  (shutdown_requested env = true /\
   exists pre r, trace st = pre ++ [LoopRun; ServiceUnlinkAll; StatsTimerDelete; LoopStop; TotemFinalize;
                                    UnlinkLockFile r] /\
                 (r = -1 \/ files (mos st) !! corosync_lock_file = None)).
Proof.
  intros Hwf H. unfold corosync_main in H.
  apply stop_step in H as [(opts & st0 & E0 & M0 & H) | [E Hm]]; [| | apply plain_options].
  2: { left. destruct (options_stop _ _ _ _ _ _ E) as [Hm' Hv]. split; [by apply Hv | exact Hm']. }
  cbv beta in H. destruct opts as [b b0].
  assert (Hmos : mos st0 = s) by exact M0.
  swalk H Hmos.
  apply detach_stop_step in H as [(Hb & [Hc | (_ & Hp & Hf & Ht & Hm)]) | (st1 & H & _ & _)];
    [not_in Hc | |].
  { right. left. split_and!; [done | | done | | congruence].
    - by apply (main_options_go _ _ _ _ _ _ _ E0) in Hb as [_ Hf'].
    - rewrite Ht. apply last_snoc. }
  assert (Hmos1 : mos st1 = mos st1) by reflexivity.
  swalk H Hmos1.
  apply on_os_step in H as (pid & s1 & _ & H). cbv beta in H.
  apply on_os_step in H as (err & s2 & _ & H). cbv beta in H.
  match type of H with _ (set_mos s2 ?t) = _ => assert (Hmos2 : mos (set_mos s2 t) = s2) by reflexivity end.
  swalk H Hmos2.
  { exfalso. unfold corosync_exit_error, exit_with in H. injection H as Hc _.
    unfold EXIT_SUCCESS in Hc; destruct err; cbn in Hc; try congruence; contradiction. }
  right. right. split; [by apply negb_false_iff |].
  apply on_os_step in H as (r & s3 & Eu & H). cbv beta in H.
  unfold corosync_exit_error, exit_with, mbind, emit in H. injection H as <-.
  match goal with Hs : sig_exit_handler _ = Some (Go ?u, _) |- _ =>
    destruct u; apply sig_exit_trace in Hs as [Ht _] end.
  match goal with Hx : emit TotemFinalize _ = Some _ |- _ => injection Hx as _ <- end.
  match goal with Hx : emit LoopRun ?x = Some _ |- _ => injection Hx as _ <-; exists (trace x), r end.
  split; [cbn; rewrite Ht; cbn; by rewrite <- !app_assoc |].
  cbn. by apply unlink_result in Eu.
Qed.

Lemma main_daemon_holds_lock_witness :
  exists st, corosync_main 3 (demo_env [] false) (main_start demo_boot) = Some (Serving, st) /\
             files (mos st) !! corosync_lock_file = Some (pid_line 5000).
Proof.
  destruct (corosync_main 3 (demo_env [] false) (main_start demo_boot)) as [[o st] |] eqn:E;
    [| vm_compute in E; discriminate].
  assert (o = Serving) as -> by (vm_compute in E; injection E as Ho _; rewrite <- Ho; reflexivity).
  destruct (main_daemon_holds_lock 3 (demo_env [] false) demo_boot st (demo_os_wf _ _)
              ltac:(by intros i n) E) as (Hfile & _ & Hfork & _).
  exists st. split; [done |]. rewrite Hfile.
  assert (Hpid : Some 5000 = Some (getpid (mos st))) by (apply Hfork, (bool_decide_unpack _); vm_compute; exact I).
  by injection Hpid as <-.
Defined.

Lemma main_second_instance_witness :
  exists st, corosync_main 3 (demo_env ["-f"%string] false) (main_start second_instance) =
               Some (Stop (e_ais_done_value AIS_DONE_ALREADY_RUNNING), st) /\
             fds (mos st) = ∅ /\ files (mos st) !! corosync_lock_file = Some (pid_line 1234).
Proof.
  destruct (corosync_main 3 (demo_env ["-f"%string] false) (main_start second_instance)) as [[o st] |] eqn:E;
    [| vm_compute in E; discriminate].
  assert (o = Stop (e_ais_done_value AIS_DONE_ALREADY_RUNNING)) as -> by (vm_compute in E; injection E as Ho _; rewrite <- Ho; reflexivity).
  destruct (main_second_instance 3 _ second_instance st (demo_os_wf _ _) E) as (Hfds & Hfile).
  exists st. split_and!; [done | exact Hfds | apply Hfile; reflexivity].
Defined.

Lemma main_shutdown_witness :
  exists st, corosync_main 3 (demo_env [] true) (main_start demo_boot) = Some (Stop EXIT_SUCCESS, st) /\
             exists pre r, trace st = pre ++ [LoopRun; ServiceUnlinkAll; StatsTimerDelete; LoopStop;
                                              TotemFinalize; UnlinkLockFile r].
Proof.
  destruct (corosync_main 3 (demo_env [] true) (main_start demo_boot)) as [[o st] |] eqn:E;
    [| vm_compute in E; discriminate].
  assert (o = Stop EXIT_SUCCESS) as -> by (vm_compute in E; injection E as Ho _; rewrite <- Ho; reflexivity).
  exists st. split; [done |].
  destruct (main_shutdown 3 _ demo_boot st (demo_os_wf _ _) E)
    as [[Hv _] | [(Hp & _) | (_ & pre & r & Ht & _)]].
  - vm_compute in E. injection E as <-. not_in Hv.
  - discriminate Hp.
  - by exists pre, r.
Defined.

Lemma config_modules_overflow_example :
  config_modules_read (demo_env [] false) (replicate 129 (list_ascii_of_string "m")) (main_start demo_boot) = None.
Proof.
  apply config_modules_overflow.
  - apply Forall_replicate. split; discriminate.
  - cbn [config_modules main_start length]. unfold MAX_DYNAMIC_SERVICES. lia.
  - rewrite length_replicate. cbn [config_modules main_start length]. unfold MAX_DYNAMIC_SERVICES. lia.
Defined.

Lemma main_config_modules_example :
  exists st, corosync_main 3 (demo_env [] false) (main_start demo_boot) = Some (Serving, st) /\
             main_get_config_modules st = ([list_ascii_of_string "corosync_parser"], 1).
Proof.
  destruct (corosync_main 3 (demo_env [] false) (main_start demo_boot)) as [[o st] |] eqn:E;
    [| vm_compute in E; discriminate].
  assert (o = Serving) as -> by (vm_compute in E; injection E as Ho _; rewrite <- Ho; reflexivity).
  exists st. split; [done |]. exact (proj1 (main_config_modules _ _ _ _ E)).
Defined.
