(* ===== verification/ServiceReady.v ===== *)
(** * Services coming up and the runtime controls ([main_service_ready],
      the blackbox control, [corosync_state_dump], main.c)

    Once totem runs, it calls back [main_service_ready] (registered by
    [main] through [totempg_service_ready_register], Startup.v).  That
    function links the default services (or ends the process with
    [AIS_DONE_INIT_SERVICES]), starts the IPC server ([cs_ipcs_init],
    Server.v), creates the totem statistics objects
    ([corosync_totem_stats_init], TotemStats.v), creates the
    [runtime.blackbox] control object ([corosync_fplay_control_init]) and
    starts the sync engines that main.c's [minimum_sync_mode] asks for.
    Afterwards a write to [runtime.blackbox.dump_flight_data] or
    [runtime.blackbox.dump_state] (through confdb) reaches
    [fplay_key_change_notify_fn], which writes the flight recorder or runs
    [corosync_state_dump]: the [exec_dump_fn] of every loaded service.
    [SIGUSR2] does both ([sig_diag_handler]).

    - The three parts [main_service_ready] starts share one answer: whether
      the ["runtime"] object exists ([runtime_object]), which [cs_ipcs_init],
      [corosync_totem_stats_init] and [corosync_fplay_control_init] each
      look up.
    - The blackbox object lives in a part of the object database of its
      own ([bb_objdb]): objects with a parent, a name and string keys
      ([OBJDB_VALUETYPE_STRING]), and the handles [object_track_start]
      registered.  The object database is outside src/; its
      [object_key_replace] with the tracking notification is modelled from
      its interface ([confdb_key_replace]).
    - Calls whose effect is outside the model ([exec_dump_fn],
      [qb_log_blackbox_write_to_file], the sync engine set-up, the
      signal calls) are [ready_effect]s, in the order the code makes them.
    - [main_service_ready] runs in Startup's [mainM]: it reads
      [minimum_sync_mode] from main.c's statics and exits through
      [corosync_exit_error].

    Theorems: the dump loop is a filter of the service table, and reads
    past a table shorter than [SERVICE_HANDLER_MAXIMUM_COUNT]; the
    notification acts on the key name alone, whatever the change and the
    value; after the control object is created, a confdb write of
    [dump_state] runs the dump; [main_service_ready] starts the engines
    [minimum_sync_mode] names, and none for [CS_SYNC_V1_APIV2]; composed
    with Startup's [corosync_main], those are the engines of the
    compatibility mode the configuration gave. *)

From Stdlib Require Import ZArith Lia Ascii String.
From stdpp Require Import base list gmap fin_maps strings.
From S2P Require Import Prelude CoroDefs FlowControl Server TotemStats LockFile Startup.

Open Scope Z_scope.

(** ** Effects *)

Inductive ready_effect :=
| ExecDumpFn (i : nat)              (** [ais_service[i]->exec_dump_fn ()] *)
| BlackboxWriteToFile               (** [qb_log_blackbox_write_to_file (.../fdata)] *)
| ServiceDefaultsLinkAndInit        (** [corosync_service_defaults_link_and_init (api)] *)
| EvilInit                          (** [evil_init (api)] *)
| StatsTimerArmed (ns : Z)          (** the timer of [corosync_totem_stats_init] *)
| SyncRegister                      (** [sync_register (...)]: the v1 engine *)
| SyncV2Init                        (** [sync_v2_init (...)] *)
| SignalDefault (signum : Z)        (** [signal (signum, SIG_DFL)] *)
| LogFini                           (** [qb_log_fini ()] *)
| Raise (signum : Z).               (** [raise (signum)] *)

#[export] Instance ready_effect_eq_dec : EqDecision ready_effect.
Proof. solve_decision. Defined.

Definition SIGSEGV : Z := 11.
Definition SIGABRT : Z := 6.

(** ** [corosync_state_dump] (lines 193-202) *)

(** The [for] loop from index [i] with [n] iterations left. *)
Fixpoint state_dump_loop (reg : list service_slot) (i n : nat) : c_read (list ready_effect) :=
  match n with
  | O => Loaded []
  | S n' =>
      match array_get reg (Z.of_nat i) with
      | OutOfBounds => OutOfBounds
      | Loaded slot =>
          let here := match ais_service_entry slot with
                      | Some svc => if exec_dump_fn_present svc then [ExecDumpFn i] else []
                      | None => []
                      end in
          match state_dump_loop reg (S i) n' with
          | Loaded rest => Loaded (here ++ rest)
          | OutOfBounds => OutOfBounds
          end
      end
  end.

Definition corosync_state_dump (reg : list service_slot) : c_read (list ready_effect) :=
  state_dump_loop reg 0 (Z.to_nat SERVICE_HANDLER_MAXIMUM_COUNT).

(** [sig_diag_handler] (lines 216-221), the [SIGUSR2] handler. *)
Definition sig_diag_handler (reg : list service_slot) : c_read (list ready_effect) :=
  match corosync_state_dump reg with
  | Loaded effs => Loaded (effs ++ [BlackboxWriteToFile])
  | OutOfBounds => OutOfBounds
  end.

(** [sigsegv_handler] and [sigabrt_handler] (lines 229-243). *)
Definition fatal_signal_handler (signum : Z) : list ready_effect :=
  [SignalDefault signum; BlackboxWriteToFile; LogFini; Raise signum].

Definition sigsegv_handler : list ready_effect := fatal_signal_handler SIGSEGV.
Definition sigabrt_handler : list ready_effect := fatal_signal_handler SIGABRT.

(** ** [fplay_key_change_notify_fn] (lines 1064-1081) *)

(** [object_change_type_t] (objdb.h). *)
Inductive object_change_type := OBJECT_KEY_CREATED | OBJECT_KEY_REPLACED | OBJECT_KEY_DELETED.

(** [memcmp (a, b, n) == 0]. *)
Definition memcmp_eq (n : nat) (a b : list ascii) : bool := bool_decide (take n a = take n b).

(** [key_len == strlen (lit) && memcmp (lit, key_name_pt, key_len) == 0]. *)
Definition key_is (lit : string) (key_name : list ascii) (key_len : nat) : bool :=
  bool_decide (key_len = String.length lit) && memcmp_eq key_len (list_ascii_of_string lit) key_name.

(** The object database passes the changed key's name with its length;
    the change type, the handles, the object name and the value are not
    read. *)
Definition fplay_key_change_notify_fn (reg : list service_slot) (change_type : object_change_type)
    (parent_object_handle object_handle : Z) (object_name key_name key_value : list ascii)
    : c_read (list ready_effect) :=
  let key_len := length key_name in
  let flight := if key_is "dump_flight_data" key_name key_len then [BlackboxWriteToFile] else [] in
  if key_is "dump_state" key_name key_len then
    match corosync_state_dump reg with
    | Loaded effs => Loaded (flight ++ effs)
    | OutOfBounds => OutOfBounds
    end
  else Loaded flight.

(** ** The blackbox part of the object database *)

(** A string key ([OBJDB_VALUETYPE_STRING]). *)
Record fkey := { fk_name : string; fk_value : list ascii }.

Record fobject := { fo_parent : Z; fo_name : string; fo_keys : list fkey }.

Record bb_objdb := { bb_objs : gmap Z fobject; bb_next : Z; bb_tracked : list Z }.

(** [object_create]: a new object without keys at the next handle. *)
Definition bb_object_create (parent : Z) (name : string) (db : bb_objdb) : Z * bb_objdb :=
  (bb_next db, {| bb_objs := <[bb_next db := {| fo_parent := parent; fo_name := name; fo_keys := [] |}]>
                               (bb_objs db);
                  bb_next := bb_next db + 1; bb_tracked := bb_tracked db |}).

(** [object_key_create_typed (h, name, value, len, OBJDB_VALUETYPE_STRING)]. *)
Definition bb_key_create (h : Z) (name : string) (value : list ascii) (db : bb_objdb) : bb_objdb :=
  match bb_objs db !! h with
  | Some o => {| bb_objs := <[h := {| fo_parent := fo_parent o; fo_name := fo_name o;
                                      fo_keys := fo_keys o ++ [{| fk_name := name; fk_value := value |}] |}]>
                              (bb_objs db);
                 bb_next := bb_next db; bb_tracked := bb_tracked db |}
  | None => db
  end.

(** [object_track_start (h, OBJECT_TRACK_DEPTH_RECURSIVE, fplay_key_change_notify_fn, ...)]. *)
Definition bb_track_start (h : Z) (db : bb_objdb) : bb_objdb :=
  {| bb_objs := bb_objs db; bb_next := bb_next db; bb_tracked := h :: bb_tracked db |}.

(** ** [corosync_fplay_control_init] (lines 1083-1113) *)

(** [runtime] is what [object_find_next] found for ["runtime"]; without
    it the function returns at once. *)
Definition corosync_fplay_control_init (runtime : option Z) (db : bb_objdb) : bb_objdb :=
  match runtime with
  | None => db
  | Some rt =>
      let '(bb, db1) := bb_object_create rt "blackbox" db in
      let db2 := bb_key_create bb "dump_flight_data" (list_ascii_of_string "no") db1 in
      let db3 := bb_key_create bb "dump_state" (list_ascii_of_string "no") db2 in
      bb_track_start bb db3
  end.

(** ** A confdb write ([object_key_replace] of the object database) *)

Fixpoint fkey_replace (name : string) (v : list ascii) (ks : list fkey) : option (list fkey) :=
  match ks with
  | [] => None
  | k :: ks' => if String.eqb (fk_name k) name then Some ({| fk_name := name; fk_value := v |} :: ks')
                else cons k <$> fkey_replace name v ks'
  end.

(** The key is replaced; when the object or its parent is tracked, the
    tracker is called with [OBJECT_KEY_REPLACED].  A missing object or key
    is an error ([None]). *)
Definition confdb_key_replace (reg : list service_slot) (h : Z) (name : string) (v : list ascii)
    (db : bb_objdb) : option (bb_objdb * c_read (list ready_effect)) :=
  o ← bb_objs db !! h;
  ks ← fkey_replace name v (fo_keys o);
  let db' := {| bb_objs := <[h := {| fo_parent := fo_parent o; fo_name := fo_name o; fo_keys := ks |}]>
                            (bb_objs db);
                bb_next := bb_next db; bb_tracked := bb_tracked db |} in
  Some (db', if bool_decide (h ∈ bb_tracked db \/ fo_parent o ∈ bb_tracked db)
             then fplay_key_change_notify_fn reg OBJECT_KEY_REPLACED (fo_parent o) h
                    (list_ascii_of_string (fo_name o)) (list_ascii_of_string name) v
             else Loaded []).

(** ** [main_service_ready] (lines 1115-1150) *)

(** What the calls of [main_service_ready] answer: the result of
    [corosync_service_defaults_link_and_init], whether ["runtime"] exists
    (and its handle), and the service table, exit flags and allowed
    users [cs_ipcs_init] starts from. *)
Record ready_env := {
  link_and_init_res : Z;
  runtime_object : option Z;
  ready_reg : list service_slot;
  ready_exiting : list bool;
  ready_uidgid : list uidgid_item
}.

(** The state the services run on: the IPC server, totem's statistics and
    their objects, the handle of ["members"], the blackbox objects, and
    the calls made. *)
Record services := {
  sv_srv : ipc_server;
  sv_stats : totempg_stats;
  sv_tdb : totem_objdb;
  sv_members : option Z;
  sv_bb : bb_objdb;
  sv_effects : list ready_effect
}.

Definition stats_timer (e : stats_effect) : ready_effect :=
  match e with StatsTimerAdd ns => StatsTimerArmed ns end.

(** The engines started for a [minimum_sync_mode] (lines 1131-1148). *)
Definition sync_engines_init (mode : cs_sync_mode) : list ready_effect :=
  if decide (mode = CS_SYNC_V2) then [SyncV2Init]
  else if decide (mode = CS_SYNC_V1) then [SyncRegister; SyncV2Init]
  else [].

Definition main_service_ready (env : ready_env) (sv : services) : mainM services :=
  if link_and_init_res env =? -1 then corosync_exit_error AIS_DONE_INIT_SERVICES else
  fun st =>
    let srv := cs_ipcs_init (bool_decide (is_Some (runtime_object env))) (ready_reg env)
                 (ready_exiting env) (ready_uidgid env) in
    let '(stats, tdb, memb, timers) := corosync_totem_stats_init (runtime_object env) (sv_stats sv) (sv_tdb sv) in
    let bb := corosync_fplay_control_init (runtime_object env) (sv_bb sv) in
    Some (Go {| sv_srv := srv; sv_stats := stats; sv_tdb := tdb; sv_members := memb; sv_bb := bb;
                sv_effects := sv_effects sv ++ [ServiceDefaultsLinkAndInit; EvilInit] ++
                              map stats_timer timers ++ sync_engines_init (minimum_sync_mode st) |}, st).

(** ** [message_source_is_local] and [message_source_set] (lines 970-990) *)

(** [mar_message_source_t] (ipc headers, outside src/): the node id and
    the connection pointer, [0] for [NULL]. *)
Record mar_message_source := { ms_nodeid : Z; ms_conn : Z }.

(** [source] is [None] for a [NULL] pointer; a failed [assert] is [None]. *)
Definition message_source_is_local (my_nodeid : Z) (source : option mar_message_source) : option Z :=
  src ← source;
  Some (if ms_nodeid src =? my_nodeid then 1 else 0).

Definition message_source_set (my_nodeid : Z) (source_present : bool) (conn : Z)
    : option mar_message_source :=
  if source_present && negb (conn =? 0) then Some {| ms_nodeid := my_nodeid; ms_conn := conn |}
  else None.

(** ** Observations and concrete inputs *)

(** Whether slot [i] holds a service with an [exec_dump_fn]. *)
Definition has_dump (reg : list service_slot) (i : nat) : bool :=
  match reg !! i with
  | Some slot => match ais_service_entry slot with Some svc => exec_dump_fn_present svc | None => false end
  | None => false
  end.

(** The dump calls of slots [i] to [i + n - 1], in index order. *)
Definition dumps_of (reg : list service_slot) (i n : nat) : list ready_effect :=
  ExecDumpFn <$> filter (fun j => has_dump reg j = true) (seq i n).

Definition SERVICE_SLOTS : nat := Z.to_nat SERVICE_HANDLER_MAXIMUM_COUNT.

(** The keys [corosync_fplay_control_init] gives the blackbox object. *)
Definition blackbox_keys : list fkey :=
  [{| fk_name := "dump_flight_data"; fk_value := list_ascii_of_string "no" |};
   {| fk_name := "dump_state"; fk_value := list_ascii_of_string "no" |}].

(** Services coming up on a node whose object database has ["runtime"]
    at handle [1], with the CPG-like service in slot 8. *)
Definition ready_demo_env : ready_env :=
  {| link_and_init_res := 0; runtime_object := Some 1; ready_reg := reg_cpg;
     ready_exiting := replicate SERVICE_SLOTS false; ready_uidgid := [] |}.

Definition ready_demo_services : services :=
  {| sv_srv := srv_boot; sv_stats := demo_stats 2 7; sv_tdb := demo_db; sv_members := None;
     sv_bb := {| bb_objs := ∅; bb_next := 100; bb_tracked := [] |}; sv_effects := [] |}.

Definition ready_demo_st (mode : cs_sync_mode) : main_st :=
  {| trace := []; mos := demo_boot; sched_priority := 0; minimum_sync_mode := mode; config_modules := [] |}.

(** ** Lemmas *)

Lemma state_dump_loop_in_table reg : forall n i,
  (i + n <= length reg)%nat -> state_dump_loop reg i n = Loaded (dumps_of reg i n).
Proof.
  unfold dumps_of. induction n as [| n IH]; intros i Hle; [done |].
  cbn [state_dump_loop seq]. rewrite array_get_lookup.
  destruct (lookup_lt_is_Some_2 reg i) as [slot Hs]; [lia |]. rewrite Hs, IH by lia.
  assert (Hd : has_dump reg i = match ais_service_entry slot with
                                | Some svc => exec_dump_fn_present svc | None => false end)
    by (unfold has_dump; by rewrite Hs).
  rewrite filter_cons.
  destruct (ais_service_entry slot) as [svc |]; [destruct (exec_dump_fn_present svc) |];
    rewrite Hd; [rewrite decide_True | rewrite decide_False | rewrite decide_False]; done.
Qed.

Lemma state_dump_loop_past reg : forall n i,
  (i <= length reg < i + n)%nat -> state_dump_loop reg i n = OutOfBounds.
Proof.
  induction n as [| n IH]; intros i Hle; [lia |].
  cbn [state_dump_loop]. destruct (decide (i = length reg)) as [-> | Hne].
  - by rewrite array_get_oob by lia.
  - rewrite array_get_lookup. destruct (lookup_lt_is_Some_2 reg i) as [slot Hs]; [lia |].
    rewrite Hs, IH by lia. done.
Qed.

Lemma length_list_ascii_of_string s : length (list_ascii_of_string s) = String.length s.
Proof. induction s; cbn; auto. Qed.

Lemma key_is_name lit k : key_is lit k (length k) = bool_decide (k = list_ascii_of_string lit).
Proof.
  unfold key_is, memcmp_eq. rewrite (take_ge k (length k)) by lia.
  destruct (decide (length k = String.length lit)) as [Hl | Hl].
  - rewrite bool_decide_eq_true_2 by done. cbn.
    rewrite take_ge by (rewrite length_list_ascii_of_string; lia).
    apply bool_decide_ext. split; intros; by symmetry.
  - rewrite bool_decide_eq_false_2 by done. cbn. symmetry. apply bool_decide_eq_false_2.
    intros ->. apply Hl. apply length_list_ascii_of_string.
Qed.

(** The dump loop of [corosync_state_dump] on a full service table is a
    filter: it calls the [exec_dump_fn] of each loaded service that has
    one, in slot order. *)
Theorem state_dump_filter reg :
  length reg = SERVICE_SLOTS -> corosync_state_dump reg = Loaded (dumps_of reg 0 SERVICE_SLOTS).
Proof. intros Hl. apply state_dump_loop_in_table. unfold SERVICE_SLOTS in *. lia. Qed.

(** On a table shorter than [SERVICE_HANDLER_MAXIMUM_COUNT] the loop
    reads past its end. *)
Theorem state_dump_short_table reg :
  (length reg < SERVICE_SLOTS)%nat -> corosync_state_dump reg = OutOfBounds.
Proof. intros Hl. apply state_dump_loop_past. unfold SERVICE_SLOTS in *. lia. Qed.

(** [fplay_key_change_notify_fn] acts on the changed key's name
    alone.  On a full service table, a change of [dump_flight_data] writes
    the flight recorder, a change of [dump_state] calls every service's
    [exec_dump_fn] in slot order, any other key does nothing, whatever the
    change (creation, replacement, deletion) and the new value: setting
    [dump_state] back to ["no"] dumps the state again. *)
Theorem notify_by_key_name reg ct ph oh on k v :
  length reg = SERVICE_SLOTS ->
  fplay_key_change_notify_fn reg ct ph oh on k v =
  Loaded ((if bool_decide (k = list_ascii_of_string "dump_flight_data") then [BlackboxWriteToFile] else []) ++
          (if bool_decide (k = list_ascii_of_string "dump_state") then dumps_of reg 0 SERVICE_SLOTS else [])).
Proof.
  intros Hl. unfold fplay_key_change_notify_fn. rewrite !key_is_name.
  case_bool_decide; [rewrite state_dump_filter by done |]; by rewrite ?app_nil_r.
Qed.

Lemma fplay_init_some rt db :
  corosync_fplay_control_init (Some rt) db =
  {| bb_objs := <[bb_next db := {| fo_parent := rt; fo_name := "blackbox"; fo_keys := blackbox_keys |}]> (bb_objs db);
     bb_next := bb_next db + 1; bb_tracked := bb_next db :: bb_tracked db |}.
Proof.
  unfold corosync_fplay_control_init, bb_object_create, bb_key_create, bb_track_start. cbn.
  rewrite lookup_insert_eq. cbn. rewrite lookup_insert_eq. cbn. by rewrite !insert_insert_eq.
Qed.

Lemma c_read_app_nil (r : c_read (list ready_effect)) :
  match r with Loaded e => Loaded ([] ++ e) | OutOfBounds => OutOfBounds end = r.
Proof. by destruct r. Qed.

(** After [corosync_fplay_control_init] found ["runtime"], a confdb write
    of any value to [runtime.blackbox.dump_state] runs the state dump, and
    one to [dump_flight_data] writes the flight recorder. *)
Theorem blackbox_controls reg rt db v :
  (exists db1, confdb_key_replace reg (bb_next db) "dump_state" v (corosync_fplay_control_init (Some rt) db) =
               Some (db1, corosync_state_dump reg)) /\
  (exists db2, confdb_key_replace reg (bb_next db) "dump_flight_data" v (corosync_fplay_control_init (Some rt) db) =
               Some (db2, Loaded [BlackboxWriteToFile])).
Proof.
  rewrite fplay_init_some. unfold confdb_key_replace. cbn [bb_objs bb_tracked]. rewrite lookup_insert_eq.
  cbn. rewrite bool_decide_eq_true_2 by (left; apply elem_of_cons; by left).
  split; eexists; [f_equal; f_equal; apply c_read_app_nil | reflexivity].
Qed.

Lemma stats_init_members rt st db :
  exists st' db' m tm, corosync_totem_stats_init (Some rt) st db = (st', db', Some m, tm).
Proof.
  unfold corosync_totem_stats_init.
  repeat match goal with |- context [object_create ?n ?d] => destruct (object_create n d) end. eauto.
Qed.

(** The calls of a [main_service_ready] that returns: everything before
    the sync engines, then the engines of [minimum_sync_mode]. *)
Lemma service_ready_engines env sv st sv' st' :
  main_service_ready env sv st = Some (Go sv', st') ->
  st' = st /\ exists pre, sv_effects sv' = pre ++ sync_engines_init (minimum_sync_mode st).
Proof.
  unfold main_service_ready. destruct (Z.eqb_spec (link_and_init_res env) (-1)); [discriminate |].
  destruct (corosync_totem_stats_init (runtime_object env) (sv_stats sv) (sv_tdb sv))
    as [[[stats tdb] memb] timers].
  intros [= <- <-]. split; [done |].
  exists (sv_effects sv ++ [ServiceDefaultsLinkAndInit; EvilInit] ++ map stats_timer timers).
  cbn [sv_effects]. by rewrite <- !app_assoc.
Qed.

(** C35. What [main_service_ready] leaves behind.  It ends the process
    with [AIS_DONE_INIT_SERVICES] when the default services fail to link;
    otherwise it changes none of main.c's statics, its last calls start the
    sync engines [minimum_sync_mode] names (v2 alone for [CS_SYNC_V2], v1
    then v2 for [CS_SYNC_V1], none for [CS_SYNC_V1_APIV2]), and when
    ["runtime"] exists the IPC server has its connections object, totem's
    ["members"] object exists and a confdb write of [dump_state] runs the
    state dump. *)
Theorem service_ready_outcome env sv st o st' :
  main_service_ready env sv st = Some (o, st') ->
  st' = st /\
  (link_and_init_res env = -1 -> o = Stop (e_ais_done_value AIS_DONE_INIT_SERVICES)) /\
  (forall sv', o = Go sv' ->
     (exists pre, sv_effects sv' = pre ++
        match minimum_sync_mode st with
        | CS_SYNC_V2 => [SyncV2Init]
        | CS_SYNC_V1 => [SyncRegister; SyncV2Init]
        | CS_SYNC_V1_APIV2 => []
        end) /\
     (forall rt v, runtime_object env = Some rt ->
        object_connection_handle (sv_srv sv') = Some 0 /\ is_Some (sv_members sv') /\
        exists db1, confdb_key_replace (ready_reg env) (bb_next (sv_bb sv)) "dump_state" v (sv_bb sv') =
                    Some (db1, corosync_state_dump (ready_reg env)))).
Proof.
  intros H0. pose proof H0 as H. revert H.
  unfold main_service_ready. destruct (Z.eqb_spec (link_and_init_res env) (-1)) as [Hl | Hl].
  - unfold corosync_exit_error, exit_with. intros [= <- <-]. split_and!; [done | done | discriminate].
  - destruct (corosync_totem_stats_init (runtime_object env) (sv_stats sv) (sv_tdb sv))
      as [[[stats tdb] memb] timers] eqn:Es.
    intros E. pose proof E as E'. injection E' as <- <-. split_and!; [done | done |].
    intros sv' [= <-]. split.
    + destruct (service_ready_engines env sv st _ st H0) as [_ [pre Hpre]].
      exists pre. rewrite Hpre. unfold sync_engines_init. by destruct (minimum_sync_mode st).
    + intros rt v Hrt. cbn [sv_srv sv_members sv_bb]. rewrite Hrt in Es |- *. split_and!.
      * by rewrite bool_decide_eq_true_2 by done.
      * destruct (stats_init_members rt (sv_stats sv) (sv_tdb sv)) as (? & ? & m & ? & Em).
        rewrite Em in Es. injection Es as _ _ <- _. by eexists.
      * apply blackbox_controls.
Qed.

(** Start-up and the service callback together: whatever the run of
    [main] that reached the main loop, the sync engines
    [main_service_ready] then starts are those of the compatibility mode
    read from the configuration. *)
Theorem configured_sync_engines fuel env s st renv sv sv' st' :
  corosync_main fuel env (main_start s) = Some (Serving, st) ->
  main_service_ready renv sv st = Some (Go sv', st') ->
  exists pre, sv_effects sv' = pre ++ sync_engines_init (compatibility_mode env).
Proof.
  intros Hm Hr. rewrite <- (main_serving_mode _ _ _ _ Hm). exact (proj2 (service_ready_engines _ _ _ _ _ Hr)).
Qed.

(** A source [message_source_set] filled is local, and one of another node
    is not; [NULL] pointers fail the asserts. *)
Theorem message_source_roundtrip my other present conn :
  other <> my ->
  (message_source_set my present conn = None <-> present = false \/ conn = 0) /\
  (conn <> 0 -> message_source_is_local my (message_source_set my true conn) = Some 1 /\
               message_source_is_local other (message_source_set my true conn) = Some 0) /\
  message_source_is_local my None = None.
Proof.
  intros Hne. unfold message_source_set, message_source_is_local.
  split; [| split; [| done]].
  - destruct present, (Z.eqb_spec conn 0); cbn; split; intros H;
      first [ done | by left | by right | discriminate H
            | destruct H as [H | H]; [discriminate H | contradiction] ].
  - intros Hc. rewrite (proj2 (Z.eqb_neq _ _) Hc). cbn. rewrite Z.eqb_refl.
    by rewrite (proj2 (Z.eqb_neq _ _) (not_eq_sym Hne)).
Qed.

(** ** Examples *)

Lemma service_ready_outcome_witness :
  exists sv', main_service_ready ready_demo_env ready_demo_services (ready_demo_st CS_SYNC_V1) =
                Some (Go sv', ready_demo_st CS_SYNC_V1) /\
              (exists pre, sv_effects sv' = pre ++ [SyncRegister; SyncV2Init]) /\
              object_connection_handle (sv_srv sv') = Some 0.
Proof.
  destruct (main_service_ready ready_demo_env ready_demo_services (ready_demo_st CS_SYNC_V1))
    as [[o st'] |] eqn:E; [| vm_compute in E; discriminate].
  destruct (service_ready_outcome _ _ _ _ _ E) as (-> & _ & Hgo).
  destruct o as [sv' | c |]; [| vm_compute in E; discriminate E | vm_compute in E; discriminate E].
  destruct (Hgo sv' eq_refl) as [Heff Hrt]. destruct (Hrt 1 [] eq_refl) as (Hsrv & _ & _).
  exists sv'. split_and!; [done | exact Heff | exact Hsrv].
Defined.

Lemma notify_by_key_name_witness :
  fplay_key_change_notify_fn reg_cpg OBJECT_KEY_REPLACED 1 100 (list_ascii_of_string "blackbox")
    (list_ascii_of_string "dump_state") (list_ascii_of_string "no") = Loaded [ExecDumpFn 8].
Proof.
  rewrite (notify_by_key_name reg_cpg _ _ _ _ _ _ ltac:(reflexivity)). vm_compute. reflexivity.
Defined.

Lemma message_source_roundtrip_witness :
  message_source_is_local 3 (message_source_set 3 true 77) = Some 1.
Proof. apply (message_source_roundtrip 3 4 true 77 ltac:(lia)). lia. Defined.

Lemma configured_sync_engines_example :
  exists st sv', corosync_main 3 (demo_env [] false) (main_start demo_boot) = Some (Serving, st) /\
                 main_service_ready ready_demo_env ready_demo_services st = Some (Go sv', st) /\
                 exists pre, sv_effects sv' = pre ++ [SyncRegister; SyncV2Init].
Proof.
  destruct (corosync_main 3 (demo_env [] false) (main_start demo_boot)) as [[o st] |] eqn:E;
    [| vm_compute in E; discriminate].
  assert (o = Serving) as -> by (vm_compute in E; injection E as Ho _; rewrite <- Ho; reflexivity).
  destruct (main_service_ready ready_demo_env ready_demo_services st) as [[o' st'] |] eqn:R;
    [| vm_compute in R; discriminate].
  destruct o' as [sv' | c |]; [| vm_compute in R; discriminate R | vm_compute in R; discriminate R].
  assert (Hst : st' = st) by exact (proj1 (service_ready_engines _ _ _ _ _ R)). subst st'.
  exists st, sv'. split_and!; [done | done |]. exact (configured_sync_engines _ _ _ _ _ _ _ _ E R).
Defined.
