(* ===== verification/LoopGlue.v ===== *)
(** * The main-loop glue (ipc_glue.c and main.c)

    libqb runs the IPC servers on corosync's main loop through a table of
    poll handlers, [corosync_poll_funcs] (ipc_glue.c lines 98-103): its
    entries [cs_ipcs_job_add], [cs_ipcs_dispatch_add],
    [cs_ipcs_dispatch_mod] and [cs_ipcs_dispatch_del] (lines 686-707)
    forward every job and descriptor libqb wants to the loop that
    [cs_poll_handle_get] returns, the static [corosync_poll_handle] that
    [main] created (main.c lines 171-192).  The services use
    [cs_poll_dispatch_add] and [cs_poll_dispatch_delete] for their own
    descriptors, and [cs_ipc_refcnt_inc] and [cs_ipc_refcnt_dec] (ipc_glue.c lines
    415-423) to keep a connection alive.

    - libqb is outside src/: its loops ([qb_loop]: a FIFO of jobs and a
      table of polled descriptors), its handles and its connection
      reference counts are modelled from its interface.  A loop call on a
      handle that names no loop fails with [-EINVAL]; adding a descriptor
      the loop already polls fails with [-EEXIST] (from [epoll_ctl]);
      modifying or deleting one it does not poll fails with [-EBADF].
    - [glue_st] holds the loops by handle, main.c's [corosync_poll_handle]
      and the connections' reference counts.
    - The handler table is the record of operations [qb_ipcs_poll_handlers].

    Theorems: whatever calls libqb makes through [corosync_poll_funcs] (C36), no
    loop other than corosync's main loop changes (the spec's single
    cooperative loop); a descriptor added and deleted leaves the loop as it
    was, and a second add or a delete of an unknown descriptor fails and
    changes nothing; a reference taken and dropped leaves the counts as
    they were. *)

From Stdlib Require Import ZArith Lia.
From stdpp Require Import base list gmap fin_maps.
From S2P Require Import Prelude CoroDefs.

Open Scope Z_scope.

(** ** libqb's loops (outside src/) *)

Inductive qb_loop_priority := QB_LOOP_LOW | QB_LOOP_MED | QB_LOOP_HIGH.

#[export] Instance qb_loop_priority_eq_dec : EqDecision qb_loop_priority.
Proof. solve_decision. Defined.

Definition EBADF : Z := 9.
Definition EEXIST : Z := 17.

(** A polled descriptor: priority, events, the user data and the
    dispatch function (by its address). *)
Record poll_entry := { pe_prio : qb_loop_priority; pe_events : Z; pe_data : Z; pe_fn : Z }.

Record qb_loop := {
  ql_jobs : list (qb_loop_priority * Z * Z);   (** priority, data, function *)
  ql_polls : gmap Z poll_entry
}.

Record glue_st := {
  loops : gmap Z qb_loop;          (** libqb's loops by handle *)
  corosync_poll_handle : Z;        (** main.c's static *)
  conn_refs : gmap Z nat           (** libqb's reference count of each connection *)
}.

Definition with_loop (h : Z) (l : qb_loop) (st : glue_st) : glue_st :=
  {| loops := <[h := l]> (loops st); corosync_poll_handle := corosync_poll_handle st;
     conn_refs := conn_refs st |}.

Definition qb_loop_job_add (h : Z) (p : qb_loop_priority) (data fn : Z) (st : glue_st) : Z * glue_st :=
  match loops st !! h with
  | None => (- EINVAL, st)
  | Some l => (0, with_loop h {| ql_jobs := ql_jobs l ++ [(p, data, fn)]; ql_polls := ql_polls l |} st)
  end.

Definition qb_loop_poll_add (h : Z) (p : qb_loop_priority) (fd events data fn : Z) (st : glue_st)
    : Z * glue_st :=
  match loops st !! h with
  | None => (- EINVAL, st)
  | Some l =>
      match ql_polls l !! fd with
      | Some _ => (- EEXIST, st)
      | None => (0, with_loop h {| ql_jobs := ql_jobs l;
                                   ql_polls := <[fd := {| pe_prio := p; pe_events := events;
                                                          pe_data := data; pe_fn := fn |}]> (ql_polls l) |} st)
      end
  end.

Definition qb_loop_poll_mod (h : Z) (p : qb_loop_priority) (fd events data fn : Z) (st : glue_st)
    : Z * glue_st :=
  match loops st !! h with
  | None => (- EINVAL, st)
  | Some l =>
      match ql_polls l !! fd with
      | None => (- EBADF, st)
      | Some _ => (0, with_loop h {| ql_jobs := ql_jobs l;
                                     ql_polls := <[fd := {| pe_prio := p; pe_events := events;
                                                            pe_data := data; pe_fn := fn |}]> (ql_polls l) |} st)
      end
  end.

Definition qb_loop_poll_del (h : Z) (fd : Z) (st : glue_st) : Z * glue_st :=
  match loops st !! h with
  | None => (- EINVAL, st)
  | Some l =>
      match ql_polls l !! fd with
      | None => (- EBADF, st)
      | Some _ => (0, with_loop h {| ql_jobs := ql_jobs l; ql_polls := delete fd (ql_polls l) |} st)
      end
  end.

(** [qb_ipcs_connection_ref] and [qb_ipcs_connection_unref]: the last
    reference dropped frees the connection. *)
Definition qb_ipcs_connection_ref (c : Z) (st : glue_st) : glue_st :=
  {| loops := loops st; corosync_poll_handle := corosync_poll_handle st;
     conn_refs := <[c := S (default 0%nat (conn_refs st !! c))]> (conn_refs st) |}.

Definition qb_ipcs_connection_unref (c : Z) (st : glue_st) : glue_st :=
  {| loops := loops st; corosync_poll_handle := corosync_poll_handle st;
     conn_refs := match conn_refs st !! c with
                  | Some (S (S n)) => <[c := S n]> (conn_refs st)
                  | _ => delete c (conn_refs st)
                  end |}.

(** ** main.c: the loop handle and the services' descriptors *)

Definition cs_poll_handle_get (st : glue_st) : Z := corosync_poll_handle st.

Definition cs_poll_dispatch_add (h fd events data fn : Z) (st : glue_st) : Z * glue_st :=
  qb_loop_poll_add h QB_LOOP_MED fd events data fn st.

Definition cs_poll_dispatch_delete (h fd : Z) (st : glue_st) : Z * glue_st :=
  qb_loop_poll_del h fd st.

(** ** ipc_glue.c: the poll handlers libqb calls, and the reference counts *)

Definition cs_ipcs_job_add (p : qb_loop_priority) (data fn : Z) (st : glue_st) : Z * glue_st :=
  qb_loop_job_add (cs_poll_handle_get st) p data fn st.

Definition cs_ipcs_dispatch_add (p : qb_loop_priority) (fd events data fn : Z) (st : glue_st) : Z * glue_st :=
  qb_loop_poll_add (cs_poll_handle_get st) p fd events data fn st.

Definition cs_ipcs_dispatch_mod (p : qb_loop_priority) (fd events data fn : Z) (st : glue_st) : Z * glue_st :=
  qb_loop_poll_mod (cs_poll_handle_get st) p fd events data fn st.

Definition cs_ipcs_dispatch_del (fd : Z) (st : glue_st) : Z * glue_st :=
  qb_loop_poll_del (cs_poll_handle_get st) fd st.

Definition cs_ipc_refcnt_inc (conn : Z) (st : glue_st) : glue_st := qb_ipcs_connection_ref conn st.

Definition cs_ipc_refcnt_dec (conn : Z) (st : glue_st) : glue_st := qb_ipcs_connection_unref conn st.

(** [struct qb_ipcs_poll_handlers]: the record of operations libqb calls. *)
Record qb_ipcs_poll_handlers := {
  job_add : qb_loop_priority -> Z -> Z -> glue_st -> Z * glue_st;
  dispatch_add : qb_loop_priority -> Z -> Z -> Z -> Z -> glue_st -> Z * glue_st;
  dispatch_mod : qb_loop_priority -> Z -> Z -> Z -> Z -> glue_st -> Z * glue_st;
  dispatch_del : Z -> glue_st -> Z * glue_st
}.

Definition corosync_poll_funcs : qb_ipcs_poll_handlers :=
  {| job_add := cs_ipcs_job_add; dispatch_add := cs_ipcs_dispatch_add;
     dispatch_mod := cs_ipcs_dispatch_mod; dispatch_del := cs_ipcs_dispatch_del |}.

(** A call libqb makes through a handler table. *)
Inductive poll_call :=
| CallJobAdd (p : qb_loop_priority) (data fn : Z)
| CallDispatchAdd (p : qb_loop_priority) (fd events data fn : Z)
| CallDispatchMod (p : qb_loop_priority) (fd events data fn : Z)
| CallDispatchDel (fd : Z).

Definition poll_call_run (ops : qb_ipcs_poll_handlers) (c : poll_call) (st : glue_st) : Z * glue_st :=
  match c with
  | CallJobAdd p data fn => job_add ops p data fn st
  | CallDispatchAdd p fd ev data fn => dispatch_add ops p fd ev data fn st
  | CallDispatchMod p fd ev data fn => dispatch_mod ops p fd ev data fn st
  | CallDispatchDel fd => dispatch_del ops fd st
  end.

Fixpoint poll_calls_run (ops : qb_ipcs_poll_handlers) (cs : list poll_call) (st : glue_st) : glue_st :=
  match cs with
  | [] => st
  | c :: cs' => poll_calls_run ops cs' (snd (poll_call_run ops c st))
  end.

(** The laws a handler table keeps: it acts on one loop only, and keeps
    the loop handle and the reference counts. *)
Definition acts_on_main_loop (ops : qb_ipcs_poll_handlers) : Prop :=
  forall c st, let st' := snd (poll_call_run ops c st) in
    corosync_poll_handle st' = corosync_poll_handle st /\ conn_refs st' = conn_refs st /\
    forall h, h <> corosync_poll_handle st -> loops st' !! h = loops st !! h.

(** [st'] differs from [st] at most in the loop [h]. *)
Definition only_loop (h : Z) (st st' : glue_st) : Prop :=
  corosync_poll_handle st' = corosync_poll_handle st /\ conn_refs st' = conn_refs st /\
  forall h', h' <> h -> loops st' !! h' = loops st !! h'.

(** A machine with corosync's loop at handle [1] and another loop at [2]. *)
Definition empty_loop : qb_loop := {| ql_jobs := []; ql_polls := ∅ |}.

Definition glue_demo : glue_st :=
  {| loops := {[1 := empty_loop; 2 := empty_loop]}; corosync_poll_handle := 1; conn_refs := {[7 := 1%nat]} |}.

(** ** Lemmas *)

Lemma only_loop_refl h st : only_loop h st st.
Proof. by split_and!. Qed.

Lemma only_loop_with h l st : only_loop h st (with_loop h l st).
Proof. split_and!; [done | done |]. intros h' Hne. cbn. by rewrite lookup_insert_ne by congruence. Qed.

Create HintDb cs_glue.
#[export] Hint Resolve only_loop_refl only_loop_with : cs_glue.

Ltac glue_case :=
  repeat match goal with
         | |- only_loop _ _ (snd (match ?x with _ => _ end)) => destruct x
         | |- only_loop _ _ (snd (_, _)) => cbn [snd]
         end; eauto with cs_glue.

Lemma job_add_only h p d f st : only_loop h st (snd (qb_loop_job_add h p d f st)).
Proof. unfold qb_loop_job_add. glue_case. Qed.
Lemma poll_add_only h p fd e d f st : only_loop h st (snd (qb_loop_poll_add h p fd e d f st)).
Proof. unfold qb_loop_poll_add. glue_case. Qed.
Lemma poll_mod_only h p fd e d f st : only_loop h st (snd (qb_loop_poll_mod h p fd e d f st)).
Proof. unfold qb_loop_poll_mod. glue_case. Qed.
Lemma poll_del_only h fd st : only_loop h st (snd (qb_loop_poll_del h fd st)).
Proof. unfold qb_loop_poll_del. glue_case. Qed.

Lemma loop_eta (l : qb_loop) : {| ql_jobs := ql_jobs l; ql_polls := ql_polls l |} = l.
Proof. by destruct l. Qed.

Lemma glue_eta (st : glue_st) :
  {| loops := loops st; corosync_poll_handle := corosync_poll_handle st; conn_refs := conn_refs st |} = st.
Proof. by destruct st. Qed.

(** ** Theorems *)

(** Every entry of [corosync_poll_funcs] acts on corosync's main loop
    only: it keeps the loop handle, the reference counts and every other
    loop. *)
Theorem corosync_poll_funcs_main_loop : acts_on_main_loop corosync_poll_funcs.
Proof.
  intros c st. destruct c; cbn [poll_call_run corosync_poll_funcs job_add dispatch_add dispatch_mod dispatch_del];
    unfold cs_ipcs_job_add, cs_ipcs_dispatch_add, cs_ipcs_dispatch_mod, cs_ipcs_dispatch_del, cs_poll_handle_get;
    [apply job_add_only | apply poll_add_only | apply poll_mod_only | apply poll_del_only].
Qed.

(** A sequence of calls through a handler table that acts on the main
    loop changes no other loop. *)
Lemma poll_calls_keep_other_loops ops cs : acts_on_main_loop ops ->
  forall st h, h <> corosync_poll_handle st ->
  loops (poll_calls_run ops cs st) !! h = loops st !! h /\
  corosync_poll_handle (poll_calls_run ops cs st) = corosync_poll_handle st.
Proof.
  intros Hops. induction cs as [| c cs IH]; intros st h Hh; [done |]. cbn [poll_calls_run].
  destruct (Hops c st) as (Hp & _ & Hl). rewrite <- Hp in Hh.
  destruct (IH _ h Hh) as [IHl IHp]. rewrite IHl, IHp, Hp. split; [| done]. apply Hl. congruence.
Qed.

(** C36. The IPC layer lives on one cooperative loop.  Whatever calls
    libqb makes through [corosync_poll_funcs] (jobs added, descriptors
    added, modified or deleted, in any order), no loop other than the one
    [cs_poll_handle_get] returns changes, and main.c's
    [corosync_poll_handle] stays as it was. *)
Theorem corosync_poll_funcs_single_loop cs st h :
  h <> cs_poll_handle_get st ->
  loops (poll_calls_run corosync_poll_funcs cs st) !! h = loops st !! h /\
  cs_poll_handle_get (poll_calls_run corosync_poll_funcs cs st) = cs_poll_handle_get st.
Proof. exact (poll_calls_keep_other_loops _ cs corosync_poll_funcs_main_loop st h). Qed.

(** A descriptor registered through [cs_ipcs_dispatch_add] on a loop that
    does not poll it yet, then removed through [cs_ipcs_dispatch_del],
    leaves everything as it was; a second add of a polled descriptor fails
    with [-EEXIST], a delete of an unknown one with [-EBADF], and neither
    changes anything. *)
Theorem dispatch_add_del_roundtrip p fd ev d f st l :
  loops st !! cs_poll_handle_get st = Some l -> ql_polls l !! fd = None ->
  let '(r1, st1) := cs_ipcs_dispatch_add p fd ev d f st in
  r1 = 0 /\ cs_ipcs_dispatch_add p fd ev d f st1 = (- EEXIST, st1) /\
  cs_ipcs_dispatch_del fd st1 = (0, st) /\ cs_ipcs_dispatch_del fd st = (- EBADF, st).
Proof.
  intros Hl Hfd. unfold cs_ipcs_dispatch_add, cs_ipcs_dispatch_del, qb_loop_poll_add, qb_loop_poll_del.
  unfold cs_poll_handle_get in *. rewrite Hl, Hfd. cbn. rewrite lookup_insert_eq. cbn.
  rewrite lookup_insert_eq. split_and!; [done | done | | done].
  unfold with_loop. cbn [loops corosync_poll_handle conn_refs].
  rewrite insert_insert_eq, delete_insert_eq, delete_id by exact Hfd. rewrite loop_eta, insert_id by exact Hl.
  by rewrite glue_eta.
Qed.

(** A reference taken with [cs_ipc_refcnt_inc] and dropped with
    [cs_ipc_refcnt_dec] leaves the counts as they were. *)
Theorem refcnt_inc_dec c st :
  conn_refs st !! c <> Some 0%nat -> cs_ipc_refcnt_dec c (cs_ipc_refcnt_inc c st) = st.
Proof.
  intros H0. unfold cs_ipc_refcnt_dec, cs_ipc_refcnt_inc, qb_ipcs_connection_unref, qb_ipcs_connection_ref.
  cbn. rewrite lookup_insert_eq. destruct (conn_refs st !! c) as [[| n] |] eqn:E; cbn; [done | |].
  - rewrite insert_insert_eq, insert_id by exact E. apply glue_eta.
  - rewrite delete_insert_eq, delete_id by exact E. apply glue_eta.
Qed.

(** ** Examples *)

Lemma corosync_poll_funcs_single_loop_witness :
  loops (poll_calls_run corosync_poll_funcs
           [CallDispatchAdd QB_LOOP_MED 5 1 0 100; CallJobAdd QB_LOOP_HIGH 0 200; CallDispatchDel 5] glue_demo)
    !! 2 = Some empty_loop.
Proof.
  apply (corosync_poll_funcs_single_loop _ glue_demo 2 ltac:(discriminate)).
Defined.

Lemma dispatch_add_del_roundtrip_witness :
  cs_ipcs_dispatch_del 5 (snd (cs_ipcs_dispatch_add QB_LOOP_MED 5 1 0 100 glue_demo)) = (0, glue_demo).
Proof.
  pose proof (dispatch_add_del_roundtrip QB_LOOP_MED 5 1 0 100 glue_demo empty_loop eq_refl eq_refl) as H.
  destruct (cs_ipcs_dispatch_add QB_LOOP_MED 5 1 0 100 glue_demo) as [r1 st1]. cbn [snd]. apply H.
Defined.

Lemma refcnt_inc_dec_witness : cs_ipc_refcnt_dec 7 (cs_ipc_refcnt_inc 7 glue_demo) = glue_demo.
Proof. apply refcnt_inc_dec. discriminate. Defined.
